(** * A shallow embedding of the order-book matching engine

    The development follows the C++ sources file by file:
    [types.h], [tick_table.h], [object_pool.h], [order_book.h] (price levels),
    [stop_manager.h], [risk_manager.h] and [order_book.cpp].

    Conventions.
    - [int64_t] values ([Price], [Quantity]) are integers in [Z]; every [+],
      [-] and [*] of the source is followed by [wrap64], the two's complement
      wrap-around, and [/] is the truncating [Z.quot].  [uint64_t] and [size_t]
      counters wrap with [wrapu64].
    - An [Order *] that the book stores is the index of its slot in the [pool_]
      vector of the order arena; the arena never frees a slot, so the slot
      vector is the heap the book's pointers point into.  A pointer that may be
      null or foreign (the argument of [release]) is an [option nat].
    - [std::map] is a key-sorted association list, [std::unordered_map] and
      [std::unordered_set] are [gmap] and [gset], [std::deque] and
      [std::vector] are lists with the front at the head.
    - [while] loops take fuel; [None] means the fuel ran out. *)

From Stdlib Require Import ZArith Lia List Bool QArith Sorted.
From stdpp Require Import base option list gmap.

Local Open Scope Z_scope.

(** ** Machine integers *)

Definition INT64_MAX : Z := 9223372036854775807.
Definition INT64_MIN : Z := -9223372036854775808.

Definition wrap64 (z : Z) : Z := (z + 2 ^ 63) mod 2 ^ 64 - 2 ^ 63.
Definition wrapu64 (z : Z) : Z := z mod 2 ^ 64.

Definition add64 (a b : Z) : Z := wrap64 (a + b).
Definition sub64 (a b : Z) : Z := wrap64 (a - b).
Definition mul64 (a b : Z) : Z := wrap64 (a * b).
Definition div64 (a b : Z) : Z := wrap64 (Z.quot a b).
Definition abs64 (a : Z) : Z := wrap64 (Z.abs a).

(** ** types.h *)

Inductive Side := BUY | SELL.
Inductive OrderType := GTC | IOC | FOK | MARKET | STOP_LOSS | ICEBERG.

#[global] Instance Side_eq_dec : EqDecision Side.
Proof. solve_decision. Defined.
#[global] Instance OrderType_eq_dec : EqDecision OrderType.
Proof. solve_decision. Defined.

Module Order.
Record t := mk {
  id : Z;
  side : Side;
  price : Z;
  stop_price : Z;
  quantity : Z;
  remaining : Z;
  display : Z;
  display_size : Z;
  type : OrderType;
  timestamp : Z;
  ownerID : Z;
  is_triggered : bool;
  parent_id : Z;
  is_market_maker : bool;
  session_id : Z
}.

(** [Order()]: the member initialiser list names neither [is_market_maker]
    nor [session_id]; their indeterminate values are the two arguments. *)
Definition default_ctor (mm : bool) (sid : Z) : t :=
  mk 0 BUY 0 0 0 0 0 0 GTC 0 0 false 0 mm sid.

(** [Order(id, side, price, stop_price, qty, disp, display_size, type,
    ownerID, sessionID)]: [remaining] starts at [qty]; [is_market_maker] is
    again left indeterminate ([mm]); [now] is the clock reading. *)
Definition ctor (id_ : Z) (side_ : Side) (price_ stop_price_ qty disp
    display_size_ : Z) (type_ : OrderType) (ownerID_ sessionID : Z)
    (mm : bool) (now : Z) : t :=
  mk id_ side_ price_ stop_price_ qty qty disp display_size_ type_ now
     ownerID_ false 0 mm sessionID.

Definition set_price (v : Z) (o : t) : t :=
  mk (id o) (side o) v (stop_price o) (quantity o) (remaining o) (display o)
     (display_size o) (type o) (timestamp o) (ownerID o) (is_triggered o)
     (parent_id o) (is_market_maker o) (session_id o).
Definition set_stop_price (v : Z) (o : t) : t :=
  mk (id o) (side o) (price o) v (quantity o) (remaining o) (display o)
     (display_size o) (type o) (timestamp o) (ownerID o) (is_triggered o)
     (parent_id o) (is_market_maker o) (session_id o).
Definition set_remaining (v : Z) (o : t) : t :=
  mk (id o) (side o) (price o) (stop_price o) (quantity o) v (display o)
     (display_size o) (type o) (timestamp o) (ownerID o) (is_triggered o)
     (parent_id o) (is_market_maker o) (session_id o).
Definition set_display (v : Z) (o : t) : t :=
  mk (id o) (side o) (price o) (stop_price o) (quantity o) (remaining o) v
     (display_size o) (type o) (timestamp o) (ownerID o) (is_triggered o)
     (parent_id o) (is_market_maker o) (session_id o).
Definition set_type (v : OrderType) (o : t) : t :=
  mk (id o) (side o) (price o) (stop_price o) (quantity o) (remaining o)
     (display o) (display_size o) v (timestamp o) (ownerID o)
     (is_triggered o) (parent_id o) (is_market_maker o) (session_id o).
Definition set_is_triggered (v : bool) (o : t) : t :=
  mk (id o) (side o) (price o) (stop_price o) (quantity o) (remaining o)
     (display o) (display_size o) (type o) (timestamp o) (ownerID o) v
     (parent_id o) (is_market_maker o) (session_id o).
End Order.

Module Trade.
Record t := mk {
  buy_id : Z;
  sell_id : Z;
  price : Z;
  quantity : Z;
  timestamp : Z
}.
Definition default_ctor : t := mk 0 0 0 0 0.
End Trade.

(** ** tick_table.h *)

Module TickSizeTable.
Record TickRule := mkRule {
  min_price : Z;
  max_price : Z;
  tick_size : Z
}.

(** The member [rules_]. *)
Definition t := list TickRule.

(** [std::sort] by [min_price]; rules that pass the overlap test have
    distinct [min_price], so the sorted order is unique. *)
Fixpoint insert_rule (r : TickRule) (rs : list TickRule) : list TickRule :=
  match rs with
  | [] => [r]
  | r' :: rs' =>
      if min_price r <? min_price r' then r :: rs
      else r' :: insert_rule r rs'
  end.

Definition sort_rules (rs : list TickRule) : list TickRule :=
  foldr insert_rule [] rs.

Definition overlaps (min_p max_p : Z) (rule : TickRule) : bool :=
  negb ((max_p <? min_price rule) || (min_p >? max_price rule)).

(** [None] stands for the [std::invalid_argument] the source throws. *)
Definition add_rule (min_p max_p tick : Z) (rules : t) : option t :=
  if (min_p >? max_p) || (tick <=? 0) || (min_p <? 0) then None
  else if existsb (overlaps min_p max_p) rules then None
  else Some (sort_rules (rules ++ [mkRule min_p max_p tick])).

(** [TickSizeTable()]: eight calls of [add_rule], the first exception
    aborting the constructor. *)
Definition ctor : option t :=
  r1 ← add_rule 1 99 1 [];
  r2 ← add_rule 100 999 1 r1;
  r3 ← add_rule 1000 4999 1 r2;
  r4 ← add_rule 5000 9999 1 r3;
  r5 ← add_rule 10000 99999 1 r4;
  r6 ← add_rule 100000 499999 5 r5;
  r7 ← add_rule 500000 999999 10 r6;
  add_rule 1000000 INT64_MAX 100 r7.

Definition default_table : t := default [] ctor.

Definition in_rule (p : Z) (rule : TickRule) : bool :=
  (min_price rule <=? p) && (max_price rule >=? p).

Definition round_to_tick (rules : t) (p : Z) : Z :=
  if p <=? 0 then 0
  else match find (in_rule p) rules with
       | Some rule =>
           let half_tick := div64 (tick_size rule) 2 in
           mul64 (div64 (add64 p half_tick) (tick_size rule)) (tick_size rule)
       | None => 0
       end.

Definition is_valid_price (rules : t) (p : Z) : bool :=
  p =? round_to_tick rules p.

Definition get_tick_size (rules : t) (p : Z) : Z :=
  if p <=? 0 then 0
  else match find (in_rule p) rules with
       | Some rule => tick_size rule
       | None => 0
       end.

Definition get_next_tick_up (rules : t) (p : Z) : Z :=
  let tick := get_tick_size rules p in
  if tick =? 0 then 0
  else let rounded_price := round_to_tick rules p in
       if rounded_price =? 0 then 0
       else round_to_tick rules (add64 rounded_price tick).

Definition get_next_tick_down (rules : t) (p : Z) : Z :=
  let tick := get_tick_size rules p in
  if tick =? 0 then 0
  else let rounded_price := round_to_tick rules p in
       if rounded_price =? 0 then 0
       else let next_price := sub64 rounded_price tick in
            if next_price >? 0 then round_to_tick rules next_price else 0.
End TickSizeTable.

(** ** object_pool.h *)

(** What [ObjectPool<T>] needs of [T]: the value [std::make_unique<T>()]
    builds, and what [release] does to a slot ([if constexpr] on [T]). *)
Class PoolItem (T : Type) := {
  make_unique : T;
  reset_item : T -> T
}.

Module ObjectPool.
(** [reset_order] assigns twelve of the fifteen members: [side], [type] and
    [is_market_maker] are not touched. *)
Definition reset_order (order : Order.t) : Order.t :=
  Order.mk 0 (Order.side order) 0 0 0 0 0 0 (Order.type order) 0 0 false 0
           (Order.is_market_maker order) 0.

Definition reset_trade (trade : Trade.t) : Trade.t :=
  Trade.mk 0 0 0 0 0.

Record t (T : Type) := mk {
  pool_ : list T;
  available_ : list nat;
  pool_size_ : Z;
  allocated_count_ : Z;
  valid_objects_ : gset nat
}.
Arguments mk {T}.
Arguments pool_ {T}.
Arguments available_ {T}.
Arguments pool_size_ {T}.
Arguments allocated_count_ {T}.
Arguments valid_objects_ {T}.

Section Pool.
Context {T : Type} `{PoolItem T}.

(** One round of the constructor's loop: build an object, push its
    address on [available_], record it in [valid_objects_]. *)
Definition add_slot (p : t T) : t T :=
  let ptr := length (pool_ p) in
  mk (pool_ p ++ [make_unique]) (ptr :: available_ p) (pool_size_ p)
     (allocated_count_ p) ({[ ptr ]} ∪ valid_objects_ p).

Fixpoint add_slots (n : nat) (p : t T) : t T :=
  match n with
  | O => p
  | S k => add_slots k (add_slot p)
  end.

Definition ctor (initial_size : nat) : t T :=
  add_slots initial_size (mk [] [] (Z.of_nat initial_size) 0 ∅).

Definition acquire (p : t T) : option nat * t T :=
  match available_ p with
  | [] =>
      let ptr := length (pool_ p) in
      (Some ptr,
       mk (pool_ p ++ [make_unique]) [] (pool_size_ p)
          (wrapu64 (allocated_count_ p + 1))
          ({[ ptr ]} ∪ valid_objects_ p))
  | ptr :: rest =>
      (Some ptr,
       mk (pool_ p) rest (pool_size_ p)
          (wrapu64 (allocated_count_ p + 1)) (valid_objects_ p))
  end.

Definition release (obj : option nat) (p : t T) : t T :=
  match obj with
  | None => p
  | Some ptr =>
      if bool_decide (ptr ∈ valid_objects_ p) then
        mk (alter reset_item ptr (pool_ p)) (ptr :: available_ p)
           (pool_size_ p) (wrapu64 (allocated_count_ p - 1))
           (valid_objects_ p)
      else p
  end.

Definition available_count (p : t T) : Z := Z.of_nat (length (available_ p)).
Definition allocated_count (p : t T) : Z := allocated_count_ p.
Definition total_capacity (p : t T) : Z := Z.of_nat (length (pool_ p)).

(** [pool_size_ += additional_size], then one round of the loop for every
    [i] from the old [pool_size_] up to the new one: none when the sum
    wrapped around. *)
Definition expand_pool (additional_size : nat) (p : t T) : t T :=
  let prev_size := pool_size_ p in
  let pool_size1 := wrapu64 (prev_size + Z.of_nat additional_size) in
  let q := add_slots (Z.to_nat (pool_size1 - prev_size)) p in
  mk (pool_ q) (available_ q) pool_size1 (allocated_count_ q)
     (valid_objects_ q).
End Pool.
End ObjectPool.

(** A fresh [Order] slot: the two members [Order()] leaves unset read as a
    zero-filled allocation would. *)
#[global] Instance Order_PoolItem : PoolItem Order.t := {
  make_unique := Order.default_ctor false 0;
  reset_item := ObjectPool.reset_order
}.

#[global] Instance Trade_PoolItem : PoolItem Trade.t := {
  make_unique := Trade.default_ctor;
  reset_item := ObjectPool.reset_trade
}.

(** Reading through an [Order *]: the slot of the arena's vector. *)
Definition deref (heap : list Order.t) (p : nat) : Order.t :=
  default (Order.default_ctor false 0) (heap !! p).

(** ** std::map as a key-sorted association list *)

Module OMap.
Section OMap.
Context {V : Type}.

Fixpoint find (k : Z) (m : list (Z * V)) : option V :=
  match m with
  | [] => None
  | (k', v) :: m' => if k =? k' then Some v else find k m'
  end.

(** [m[k]]: the entry is created with value [d] when [k] is absent;
    [before] is the map's comparator. *)
Fixpoint index (before : Z -> Z -> bool) (k : Z) (d : V)
    (m : list (Z * V)) : list (Z * V) :=
  match m with
  | [] => [(k, d)]
  | (k', v) :: m' =>
      if before k k' then (k, d) :: m
      else if k =? k' then m
      else (k', v) :: index before k d m'
  end.

(** Assignment through a reference to the value stored at [k]. *)
Fixpoint update (k : Z) (v : V) (m : list (Z * V)) : list (Z * V) :=
  match m with
  | [] => []
  | (k', v') :: m' =>
      if k =? k' then (k', v) :: m' else (k', v') :: update k v m'
  end.

Fixpoint erase (k : Z) (m : list (Z * V)) : list (Z * V) :=
  match m with
  | [] => []
  | (k', v') :: m' =>
      if k =? k' then m' else (k', v') :: erase k m'
  end.

(** Positions of the iterators [upper_bound(k)] and [lower_bound(k)] of a
    [std::less] map: the first key greater than [k], resp. not less. *)
Fixpoint upper_bound (k : Z) (m : list (Z * V)) : nat :=
  match m with
  | [] => O
  | (k', _) :: m' => if k <? k' then O else S (upper_bound k m')
  end.

Fixpoint lower_bound (k : Z) (m : list (Z * V)) : nat :=
  match m with
  | [] => O
  | (k', _) :: m' => if k <=? k' then O else S (lower_bound k m')
  end.
End OMap.
End OMap.

(** [find] followed by [erase(it)] on a deque or vector of pointers. *)
Fixpoint remove_first (x : nat) (l : list nat) : list nat :=
  match l with
  | [] => []
  | y :: l' => if Nat.eqb x y then l' else y :: remove_first x l'
  end.

(** ** order_book.h: PriceLevel *)

Module PriceLevel.
Record t := mk {
  mm_orders : list nat;
  regular_orders : list nat
}.

Definition ctor : t := mk [] [].

(** [regular_orders.front()] of an empty deque has no value: [None]. *)
Definition front (l : t) : option nat :=
  match mm_orders l with
  | p :: _ => Some p
  | [] => head (regular_orders l)
  end.

Definition pop_front (l : t) : t :=
  match mm_orders l with
  | _ :: rest => mk rest (regular_orders l)
  | [] => mk [] (tail (regular_orders l))
  end.

Definition add_order (heap : list Order.t) (order : nat) (l : t) : t :=
  if Order.is_market_maker (deref heap order)
  then mk (mm_orders l ++ [order]) (regular_orders l)
  else mk (mm_orders l) (regular_orders l ++ [order]).

Definition empty (l : t) : bool :=
  match mm_orders l, regular_orders l with
  | [], [] => true
  | _, _ => false
  end.

Definition erase (order : nat) (l : t) : t :=
  if existsb (Nat.eqb order) (mm_orders l)
  then mk (remove_first order (mm_orders l)) (regular_orders l)
  else mk (mm_orders l) (remove_first order (regular_orders l)).
End PriceLevel.

(** ** stop_manager.h *)

Module StopOrderManager.
Record t := mk {
  buy_stops_ : list (Z * list nat);
  sell_stops_ : list (Z * list nat);
  stop_lookup_ : gmap Z nat
}.

Definition ctor : t := mk [] [] ∅.

(** [stops[k].push_back(order)]. *)
Definition push_stop (k : Z) (order : nat) (stops : list (Z * list nat))
    : list (Z * list nat) :=
  let stops1 := OMap.index Z.ltb k [] stops in
  OMap.update k (default [] (OMap.find k stops1) ++ [order]) stops1.

Definition add_stop_order (heap : list Order.t) (order : nat) (sm : t) : t :=
  let o := deref heap order in
  match Order.type o with
  | STOP_LOSS =>
      match Order.side o with
      | BUY => mk (push_stop (Order.stop_price o) order (buy_stops_ sm))
                  (sell_stops_ sm)
                  (<[Order.id o := order]> (stop_lookup_ sm))
      | SELL => mk (buy_stops_ sm)
                   (push_stop (Order.stop_price o) order (sell_stops_ sm))
                   (<[Order.id o := order]> (stop_lookup_ sm))
      end
  | _ => sm
  end.

(** The bucket is reached with [operator[]], its first occurrence of
    [order] erased, and the bucket erased from the map when empty. *)
Definition drop_stop (k : Z) (order : nat) (stops : list (Z * list nat))
    : list (Z * list nat) :=
  let stops1 := OMap.index Z.ltb k [] stops in
  let bucket := remove_first order (default [] (OMap.find k stops1)) in
  match bucket with
  | [] => OMap.erase k (OMap.update k bucket stops1)
  | _ => OMap.update k bucket stops1
  end.

Definition remove_stop_order (heap : list Order.t) (order_id : Z) (sm : t)
    : bool * t :=
  match stop_lookup_ sm !! order_id with
  | None => (false, sm)
  | Some order =>
      let o := deref heap order in
      match Order.side o with
      | BUY => (true, mk (drop_stop (Order.stop_price o) order (buy_stops_ sm))
                         (sell_stops_ sm) (delete order_id (stop_lookup_ sm)))
      | SELL => (true, mk (buy_stops_ sm)
                          (drop_stop (Order.stop_price o) order (sell_stops_ sm))
                          (delete order_id (stop_lookup_ sm)))
      end
  end.

(** The two nested [for] loops over a range of buckets: every order is
    appended to [triggered_orders] and its id erased from [stop_lookup_]. *)
Definition fire (heap : list Order.t) (buckets : list (Z * list nat))
    (acc : list nat * gmap Z nat) : list nat * gmap Z nat :=
  foldl (fun a bucket =>
           foldl (fun a' order =>
                    (a'.1 ++ [order], delete (Order.id (deref heap order)) a'.2))
                 a bucket.2)
        acc buckets.

Definition check_triggered_stops (heap : list Order.t) (last_trade_price : Z)
    (sm : t) : list nat * t :=
  let buy_end := OMap.upper_bound last_trade_price (buy_stops_ sm) in
  let a1 := fire heap (take buy_end (buy_stops_ sm)) ([], stop_lookup_ sm) in
  let buy' := drop buy_end (buy_stops_ sm) in
  let sell_start := OMap.lower_bound last_trade_price (sell_stops_ sm) in
  let a2 := fire heap (drop sell_start (sell_stops_ sm)) a1 in
  let sell' := take sell_start (sell_stops_ sm) in
  (a2.1, mk buy' sell' a2.2).

Definition pending_stop_count (sm : t) : Z :=
  Z.of_nat (size (stop_lookup_ sm)).
End StopOrderManager.

(** ** What the embedding leaves to the platform

    [double] arithmetic and the wall clock are not modelled: the type of
    [max_price_deviation], the two floating-point tests of [risk_manager.h]
    and the successive readings of [high_resolution_clock::now()] are
    parameters. *)
Class Env := {
  double : Type;
  (** [a / double(b) > d], where [a] is [abs(order.price - last_trade_price_)] *)
  deviation_gt : Z -> Z -> double -> bool;
  (** [d <= 0 || d > 1.0] *)
  deviation_invalid : double -> bool;
  (** the [k]-th reading of the clock, in nanoseconds *)
  now : nat -> Z
}.

(** ** risk_manager.h *)

Module CircuitBreaker.
(** [trigger_time_] is written and never read; it is left out. *)
Record t := mk {
  upper_limit_ : Z;
  lower_limit_ : Z;
  is_triggered_ : bool
}.

Definition ctor : t := mk 0 0 false.

Definition should_halt_trading (price : Z) (cb : t) : bool * t :=
  if (price >=? upper_limit_ cb) || (price <=? lower_limit_ cb) then
    if is_triggered_ cb then (false, cb)
    else (true, mk (upper_limit_ cb) (lower_limit_ cb) true)
  else (false, cb).

Definition is_trading_halted (cb : t) : bool := is_triggered_ cb.

Definition resume_trading (cb : t) : t :=
  mk (upper_limit_ cb) (lower_limit_ cb) false.
End CircuitBreaker.

Module RiskManager.
Record RiskLimits `{Env} := mkLimits {
  max_position : Z;
  max_order_value : Z;
  max_order_qty : Z;
  daily_loss_limit : Z;
  max_price_deviation : double;
  max_orders_per_sec : Z;
  max_daily_volume : Z
}.
Arguments mkLimits {_}.

Record Position := mkPosition {
  quantity : Z;
  unrealized_pnl : Z;
  realized_pnl : Z;
  avg_price : Z;
  daily_volume : Z
}.

Inductive RiskResult :=
  | APPROVED
  | REJECTED_POSITION_LIMIT
  | REJECTED_ORDER_SIZE
  | REJECTED_FAT_FINGER
  | REJECTED_LOSS_LIMIT
  | REJECTED_RATE_LIMIT
  | REJECTED_CIRCUIT_BREAKER
  | REJECTED_VOLUME_LIMIT
  | REJECTED_INVALID_TICK_SIZE.

Record RateLimit := mkRate {
  timestamps : list Z;
  count_this_second : Z
}.

(** The pointer [tick_table_] is set and never used; it is left out. *)
Record t `{Env} := mk {
  positions_ : gmap Z Position;
  trader_limits_ : gmap Z RiskLimits;
  rate_limits_ : gmap Z RateLimit;
  last_trade_price_ : Z;
  circuit_breaker_ : CircuitBreaker.t
}.
Arguments mk {_}.

Section RiskManager.
Context `{Env}.

Definition ctor : t := mk ∅ ∅ ∅ 0 CircuitBreaker.ctor.

(** [positions_[trader_id]]: a missing entry is created zeroed. *)
Definition position_of (trader_id : Z) (rm : t) : Position :=
  default (mkPosition 0 0 0 0 0) (positions_ rm !! trader_id).

Definition touch_position (trader_id : Z) (rm : t) : t :=
  mk (<[trader_id := position_of trader_id rm]> (positions_ rm))
     (trader_limits_ rm) (rate_limits_ rm) (last_trade_price_ rm)
     (circuit_breaker_ rm).

(** The eviction loop of the one-second window. *)
Fixpoint evict (now_ : Z) (ts : list Z) : list Z :=
  match ts with
  | [] => []
  | front :: rest =>
      if sub64 now_ front >? 1000000000 then evict now_ rest else ts
  end.

(** Returns the answer, the manager and the number of clock readings
    taken so far. *)
Definition is_rate_limited (trader_id : Z) (ticks : nat) (rm : t)
    : bool * t * nat :=
  match trader_limits_ rm !! trader_id with
  | None => (true, rm, ticks)
  | Some limit =>
      let rate_limit :=
        default (mkRate [] 0) (rate_limits_ rm !! trader_id) in
      let now_ := now ticks in
      let ts := evict now_ (timestamps rate_limit) in
      if Z.of_nat (length ts) >=? max_orders_per_sec limit then
        (true,
         mk (positions_ rm) (trader_limits_ rm)
            (<[trader_id := mkRate ts (count_this_second rate_limit)]>
               (rate_limits_ rm))
            (last_trade_price_ rm) (circuit_breaker_ rm),
         S ticks)
      else
        (false,
         mk (positions_ rm) (trader_limits_ rm)
            (<[trader_id := mkRate (ts ++ [now_])
                              (count_this_second rate_limit)]>
               (rate_limits_ rm))
            (last_trade_price_ rm) (circuit_breaker_ rm),
         S ticks)
  end.

Definition check_order (order : Order.t) (ticks : nat) (rm : t)
    : RiskResult * t * nat :=
  match Order.type order with
  | STOP_LOSS => (APPROVED, rm, ticks)
  | _ =>
      let pos := position_of (Order.ownerID order) rm in
      let rm1 := touch_position (Order.ownerID order) rm in
      match trader_limits_ rm1 !! Order.ownerID order with
      | None => (REJECTED_POSITION_LIMIT, rm1, ticks)
      | Some limit =>
          let newpos :=
            match Order.side order with
            | BUY => add64 (quantity pos) (Order.quantity order)
            | SELL => sub64 (quantity pos) (Order.quantity order)
            end in
          if abs64 newpos >? max_position limit then
            (REJECTED_POSITION_LIMIT, rm1, ticks)
          else if Order.quantity order >? max_order_qty limit then
            (REJECTED_ORDER_SIZE, rm1, ticks)
          else if mul64 (Order.price order) (Order.quantity order)
                    >? max_order_value limit then
            (REJECTED_ORDER_SIZE, rm1, ticks)
          else if (last_trade_price_ rm1 >? 0) && (Order.price order >? 0)
                  && deviation_gt
                       (abs64 (sub64 (Order.price order)
                                     (last_trade_price_ rm1)))
                       (last_trade_price_ rm1) (max_price_deviation limit)
          then (REJECTED_FAT_FINGER, rm1, ticks)
          else if add64 (realized_pnl pos) (unrealized_pnl pos)
                    <? wrap64 (- daily_loss_limit limit) then
            (REJECTED_LOSS_LIMIT, rm1, ticks)
          else
            let '(limited, rm2, ticks2) :=
              is_rate_limited (Order.ownerID order) ticks rm1 in
            if limited then (REJECTED_RATE_LIMIT, rm2, ticks2)
            else
              let '(halt, cb) :=
                CircuitBreaker.should_halt_trading (Order.price order)
                  (circuit_breaker_ rm2) in
              let rm3 := mk (positions_ rm2) (trader_limits_ rm2)
                            (rate_limits_ rm2) (last_trade_price_ rm2) cb in
              if halt then (REJECTED_CIRCUIT_BREAKER, rm3, ticks2)
              else (APPROVED, rm3, ticks2)
      end
  end.

(** The position after a fill on the buy side, then on the sell side. *)
Definition buy_fill (pos : Position) (trade : Trade.t) : Position :=
  let q := quantity pos in
  let tq := Trade.quantity trade in
  let tp := Trade.price trade in
  let '(avg, realized) :=
    if q =? 0 then (tp, realized_pnl pos)
    else if q >? 0 then
      (div64 (add64 (mul64 q (avg_price pos)) (mul64 tp tq)) (add64 q tq),
       realized_pnl pos)
    else
      let shares_to_cover := Z.min (wrap64 (- q)) tq in
      (if tq >? wrap64 (- q) then tp else avg_price pos,
       add64 (realized_pnl pos)
             (mul64 (sub64 (avg_price pos) tp) shares_to_cover)) in
  mkPosition (add64 q tq) (unrealized_pnl pos) realized avg
             (daily_volume pos).

Definition sell_fill (pos : Position) (trade : Trade.t) : Position :=
  let q := quantity pos in
  let tq := Trade.quantity trade in
  let tp := Trade.price trade in
  let '(avg, realized) :=
    if q =? 0 then (tp, realized_pnl pos)
    else if q <? 0 then
      (div64 (add64 (mul64 (wrap64 (- q)) (avg_price pos)) (mul64 tq tp))
             (add64 (wrap64 (- q)) tq),
       realized_pnl pos)
    else
      let shares_to_cover := Z.min q tq in
      (if tq >? q then tp else avg_price pos,
       add64 (realized_pnl pos)
             (mul64 (sub64 tp (avg_price pos)) shares_to_cover)) in
  mkPosition (sub64 q tq) (unrealized_pnl pos) realized avg
             (daily_volume pos).

Definition update_position (trader_id : Z) (trade : Trade.t)
    (trader_side : Side) (rm : t) : t :=
  let pos := position_of trader_id rm in
  let pos1 :=
    match trader_side with
    | BUY => buy_fill pos trade
    | SELL => sell_fill pos trade
    end in
  let pos2 :=
    mkPosition (quantity pos1) (unrealized_pnl pos1) (realized_pnl pos1)
               (avg_price pos1)
               (add64 (daily_volume pos1) (Trade.quantity trade)) in
  mk (<[trader_id := pos2]> (positions_ rm)) (trader_limits_ rm)
     (rate_limits_ rm) (Trade.price trade) (circuit_breaker_ rm).

(** [None] stands for the [invalid_argument] the source throws. *)
Definition set_trader_limits (trader_id : Z) (limits : RiskLimits)
    (rm : t) : option t :=
  if (max_position limits <=? 0) || (max_order_qty limits <=? 0)
     || (max_order_value limits <=? 0) || (daily_loss_limit limits <=? 0)
     || deviation_invalid (max_price_deviation limits)
     || (max_orders_per_sec limits <=? 0)
  then None
  else
    Some (mk (match positions_ rm !! trader_id with
              | None => <[trader_id := mkPosition 0 0 0 0 0]> (positions_ rm)
              | Some _ => positions_ rm
              end)
             (<[trader_id := limits]> (trader_limits_ rm))
             (match rate_limits_ rm !! trader_id with
              | None => <[trader_id := mkRate [] 0]> (rate_limits_ rm)
              | Some _ => rate_limits_ rm
              end)
             (last_trade_price_ rm) (circuit_breaker_ rm)).

(** [reset_daily_stats]: each loop assigns to the members of every entry, so
    the order in which the [unordered_map] is walked does not matter. *)
Definition reset_daily_stats (rm : t) : t :=
  mk ((fun pos => mkPosition (quantity pos) 0 0 (avg_price pos) 0)
        <$> positions_ rm)
     (trader_limits_ rm)
     ((fun _ : RateLimit => mkRate [] 0) <$> rate_limits_ rm)
     0 (CircuitBreaker.resume_trading (circuit_breaker_ rm)).

(** [get_position] works on a copy of the entry. *)
Definition get_position (trader_id : Z) (rm : t) : Position :=
  match positions_ rm !! trader_id with
  | None => mkPosition 0 0 0 0 0
  | Some pos =>
      if (last_trade_price_ rm >? 0) && negb (quantity pos =? 0) then
        mkPosition (quantity pos)
                   (mul64 (sub64 (last_trade_price_ rm) (avg_price pos))
                          (quantity pos))
                   (realized_pnl pos) (avg_price pos) (daily_volume pos)
      else pos
  end.

(** [mark_to_market]: the test on [total_loss] guards an empty block, and so
    does the test on the breaker's answer; the call of
    [should_halt_trading] still updates the breaker. *)
Definition mark_to_market (current_price : Z) (rm : t) : t :=
  if current_price <=? 0 then rm
  else
    mk ((fun pos =>
           if quantity pos =? 0 then pos
           else mkPosition (quantity pos)
                           (mul64 (sub64 current_price (avg_price pos))
                                  (quantity pos))
                           (realized_pnl pos) (avg_price pos)
                           (daily_volume pos))
          <$> positions_ rm)
       (trader_limits_ rm) (rate_limits_ rm) current_price
       (CircuitBreaker.should_halt_trading current_price
          (circuit_breaker_ rm)).2.

Definition get_last_trade_price (rm : t) : Z := last_trade_price_ rm.
End RiskManager.
End RiskManager.

(** ** order_book.h and order_book.cpp *)

Module OrderBook.
Record Stats := mkStats {
  totalOrders : Z;
  totalTrades : Z;
  totalVolumes : Z;
  totalCancelledOrders : Z;
  totalIOC_rejected : Z;
  totalStopTriggered : Z;
  totalRiskRejected : Z
}.

(** The members of [OrderBook] that [add_order] and [cancel_order] use
    ([trade_pool_], [trade_buffer_] and [session_manager_] are never touched
    by them).  Two ghost fields follow: [ticks_] counts the clock readings
    taken so far, and [fills_] records, for every call of [execute_trade],
    the pair [(buyer_id, seller_id)] of owner ids it computes. *)
Record t `{Env} := mk {
  bids_ : list (Z * PriceLevel.t);
  asks_ : list (Z * PriceLevel.t);
  orders_ : gmap Z nat;
  order_pool_ : ObjectPool.t Order.t;
  risk_manager_ : RiskManager.t;
  stop_manager_ : StopOrderManager.t;
  tick_table_ : TickSizeTable.t;
  processing_stops_ : gset Z;
  stop_cascade_depth_ : Z;
  stats_ : Stats;
  ticks_ : nat;
  fills_ : list (Z * Z)
}.
Arguments mk {_}.

Definition MAX_CASCADE_DEPTH : Z := 3.

(** How a matching loop treats prices and same-owner passives: the
    cross-match loops of [add_order] ([Limit price]) or the loops of
    [add_market_order] ([Market]). *)
Inductive Sweep := Limit (price : Z) | Market.

Section OrderBook.
Context `{Env}.

Definition set_bids (v : list (Z * PriceLevel.t)) (b : t) : t :=
  mk v (asks_ b) (orders_ b) (order_pool_ b) (risk_manager_ b)
     (stop_manager_ b) (tick_table_ b) (processing_stops_ b)
     (stop_cascade_depth_ b) (stats_ b) (ticks_ b) (fills_ b).
Definition set_asks (v : list (Z * PriceLevel.t)) (b : t) : t :=
  mk (bids_ b) v (orders_ b) (order_pool_ b) (risk_manager_ b)
     (stop_manager_ b) (tick_table_ b) (processing_stops_ b)
     (stop_cascade_depth_ b) (stats_ b) (ticks_ b) (fills_ b).
Definition set_orders (v : gmap Z nat) (b : t) : t :=
  mk (bids_ b) (asks_ b) v (order_pool_ b) (risk_manager_ b)
     (stop_manager_ b) (tick_table_ b) (processing_stops_ b)
     (stop_cascade_depth_ b) (stats_ b) (ticks_ b) (fills_ b).
Definition set_pool (v : ObjectPool.t Order.t) (b : t) : t :=
  mk (bids_ b) (asks_ b) (orders_ b) v (risk_manager_ b)
     (stop_manager_ b) (tick_table_ b) (processing_stops_ b)
     (stop_cascade_depth_ b) (stats_ b) (ticks_ b) (fills_ b).
Definition set_risk (v : RiskManager.t) (k : nat) (b : t) : t :=
  mk (bids_ b) (asks_ b) (orders_ b) (order_pool_ b) v
     (stop_manager_ b) (tick_table_ b) (processing_stops_ b)
     (stop_cascade_depth_ b) (stats_ b) k (fills_ b).
Definition set_stops (v : StopOrderManager.t) (b : t) : t :=
  mk (bids_ b) (asks_ b) (orders_ b) (order_pool_ b) (risk_manager_ b)
     v (tick_table_ b) (processing_stops_ b)
     (stop_cascade_depth_ b) (stats_ b) (ticks_ b) (fills_ b).
Definition set_cascade (v : gset Z) (d : Z) (b : t) : t :=
  mk (bids_ b) (asks_ b) (orders_ b) (order_pool_ b) (risk_manager_ b)
     (stop_manager_ b) (tick_table_ b) v d (stats_ b) (ticks_ b)
     (fills_ b).
Definition set_stats (v : Stats) (b : t) : t :=
  mk (bids_ b) (asks_ b) (orders_ b) (order_pool_ b) (risk_manager_ b)
     (stop_manager_ b) (tick_table_ b) (processing_stops_ b)
     (stop_cascade_depth_ b) v (ticks_ b) (fills_ b).
Definition set_fills (v : list (Z * Z)) (b : t) : t :=
  mk (bids_ b) (asks_ b) (orders_ b) (order_pool_ b) (risk_manager_ b)
     (stop_manager_ b) (tick_table_ b) (processing_stops_ b)
     (stop_cascade_depth_ b) (stats_ b) (ticks_ b) v.

(** [OrderBook()]; [pool_size] is the initial size of [order_pool_]
    (2000000 in the source).  [None] if the tick table's constructor
    threw. *)
Definition ctor (pool_size : nat) : option t :=
  rules ← TickSizeTable.ctor;
  Some (mk [] [] ∅ (ObjectPool.ctor pool_size) RiskManager.ctor
           StopOrderManager.ctor rules ∅ 0 (mkStats 0 0 0 0 0 0 0) O []).

Definition heap (b : t) : list Order.t := ObjectPool.pool_ (order_pool_ b).

Definition set_heap (h : list Order.t) (b : t) : t :=
  let p := order_pool_ b in
  set_pool (ObjectPool.mk h (ObjectPool.available_ p)
              (ObjectPool.pool_size_ p) (ObjectPool.allocated_count_ p)
              (ObjectPool.valid_objects_ p)) b.

(** Assignment to members of [*p]. *)
Definition write (p : nat) (f : Order.t -> Order.t) (b : t) : t :=
  set_heap (alter f p (heap b)) b.

Definition release (p : nat) (b : t) : t :=
  set_pool (ObjectPool.release (Some p) (order_pool_ b)) b.

(** The book an order of side [s] matches against, and the book it
    rests in. *)
Definition opposite (s : Side) (b : t) : list (Z * PriceLevel.t) :=
  match s with BUY => asks_ b | SELL => bids_ b end.
Definition set_opposite (s : Side) (v : list (Z * PriceLevel.t)) (b : t)
    : t :=
  match s with BUY => set_asks v b | SELL => set_bids v b end.
Definition own (s : Side) (b : t) : list (Z * PriceLevel.t) :=
  match s with BUY => bids_ b | SELL => asks_ b end.
Definition set_own (s : Side) (v : list (Z * PriceLevel.t)) (b : t) : t :=
  match s with BUY => set_bids v b | SELL => set_asks v b end.
(** [greater<Price>] for [bids_], [less<Price>] for [asks_]. *)
Definition own_before (s : Side) : Z -> Z -> bool :=
  match s with BUY => Z.gtb | SELL => Z.ltb end.

Definition other (s : Side) : Side :=
  match s with BUY => SELL | SELL => BUY end.

Definition execute_trade (aggressive passive : nat) (qty : Z) (b : t)
    : Trade.t * t :=
  let a := deref (heap b) aggressive in
  let p := deref (heap b) passive in
  let trade :=
    Trade.mk (match Order.side a with BUY => Order.id a | SELL => Order.id p end)
             (match Order.side a with SELL => Order.id a | BUY => Order.id p end)
             (Order.price p) qty (now (ticks_ b)) in
  let buyer_id :=
    match Order.side a with BUY => Order.ownerID a | SELL => Order.ownerID p end in
  let seller_id :=
    match Order.side a with SELL => Order.ownerID a | BUY => Order.ownerID p end in
  let rm1 := RiskManager.update_position buyer_id trade BUY (risk_manager_ b) in
  let rm2 := RiskManager.update_position seller_id trade SELL rm1 in
  (trade,
   set_fills (fills_ b ++ [(buyer_id, seller_id)])
             (set_risk rm2 (S (ticks_ b)) b)).

Definition handle_iceberg_refill (h : list Order.t) (order : nat)
    (level : PriceLevel.t) : bool * list Order.t * PriceLevel.t :=
  let o := deref h order in
  if bool_decide (Order.type o = ICEBERG) && (Order.remaining o >? 0) then
    let h1 :=
      alter (Order.set_display
               (Z.min (Order.remaining o) (Order.display_size o))) order h in
    let h2 :=
      alter (fun o1 => Order.set_remaining
                         (sub64 (Order.remaining o1) (Order.display o1)) o1)
            order h1 in
    (true, h2, PriceLevel.add_order h2 order level)
  else (false, h, level).

Definition cleanup_empty_level (book : list (Z * PriceLevel.t)) (price : Z)
    : list (Z * PriceLevel.t) :=
  match OMap.find price book with
  | Some level => if PriceLevel.empty level then OMap.erase price book else book
  | None => book
  end.

Definition bump_cancelled (s : Stats) : Stats :=
  mkStats (totalOrders s) (totalTrades s) (totalVolumes s)
          (wrapu64 (totalCancelledOrders s + 1)) (totalIOC_rejected s)
          (totalStopTriggered s) (totalRiskRejected s).
Definition bump_orders (s : Stats) : Stats :=
  mkStats (wrapu64 (totalOrders s + 1)) (totalTrades s) (totalVolumes s)
          (totalCancelledOrders s) (totalIOC_rejected s)
          (totalStopTriggered s) (totalRiskRejected s).
Definition bump_risk_rejected (s : Stats) : Stats :=
  mkStats (totalOrders s) (totalTrades s) (totalVolumes s)
          (totalCancelledOrders s) (totalIOC_rejected s)
          (totalStopTriggered s) (wrapu64 (totalRiskRejected s + 1)).
Definition bump_stop_triggered (s : Stats) : Stats :=
  mkStats (totalOrders s) (totalTrades s) (totalVolumes s)
          (totalCancelledOrders s) (totalIOC_rejected s)
          (wrapu64 (totalStopTriggered s + 1)) (totalRiskRejected s).
(** [totalTrades += trades.size()] and the loop adding each quantity to
    [totalVolumes]. *)
Definition tally (trades : list Trade.t) (s : Stats) : Stats :=
  mkStats (totalOrders s)
          (wrapu64 (totalTrades s + Z.of_nat (length trades)))
          (foldl (fun v trade => wrapu64 (v + Trade.quantity trade))
                 (totalVolumes s) trades)
          (totalCancelledOrders s) (totalIOC_rejected s)
          (totalStopTriggered s) (totalRiskRejected s).

Definition cancel_order (id : Z) (b : t) : bool * t :=
  match orders_ b !! id with
  | None => (false, b)
  | Some order =>
      let o := deref (heap b) order in
      let b1 :=
        match Order.type o with
        | STOP_LOSS =>
            set_stops
              (StopOrderManager.remove_stop_order (heap b) id
                 (stop_manager_ b)).2 b
        | _ =>
            let s := Order.side o in
            match OMap.find (Order.price o) (own s b) with
            | Some level =>
                let level1 := PriceLevel.erase order level in
                if PriceLevel.empty level1
                then set_own s (OMap.erase (Order.price o) (own s b)) b
                else set_own s (OMap.update (Order.price o) level1 (own s b)) b
            | None => b
            end
        end in
      let b2 := set_orders (delete id (orders_ b1)) b1 in
      let b3 := release order b2 in
      (true, set_stats (bump_cancelled (stats_ b3)) b3)
  end.

(** The block that follows a fill in the loops of [add_order] and
    [add_market_order]:
    [level.pop_front(); if (!handle_iceberg_refill(passive, level))
    { orders_.erase(passive->id); order_pool_.release(passive); }],
    for the level stored at [best_price] of the book opposite to [s]. *)
Definition retire_front (s : Side) (best_price : Z) (level : PriceLevel.t)
    (passive : nat) (b : t) : t :=
  let '(refilled, h1, level1) :=
    handle_iceberg_refill (heap b) passive (PriceLevel.pop_front level) in
  let b1 :=
    set_opposite s (OMap.update best_price level1 (opposite s b))
                 (set_heap h1 b) in
  if refilled then b1
  else release passive
         (set_orders (delete (Order.id (deref (heap b1) passive)) (orders_ b1)) b1).

(** What the loops do with a front passive of the incoming owner, after
    [level.pop_front()]: [cancel_order(passive->id)] in [add_order],
    [orders_.erase(passive->id); order_pool_.release(passive)] in
    [add_market_order]. *)
Definition drop_same_owner (mode : Sweep) (passive : nat) (b : t) : t :=
  match mode with
  | Limit _ => (cancel_order (Order.id (deref (heap b) passive)) b).2
  | Market =>
      release passive
        (set_orders (delete (Order.id (deref (heap b) passive)) (orders_ b)) b)
  end.

(** The inner [while (order->display > 0 && !level.empty())].  The source
    holds a reference to the level; here the level is read again from the
    map on every round.  In [add_order], [cancel_order] may erase the
    level the reference points to; the loop then ends, as it does when the
    level is empty. *)
Fixpoint level_loop (fuel : nat) (mode : Sweep) (s : Side) (best_price : Z)
    (order : nat) (b : t) (trades : list Trade.t)
    : option (t * list Trade.t) :=
  match fuel with
  | O => None
  | S fuel' =>
      if Order.display (deref (heap b) order) >? 0 then
        match OMap.find best_price (opposite s b) with
        | None => Some (b, trades)
        | Some level =>
            match PriceLevel.front level with
            | None => Some (b, trades)
            | Some passive =>
                if Order.ownerID (deref (heap b) order)
                   =? Order.ownerID (deref (heap b) passive)
                then
                  let b1 :=
                    set_opposite s
                      (OMap.update best_price (PriceLevel.pop_front level)
                         (opposite s b)) b in
                  level_loop fuel' mode s best_price order
                             (drop_same_owner mode passive b1) trades
                else
                  let match_qty :=
                    Z.min (Order.display (deref (heap b) order))
                          (Order.display (deref (heap b) passive)) in
                  let '(trade, b1) := execute_trade order passive match_qty b in
                  let dec_display o :=
                    Order.set_display (sub64 (Order.display o) match_qty) o in
                  let dec_remaining o :=
                    Order.set_remaining (sub64 (Order.remaining o) match_qty) o in
                  let b2 :=
                    match mode with
                    | Limit _ =>
                        write passive dec_remaining
                          (write passive dec_display
                             (write order dec_display b1))
                    | Market =>
                        write order dec_display
                          (write passive dec_remaining
                             (write passive dec_display b1))
                    end in
                  let b3 :=
                    if Order.display (deref (heap b2) passive) =? 0
                    then retire_front s best_price level passive b2
                    else b2 in
                  level_loop fuel' mode s best_price order b3
                             (trades ++ [trade])
            end
        end
      else Some (b, trades)
  end.

(** The test that leaves the outer loop of [add_order]:
    [price < best_price] for a buy, [price > best_price] for a sell. *)
Definition beyond_limit (mode : Sweep) (s : Side) (best_price : Z) : bool :=
  match mode with
  | Limit price =>
      match s with
      | BUY => price <? best_price
      | SELL => price >? best_price
      end
  | Market => false
  end.

(** The outer [while (order->display > 0 && !opposite.empty())]. *)
Fixpoint book_loop (fuel : nat) (mode : Sweep) (s : Side) (order : nat)
    (b : t) (trades : list Trade.t) : option (t * list Trade.t) :=
  match fuel with
  | O => None
  | S fuel' =>
      if Order.display (deref (heap b) order) >? 0 then
        match opposite s b with
        | [] => Some (b, trades)
        | (best_price, _) :: _ =>
            if beyond_limit mode s best_price then Some (b, trades)
            else
              match level_loop fuel' mode s best_price order b trades with
              | None => None
              | Some (b1, trades1) =>
                  book_loop fuel' mode s order
                    (set_opposite s
                       (cleanup_empty_level (opposite s b1) best_price) b1)
                    trades1
              end
        end
      else Some (b, trades)
  end.

Definition add_market_order (fuel : nat) (order : nat) (b : t)
    (trades : list Trade.t) : option (t * list Trade.t) :=
  book_loop fuel Market (Order.side (deref (heap b) order)) order b trades.

(** The lambda [check_orders] of [add_FOK_order]: [needed] and
    [candidates] are captured by reference, the result is its return
    value. *)
Fixpoint check_orders (h : list Order.t) (order : nat) (orders : list nat)
    (needed : Z) (candidates : list (nat * Z))
    : bool * Z * list (nat * Z) :=
  match orders with
  | [] => (false, needed, candidates)
  | passive :: rest =>
      if Order.ownerID (deref h order) =? Order.ownerID (deref h passive)
      then check_orders h order rest needed candidates
      else
        let available := Z.min needed (Order.display (deref h passive)) in
        let candidates1 := candidates ++ [(passive, available)] in
        let needed1 := sub64 needed available in
        if needed1 <=? 0 then (true, needed1, candidates1)
        else check_orders h order rest needed1 candidates1
  end.

(** The [for] loop over the opposite book, from the best price. *)
Fixpoint probe (h : list Order.t) (order : nat) (s : Side)
    (book : list (Z * PriceLevel.t)) (needed : Z)
    (candidates : list (nat * Z)) : Z * list (nat * Z) :=
  match book with
  | [] => (needed, candidates)
  | (price_level, level) :: rest =>
      if match s with
         | BUY => price_level >? Order.price (deref h order)
         | SELL => price_level <? Order.price (deref h order)
         end
      then (needed, candidates)
      else
        let '(found, needed1, candidates1) :=
          check_orders h order (PriceLevel.mm_orders level) needed candidates in
        let '(needed2, candidates2) :=
          if negb found && (needed1 >? 0) then
            let '(_, n, c) :=
              check_orders h order (PriceLevel.regular_orders level)
                           needed1 candidates1 in
            (n, c)
          else (needed1, candidates1) in
        if needed2 <=? 0 then (needed2, candidates2)
        else probe h order s rest needed2 candidates2
  end.

(** One round of the loop "Execute all trades". *)
Definition commit_one (order passive : nat) (qty : Z) (b : t)
    : Trade.t * t :=
  let '(trade, b1) := execute_trade order passive qty b in
  let dec_display o := Order.set_display (sub64 (Order.display o) qty) o in
  let dec_remaining o :=
    Order.set_remaining (sub64 (Order.remaining o) qty) o in
  let b2 :=
    write order dec_remaining
      (write order dec_display
         (write passive dec_remaining (write passive dec_display b1))) in
  if Order.display (deref (heap b2) passive) =? 0 then
    let ps := Order.side (deref (heap b2) passive) in
    let pp := Order.price (deref (heap b2) passive) in
    let book1 := OMap.index (own_before ps) pp PriceLevel.ctor (own ps b2) in
    let level := default PriceLevel.ctor (OMap.find pp book1) in
    let '(refilled, h1, level1) :=
      handle_iceberg_refill (heap b2) passive (PriceLevel.erase passive level) in
    let b3 := set_own ps (OMap.update pp level1 book1) (set_heap h1 b2) in
    let b4 :=
      if refilled then b3
      else release passive
             (set_orders
                (delete (Order.id (deref (heap b3) passive)) (orders_ b3)) b3) in
    if PriceLevel.empty level1 then
      let ps' := Order.side (deref (heap b4) passive) in
      (trade,
       set_own ps' (OMap.erase (Order.price (deref (heap b4) passive))
                               (own ps' b4)) b4)
    else (trade, b4)
  else (trade, b2).

Fixpoint commit (order : nat) (candidates : list (nat * Z)) (b : t)
    (trades : list Trade.t) : t * list Trade.t :=
  match candidates with
  | [] => (b, trades)
  | (passive, qty) :: rest =>
      let '(trade, b1) := commit_one order passive qty b in
      commit order rest b1 (trades ++ [trade])
  end.

Definition add_FOK_order (order : nat) (b : t) (trades : list Trade.t)
    : bool * t * list Trade.t :=
  let o := deref (heap b) order in
  let '(needed, candidates) :=
    probe (heap b) order (Order.side o) (opposite (Order.side o) b)
          (Order.quantity o) [] in
  if needed >? 0 then (false, b, trades)
  else
    let '(b1, trades1) := commit order candidates b trades in
    (true, b1, trades1).

(** One round of the loop over [triggered_stops]. *)
Definition process_stop (fuel : nat) (stop_order : nat) (b : t)
    (trades : list Trade.t) : option (t * list Trade.t) :=
  if bool_decide (Order.id (deref (heap b) stop_order) ∈ processing_stops_ b)
  then Some (b, trades)
  else
    let b1 :=
      set_stats (bump_stop_triggered (stats_ b))
        (set_cascade
           ({[ Order.id (deref (heap b) stop_order) ]} ∪ processing_stops_ b)
           (stop_cascade_depth_ b + 1) b) in
    let b2 :=
      write stop_order (Order.set_is_triggered true)
        (write stop_order (Order.set_price 0)
           (write stop_order (Order.set_type MARKET) b1)) in
    match add_market_order fuel stop_order b2 [] with
    | None => None
    | Some (b3, stop_trades) =>
        let b4 :=
          set_orders
            (delete (Order.id (deref (heap b3) stop_order)) (orders_ b3)) b3 in
        let b5 := release stop_order b4 in
        Some (set_cascade
                (processing_stops_ b5
                   ∖ {[ Order.id (deref (heap b5) stop_order) ]})
                (stop_cascade_depth_ b5 - 1) b5,
              trades ++ stop_trades)
    end.

Fixpoint process_stops (fuel : nat) (triggered_stops : list nat) (b : t)
    (trades : list Trade.t) : option (t * list Trade.t) :=
  match triggered_stops with
  | [] => Some (b, trades)
  | stop_order :: rest =>
      match process_stop fuel stop_order b trades with
      | None => None
      | Some (b1, trades1) => process_stops fuel rest b1 trades1
      end
  end.

Definition process_triggered_stops (fuel : nat) (b : t)
    (trades : list Trade.t) : option (t * list Trade.t) :=
  match last trades with
  | None => Some (b, trades)
  | Some back =>
      let last_trade_price := Trade.price back in
      if stop_cascade_depth_ b >=? MAX_CASCADE_DEPTH then Some (b, trades)
      else
        let '(triggered_stops, sm) :=
          StopOrderManager.check_triggered_stops (heap b) last_trade_price
            (stop_manager_ b) in
        process_stops fuel triggered_stops (set_stops sm b) trades
  end.

(** The first lines of [add_order]: the slot is assigned the new order,
    then [price] and [stop_price] are replaced by their rounded values
    where these are positive. *)
Definition normalize (rules : TickSizeTable.t) (type : OrderType)
    (price stop_price : Z) (o : Order.t) : Order.t :=
  let o1 :=
    if negb (bool_decide (type = MARKET)) && (price >? 0) then
      let rounded_price := TickSizeTable.round_to_tick rules price in
      if rounded_price >? 0 then Order.set_price rounded_price o else o
    else o in
  if stop_price >? 0 then
    let rounded_stop := TickSizeTable.round_to_tick rules stop_price in
    if rounded_stop >? 0 then Order.set_stop_price rounded_stop o1 else o1
  else o1.

(** [add_order]; [mm] is the indeterminate value of the member
    [is_market_maker] of the temporary [Order]. *)
Definition add_order (fuel : nat) (id : Z) (side : Side) (price qty disp
    display_size : Z) (type : OrderType) (ownerID stop_price session_id : Z)
    (mm : bool) (b : t) : option (t * list Trade.t) :=
  let b0 := set_stats (bump_orders (stats_ b)) b in
  let '(acquired, pool1) := ObjectPool.acquire (order_pool_ b0) in
  match acquired with
  | None => Some (set_pool pool1 b0, [])
  | Some order_ptr =>
      let o :=
        normalize (tick_table_ b0) type price stop_price
          (Order.ctor id side price stop_price qty disp display_size type
                      ownerID session_id mm (now (ticks_ b0))) in
      let b1 :=
        write order_ptr (fun _ => o)
              (set_risk (risk_manager_ b0) (S (ticks_ b0))
                        (set_pool pool1 b0)) in
      let '(risk_result, rm, ticks) :=
        RiskManager.check_order (deref (heap b1) order_ptr) (ticks_ b1)
                                (risk_manager_ b1) in
      let b2 := set_risk rm ticks b1 in
      match risk_result with
      | RiskManager.APPROVED =>
          match type with
          | STOP_LOSS =>
              Some (set_orders (<[id := order_ptr]> (orders_ b2))
                      (set_stops
                         (StopOrderManager.add_stop_order (heap b2) order_ptr
                            (stop_manager_ b2)) b2),
                    [])
          | FOK =>
              let '(filled, b3, trades) := add_FOK_order order_ptr b2 [] in
              let b4 :=
                if filled then set_stats (tally trades (stats_ b3)) b3
                else b3 in
              process_triggered_stops fuel (release order_ptr b4) trades
          | MARKET =>
              match add_market_order fuel order_ptr b2 [] with
              | None => None
              | Some (b3, trades) =>
                  process_triggered_stops fuel
                    (release order_ptr
                       (set_stats (tally trades (stats_ b3)) b3))
                    trades
              end
          | _ =>
              match book_loop fuel (Limit price) side order_ptr b2 [] with
              | None => None
              | Some (b3, trades) =>
                  let b4 :=
                    if (Order.display (deref (heap b3) order_ptr) >? 0)
                       && (bool_decide (type = GTC)
                           || bool_decide (type = ICEBERG))
                    then
                      let book1 :=
                        OMap.index (own_before side) price PriceLevel.ctor
                                   (own side b3) in
                      let level :=
                        default PriceLevel.ctor (OMap.find price book1) in
                      set_orders (<[id := order_ptr]> (orders_ b3))
                        (set_own side
                           (OMap.update price
                              (PriceLevel.add_order (heap b3) order_ptr level)
                              book1) b3)
                    else release order_ptr b3 in
                  match process_triggered_stops fuel b4 trades with
                  | None => None
                  | Some (b5, trades1) =>
                      Some (set_stats (tally trades1 (stats_ b5)) b5, trades1)
                  end
              end
          end
      | _ =>
          Some (set_stats (bump_risk_rejected (stats_ (release order_ptr b2)))
                          (release order_ptr b2),
                [])
      end
  end.

Definition order_count (b : t) : Z := Z.of_nat (size (orders_ b)).
Definition bid_levels (b : t) : Z := Z.of_nat (length (bids_ b)).
Definition ask_levels (b : t) : Z := Z.of_nat (length (asks_ b)).

(** [bids_.begin()->first], or 0 for an empty side. *)
Definition best_bid (b : t) : Z :=
  match bids_ b with
  | [] => 0
  | (price, _) :: _ => price
  end.

Definition best_ask (b : t) : Z :=
  match asks_ b with
  | [] => 0
  | (price, _) :: _ => price
  end.

Definition get_order_pool_available (b : t) : Z :=
  ObjectPool.available_count (order_pool_ b).
End OrderBook.
End OrderBook.

(** * Definitions used by the statements *)

(** The tick of the default table that applies to a positive price. *)
Definition default_tick (p : Z) : Z :=
  if p <? 100000 then 1
  else if p <? 500000 then 5
  else if p <? 1000000 then 10
  else 100.

(** The largest price whose rounding, and the rounding of the result, stay
    clear of the overflow of [price + half_tick]. *)
Definition ROUND_SAFE_MAX : Z := 9223372036854775749.


(** The representation invariant of a [std::map]: keys strictly ordered by
    the comparator. *)
Definition sorted_by {V : Type} (before : Z -> Z -> bool) (m : list (Z * V))
    : Prop :=
  StronglySorted (fun a b => before a b = true) (map fst m).

(** The orders of a range of stop buckets, bucket after bucket. *)
Definition bucket_orders (buckets : list (Z * list nat)) : list nat :=
  concat (map snd buckets).

(** The order in which [front] and [pop_front] serve a level. *)
Definition queue (l : PriceLevel.t) : list nat :=
  PriceLevel.mm_orders l ++ PriceLevel.regular_orders l.

(** Claim C4 in the words of the specification: the buy stops at or below the
    last trade price by ascending stop price, then the sell stops at or above
    it by descending stop price, arrival order kept inside a bucket. *)
Definition triggered_as_specified (last_trade_price : Z)
    (sm : StopOrderManager.t) : list nat :=
  bucket_orders
    (List.filter (fun b => b.1 <=? last_trade_price)
                 (StopOrderManager.buy_stops_ sm))
  ++ bucket_orders
       (rev (List.filter (fun b => last_trade_price <=? b.1)
                         (StopOrderManager.sell_stops_ sm))).

(** ** An environment and a desk for the worked examples

    Rationals stand for [double], compared exactly; the clock advances one
    nanosecond per reading. *)
#[global] Instance exact_env : Env := {
  double := Q;
  deviation_gt a b d := negb (Qle_bool (inject_Z a / inject_Z b) d);
  deviation_invalid d := Qle_bool d 0 || negb (Qle_bool d 1);
  now k := Z.of_nat k
}.

Definition demo_limits : RiskManager.RiskLimits :=
  RiskManager.mkLimits 100000 50000000000 10000 1000000 (1 # 10)%Q 1000 1000000.

(** [book.get_risk_manager().set_trader_limits(owner, demo_limits)]. *)
Definition with_limits (owner : Z) (b : OrderBook.t) : option OrderBook.t :=
  rm ← RiskManager.set_trader_limits owner demo_limits (OrderBook.risk_manager_ b);
  Some (OrderBook.set_risk rm (OrderBook.ticks_ b) b).

(** [book.add_order(...)], the trades dropped. *)
Definition submit (id : Z) (side : Side) (price qty disp display_size : Z)
    (type : OrderType) (owner stop_price : Z) (mm : bool) (b : OrderBook.t)
    : option OrderBook.t :=
  fst <$> OrderBook.add_order 100 id side price qty disp display_size type
                              owner stop_price 0 mm b.

(** A book with an arena of [n] slots and limits for six traders.  The
    circuit breaker starts with both limits at 0 and latches on the first
    order it sees, which it rejects; order 999 is that order. *)
Definition desk (n : nat) : option OrderBook.t :=
  b ← OrderBook.ctor n;
  b ← with_limits 1 b;
  b ← with_limits 2 b;
  b ← with_limits 3 b;
  b ← with_limits 4 b;
  b ← with_limits 5 b;
  b ← with_limits 7 b;
  submit 999 BUY 1 1 1 0 IOC 1 0 false b.


(** Two resting sell stops, at 100 (order 11, slot 3) and at 101 (order 12,
    slot 2). *)
Definition two_sell_stops : option OrderBook.t :=
  b ← desk 4;
  b ← submit 11 SELL 0 5 5 0 STOP_LOSS 1 100 false b;
  submit 12 SELL 0 5 5 0 STOP_LOSS 2 101 false b.

(** What [check_triggered_stops] does to [stop_lookup_]: the id of every
    returned order is erased. *)
Definition erase_ids (heap : list Order.t) (orders : list nat)
    (lookup : gmap Z nat) : gmap Z nat :=
  foldl (fun m order => delete (Order.id (deref heap order)) m) lookup orders.


(** The book of a scenario that has run without exception. *)
Definition the (scenario : option OrderBook.t) : OrderBook.t :=
  default (OrderBook.mk [] [] ∅ (ObjectPool.ctor 0) RiskManager.ctor
             StopOrderManager.ctor [] ∅ 0 (OrderBook.mkStats 0 0 0 0 0 0 0) O [])
          scenario.

(** Scenario 2 of the specification before the sells: an iceberg buy of 100
    showing 10 (order 1, slot 3) and a plain buy of 5 behind it (order 2,
    slot 2), both at 100. *)
Definition iceberg_resting : option OrderBook.t :=
  b ← desk 4;
  b ← submit 1 BUY 100 100 10 10 ICEBERG 1 0 false b;
  submit 2 BUY 100 5 5 0 GTC 2 0 false b.


(** A buy at 100002, a price between two ticks of its band (tick 5). *)
Definition unaligned_bid : option OrderBook.t :=
  b ← desk 4;
  submit 1 BUY 100002 10 10 0 GTC 1 0 false b.


(** The slot the next [acquire] hands out. *)
Definition next_slot {T : Type} (p : ObjectPool.t T) : nat :=
  match ObjectPool.available_ p with
  | ptr :: _ => ptr
  | [] => length (ObjectPool.pool_ p)
  end.

(** Consistency of an arena: the free handles are handles of the pool and
    address slots, and the counter is a [size_t]. *)
Definition pool_ok {T : Type} (p : ObjectPool.t T) : bool :=
  forallb (fun ptr => bool_decide (ptr ∈ ObjectPool.valid_objects_ p)
                      && (ptr <? length (ObjectPool.pool_ p))%nat)
          (ObjectPool.available_ p)
  && (0 <=? ObjectPool.allocated_count_ p)
  && (ObjectPool.allocated_count_ p <? 2 ^ 64).

(** Every order resting on [book] shows a display that is not negative. *)
Definition displays_ok (h : list Order.t) (book : list (Z * PriceLevel.t))
    : bool :=
  forallb (fun entry =>
             forallb (fun p => 0 <=? Order.display (deref h p)) (queue entry.2))
          book.

(** No level of [book] points to slot [p]. *)
Definition unreferenced (p : nat) (book : list (Z * PriceLevel.t)) : bool :=
  forallb (fun entry => negb (existsb (Nat.eqb p) (queue entry.2))) book.

(** No level of [book] is empty. *)
Definition no_empty_level (book : list (Z * PriceLevel.t)) : bool :=
  forallb (fun entry => negb (PriceLevel.empty entry.2)) book.

Definition sumZ (l : list Z) : Z := foldr Z.add 0 l.
Arguments sumZ : simpl never.

Definition total_quantity (trades : list Trade.t) : Z :=
  sumZ (map Trade.quantity trades).

(** The first part of [add_order], up to the dispatch on the order type: the
    slot that holds the new order and the book in which matching starts, when
    the arena returned a slot and the risk gate approved the order. *)
Definition staged `{Env} (id : Z) (side : Side) (price qty disp
    display_size : Z) (type : OrderType) (ownerID stop_price session_id : Z)
    (mm : bool) (b : OrderBook.t) : option (nat * OrderBook.t) :=
  let b0 := OrderBook.set_stats (OrderBook.bump_orders (OrderBook.stats_ b)) b in
  let '(acquired, pool1) := ObjectPool.acquire (OrderBook.order_pool_ b0) in
  match acquired with
  | None => None
  | Some order_ptr =>
      let o :=
        OrderBook.normalize (OrderBook.tick_table_ b0) type price stop_price
          (Order.ctor id side price stop_price qty disp display_size type
                      ownerID session_id mm (now (OrderBook.ticks_ b0))) in
      let b1 :=
        OrderBook.write order_ptr (fun _ => o)
          (OrderBook.set_risk (OrderBook.risk_manager_ b0)
                              (S (OrderBook.ticks_ b0))
                              (OrderBook.set_pool pool1 b0)) in
      let '(risk_result, rm, ticks) :=
        RiskManager.check_order (deref (OrderBook.heap b1) order_ptr)
                                (OrderBook.ticks_ b1)
                                (OrderBook.risk_manager_ b1) in
      match risk_result with
      | RiskManager.APPROVED => Some (order_ptr, OrderBook.set_risk rm ticks b1)
      | _ => None
      end
  end.


(** Scenario 3 of the specification: one sell of 5 at 100 rests (order 1,
    slot 3, owner 1). *)
Definition one_ask : OrderBook.t :=
  Eval vm_compute in
    the (b ← desk 4; submit 1 SELL 100 5 5 0 GTC 1 0 false b).

(** The slot and the book with which [add_order] starts matching a FOK buy
    of 10, resp. of 5, at 100 by owner 2 on [one_ask]. *)
Definition fok_10_staged : nat * OrderBook.t :=
  Eval vm_compute in
    default (O, one_ask) (staged 2 BUY 100 10 10 0 FOK 2 0 0 false one_ask).

Definition fok_5_staged : nat * OrderBook.t :=
  Eval vm_compute in
    default (O, one_ask) (staged 2 BUY 100 5 5 0 FOK 2 0 0 false one_ask).


(** An order of side [s] at limit [price] meets no opposite level it could
    trade with: the opposite book is empty or its best price is beyond the
    limit. *)
Definition uncrossed `{Env} (s : Side) (price : Z) (b : OrderBook.t) : bool :=
  match OrderBook.opposite s b with
  | [] => true
  | (best_price, _) :: _ =>
      OrderBook.beyond_limit (OrderBook.Limit price) s best_price
  end.

(** Two resting buys: order 1 at 100 (slot 3, owner 1) is on the book when a
    second order with the same id 1 is submitted at 99 by owner 2. *)
Definition one_bid : OrderBook.t :=
  Eval vm_compute in
    the (b ← desk 4; submit 1 BUY 100 10 10 0 GTC 1 0 false b).

Definition same_id_bid : OrderBook.t :=
  Eval vm_compute in the (submit 1 BUY 99 5 5 0 GTC 2 0 false one_bid).

(** The slot and the book with which [add_order] starts matching a GTC buy
    of 5 at 99 with the fresh id 2 on [one_bid]. *)
Definition bid_99_staged : nat * OrderBook.t :=
  Eval vm_compute in
    default (O, one_bid) (staged 2 BUY 99 5 5 0 GTC 2 0 0 false one_bid).


(** A fill between two different owners. *)
Definition distinct_owners (fill : Z * Z) : Prop := fill.1 <> fill.2.

(** [b'] comes from [b] by steps that call [execute_trade] only for two
    different owners and that leave the cascade counter and the count of
    processed stops alone. *)
Definition traded `{Env} (b b' : OrderBook.t) : Prop :=
  (exists new, OrderBook.fills_ b' = OrderBook.fills_ b ++ new
               /\ Forall distinct_owners new)
  /\ OrderBook.stop_cascade_depth_ b' = OrderBook.stop_cascade_depth_ b
  /\ OrderBook.totalStopTriggered (OrderBook.stats_ b')
     = OrderBook.totalStopTriggered (OrderBook.stats_ b).

(** The slots a book points to, best level first, in the order served. *)
Definition book_slots (book : list (Z * PriceLevel.t)) : list nat :=
  concat (map (fun entry => queue entry.2) book).


(** [k] increments of the [uint64_t] counter [totalStopTriggered]. *)
Definition bumped (k : nat) (v : Z) : Z :=
  Nat.iter k (fun x => wrapu64 (x + 1)) v.

(** From [b] to [b'] the cascade counter is back at its value and [k] stops
    have been processed. *)
Definition cascaded `{Env} (k : nat) (b b' : OrderBook.t) : Prop :=
  OrderBook.stop_cascade_depth_ b' = OrderBook.stop_cascade_depth_ b
  /\ OrderBook.totalStopTriggered (OrderBook.stats_ b')
     = bumped k (OrderBook.totalStopTriggered (OrderBook.stats_ b)).

(** The stops [process_triggered_stops] asks the stop manager for: those the
    price of the last trade triggers. *)
Definition batch `{Env} (b : OrderBook.t) (trades : list Trade.t) : list nat :=
  match last trades with
  | Some back =>
      (StopOrderManager.check_triggered_stops (OrderBook.heap b)
         (Trade.price back) (OrderBook.stop_manager_ b)).1
  | None => []
  end.

(** Scenario 5 of the specification with four stops: a buy of 100 rests at
    100 (owner 1) and four sell stops of 1 with stop price 100 (owners 2 to
    5) wait in the stop manager. *)
Definition stop_ladder : OrderBook.t :=
  Eval vm_compute in
    the (b ← desk 8;
         b ← submit 1 BUY 100 100 100 0 GTC 1 0 false b;
         b ← submit 11 SELL 0 1 1 0 STOP_LOSS 2 100 false b;
         b ← submit 12 SELL 0 1 1 0 STOP_LOSS 3 100 false b;
         b ← submit 13 SELL 0 1 1 0 STOP_LOSS 4 100 false b;
         submit 14 SELL 0 1 1 0 STOP_LOSS 5 100 false b).

(** A candidate of the probe whose owner is not the owner of the incoming
    order. *)
Definition other_owner (h : list Order.t) (order : nat) (c : nat * Z) : Prop :=
  Order.ownerID (deref h order) <> Order.ownerID (deref h c.1).


(** Every pair [execute_trade] has recorded between [b] and [b'] is a pair
    of different owners. *)
Definition fills_extended `{Env} (b b' : OrderBook.t) : Prop :=
  exists new, OrderBook.fills_ b' = OrderBook.fills_ b ++ new
              /\ Forall distinct_owners new.


(** Scenario 4 of the specification: a sell of 10 at 100 by owner 7 rests
    (order 1, slot 3). *)
Definition own_ask : OrderBook.t :=
  Eval vm_compute in
    the (b ← desk 4; submit 1 SELL 100 10 10 0 GTC 7 0 false b).

(** Two sells of 5 at 100: order 1 of owner 7 at the front (slot 3), order 2
    of owner 2 behind it (slot 2). *)
Definition two_asks : OrderBook.t :=
  Eval vm_compute in
    the (b ← desk 4;
         b ← submit 1 SELL 100 5 5 0 GTC 7 0 false b;
         submit 2 SELL 100 5 5 0 GTC 2 0 false b).


(** The invariant of an arena behind [pool_ok]: free handles are handles of
    the pool, handles of the pool address slots, and the counter is a
    [size_t]. *)
Definition pool_consistent {T : Type} (p : ObjectPool.t T) : Prop :=
  (forall ptr, In ptr (ObjectPool.available_ p) ->
               ptr ∈ ObjectPool.valid_objects_ p)
  /\ (forall ptr, ptr ∈ ObjectPool.valid_objects_ p ->
                  (ptr < length (ObjectPool.pool_ p))%nat)
  /\ 0 <= ObjectPool.allocated_count_ p < 2 ^ 64.

(** ** The tick table as [add_rule] keeps it *)

(** A rule [add_rule] accepts: a non-empty range of non-negative prices with
    a positive tick. *)
Definition rule_ok (r : TickSizeTable.TickRule) : Prop :=
  0 <= TickSizeTable.min_price r <= TickSizeTable.max_price r
  /\ 0 < TickSizeTable.tick_size r.

(** The range of [a] ends before the range of [b] begins. *)
Definition range_before (a b : TickSizeTable.TickRule) : Prop :=
  TickSizeTable.max_price a < TickSizeTable.min_price b.

(** The ranges [min_p, max_p] and the range of [r] share no price. *)
Definition range_apart (min_p max_p : Z) (r : TickSizeTable.TickRule) : Prop :=
  max_p < TickSizeTable.min_price r \/ TickSizeTable.max_price r < min_p.

(** The table invariant: accepted rules, sorted, no two ranges sharing a
    price. *)
Definition rules_ok (rules : TickSizeTable.t) : Prop :=
  Forall rule_ok rules /\ StronglySorted range_before rules.

(** ** The arena when every handle is released once *)

(** A handle the pool has handed out and not yet got back. *)
Definition outstanding {T : Type} (ptr : nat) (p : ObjectPool.t T) : Prop :=
  ptr ∈ ObjectPool.valid_objects_ p /\ ~ In ptr (ObjectPool.available_ p).

(** [pool_consistent], no handle twice on the free stack, and every slot
    either free or counted in [allocated_count_]. *)
Definition pool_sound {T : Type} (p : ObjectPool.t T) : Prop :=
  pool_consistent p
  /\ NoDup (ObjectPool.available_ p)
  /\ ObjectPool.available_count p + ObjectPool.allocated_count p
     = ObjectPool.total_capacity p.

(** ** Well-formed stop books *)

(** A stop book as the manager keeps it: sorted by stop price, and no bucket
    left empty. *)
Definition stops_wf (stops : list (Z * list nat)) : Prop :=
  sorted_by Z.ltb stops /\ Forall (fun bucket => bucket.2 <> []) stops.

(** ** Relations between the book before and after a call *)

(** Every handle of the arena can still be dereferenced: the handle
    invariant [pool_consistent] holds again, no slot has gone and no handle
    the pool has created has been dropped.  Nothing is said on how often a
    handle is on the free stack. *)
Definition arena_kept `{Env} (b b' : OrderBook.t) : Prop :=
  pool_consistent (OrderBook.order_pool_ b) ->
  pool_consistent (OrderBook.order_pool_ b')
  /\ (length (OrderBook.heap b) <= length (OrderBook.heap b'))%nat
  /\ ObjectPool.valid_objects_ (OrderBook.order_pool_ b)
     ⊆ ObjectPool.valid_objects_ (OrderBook.order_pool_ b').

(** The count of orders, the count of IOC rejections, the tick table and the
    traders' limits are the same. *)
Definition settings_kept `{Env} (b b' : OrderBook.t) : Prop :=
  OrderBook.totalOrders (OrderBook.stats_ b')
  = OrderBook.totalOrders (OrderBook.stats_ b)
  /\ OrderBook.totalIOC_rejected (OrderBook.stats_ b')
     = OrderBook.totalIOC_rejected (OrderBook.stats_ b)
  /\ OrderBook.tick_table_ b' = OrderBook.tick_table_ b
  /\ RiskManager.trader_limits_ (OrderBook.risk_manager_ b')
     = RiskManager.trader_limits_ (OrderBook.risk_manager_ b).

(** Every entry of the index was there before. *)
Definition index_shrunk `{Env} (b b' : OrderBook.t) : Prop :=
  OrderBook.orders_ b' ⊆ OrderBook.orders_ b.

(** Every entry of the index for an id other than [id] was there before. *)
Definition index_shrunk_but `{Env} (id : Z) (b b' : OrderBook.t) : Prop :=
  delete id (OrderBook.orders_ b') ⊆ delete id (OrderBook.orders_ b).

(** An empty book on a fresh arena of [n] slots, with the traders' limits of
    the desk and its breaker, which has tripped. *)
Definition fresh_desk (n : nat) : OrderBook.t :=
  OrderBook.set_pool (ObjectPool.ctor n)
    (OrderBook.set_orders ∅ (OrderBook.set_asks [] own_ask)).

(** The two sides of the book are sorted as their maps sort them, and every
    bid price is below every ask price. *)
Definition book_uncrossed `{Env} (b : OrderBook.t) : Prop :=
  sorted_by Z.gtb (OrderBook.bids_ b)
  /\ sorted_by Z.ltb (OrderBook.asks_ b)
  /\ forall kb ka, In kb (map fst (OrderBook.bids_ b)) ->
                   In ka (map fst (OrderBook.asks_ b)) -> kb < ka.

(** The price levels of [b'] are levels of [b], in the same order. *)
Definition levels_thinned `{Env} (b b' : OrderBook.t) : Prop :=
  map fst (OrderBook.bids_ b') `sublist_of` map fst (OrderBook.bids_ b)
  /\ map fst (OrderBook.asks_ b') `sublist_of` map fst (OrderBook.asks_ b).

(** The book and the trades after a GTC buy of 10 at 99 by owner 2 on
    [own_ask]: the buy rests below the ask at 100. *)
Definition bid_99_rested : OrderBook.t * list Trade.t :=
  Eval vm_compute in
    default (own_ask, [])
      (OrderBook.add_order 100 2 BUY 99 10 10 0 GTC 2 0 0 false own_ask).

(** ** What makes a sweep of the book end *)

(** A resting order the loops can match without overflow and without
    refilling for ever: its slot exists, it shows a quantity that is not
    negative, [remaining - display] does not underflow, and an iceberg with
    quantity left has a positive [display_size]. *)
Definition slot_calm (h : list Order.t) (q : nat) : Prop :=
  (q < length h)%nat
  /\ 0 <= Order.display (deref h q) <= INT64_MAX
  /\ Order.remaining (deref h q) <= INT64_MAX
  /\ INT64_MIN <= Order.remaining (deref h q) - Order.display (deref h q)
  /\ (Order.type (deref h q) = ICEBERG -> 0 < Order.remaining (deref h q) ->
      0 < Order.display_size (deref h q)).

(** One for the order itself and one for each unit it has left. *)
Definition slot_weight (h : list Order.t) (q : nat) : nat :=
  S (Z.to_nat (Order.remaining (deref h q))).

Definition queue_weight (h : list Order.t) (l : list nat) : nat :=
  foldr (fun q acc => (slot_weight h q + acc)%nat) O l.

(** One for each level and the weight of every order resting on it: a
    bound on the rounds the matching loops can make on [book]. *)
Definition book_weight (h : list Order.t) (book : list (Z * PriceLevel.t))
    : nat :=
  foldr (fun entry acc => (S (queue_weight h (queue entry.2)) + acc)%nat)
        O book.

(** The incoming order in slot [order] is about to sweep the side opposite
    to [s]: its slot exists and is not one of the resting orders, and every
    resting order of that side is calm. *)
Definition sweep_ready `{Env} (order : nat) (s : Side) (b : OrderBook.t)
    : Prop :=
  (order < length (OrderBook.heap b))%nat
  /\ Order.display (deref (OrderBook.heap b) order) <= INT64_MAX
  /\ ~ In order (book_slots (OrderBook.opposite s b))
  /\ forall q, In q (book_slots (OrderBook.opposite s b)) ->
               slot_calm (OrderBook.heap b) q.

(** [h'] is [h] after a step of the sweep of [order]: no slot is lost, the
    order shows no more than before, and every other calm slot stays calm
    and weighs no more. *)
Definition tamer (order : nat) (h h' : list Order.t) : Prop :=
  length h' = length h
  /\ Order.display (deref h' order) <= Order.display (deref h order)
  /\ forall q, q <> order -> slot_calm h q ->
               slot_calm h' q /\ (slot_weight h' q <= slot_weight h q)%nat.

(** The book and the slot of a market sell of 12 by owner 5 on
    [iceberg_resting], as [add_order] hands them to [add_market_order]. *)
Definition market_sell_staged : nat * OrderBook.t :=
  Eval vm_compute in
    default (O, own_ask)
      (staged 3 SELL 0 12 12 0 MARKET 5 0 0 false (the iceberg_resting)).

(** The incoming order in slot [order] meets, alone at the best price
    [best_price] of the opposite side, an iceberg of another owner in slot
    [passive] whose [display_size] is 0, which shows less than the order
    asks for and has more than it shows. *)
Definition sweep_stuck `{Env} (order passive : nat) (s : Side)
    (best_price : Z) (b : OrderBook.t) : Prop :=
  order <> passive
  /\ (order < length (OrderBook.heap b))%nat
  /\ (passive < length (OrderBook.heap b))%nat
  /\ Order.ownerID (deref (OrderBook.heap b) order)
     <> Order.ownerID (deref (OrderBook.heap b) passive)
  /\ Order.type (deref (OrderBook.heap b) passive) = ICEBERG
  /\ Order.display_size (deref (OrderBook.heap b) passive) = 0
  /\ 0 <= Order.display (deref (OrderBook.heap b) passive)
  /\ Order.display (deref (OrderBook.heap b) passive)
     < Order.display (deref (OrderBook.heap b) order)
  /\ Order.display (deref (OrderBook.heap b) order) <= INT64_MAX
  /\ Order.display (deref (OrderBook.heap b) passive)
     < Order.remaining (deref (OrderBook.heap b) passive)
  /\ Order.remaining (deref (OrderBook.heap b) passive) <= INT64_MAX
  /\ exists level rest,
       OrderBook.opposite s b = (best_price, level) :: rest
       /\ queue level = [passive].

(** An iceberg sell of 10 at 100 that shows 5 and has [display_size] 0 rests
    (order 1, slot 3); a market buy of 8 by owner 5 is staged on it
    (slot 2). *)
Definition hollow_iceberg_staged : nat * OrderBook.t :=
  Eval vm_compute in
    default (O, own_ask)
      (b ← desk 4;
       b ← submit 1 SELL 100 10 5 0 ICEBERG 1 0 false b;
       staged 3 BUY 0 8 8 0 MARKET 5 0 0 false b).

(** A buy iceberg of 100 at 100 showing 10 that carries the flag
    [is_market_maker] (order 1, slot 3) and a plain buy of 5 at the same
    price that does not (order 2, slot 2). *)
Definition mm_iceberg_resting : OrderBook.t :=
  Eval vm_compute in
    the (b ← desk 4;
         b ← submit 1 BUY 100 100 10 10 ICEBERG 1 0 true b;
         submit 2 BUY 100 5 5 0 GTC 2 0 false b).

(** The book and the slot of a fill-or-kill sell of 10 at 100 by owner 5 on
    [iceberg_resting], as [add_order] hands them to [add_FOK_order]. *)
Definition fok_sell_staged : nat * OrderBook.t :=
  Eval vm_compute in
    default (O, own_ask)
      (staged 3 SELL 100 10 10 0 FOK 5 0 0 false (the iceberg_resting)).

(** [mm_iceberg_resting] in the middle of a sell of 10 by another owner:
    the iceberg has been filled down to [display == 0] and has 90 left. *)
Definition mm_iceberg_filled : OrderBook.t :=
  Eval vm_compute in
    OrderBook.write 3
      (fun o => Order.set_remaining 90 (Order.set_display 0 o))
      mm_iceberg_resting.

(** The book and the slot of a fill-or-kill buy of 5 at 100 by owner 7 on
    [two_asks], as [add_order] hands them to [add_FOK_order]: the front
    passive at 100 (slot 3) belongs to owner 7 as well. *)
Definition fok_buy_staged : nat * OrderBook.t :=
  Eval vm_compute in
    default (O, own_ask)
      (staged 3 BUY 100 5 5 0 FOK 7 0 0 false two_asks).

(** * Properties *)

(** ** Machine integers *)

Lemma wrap64_id (z : Z) : INT64_MIN <= z <= INT64_MAX -> wrap64 z = z.
Proof.
  unfold wrap64, INT64_MIN, INT64_MAX. intros Hz.
  rewrite Z.mod_small; lia.
Qed.

Lemma wrapu64_id (z : Z) : 0 <= z < 2 ^ 64 -> wrapu64 z = z.
Proof. unfold wrapu64. intros Hz. apply Z.mod_small. lia. Qed.

Lemma wrapu64_succ_pred (z : Z) :
  0 <= z < 2 ^ 64 -> wrapu64 (wrapu64 (z + 1) - 1) = z.
Proof.
  unfold wrapu64. intros Hz.
  destruct (Z.eq_dec z (2 ^ 64 - 1)) as [-> | Hne]; [reflexivity |].
  rewrite (Z.mod_small (z + 1)) by lia.
  rewrite Z.mod_small; lia.
Qed.

(** ** The tick table *)

Section TickTable.
Import TickSizeTable.

Lemma default_table_rules :
  default_table =
  [mkRule 1 99 1; mkRule 100 999 1; mkRule 1000 4999 1; mkRule 5000 9999 1;
   mkRule 10000 99999 1; mkRule 100000 499999 5; mkRule 500000 999999 10;
   mkRule 1000000 INT64_MAX 100].
Proof. reflexivity. Qed.

Lemma ctor_default_table : ctor = Some default_table.
Proof. reflexivity. Qed.

Lemma find_default_table (p : Z) :
  0 < p <= INT64_MAX ->
  exists lo hi,
    find (in_rule p) default_table = Some (mkRule lo hi (default_tick p)).
Proof.
  intros Hp. rewrite default_table_rules. unfold default_tick, INT64_MAX in *.
  unfold in_rule. cbn [find min_price max_price].
  assert (Hband : p <= 99 \/ 100 <= p <= 999 \/ 1000 <= p <= 4999
                  \/ 5000 <= p <= 9999 \/ 10000 <= p <= 99999
                  \/ 100000 <= p <= 499999 \/ 500000 <= p <= 999999
                  \/ 1000000 <= p) by lia.
  repeat destruct Hband as [Hband | Hband];
    repeat match goal with
           | |- context [?a >=? ?b] => rewrite (Z.geb_leb a b)
           | |- context [?a <=? ?b] =>
               first [ rewrite (proj2 (Z.leb_le a b)) by lia
                     | rewrite (proj2 (Z.leb_gt a b)) by lia ]
           | |- context [?a <? ?b] =>
               first [ rewrite (proj2 (Z.ltb_lt a b)) by lia
                     | rewrite (proj2 (Z.ltb_ge a b)) by lia ]
           end; cbn [andb]; eauto.
Qed.

Lemma round_to_tick_default (p : Z) :
  0 < p <= INT64_MAX - 50 ->
  round_to_tick default_table p
  = (p + default_tick p / 2) / default_tick p * default_tick p.
Proof.
  intros Hp. unfold round_to_tick.
  destruct (Z.leb_spec p 0) as [? | _]; [lia |].
  destruct (find_default_table p) as (lo & hi & ->);
    [unfold INT64_MAX in *; lia |].
  cbn [tick_size]. unfold mul64, div64, add64.
  assert (Ht : default_tick p = 1 \/ default_tick p = 5
               \/ default_tick p = 10 \/ default_tick p = 100).
  { unfold default_tick. repeat case_match; auto. }
  unfold INT64_MAX in Hp.
  assert (Hq : Z.quot (default_tick p) 2 = default_tick p / 2).
  { apply Z.quot_div_nonneg; lia. }
  rewrite Hq.
  assert (Hh : 0 <= default_tick p / 2 <= 50).
  { destruct Ht as [-> | [-> | [-> | ->]]]; split; by vm_compute. }
  rewrite (wrap64_id (default_tick p / 2)) by (unfold INT64_MIN, INT64_MAX; lia).
  rewrite (wrap64_id (p + _)) by (unfold INT64_MIN, INT64_MAX; lia).
  rewrite Z.quot_div_nonneg by lia.
  assert (Hd : 0 <= (p + default_tick p / 2) / default_tick p
               /\ (p + default_tick p / 2) / default_tick p * default_tick p
                  <= p + default_tick p / 2).
  { split; [apply Z.div_pos; lia |].
    rewrite Z.mul_comm. apply Z.mul_div_le. lia. }
  rewrite (wrap64_id (_ / _)).
  2:{ unfold INT64_MIN, INT64_MAX. split; [lia |].
      apply Z.le_trans with (p + default_tick p / 2); [| lia].
      apply Z.div_le_upper_bound; nia. }
  apply wrap64_id. unfold INT64_MIN, INT64_MAX. nia.
Qed.
End TickTable.

Section TickIdempotent.
Import TickSizeTable.

Lemma round_to_tick_multiple (r : Z) :
  0 < r <= INT64_MAX - 50 -> r mod default_tick r = 0 ->
  round_to_tick default_table r = r.
Proof.
  intros Hr Hm. rewrite round_to_tick_default by done.
  revert Hm. unfold default_tick.
  repeat case_match; intros Hm; Z.div_mod_to_equations; lia.
Qed.

Lemma round_to_tick_in_band (p : Z) :
  0 < p <= ROUND_SAFE_MAX ->
  0 < round_to_tick default_table p <= INT64_MAX - 50
  /\ round_to_tick default_table p
       mod default_tick (round_to_tick default_table p) = 0.
Proof.
  unfold ROUND_SAFE_MAX. intros Hp.
  rewrite round_to_tick_default by (unfold INT64_MAX; lia).
  unfold INT64_MAX.
  set (r := (p + default_tick p / 2) / default_tick p * default_tick p).
  assert (Hr : (default_tick p = 1 /\ r = p)
               \/ (default_tick p = 5 /\ 100000 <= p < 500000
                   /\ r mod 5 = 0 /\ p - 2 <= r <= p + 2)
               \/ (default_tick p = 10 /\ 500000 <= p < 1000000
                   /\ r mod 10 = 0 /\ p - 5 <= r <= p + 5)
               \/ (default_tick p = 100 /\ 1000000 <= p
                   /\ r mod 100 = 0 /\ p - 50 <= r <= p + 50)).
  { subst r. unfold default_tick.
    repeat case_match;
      repeat match goal with
             | Hc : (_ <? _) = _ |- _ =>
                 first [ apply Z.ltb_lt in Hc | apply Z.ltb_ge in Hc ]
             end;
      [left | right; left | right; right; left | right; right; right];
      repeat split; try lia; Z.div_mod_to_equations; lia. }
  destruct Hr as [[Ht ->] | [(Ht & Hb & Hm & Hn) | [(Ht & Hb & Hm & Hn)
                 | (Ht & Hb & Hm & Hn)]]].
  - split; [lia |]. rewrite Ht. apply Z.mod_1_r.
  - split; [lia |]. unfold default_tick.
    repeat case_match; Z.div_mod_to_equations; lia.
  - split; [lia |]. unfold default_tick.
    repeat case_match; Z.div_mod_to_equations; lia.
  - split.
    + Z.div_mod_to_equations. lia.
    + unfold default_tick.
      repeat case_match; Z.div_mod_to_equations; lia.
Qed.

Lemma round_to_tick_nonpos (rules : t) (p : Z) :
  p <= 0 -> round_to_tick rules p = 0.
Proof.
  intros Hp. unfold round_to_tick.
  destruct (Z.leb_spec p 0); [done | lia].
Qed.

Lemma round_to_tick_fixed (p : Z) :
  p <= ROUND_SAFE_MAX ->
  round_to_tick default_table (round_to_tick default_table p)
  = round_to_tick default_table p.
Proof.
  intros Hp. destruct (Z.le_gt_cases p 0) as [Hn | Hpos].
  - rewrite (round_to_tick_nonpos _ p Hn). reflexivity.
  - destruct (round_to_tick_in_band p) as [Hr Hm]; [lia |].
    by apply round_to_tick_multiple.
Qed.

(** C10, as amended: below the overflow of [price + half_tick], rounding
    a rounded price changes nothing, and every non-zero rounded price is a
    valid price. *)
Theorem round_to_tick_idempotent (p : Z) :
  p <= ROUND_SAFE_MAX ->
  round_to_tick default_table (round_to_tick default_table p)
  = round_to_tick default_table p
  /\ (round_to_tick default_table p <> 0 ->
      is_valid_price default_table (round_to_tick default_table p) = true).
Proof.
  intros Hp. split; [by apply round_to_tick_fixed |].
  intros _. unfold is_valid_price. rewrite round_to_tick_fixed by done.
  apply Z.eqb_refl.
Qed.

Lemma round_to_tick_idempotent_witness :
  round_to_tick default_table (round_to_tick default_table 499998)
  = round_to_tick default_table 499998
  /\ (round_to_tick default_table 499998 <> 0 ->
      is_valid_price default_table (round_to_tick default_table 499998) = true).
Proof. apply (round_to_tick_idempotent 499998). by vm_compute. Defined.

(** C10, as stated, fails where [price + half_tick] wraps: the price
    9223372036854775800 is in the last band and a multiple of its tick 100,
    yet [round_to_tick] returns -9223372036854775700 for it, a non-zero
    result that is not a valid price and that rounds to 0. *)
Lemma round_to_tick_not_idempotent :
  round_to_tick default_table
    (round_to_tick default_table 9223372036854775800)
  <> round_to_tick default_table 9223372036854775800
  /\ round_to_tick default_table 9223372036854775800 <> 0
  /\ is_valid_price default_table
       (round_to_tick default_table 9223372036854775800) = false.
Proof. vm_compute. repeat split; discriminate. Qed.
End TickIdempotent.

(** ** The object pool *)

Section Pool.
Context {T : Type} `{PoolItem T}.

(** A null pointer and a pointer the pool never issued leave the pool as
    it is. *)
Lemma release_null (p : ObjectPool.t T) : ObjectPool.release None p = p.
Proof. reflexivity. Qed.

Lemma release_foreign (ptr : nat) (p : ObjectPool.t T) :
  ptr ∉ ObjectPool.valid_objects_ p -> ObjectPool.release (Some ptr) p = p.
Proof.
  intros Hn. unfold ObjectPool.release.
  by rewrite bool_decide_eq_false_2.
Qed.

(** A pointer of the pool is pushed on [available_] whether it is
    allocated or not. *)
Lemma release_issued (ptr : nat) (p : ObjectPool.t T) :
  ptr ∈ ObjectPool.valid_objects_ p ->
  ObjectPool.available_ (ObjectPool.release (Some ptr) p)
  = ptr :: ObjectPool.available_ p
  /\ ObjectPool.allocated_count_ (ObjectPool.release (Some ptr) p)
     = wrapu64 (ObjectPool.allocated_count_ p - 1)
  /\ ObjectPool.pool_ (ObjectPool.release (Some ptr) p)
     = alter reset_item ptr (ObjectPool.pool_ p).
Proof.
  intros Hin. unfold ObjectPool.release.
  by rewrite bool_decide_eq_true_2.
Qed.
End Pool.

(** C8 at its failing input: a pool of two [Order] slots, one [acquire], and
    the handle released twice.  The second [release] receives a handle that is
    not allocated, pushes it on [available_] again and takes
    [allocated_count_] from 0 to 2^64 - 1. *)
Theorem release_twice_corrupts_pool :
  let p0 := ObjectPool.ctor (T := Order.t) 2 in
  let '(obj, p1) := ObjectPool.acquire p0 in
  let p2 := ObjectPool.release obj p1 in
  let p3 := ObjectPool.release obj p2 in
  obj = Some 1%nat
  /\ ObjectPool.available_ p2 = [1%nat; 0%nat]
  /\ ObjectPool.allocated_count_ p2 = 0
  /\ ObjectPool.available_ p3 = [1%nat; 1%nat; 0%nat]
  /\ ObjectPool.allocated_count_ p3 = 18446744073709551615
  /\ p3 <> p2.
Proof. vm_compute. repeat split; discriminate. Qed.

(** Every field [reset_order] assigns is zero afterwards; [side], [type] and
    [is_market_maker] keep the values of the released order. *)
Lemma reset_order_fields (o : Order.t) :
  ObjectPool.reset_order o
  = Order.mk 0 (Order.side o) 0 0 0 0 0 0 (Order.type o) 0 0 false 0
             (Order.is_market_maker o) 0.
Proof. reflexivity. Qed.

Lemma release_resets_slot (ptr : nat) (o : Order.t) (p : ObjectPool.t Order.t) :
  ptr ∈ ObjectPool.valid_objects_ p ->
  ObjectPool.pool_ p !! ptr = Some o ->
  ObjectPool.pool_ (ObjectPool.release (Some ptr) p) !! ptr
  = Some (ObjectPool.reset_order o).
Proof.
  intros Hin Hget. destruct (release_issued ptr p Hin) as (_ & _ & ->).
  rewrite list_lookup_alter_eq, Hget. reflexivity.
Qed.

(** C9 at its failing input: the slot of a live SELL FOK order is released.
    The released slot still reads SELL and FOK (and the flag
    [is_market_maker] it held), where [Order()] gives BUY and GTC. *)
Theorem release_keeps_side_and_type :
  let live := Order.ctor 7 SELL 100 0 10 10 0 FOK 1 0 true 5 in
  let p0 := ObjectPool.ctor (T := Order.t) 1 in
  let '(obj, p1) := ObjectPool.acquire p0 in
  let p2 := ObjectPool.mk (<[0%nat := live]> (ObjectPool.pool_ p1))
              (ObjectPool.available_ p1) (ObjectPool.pool_size_ p1)
              (ObjectPool.allocated_count_ p1) (ObjectPool.valid_objects_ p1) in
  let p3 := ObjectPool.release obj p2 in
  obj = Some 0%nat
  /\ ObjectPool.available_ p3 = [0%nat]
  /\ Order.side (deref (ObjectPool.pool_ p3) 0) = SELL
  /\ Order.type (deref (ObjectPool.pool_ p3) 0) = FOK
  /\ Order.is_market_maker (deref (ObjectPool.pool_ p3) 0) = true
  /\ forall mm sid, deref (ObjectPool.pool_ p3) 0 <> Order.default_ctor mm sid.
Proof. vm_compute. repeat split; intros; discriminate. Qed.

(** ** The stop manager *)

Section StopManager.
Import StopOrderManager.

Lemma sorted_by_tail {V : Type} (before : Z -> Z -> bool) (e : Z * V)
    (m : list (Z * V)) :
  sorted_by before (e :: m) -> sorted_by before m.
Proof. unfold sorted_by. cbn [map]. by inversion 1. Qed.

Lemma sorted_by_filter {V : Type} (before : Z -> Z -> bool)
    (f : Z * V -> bool) (m : list (Z * V)) :
  sorted_by before m -> sorted_by before (List.filter f m).
Proof.
  unfold sorted_by. induction m as [| e m IH]; cbn [List.filter map];
    intros Hs; [constructor |].
  inversion Hs as [| ? ? Hs' Hall]; subst.
  destruct (f e); cbn [map]; [| by apply IH].
  constructor; [by apply IH |].
  rewrite List.Forall_forall in *. intros k Hk. apply Hall.
  apply in_map_iff in Hk as (x & <- & Hx).
  apply in_map. by apply filter_In in Hx as [? _].
Qed.

Lemma sorted_keys_above {V : Type} (k : Z) (e : Z * V) (m : list (Z * V)) :
  sorted_by Z.ltb (e :: m) -> k <= e.1 ->
  Forall (fun b : Z * V => k < b.1) m.
Proof.
  unfold sorted_by. cbn [map]. inversion 1 as [| ? ? _ Hall]; subst.
  intros Hk. rewrite List.Forall_forall in *. intros b Hb.
  specialize (Hall b.1 (in_map fst _ _ Hb)). apply Z.ltb_lt in Hall. lia.
Qed.

Lemma filter_all {V : Type} (f : Z * V -> bool) (m : list (Z * V)) :
  Forall (fun b => f b = true) m -> List.filter f m = m.
Proof.
  induction 1 as [| b m Hb _ IH]; cbn [List.filter]; [done |].
  by rewrite Hb, IH.
Qed.

Lemma filter_none {V : Type} (f : Z * V -> bool) (m : list (Z * V)) :
  Forall (fun b => f b = false) m -> List.filter f m = [].
Proof.
  induction 1 as [| b m Hb _ IH]; cbn [List.filter]; [done |].
  by rewrite Hb, IH.
Qed.

(** On a sorted map the iterator range [begin(), upper_bound(k)) holds the
    entries with key at most [k], and the rest those above. *)
Lemma upper_bound_split {V : Type} (k : Z) (m : list (Z * V)) :
  sorted_by Z.ltb m ->
  take (OMap.upper_bound k m) m = List.filter (fun b => b.1 <=? k) m
  /\ drop (OMap.upper_bound k m) m = List.filter (fun b => k <? b.1) m.
Proof.
  induction m as [| [k' v] m IH]; intros Hs; [done |].
  cbn [OMap.upper_bound List.filter fst].
  destruct (Z.ltb_spec k k') as [Hlt | Hge].
  - rewrite (proj2 (Z.leb_gt k' k)) by lia. cbn [take drop].
    pose proof (sorted_keys_above (k + 1) _ _ Hs ltac:(cbn; lia)) as Hall.
    split.
    + symmetry. apply filter_none.
      eapply Forall_impl; [exact Hall |]. cbn. intros b Hb.
      apply Z.leb_gt. lia.
    + f_equal. symmetry. apply filter_all.
      eapply Forall_impl; [exact Hall |]. cbn. intros b Hb.
      apply Z.ltb_lt. lia.
  - rewrite (proj2 (Z.leb_le k' k)) by lia. cbn [take drop].
    destruct (IH (sorted_by_tail _ _ _ Hs)) as [-> ->]. done.
Qed.

(** ... and [lower_bound(k), end()) holds the entries with key at least
    [k]. *)
Lemma lower_bound_split {V : Type} (k : Z) (m : list (Z * V)) :
  sorted_by Z.ltb m ->
  take (OMap.lower_bound k m) m = List.filter (fun b => b.1 <? k) m
  /\ drop (OMap.lower_bound k m) m = List.filter (fun b => k <=? b.1) m.
Proof.
  induction m as [| [k' v] m IH]; intros Hs; [done |].
  cbn [OMap.lower_bound List.filter fst].
  destruct (Z.leb_spec k k') as [Hle | Hgt].
  - rewrite (proj2 (Z.ltb_ge k' k)) by lia. cbn [take drop].
    pose proof (sorted_keys_above k _ _ Hs ltac:(cbn; lia)) as Hall.
    split.
    + symmetry. apply filter_none.
      eapply Forall_impl; [exact Hall |]. cbn. intros b Hb.
      apply Z.ltb_ge. lia.
    + f_equal. symmetry. apply filter_all.
      eapply Forall_impl; [exact Hall |]. cbn. intros b Hb.
      apply Z.leb_le. lia.
  - rewrite (proj2 (Z.ltb_lt k' k)) by lia. cbn [take drop].
    destruct (IH (sorted_by_tail _ _ _ Hs)) as [-> ->]. done.
Qed.

Lemma erase_ids_cons (heap : list Order.t) (o : nat) (orders : list nat)
    (lookup : gmap Z nat) :
  erase_ids heap (o :: orders) lookup
  = erase_ids heap orders (delete (Order.id (deref heap o)) lookup).
Proof. reflexivity. Qed.

Lemma fire_bucket (heap : list Order.t) (bucket : list nat)
    (acc : list nat * gmap Z nat) :
  foldl (fun a' order =>
           (a'.1 ++ [order], delete (Order.id (deref heap order)) a'.2))
        acc bucket
  = (acc.1 ++ bucket, erase_ids heap bucket acc.2).
Proof.
  revert acc. induction bucket as [| o bucket IH]; intros [l m]; cbn.
  - by rewrite app_nil_r.
  - rewrite IH. cbn. by rewrite <- app_assoc.
Qed.

Lemma erase_ids_app (heap : list Order.t) (l1 l2 : list nat)
    (lookup : gmap Z nat) :
  erase_ids heap (l1 ++ l2) lookup = erase_ids heap l2 (erase_ids heap l1 lookup).
Proof. unfold erase_ids. apply foldl_app. Qed.

Lemma fire_spec (heap : list Order.t) (buckets : list (Z * list nat))
    (acc : list nat * gmap Z nat) :
  fire heap buckets acc
  = (acc.1 ++ bucket_orders buckets,
     erase_ids heap (bucket_orders buckets) acc.2).
Proof.
  unfold fire, bucket_orders.
  revert acc. induction buckets as [| [k bucket] buckets IH]; intros [l m].
  - cbn. by rewrite app_nil_r.
  - cbn [foldl map concat snd]. rewrite fire_bucket, IH. cbn [fst snd].
    by rewrite <- app_assoc, erase_ids_app.
Qed.

Lemma erase_ids_absent (heap : list Order.t) (orders : list nat)
    (lookup : gmap Z nat) (k : Z) :
  lookup !! k = None -> erase_ids heap orders lookup !! k = None.
Proof.
  revert lookup. induction orders as [| o orders IH]; intros lookup Hk; [done |].
  rewrite erase_ids_cons. apply IH.
  rewrite lookup_delete. by case_decide.
Qed.

Lemma erase_ids_lookup (heap : list Order.t) (orders : list nat)
    (lookup : gmap Z nat) (order : nat) :
  order ∈ orders ->
  erase_ids heap orders lookup !! Order.id (deref heap order) = None.
Proof.
  revert lookup. induction orders as [| o orders IH]; intros lookup Hin.
  - by apply elem_of_nil in Hin.
  - rewrite erase_ids_cons.
    apply elem_of_cons in Hin as [-> | Hin]; [| by apply IH].
    apply erase_ids_absent, lookup_delete_eq.
Qed.

Lemma erase_ids_other (heap : list Order.t) (orders : list nat)
    (lookup : gmap Z nat) (k : Z) :
  (forall order, order ∈ orders -> Order.id (deref heap order) <> k) ->
  erase_ids heap orders lookup !! k = lookup !! k.
Proof.
  revert lookup. induction orders as [| o orders IH]; intros lookup Hk; [done |].
  rewrite erase_ids_cons, IH.
  - apply lookup_delete_ne. apply Hk. by left.
  - intros order Hin. apply Hk. by right.
Qed.

(** C4, as amended: the returned vector holds the orders of the buy buckets
    with key at most the last trade price, then those of the sell buckets
    with key at least that price, both ranges in ascending order of stop
    price and each bucket in arrival order; the buckets that fired leave
    the two maps, and the ids of the returned orders leave the lookup. *)
Theorem check_triggered_stops_ascending (heap : list Order.t)
    (last_trade_price : Z) (sm : t) :
  sorted_by Z.ltb (buy_stops_ sm) ->
  sorted_by Z.ltb (sell_stops_ sm) ->
  let fired_buy :=
    List.filter (fun b => b.1 <=? last_trade_price) (buy_stops_ sm) in
  let fired_sell :=
    List.filter (fun b => last_trade_price <=? b.1) (sell_stops_ sm) in
  let result := check_triggered_stops heap last_trade_price sm in
  result.1 = bucket_orders fired_buy ++ bucket_orders fired_sell
  /\ sorted_by Z.ltb fired_buy
  /\ sorted_by Z.ltb fired_sell
  /\ buy_stops_ result.2
     = List.filter (fun b => last_trade_price <? b.1) (buy_stops_ sm)
  /\ sell_stops_ result.2
     = List.filter (fun b => b.1 <? last_trade_price) (sell_stops_ sm)
  /\ (forall order, order ∈ result.1 ->
        stop_lookup_ result.2 !! Order.id (deref heap order) = None)
  /\ (forall k, (forall order, order ∈ result.1 ->
                   Order.id (deref heap order) <> k) ->
        stop_lookup_ result.2 !! k = stop_lookup_ sm !! k).
Proof.
  intros Hb Hs. cbn zeta. unfold check_triggered_stops.
  destruct (upper_bound_split last_trade_price _ Hb) as [-> ->].
  destruct (lower_bound_split last_trade_price _ Hs) as [-> ->].
  rewrite !fire_spec. cbn [fst snd buy_stops_ sell_stops_ stop_lookup_].
  rewrite <- erase_ids_app.
  repeat split; try by apply sorted_by_filter.
  - intros order Hin. by apply erase_ids_lookup.
  - intros k Hk. by apply erase_ids_other.
Qed.

Lemma check_triggered_stops_ascending_witness :
  let sm := mk [(90, [1%nat])] [(100, [3%nat]); (101, [2%nat])] ∅ in
  sorted_by Z.ltb (buy_stops_ sm)
  /\ sorted_by Z.ltb (sell_stops_ sm)
  /\ (check_triggered_stops [] 100 sm).1 = [1%nat; 3%nat; 2%nat].
Proof.
  cbn zeta.
  assert (Hb : sorted_by (V := list nat) Z.ltb [(90, [1%nat])])
    by repeat constructor.
  assert (Hs : sorted_by (V := list nat) Z.ltb
                 [(100, [3%nat]); (101, [2%nat])])
    by repeat constructor.
  split; [exact Hb |]. split; [exact Hs |].
  exact (proj1 (check_triggered_stops_ascending []
                  100 (mk [(90, [1%nat])] [(100, [3%nat]); (101, [2%nat])] ∅)
                  Hb Hs)).
Defined.

(** C4, as stated, fails on the sell side: with sell stops at 100 and 101
    and a last trade at 100, the stop at 100 is returned before the stop at
    101, ascending, where the claim puts the higher stop first. *)
Lemma sell_stops_fire_ascending :
  match two_sell_stops with
  | Some b =>
      let sm := OrderBook.stop_manager_ b in
      sell_stops_ sm = [(100, [3%nat]); (101, [2%nat])]
      /\ (check_triggered_stops (OrderBook.heap b) 100 sm).1 = [3%nat; 2%nat]
      /\ triggered_as_specified 100 sm = [2%nat; 3%nat]
      /\ (check_triggered_stops (OrderBook.heap b) 100 sm).1
         <> triggered_as_specified 100 sm
  | None => False
  end.
Proof. vm_compute. repeat split; discriminate. Qed.
End StopManager.

(** ** Reading and writing slots *)

Section Heap.
Lemma deref_lookup (h : list Order.t) (p : nat) (o : Order.t) :
  h !! p = Some o -> deref h p = o.
Proof. unfold deref. by intros ->. Qed.

Lemma deref_alter_eq (h : list Order.t) (p : nat) (f : Order.t -> Order.t) :
  (p < length h)%nat -> deref (alter f p h) p = f (deref h p).
Proof.
  intros Hp. unfold deref. rewrite list_lookup_alter_eq.
  destruct (lookup_lt_is_Some_2 h p Hp) as [o ->]. reflexivity.
Qed.

Lemma deref_alter_ne (h : list Order.t) (p q : nat) (f : Order.t -> Order.t) :
  p <> q -> deref (alter f p h) q = deref h q.
Proof. intros Hne. unfold deref. by rewrite list_lookup_alter_ne. Qed.

(** A pointer through which a non-default order is read is a slot. *)
Lemma deref_in_range (h : list Order.t) (p : nat) :
  deref h p <> Order.default_ctor false 0 -> (p < length h)%nat.
Proof.
  intros Hne. apply lookup_lt_is_Some.
  unfold deref in Hne. destruct (h !! p); [eauto | done].
Qed.
End Heap.

(** ** Ordered maps *)

Section OMapFacts.
Context {V : Type}.

Lemma find_update_eq (k : Z) (v v0 : V) (m : list (Z * V)) :
  OMap.find k m = Some v0 -> OMap.find k (OMap.update k v m) = Some v.
Proof.
  induction m as [| [k' v'] m IH]; cbn; [done |].
  destruct (Z.eqb_spec k k') as [-> | Hne]; cbn.
  - by rewrite Z.eqb_refl.
  - intros Hf. destruct (Z.eqb_spec k k'); [done | by apply IH].
Qed.

Lemma find_update_ne (k k1 : Z) (v : V) (m : list (Z * V)) :
  k <> k1 -> OMap.find k1 (OMap.update k v m) = OMap.find k1 m.
Proof.
  intros Hne. induction m as [| [k' v'] m IH]; cbn; [done |].
  destruct (Z.eqb_spec k k') as [-> | Hne']; cbn.
  - destruct (Z.eqb_spec k1 k'); [congruence | done].
  - by rewrite IH.
Qed.
End OMapFacts.

(** ** The iceberg refill *)

Section Iceberg.
Import OrderBook.
Context `{Env}.

Lemma handle_iceberg_refill_refills (h : list Order.t) (order : nat)
    (level : PriceLevel.t) :
  let o := deref h order in
  let d := Z.min (Order.remaining o) (Order.display_size o) in
  let o' := Order.set_remaining (sub64 (Order.remaining o) d)
              (Order.set_display d o) in
  Order.type o = ICEBERG -> 0 < Order.remaining o ->
  handle_iceberg_refill h order level
  = (true, <[order := o']> h,
     if Order.is_market_maker o
     then PriceLevel.mk (PriceLevel.mm_orders level ++ [order])
                        (PriceLevel.regular_orders level)
     else PriceLevel.mk (PriceLevel.mm_orders level)
                        (PriceLevel.regular_orders level ++ [order])).
Proof.
  cbn zeta. intros Ht Hr. unfold handle_iceberg_refill.
  rewrite Ht, bool_decide_eq_true_2 by done.
  rewrite Z.gtb_ltb, (proj2 (Z.ltb_lt _ _)) by lia. cbn [andb].
  assert (Hin : (order < length h)%nat).
  { apply deref_in_range. intros Hd. by rewrite Hd in Ht. }
  destruct (lookup_lt_is_Some_2 h order Hin) as [o Ho].
  rewrite (deref_lookup _ _ _ Ho) in *.
  set (d := Z.min (Order.remaining o) (Order.display_size o)).
  assert (Hh : alter (fun o1 => Order.set_remaining
                        (sub64 (Order.remaining o1) (Order.display o1)) o1)
                 order (alter (Order.set_display d) order h)
               = <[order := Order.set_remaining (sub64 (Order.remaining o) d)
                              (Order.set_display d o)]> h).
  { apply list_eq. intros i. destruct (decide (i = order)) as [-> | Hne].
    - rewrite !list_lookup_alter_eq, Ho, list_lookup_insert_eq by done.
      reflexivity.
    - rewrite !list_lookup_alter_ne, list_lookup_insert_ne by done.
      reflexivity. }
  rewrite Hh. unfold PriceLevel.add_order.
  rewrite (deref_lookup _ _ (Order.set_remaining (sub64 (Order.remaining o) d)
                               (Order.set_display d o)))
    by (by apply list_lookup_insert_eq).
  reflexivity.
Qed.

Lemma handle_iceberg_refill_done (h : list Order.t) (order : nat)
    (level : PriceLevel.t) :
  Order.remaining (deref h order) <= 0 ->
  handle_iceberg_refill h order level = (false, h, level).
Proof.
  intros Hr. unfold handle_iceberg_refill.
  rewrite Z.gtb_ltb, (proj2 (Z.ltb_ge _ _)) by lia.
  by rewrite andb_false_r.
Qed.
End Iceberg.

Section IcebergBlock.
Import OrderBook.
Context `{Env}.

Lemma set_heap_heap (b : t) : set_heap (heap b) b = b.
Proof. destruct b as [? ? ? [] ? ? ? ? ? ? ? ?]. reflexivity. Qed.
End IcebergBlock.

(** ** Tick compliance of what rests on the book *)

(** The [price] member of an order that [add_order] has normalised is a valid
    price, for a limit price that is positive and below the overflow. *)
Lemma normalize_price_valid (type : OrderType) (price stop_price : Z)
    (o : Order.t) :
  type <> MARKET -> 0 < price <= ROUND_SAFE_MAX ->
  TickSizeTable.is_valid_price TickSizeTable.default_table
    (Order.price (OrderBook.normalize TickSizeTable.default_table type price
                    stop_price o)) = true.
Proof.
  intros Ht Hp. unfold OrderBook.normalize.
  rewrite bool_decide_eq_false_2 by done.
  rewrite !Z.gtb_ltb, (proj2 (Z.ltb_lt 0 price)) by lia. cbn [negb andb].
  destruct (round_to_tick_in_band price Hp) as [Hr _].
  rewrite (proj2 (Z.ltb_lt 0 (TickSizeTable.round_to_tick _ price))) by lia.
  assert (Hv : TickSizeTable.is_valid_price TickSizeTable.default_table
                 (TickSizeTable.round_to_tick TickSizeTable.default_table price)
               = true).
  { unfold TickSizeTable.is_valid_price.
    rewrite round_to_tick_fixed by lia. apply Z.eqb_refl. }
  by repeat case_match.
Qed.

(** C1 at its failing input: a GTC buy at 100002.  The order's [price] member
    is rounded to 100000, but [add_order] files the order under the raw
    parameter: the key of the bid level is 100002, which [round_to_tick] does
    not fix.  [cancel_order] looks for the level at the order's price 100000,
    finds none, and releases the slot while the level still points to it. *)
Theorem unaligned_price_keys_the_level :
  let b := the unaligned_bid in
  let rules := OrderBook.tick_table_ b in
  OrderBook.bids_ b = [(100002, PriceLevel.mk [] [3%nat])]
  /\ TickSizeTable.round_to_tick rules 100002 = 100000
  /\ TickSizeTable.is_valid_price rules 100002 = false
  /\ Order.price (deref (OrderBook.heap b) 3) = 100000
  /\ OrderBook.orders_ b !! 1 = Some 3%nat
  /\ (OrderBook.cancel_order 1 b).1 = true
  /\ OrderBook.bids_ (OrderBook.cancel_order 1 b).2
     = [(100002, PriceLevel.mk [] [3%nat])]
  /\ ObjectPool.available_ (OrderBook.order_pool_ (OrderBook.cancel_order 1 b).2)
     = [3%nat; 2%nat; 1%nat; 0%nat].
Proof. by vm_compute. Qed.

(** ** The first part of [add_order] *)

Section Staged.
Import OrderBook.
Context `{Env}.

Lemma normalize_fields (rules : TickSizeTable.t) (type : OrderType)
    (price stop_price : Z) (o : Order.t) :
  let o' := normalize rules type price stop_price o in
  Order.id o' = Order.id o /\ Order.side o' = Order.side o
  /\ Order.quantity o' = Order.quantity o
  /\ Order.remaining o' = Order.remaining o
  /\ Order.display o' = Order.display o
  /\ Order.display_size o' = Order.display_size o
  /\ Order.type o' = Order.type o /\ Order.ownerID o' = Order.ownerID o
  /\ Order.is_market_maker o' = Order.is_market_maker o.
Proof. unfold normalize. by repeat case_match. Qed.

Lemma normalize_price_stable (rules : TickSizeTable.t) (type : OrderType)
    (price stop_price : Z) (o : Order.t) :
  Order.price o = price ->
  price <= 0 \/ TickSizeTable.round_to_tick rules price = price ->
  Order.price (normalize rules type price stop_price o) = price.
Proof.
  intros Ho Hp. unfold normalize.
  repeat case_match; cbn; try done;
    destruct Hp as [Hp | Hp]; try done;
    repeat match goal with
           | Hc : _ && _ = true |- _ => apply andb_prop in Hc as [? ?]
           | Hc : (_ >? _) = true |- _ => apply Z.gtb_lt in Hc
           end; lia.
Qed.

(** What [staged] says of the slot and of the book it returns. *)
Lemma staged_inv (id : Z) (side : Side) (price qty disp display_size : Z)
    (type : OrderType) (ownerID stop_price session_id : Z) (mm : bool)
    (b b2 : t) (p : nat) :
  staged id side price qty disp display_size type ownerID stop_price
         session_id mm b = Some (p, b2) ->
  pool_ok (order_pool_ b) = true ->
  let o := normalize (tick_table_ b) type price stop_price
             (Order.ctor id side price stop_price qty disp display_size type
                         ownerID session_id mm (now (ticks_ b))) in
  p = next_slot (order_pool_ b)
  /\ bids_ b2 = bids_ b /\ asks_ b2 = asks_ b /\ orders_ b2 = orders_ b
  /\ stop_manager_ b2 = stop_manager_ b
  /\ processing_stops_ b2 = processing_stops_ b
  /\ stop_cascade_depth_ b2 = stop_cascade_depth_ b
  /\ fills_ b2 = fills_ b
  /\ tick_table_ b2 = tick_table_ b
  /\ heap b2 !! p = Some o
  /\ (forall q, q <> p -> deref (heap b2) q = deref (heap b) q)
  /\ p ∈ ObjectPool.valid_objects_ (order_pool_ b2)
  /\ ObjectPool.allocated_count_ (order_pool_ b2)
     = wrapu64 (ObjectPool.allocated_count_ (order_pool_ b) + 1)
  /\ ObjectPool.available_ (order_pool_ b2)
     = tail (ObjectPool.available_ (order_pool_ b))
  /\ 0 <= ObjectPool.allocated_count_ (order_pool_ b) < 2 ^ 64.
Proof.
  unfold staged, pool_ok, next_slot. intros Hs Hok.
  apply andb_prop in Hok as [Hok Hlt]. apply andb_prop in Hok as [Hav Hge].
  apply Z.leb_le in Hge. apply Z.ltb_lt in Hlt.
  destruct b as [bids asks orders [pool avail psize alloc valid] rm sm rules
                 proc depth stats ticks fills].
  cbn in *.
  unfold ObjectPool.acquire in Hs. cbn in Hs.
  destruct avail as [| ptr rest]; cbn in Hs.
  - match type of Hs with
    | context [RiskManager.check_order ?o ?k ?r] =>
        destruct (RiskManager.check_order o k r) as [[res rm'] ticks'] eqn:Hc
    end.
    destruct res; try discriminate. injection Hs as <- <-. cbn.
    assert (Hl : (length pool < length (pool ++ [make_unique]))%nat).
    { rewrite length_app. cbn. lia. }
    repeat split; try done; try lia.
    + rewrite list_lookup_alter_eq, lookup_app_r, Nat.sub_diag by done.
      reflexivity.
    + intros q Hq. rewrite deref_alter_ne by done.
      unfold deref. destruct (decide (q < length pool)%nat).
      * by rewrite lookup_app_l.
      * rewrite lookup_app_r by lia.
        rewrite (lookup_ge_None_2 pool q) by lia.
        destruct (q - length pool)%nat as [| n'] eqn:Hn'; [lia |]. done.
    + set_solver.
  - cbn in Hav. apply andb_prop in Hav as [Hptr Hav].
    apply andb_prop in Hptr as [Hin Hlen].
    apply bool_decide_eq_true_1 in Hin. apply Nat.ltb_lt in Hlen.
    match type of Hs with
    | context [RiskManager.check_order ?o ?k ?r] =>
        destruct (RiskManager.check_order o k r) as [[res rm'] ticks'] eqn:Hc
    end.
    destruct res; try discriminate. injection Hs as <- <-. cbn.
    repeat split; try done; try lia.
    + rewrite list_lookup_alter_eq.
      destruct (lookup_lt_is_Some_2 pool ptr Hlen) as [o0 ->]. reflexivity.
    + intros q Hq. by rewrite deref_alter_ne.
Qed.
End Staged.

(** ** Fill-or-kill *)

Section FillOrKill.
Import OrderBook.
Context `{Env}.

Lemma sumZ_app (l1 l2 : list Z) : sumZ (l1 ++ l2) = sumZ l1 + sumZ l2.
Proof. unfold sumZ. induction l1 as [| x l1 IH]; cbn; lia. Qed.

Lemma sumZ_one (x : Z) : sumZ [x] = x.
Proof. unfold sumZ. cbn. lia. Qed.

Lemma check_orders_sum (h : list Order.t) (order : nat) (orders : list nat)
    (needed : Z) (candidates : list (nat * Z)) :
  0 <= needed <= INT64_MAX ->
  (forall p, In p orders -> 0 <= Order.display (deref h p)) ->
  let r := check_orders h order orders needed candidates in
  0 <= r.1.2 <= needed
  /\ sumZ (map snd r.2) = sumZ (map snd candidates) + (needed - r.1.2)
  /\ (r.1.1 = true -> r.1.2 <= 0).
Proof.
  revert needed candidates.
  induction orders as [| passive rest IH]; intros needed candidates Hn Hd; cbn.
  - repeat split; try lia; try discriminate.
  - destruct (_ =? _).
    + apply IH; [done | intros q Hq; apply Hd; by right].
    + assert (Hp : 0 <= Order.display (deref h passive)) by (apply Hd; by left).
      set (available := Z.min needed (Order.display (deref h passive))).
      assert (Ha : 0 <= available <= needed) by (unfold available; lia).
      unfold sub64. rewrite wrap64_id by (unfold INT64_MIN, INT64_MAX in *; lia).
      destruct (Z.leb_spec (needed - available) 0) as [Hz | Hz]; cbn.
      * rewrite map_app, sumZ_app. cbn [map snd]. rewrite sumZ_one.
        repeat split; lia.
      * specialize (IH (needed - available) (candidates ++ [(passive, available)])
                       ltac:(lia) ltac:(intros q Hq; apply Hd; by right)).
        cbn zeta in IH. destruct IH as (Hr & Hsum & Hf).
        rewrite map_app, sumZ_app in Hsum. cbn [map snd] in Hsum.
        rewrite sumZ_one in Hsum.
        repeat split; try lia. exact Hf.
Qed.

Lemma displays_ok_cons (h : list Order.t) (k : Z) (level : PriceLevel.t)
    (book : list (Z * PriceLevel.t)) :
  displays_ok h ((k, level) :: book) = true ->
  (forall p, In p (PriceLevel.mm_orders level) -> 0 <= Order.display (deref h p))
  /\ (forall p, In p (PriceLevel.regular_orders level) ->
        0 <= Order.display (deref h p))
  /\ displays_ok h book = true.
Proof.
  unfold displays_ok. cbn [forallb snd]. intros Hd.
  apply andb_prop in Hd as [Hl Hb].
  rewrite forallb_forall in Hl. unfold queue in Hl.
  repeat split; [| | exact Hb]; intros p Hp; apply Z.leb_le, Hl, in_or_app;
    auto.
Qed.

Lemma probe_sum (h : list Order.t) (order : nat) (s : Side)
    (book : list (Z * PriceLevel.t)) (needed : Z)
    (candidates : list (nat * Z)) :
  0 <= needed <= INT64_MAX -> displays_ok h book = true ->
  let r := probe h order s book needed candidates in
  0 <= r.1 <= needed
  /\ sumZ (map snd r.2) = sumZ (map snd candidates) + (needed - r.1).
Proof.
  revert needed candidates.
  induction book as [| [price_level level] rest IH];
    intros needed candidates Hn Hd; cbn [probe].
  - cbn. lia.
  - apply displays_ok_cons in Hd as (Hmm & Hreg & Hrest).
    destruct (match s with BUY => _ | SELL => _ end); [cbn; lia |].
    pose proof (check_orders_sum h order (PriceLevel.mm_orders level) needed
                  candidates Hn Hmm) as Hc1.
    destruct (check_orders h order (PriceLevel.mm_orders level) needed
                           candidates) as [[found needed1] candidates1].
    cbn [fst snd] in Hc1. destruct Hc1 as (Hr1 & Hs1 & Hf1).
    assert (Hn1 : 0 <= needed1 <= INT64_MAX) by lia.
    destruct (negb found && (needed1 >? 0)) eqn:Hgo.
    + pose proof (check_orders_sum h order (PriceLevel.regular_orders level)
                    needed1 candidates1 Hn1 Hreg) as Hc2.
      destruct (check_orders h order (PriceLevel.regular_orders level) needed1
                             candidates1) as [[found2 needed2] candidates2].
      cbn [fst snd] in Hc2. destruct Hc2 as (Hr2 & Hs2 & _).
      destruct (Z.leb_spec needed2 0); cbn [fst snd]; [lia |].
      specialize (IH needed2 candidates2 ltac:(lia) Hrest).
      cbn zeta in IH. lia.
    + destruct (Z.leb_spec needed1 0); cbn [fst snd]; [lia |].
      specialize (IH needed1 candidates1 ltac:(lia) Hrest).
      cbn zeta in IH. lia.
Qed.

Lemma commit_one_quantity (order passive : nat) (qty : Z) (b : t) :
  Trade.quantity (commit_one order passive qty b).1 = qty.
Proof.
  unfold commit_one, execute_trade. cbn zeta.
  repeat case_match; simplify_eq; reflexivity.
Qed.

Lemma commit_quantities (order : nat) (candidates : list (nat * Z)) (b : t)
    (trades : list Trade.t) :
  map Trade.quantity (commit order candidates b trades).2
  = map Trade.quantity trades ++ map snd candidates.
Proof.
  revert b trades.
  induction candidates as [| [passive qty] rest IH]; intros b trades;
    cbn [commit map snd].
  - by rewrite app_nil_r.
  - pose proof (commit_one_quantity order passive qty b) as Hq.
    destruct (commit_one order passive qty b) as [trade b1]. cbn [fst] in Hq.
    rewrite IH, map_app. cbn [map]. rewrite Hq. by rewrite <- app_assoc.
Qed.
End FillOrKill.

Section FillOrKillCall.
Import OrderBook.
Context `{Env}.

Lemma add_order_FOK (fuel : nat) (id : Z) (side : Side) (price qty disp
    display_size ownerID stop_price session_id : Z) (mm : bool) (b b2 : t)
    (p : nat) :
  staged id side price qty disp display_size FOK ownerID stop_price
         session_id mm b = Some (p, b2) ->
  add_order fuel id side price qty disp display_size FOK ownerID stop_price
            session_id mm b
  = process_triggered_stops fuel
      (release p (if (add_FOK_order p b2 []).1.1
                  then set_stats (tally (add_FOK_order p b2 []).2
                                        (stats_ (add_FOK_order p b2 []).1.2))
                                 (add_FOK_order p b2 []).1.2
                  else (add_FOK_order p b2 []).1.2))
      (add_FOK_order p b2 []).2.
Proof.
  unfold staged, add_order. intros Hs.
  destruct (ObjectPool.acquire _) as [[ptr |] pool1]; [| discriminate].
  destruct (RiskManager.check_order _ _ _) as [[res rm] ticks].
  destruct res; try discriminate. injection Hs as <- <-.
  by destruct (add_FOK_order _ _ _) as [[filled b3] trades].
Qed.

Lemma process_triggered_stops_nil (fuel : nat) (b : t) :
  process_triggered_stops fuel b [] = Some (b, []).
Proof. reflexivity. Qed.

End FillOrKillCall.


(** ** Cancel after add *)

Section OMapIndex.
Context {V : Type}.

Lemma find_In (k : Z) (v : V) (m : list (Z * V)) :
  OMap.find k m = Some v -> In k (map fst m).
Proof.
  induction m as [| [k' v'] m IH]; cbn; [done |].
  destruct (Z.eqb_spec k k') as [-> | Hne]; [by left | right; by apply IH].
Qed.

Lemma erase_index_absent (before : Z -> Z -> bool) (k : Z) (d v : V)
    (m : list (Z * V)) :
  OMap.find k m = None ->
  OMap.find k (OMap.index before k d m) = Some d
  /\ OMap.erase k (OMap.update k v (OMap.index before k d m)) = m.
Proof.
  induction m as [| [k' v'] m IH]; cbn.
  - intros _. rewrite !Z.eqb_refl. cbn. by rewrite Z.eqb_refl.
  - destruct (Z.eqb_spec k k') as [-> | Hne]; [done |]. intros Hf.
    destruct (before k k'); cbn.
    + rewrite !Z.eqb_refl. cbn. by rewrite Z.eqb_refl.
    + destruct (Z.eqb_spec k k'); [done |]. cbn.
      destruct (Z.eqb_spec k k'); [done |].
      destruct (IH Hf) as [-> ->]. done.
Qed.

Lemma index_present (before : Z -> Z -> bool) (k : Z) (d v : V)
    (m : list (Z * V)) :
  (forall a, before a a = false) ->
  (forall a c, before a c = true -> before c a = false) ->
  sorted_by before m -> OMap.find k m = Some v -> OMap.index before k d m = m.
Proof.
  intros Hirr Hasym. induction m as [| [k' v'] m IH]; cbn; [done |].
  intros Hs Hf. inversion Hs as [| ? ? Hs' Hall]; subst.
  destruct (Z.eqb_spec k k') as [-> | Hne].
  - by rewrite Hirr.
  - destruct (before k k') eqn:Hb.
    + apply find_In in Hf. rewrite List.Forall_forall in Hall.
      specialize (Hall k Hf). apply Hasym in Hall. congruence.
    + f_equal. by apply IH.
Qed.

Lemma update_update (k : Z) (v v' : V) (m : list (Z * V)) :
  OMap.update k v (OMap.update k v' m) = OMap.update k v m.
Proof.
  induction m as [| [k' v0] m IH]; cbn; [done |].
  destruct (Z.eqb_spec k k') as [-> | Hne]; cbn.
  - by rewrite Z.eqb_refl.
  - destruct (Z.eqb_spec k k'); [done |]. by rewrite IH.
Qed.

Lemma update_id (k : Z) (v : V) (m : list (Z * V)) :
  OMap.find k m = Some v -> OMap.update k v m = m.
Proof.
  induction m as [| [k' v0] m IH]; cbn; [done |].
  destruct (Z.eqb_spec k k') as [-> | Hne].
  - by intros [= ->].
  - intros Hf. by rewrite IH.
Qed.
End OMapIndex.

Lemma own_before_irrefl (s : Side) (a : Z) : OrderBook.own_before s a a = false.
Proof. destruct s; cbn; lia. Qed.

Lemma own_before_asym (s : Side) (a c : Z) :
  OrderBook.own_before s a c = true -> OrderBook.own_before s c a = false.
Proof. destruct s; cbn; lia. Qed.

Section LevelFacts.
Lemma remove_first_last (p : nat) (l : list nat) :
  ~ In p l -> remove_first p (l ++ [p]) = l.
Proof.
  induction l as [| q l IH]; cbn; intros Hn.
  - by rewrite Nat.eqb_refl.
  - destruct (Nat.eqb_spec p q) as [-> | Hne]; [tauto |].
    f_equal. apply IH. tauto.
Qed.

Lemma existsb_eqb_false (p : nat) (l : list nat) :
  ~ In p l -> existsb (Nat.eqb p) l = false.
Proof.
  intros Hn. destruct (existsb (Nat.eqb p) l) eqn:He; [| done].
  apply existsb_exists in He as (q & Hq & ->%Nat.eqb_eq). done.
Qed.

Lemma existsb_eqb_last (p : nat) (l : list nat) :
  existsb (Nat.eqb p) (l ++ [p]) = true.
Proof.
  apply existsb_exists. exists p. split; [| apply Nat.eqb_refl].
  apply in_or_app. right. by left.
Qed.

(** A slot that no sublist of a level holds is erased from where
    [add_order] has just put it. *)
Lemma erase_add_order (h : list Order.t) (p : nat) (level : PriceLevel.t) :
  ~ In p (queue level) ->
  PriceLevel.erase p (PriceLevel.add_order h p level) = level
  /\ PriceLevel.empty (PriceLevel.add_order h p level) = false.
Proof.
  unfold queue. intros Hn. destruct level as [mm regular]. cbn in Hn.
  assert (Hm : ~ In p mm) by (intros ?; apply Hn, in_or_app; auto).
  assert (Hr : ~ In p regular) by (intros ?; apply Hn, in_or_app; auto).
  unfold PriceLevel.add_order, PriceLevel.erase, PriceLevel.empty.
  destruct (Order.is_market_maker (deref h p)); cbn.
  - rewrite existsb_eqb_last, remove_first_last by done.
    split; [done |]. by destruct mm.
  - rewrite existsb_eqb_false, remove_first_last by done.
    split; [done |]. destruct mm; [by destruct regular | done].
Qed.

Lemma unreferenced_find (p : nat) (k : Z) (level : PriceLevel.t)
    (book : list (Z * PriceLevel.t)) :
  unreferenced p book = true -> OMap.find k book = Some level ->
  ~ In p (queue level).
Proof.
  unfold unreferenced.
  induction book as [| [k' l'] book IH]; cbn [forallb snd OMap.find]; [done |].
  intros Hu. apply andb_prop in Hu as [Hl Hb].
  destruct (Z.eqb_spec k k') as [-> | Hne]; [| by apply IH].
  intros [= <-] Hin. apply negb_true_iff in Hl.
  assert (He : existsb (Nat.eqb p) (queue l') = true).
  { apply existsb_exists. exists p. split; [exact Hin | apply Nat.eqb_refl]. }
  congruence.
Qed.

Lemma no_empty_level_find (k : Z) (level : PriceLevel.t)
    (book : list (Z * PriceLevel.t)) :
  no_empty_level book = true -> OMap.find k book = Some level ->
  PriceLevel.empty level = false.
Proof.
  unfold no_empty_level.
  induction book as [| [k' l'] book IH]; cbn [forallb snd OMap.find]; [done |].
  intros Hu. apply andb_prop in Hu as [Hl Hb].
  destruct (Z.eqb_spec k k') as [-> | Hne]; [| by apply IH].
  intros [= <-]. by apply negb_true_iff in Hl.
Qed.
End LevelFacts.

Section CancelAfterAdd.
Import OrderBook.
Context `{Env}.

(** What [bids_[price].add_order(order)] followed by the level handling of
    [cancel_order] does to the map of the order's own side. *)
Lemma rest_then_erase (before : Z -> Z -> bool) (price : Z)
    (h : list Order.t) (p : nat) (m : list (Z * PriceLevel.t)) :
  (forall a, before a a = false) ->
  (forall a c, before a c = true -> before c a = false) ->
  sorted_by before m -> no_empty_level m = true -> unreferenced p m = true ->
  let book1 := OMap.index before price PriceLevel.ctor m in
  let level := default PriceLevel.ctor (OMap.find price book1) in
  let rested := OMap.update price (PriceLevel.add_order h p level) book1 in
  exists level',
    OMap.find price rested = Some level'
    /\ (if PriceLevel.empty (PriceLevel.erase p level')
        then OMap.erase price rested
        else OMap.update price (PriceLevel.erase p level') rested) = m.
Proof.
  intros Hirr Hasym Hs Hne Hun. cbn zeta.
  destruct (OMap.find price m) as [level |] eqn:Hf.
  - rewrite (index_present before price PriceLevel.ctor level m Hirr Hasym Hs Hf).
    rewrite Hf. cbn [default from_option id].
    destruct (erase_add_order h p level (unreferenced_find _ _ _ _ Hun Hf))
      as [He _].
    eexists. split; [eapply find_update_eq; exact Hf |].
    rewrite He, (no_empty_level_find _ _ _ Hne Hf), update_update.
    by apply update_id.
  - destruct (erase_index_absent before price PriceLevel.ctor
                (PriceLevel.add_order h p PriceLevel.ctor) m Hf) as [Hf1 He1].
    rewrite Hf1. cbn [default from_option id].
    destruct (erase_add_order h p PriceLevel.ctor ltac:(cbn; tauto)) as [He _].
    eexists. split; [eapply find_update_eq; exact Hf1 |].
    rewrite He. cbn [PriceLevel.empty PriceLevel.ctor PriceLevel.mm_orders
                       PriceLevel.regular_orders].
    exact He1.
Qed.

Lemma book_loop_uncrossed (fuel : nat) (s : Side) (price : Z) (p : nat) (b : t) :
  uncrossed s price b = true ->
  book_loop (S fuel) (Limit price) s p b [] = Some (b, []).
Proof.
  unfold uncrossed. intros Hu. cbn [book_loop].
  destruct (_ >? 0); [| done].
  destruct (opposite s b) as [| [best_price level] rest]; [done |].
  by rewrite Hu.
Qed.

Lemma add_order_resting (fuel : nat) (id : Z) (side : Side) (price qty disp
    display_size : Z) (type : OrderType) (ownerID stop_price session_id : Z)
    (mm : bool) (b b2 : t) (p : nat) :
  type = GTC \/ type = ICEBERG ->
  staged id side price qty disp display_size type ownerID stop_price
         session_id mm b = Some (p, b2) ->
  add_order fuel id side price qty disp display_size type ownerID stop_price
            session_id mm b
  = match book_loop fuel (Limit price) side p b2 [] with
    | None => None
    | Some (b3, trades) =>
        let b4 :=
          if Order.display (deref (heap b3) p) >? 0 then
            let book1 :=
              OMap.index (own_before side) price PriceLevel.ctor (own side b3) in
            let level := default PriceLevel.ctor (OMap.find price book1) in
            set_orders (<[id := p]> (orders_ b3))
              (set_own side
                 (OMap.update price (PriceLevel.add_order (heap b3) p level)
                              book1) b3)
          else release p b3 in
        match process_triggered_stops fuel b4 trades with
        | None => None
        | Some (b5, trades1) =>
            Some (set_stats (tally trades1 (stats_ b5)) b5, trades1)
        end
    end.
Proof.
  unfold staged, add_order. intros Ht Hs.
  destruct (ObjectPool.acquire _) as [[ptr |] pool1]; [| discriminate].
  destruct (RiskManager.check_order _ _ _) as [[res rm] ticks].
  destruct res; try discriminate. injection Hs as <- <-.
  destruct Ht as [-> | ->]; cbn [bool_decide decide_rel orb andb];
    destruct (book_loop _ _ _ _ _ _) as [[b3 trades] |]; try done;
    by rewrite andb_true_r.
Qed.
End CancelAfterAdd.

Section CancelAfterAddMain.
Import OrderBook.
Context `{Env}.

Lemma opposite_own_staged (s : Side) (b b2 : t) :
  bids_ b2 = bids_ b -> asks_ b2 = asks_ b ->
  opposite s b2 = opposite s b /\ own s b2 = own s b.
Proof. intros Hb Ha. by destruct s. Qed.

End CancelAfterAddMain.



(** ** Steps of the matching loops *)

Section Steps.
Import OrderBook.
Context `{Env}.

Lemma traded_refl (b : t) : traded b b.
Proof.
  unfold traded. repeat split; try done.
  exists []. by rewrite app_nil_r.
Qed.

Lemma traded_trans (b1 b2 b3 : t) : traded b1 b2 -> traded b2 b3 -> traded b1 b3.
Proof.
  unfold traded.
  intros ((n1 & Hf1 & Hd1) & Hc1 & Hs1) ((n2 & Hf2 & Hd2) & Hc2 & Hs2).
  repeat split; try congruence.
  exists (n1 ++ n2). split.
  - by rewrite Hf2, Hf1, app_assoc.
  - by apply Forall_app.
Qed.

(** Steps that call no [execute_trade]. *)
Lemma traded_quiet (b b' : t) :
  fills_ b' = fills_ b ->
  stop_cascade_depth_ b' = stop_cascade_depth_ b ->
  totalStopTriggered (stats_ b') = totalStopTriggered (stats_ b) ->
  traded b b'.
Proof.
  intros Hf Hc Hs. unfold traded. repeat split; try done.
  exists []. by rewrite app_nil_r.
Qed.

Lemma traded_set_opposite (s : Side) (v : list (Z * PriceLevel.t)) (b : t) :
  traded b (set_opposite s v b).
Proof. apply traded_quiet; by destruct s. Qed.

Lemma traded_set_own (s : Side) (v : list (Z * PriceLevel.t)) (b : t) :
  traded b (set_own s v b).
Proof. apply traded_quiet; by destruct s. Qed.

Lemma traded_set_orders (v : gmap Z nat) (b : t) : traded b (set_orders v b).
Proof. by apply traded_quiet. Qed.

Lemma traded_set_heap (h : list Order.t) (b : t) : traded b (set_heap h b).
Proof. by apply traded_quiet. Qed.

Lemma traded_write (p : nat) (f : Order.t -> Order.t) (b : t) :
  traded b (write p f b).
Proof. by apply traded_quiet. Qed.

Lemma traded_release (p : nat) (b : t) : traded b (release p b).
Proof. by apply traded_quiet. Qed.

Lemma traded_set_stops (sm : StopOrderManager.t) (b : t) :
  traded b (set_stops sm b).
Proof. by apply traded_quiet. Qed.

Lemma traded_tally (trades : list Trade.t) (b : t) :
  traded b (set_stats (tally trades (stats_ b)) b).
Proof. by apply traded_quiet. Qed.

Lemma traded_cancel_order (id : Z) (b : t) : traded b (cancel_order id b).2.
Proof.
  unfold cancel_order. destruct (orders_ b !! id) as [order |]; [| apply traded_refl].
  cbn [snd]. apply traded_quiet;
    repeat case_match; try done;
    match goal with
    | |- context [set_own ?s _ _] => by destruct s
    end.
Qed.

Lemma traded_retire_front (s : Side) (best_price : Z) (level : PriceLevel.t)
    (passive : nat) (b : t) :
  traded b (retire_front s best_price level passive b).
Proof.
  unfold retire_front.
  destruct (handle_iceberg_refill _ _ _) as [[refilled h1] level1].
  apply traded_quiet; destruct refilled, s; done.
Qed.

Lemma traded_drop_same_owner (mode : Sweep) (passive : nat) (b : t) :
  traded b (drop_same_owner mode passive b).
Proof.
  destruct mode; cbn [drop_same_owner].
  - apply traded_cancel_order.
  - by apply traded_quiet.
Qed.

(** [execute_trade] between two different owners. *)
Lemma traded_execute_trade (aggressive passive : nat) (qty : Z) (b : t) :
  Order.ownerID (deref (heap b) aggressive)
  <> Order.ownerID (deref (heap b) passive) ->
  traded b (execute_trade aggressive passive qty b).2.
Proof.
  intros Hne. unfold execute_trade, traded. cbn. repeat split; try done.
  eexists. split; [reflexivity |]. constructor; [| constructor].
  unfold distinct_owners. cbn.
  destruct (Order.side (deref (heap b) aggressive)); congruence.
Qed.

Lemma level_loop_traded (fuel : nat) (mode : Sweep) (s : Side)
    (best_price : Z) (order : nat) (b b' : t) (trades trades' : list Trade.t) :
  level_loop fuel mode s best_price order b trades = Some (b', trades') ->
  traded b b'.
Proof.
  revert b trades. induction fuel as [| fuel IH]; intros b trades; [done |].
  cbn [level_loop].
  destruct (_ >? 0); [| intros [= <- <-]; apply traded_refl].
  destruct (OMap.find best_price (opposite s b)) as [level |];
    [| intros [= <- <-]; apply traded_refl].
  destruct (PriceLevel.front level) as [passive |];
    [| intros [= <- <-]; apply traded_refl].
  destruct (Z.eqb_spec (Order.ownerID (deref (heap b) order))
                       (Order.ownerID (deref (heap b) passive))) as [Heq | Hne].
  - intros Hl. apply IH in Hl.
    eapply traded_trans; [| exact Hl].
    eapply traded_trans; [apply traded_set_opposite | apply traded_drop_same_owner].
  - pose proof (traded_execute_trade order passive
                  (Z.min (Order.display (deref (heap b) order))
                         (Order.display (deref (heap b) passive))) b Hne) as Ht.
    destruct (execute_trade order passive _ b) as [trade b1]. cbn [snd] in Ht.
    intros Hl. apply IH in Hl.
    eapply traded_trans; [exact Ht |]. eapply traded_trans; [| exact Hl].
    match goal with
    | |- traded b1 (if ?c then retire_front _ _ _ _ ?b2 else ?b2) =>
        assert (Hw : traded b1 b2)
          by (destruct mode; repeat (eapply traded_trans;
                                     [| apply traded_write]);
              apply traded_refl);
        destruct c; [| exact Hw];
        eapply traded_trans; [exact Hw | apply traded_retire_front]
    end.
Qed.

Lemma book_loop_traded (fuel : nat) (mode : Sweep) (s : Side) (order : nat)
    (b b' : t) (trades trades' : list Trade.t) :
  book_loop fuel mode s order b trades = Some (b', trades') -> traded b b'.
Proof.
  revert b trades. induction fuel as [| fuel IH]; intros b trades; [done |].
  cbn [book_loop].
  destruct (_ >? 0); [| intros [= <- <-]; apply traded_refl].
  destruct (opposite s b) as [| [best_price level0] rest] eqn:Hopp;
    [intros [= <- <-]; apply traded_refl |].
  destruct (beyond_limit mode s best_price);
    [intros [= <- <-]; apply traded_refl |].
  destruct (level_loop fuel mode s best_price order b trades)
    as [[b1 trades1] |] eqn:Hl; [| done].
  intros Hb. apply IH in Hb. apply level_loop_traded in Hl.
  eapply traded_trans; [exact Hl |]. eapply traded_trans; [| exact Hb].
  apply traded_set_opposite.
Qed.
End Steps.

(** ** The stop cascade *)

Section Cascade.
Import OrderBook.
Context `{Env}.

Lemma bumped_add (k1 k2 : nat) (v : Z) :
  bumped k2 (bumped k1 v) = bumped (k1 + k2) v.
Proof. unfold bumped. by rewrite Nat.add_comm, Nat.iter_add. Qed.

Lemma cascaded_refl (b : t) : cascaded 0 b b.
Proof. by split. Qed.

Lemma cascaded_trans (k1 k2 : nat) (b1 b2 b3 : t) :
  cascaded k1 b1 b2 -> cascaded k2 b2 b3 -> cascaded (k1 + k2) b1 b3.
Proof.
  unfold cascaded. intros [Hd1 Hs1] [Hd2 Hs2]. split; [congruence |].
  by rewrite Hs2, Hs1, bumped_add.
Qed.

Lemma traded_cascaded (b b' : t) : traded b b' -> cascaded 0 b b'.
Proof. intros (_ & Hd & Hs). by split. Qed.

Lemma add_market_order_traded (fuel : nat) (order : nat) (b b' : t)
    (trades trades' : list Trade.t) :
  add_market_order fuel order b trades = Some (b', trades') -> traded b b'.
Proof. apply book_loop_traded. Qed.

(** One triggered stop: skipped if its id is in [processing_stops_],
    otherwise counted once and executed with the counter at one more than
    before, the counter being taken back afterwards. *)
Lemma process_stop_cascaded (fuel : nat) (stop_order : nat) (b b' : t)
    (trades trades' : list Trade.t) :
  process_stop fuel stop_order b trades = Some (b', trades') ->
  exists k, (k <= 1)%nat /\ cascaded k b b'.
Proof.
  unfold process_stop. case_bool_decide.
  - intros [= <- <-]. exists O. split; [lia | apply cascaded_refl].
  - destruct (add_market_order _ _ _ _) as [[b3 stop_trades] |] eqn:Hm; [| done].
    intros [= <- <-]. apply add_market_order_traded, traded_cascaded in Hm.
    destruct Hm as [Hd Hs]. exists 1%nat. split; [lia |].
    unfold cascaded. cbn in *. split; [lia | exact Hs].
Qed.

Lemma process_stops_cascaded (fuel : nat) (stops : list nat) (b b' : t)
    (trades trades' : list Trade.t) :
  process_stops fuel stops b trades = Some (b', trades') ->
  exists k, (k <= length stops)%nat /\ cascaded k b b'.
Proof.
  revert b trades. induction stops as [| stop_order rest IH]; intros b trades.
  - intros [= <- <-]. exists O. split; [done | apply cascaded_refl].
  - cbn [process_stops].
    destruct (process_stop fuel stop_order b trades) as [[b1 trades1] |] eqn:Hp;
      [| done].
    intros Hr. apply process_stop_cascaded in Hp as (k1 & Hk1 & Hc1).
    apply IH in Hr as (k2 & Hk2 & Hc2).
    exists (k1 + k2)%nat. split; [cbn; lia |].
    by eapply cascaded_trans.
Qed.

(** Why the guard of [process_triggered_stops] never fires.  The function
    raises the cascade counter before it executes a stop and lowers it
    right after, and nothing it calls enters it again: it leaves the
    counter at the value it found, which is 0 whenever [add_order] calls
    it.  The test against [MAX_CASCADE_DEPTH] is made once, before the
    batch, and the whole batch is then processed. *)
Lemma cascade_is_one_batch (fuel : nat) (b b' : t)
    (trades trades' : list Trade.t) :
  process_triggered_stops fuel b trades = Some (b', trades') ->
  stop_cascade_depth_ b' = stop_cascade_depth_ b
  /\ exists processed : nat,
       (processed <= length (batch b trades))%nat
       /\ totalStopTriggered (stats_ b')
          = bumped processed (totalStopTriggered (stats_ b)).
Proof.
  unfold process_triggered_stops, batch.
  destruct (last trades) as [back |].
  - destruct (_ >=? _).
    + intros [= <- <-]. split; [done |]. exists O. split; [lia | done].
    + destruct (StopOrderManager.check_triggered_stops _ _ _)
        as [triggered sm] eqn:Hc.
      intros Hp. apply process_stops_cascaded in Hp as (k & Hk & Hd & Hs).
      cbn [fst]. split; [exact Hd |]. exists k. split; [exact Hk | exact Hs].
  - intros [= <- <-]. split; [done |]. exists O. split; [done | done].
Qed.
End Cascade.

Lemma cascade_is_one_batch_witness :
  exists b' trades',
    OrderBook.process_triggered_stops 100 stop_ladder
      [Trade.mk 1 20 100 1 10] = Some (b', trades')
    /\ OrderBook.stop_cascade_depth_ b'
       = OrderBook.stop_cascade_depth_ stop_ladder
    /\ length (batch stop_ladder [Trade.mk 1 20 100 1 10]) = 4%nat.
Proof.
  destruct (OrderBook.process_triggered_stops 100 stop_ladder
              [Trade.mk 1 20 100 1 10]) as [[b' trades'] |] eqn:Hp.
  - exists b', trades'. split; [reflexivity |].
    split; [exact (proj1 (cascade_is_one_batch _ _ _ _ _ Hp)) |].
    by vm_compute.
  - exfalso. vm_compute in Hp. discriminate Hp.
Defined.

(** C3 at its failing input: on [stop_ladder] a market sell of 1 trades at
    100 and the four sell stops at 100 fire.  The guard
    [stop_cascade_depth_ >= MAX_CASCADE_DEPTH] is there to bound the
    cascade, but the counter it reads is 0 when the batch starts and 0 again
    when the call returns: all four stops are converted and executed inside
    the one call, one more than [MAX_CASCADE_DEPTH]. *)
Theorem four_stops_in_one_call :
  OrderBook.MAX_CASCADE_DEPTH = 3
  /\ OrderBook.totalStopTriggered (OrderBook.stats_ stop_ladder) = 0
  /\ OrderBook.stop_cascade_depth_ stop_ladder = 0
  /\ match OrderBook.add_order 100 20 SELL 0 1 1 0 MARKET 7 0 0 false
             stop_ladder with
     | Some (b', trades) =>
         OrderBook.totalStopTriggered (OrderBook.stats_ b') = 4
         /\ map Trade.sell_id trades = [20; 11; 12; 13; 14]
         /\ StopOrderManager.sell_stops_ (OrderBook.stop_manager_ b') = []
         /\ OrderBook.stop_cascade_depth_ b' = 0
     | None => False
     end.
Proof. by vm_compute. Qed.

(** ** Owners in the fill-or-kill path *)

Section FokOwners.
Import OrderBook.
Context `{Env}.

Lemma check_orders_candidates (h : list Order.t) (order : nat)
    (orders : list nat) (needed : Z) (candidates : list (nat * Z)) :
  exists extra,
    (check_orders h order orders needed candidates).2 = candidates ++ extra
    /\ map fst extra `sublist_of` orders
    /\ Forall (other_owner h order) extra.
Proof.
  revert needed candidates.
  induction orders as [| passive rest IH]; intros needed candidates;
    cbn [check_orders].
  - exists []. rewrite app_nil_r. repeat split; constructor.
  - destruct (Z.eqb_spec (Order.ownerID (deref h order))
                         (Order.ownerID (deref h passive))) as [Heq | Hne].
    + destruct (IH needed candidates) as (extra & He & Hs & Hf).
      exists extra. repeat split; [done | by constructor | done].
    + destruct (_ <=? 0).
      * eexists [_]. cbn [snd]. repeat split.
        -- cbn. constructor. apply sublist_nil_l.
        -- constructor; [exact Hne | constructor].
      * destruct (IH (sub64 needed (Z.min needed (Order.display (deref h passive))))
                     (candidates ++ [(passive, Z.min needed
                                        (Order.display (deref h passive)))]))
          as (extra & He & Hs & Hf).
        eexists (_ :: extra). rewrite He, <- app_assoc. repeat split.
        -- cbn. by constructor.
        -- constructor; [exact Hne | exact Hf].
Qed.

Lemma probe_candidates (h : list Order.t) (order : nat) (s : Side)
    (book : list (Z * PriceLevel.t)) (needed : Z)
    (candidates : list (nat * Z)) :
  exists extra,
    (probe h order s book needed candidates).2 = candidates ++ extra
    /\ map fst extra `sublist_of` book_slots book
    /\ Forall (other_owner h order) extra.
Proof.
  revert needed candidates.
  induction book as [| [price_level level] rest IH]; intros needed candidates;
    cbn [probe].
  - exists []. rewrite app_nil_r. repeat split; constructor.
  - assert (Hnil : exists extra : list (nat * Z),
               candidates = candidates ++ extra
               /\ map fst extra `sublist_of` book_slots ((price_level, level) :: rest)
               /\ Forall (other_owner h order) extra).
    { exists []. rewrite app_nil_r. repeat split; [apply sublist_nil_l | constructor]. }
    destruct (match s with BUY => _ | SELL => _ end); [exact Hnil |].
    destruct (check_orders_candidates h order (PriceLevel.mm_orders level)
                needed candidates) as (e1 & He1 & Hs1 & Hf1).
    destruct (check_orders h order (PriceLevel.mm_orders level) needed candidates)
      as [[found needed1] candidates1]. cbn [snd] in He1. subst candidates1.
    unfold book_slots. cbn [map concat snd]. unfold queue at 1.
    fold (book_slots rest).
    destruct (negb found && (needed1 >? 0)).
    + destruct (check_orders_candidates h order (PriceLevel.regular_orders level)
                  needed1 (candidates ++ e1)) as (e2 & He2 & Hs2 & Hf2).
      destruct (check_orders h order (PriceLevel.regular_orders level) needed1
                             (candidates ++ e1))
        as [[found2 needed2] candidates2]. cbn [snd] in He2. subst candidates2.
      destruct (needed2 <=? 0); cbn [snd].
      * exists (e1 ++ e2). rewrite app_assoc. repeat split.
        -- rewrite map_app. apply sublist_inserts_r. by apply sublist_app.
        -- by apply Forall_app.
      * destruct (IH needed2 ((candidates ++ e1) ++ e2)) as (e3 & He3 & Hs3 & Hf3).
        exists (e1 ++ e2 ++ e3). rewrite He3, <- !app_assoc. repeat split.
        -- rewrite !map_app. by repeat apply sublist_app.
        -- rewrite !Forall_app. done.
    + destruct (needed1 <=? 0); cbn [snd].
      * exists e1. repeat split; [| done].
        by apply sublist_inserts_r, sublist_inserts_r.
      * destruct (IH needed1 (candidates ++ e1)) as (e3 & He3 & Hs3 & Hf3).
        exists (e1 ++ e3). rewrite He3, <- !app_assoc. repeat split.
        -- rewrite map_app. apply sublist_app; [done |].
           by apply sublist_inserts_l.
        -- by apply Forall_app.
Qed.

Lemma owner_alter (h : list Order.t) (p q : nat) (f : Order.t -> Order.t) :
  p <> q \/ (forall o, Order.ownerID (f o) = Order.ownerID o) ->
  Order.ownerID (deref (alter f p h) q) = Order.ownerID (deref h q).
Proof.
  intros [Hne | Hf]; [by rewrite deref_alter_ne |].
  destruct (decide (p = q)) as [-> | Hne]; [| by rewrite deref_alter_ne].
  unfold deref. rewrite list_lookup_alter_eq. destruct (h !! q); cbn; auto.
Qed.

Lemma owner_refill (h : list Order.t) (p q : nat) (level : PriceLevel.t) :
  Order.ownerID (deref (handle_iceberg_refill h p level).1.2 q)
  = Order.ownerID (deref h q).
Proof.
  unfold handle_iceberg_refill. destruct (_ && _); cbn [fst snd]; [| done].
  rewrite !owner_alter; auto.
Qed.

Lemma owner_release (p q : nat) (b : t) :
  p <> q ->
  Order.ownerID (deref (heap (release p b)) q) = Order.ownerID (deref (heap b) q).
Proof.
  intros Hne. unfold release, heap, ObjectPool.release. cbn.
  destruct (bool_decide _); cbn; [| done]. apply owner_alter. by left.
Qed.
End FokOwners.

Section FokCommit.
Import OrderBook.
Context `{Env}.

Lemma heap_set_own (s : Side) (v : list (Z * PriceLevel.t)) (b : t) :
  heap (set_own s v b) = heap b.
Proof. by destruct s. Qed.

Lemma heap_set_orders (v : gmap Z nat) (b : t) : heap (set_orders v b) = heap b.
Proof. reflexivity. Qed.

Lemma heap_set_heap (h : list Order.t) (b : t) : heap (set_heap h b) = h.
Proof. reflexivity. Qed.

Lemma heap_write (p : nat) (f : Order.t -> Order.t) (b : t) :
  heap (write p f b) = alter f p (heap b).
Proof. reflexivity. Qed.

Lemma heap_execute_trade (aggressive passive : nat) (qty : Z) (b : t) :
  heap (execute_trade aggressive passive qty b).2 = heap b.
Proof. reflexivity. Qed.

Lemma commit_one_traded (order passive : nat) (qty : Z) (b : t) :
  Order.ownerID (deref (heap b) order) <> Order.ownerID (deref (heap b) passive) ->
  traded b (commit_one order passive qty b).2.
Proof.
  intros Hne. unfold commit_one.
  pose proof (traded_execute_trade order passive qty b Hne) as Ht.
  destruct (execute_trade order passive qty b) as [trade b1]. cbn [snd] in Ht.
  cbn zeta. eapply traded_trans; [exact Ht |].
  match goal with
  | |- context [if ?c then _ else (trade, ?b2)] =>
      assert (Hw : traded b1 b2)
        by (repeat (eapply traded_trans; [| apply traded_write]);
            apply traded_refl);
      destruct c; [| exact Hw]
  end.
  eapply traded_trans; [exact Hw |].
  destruct (handle_iceberg_refill _ _ _) as [[refilled h1] level1].
  match goal with
  | |- traded ?b2 (if ?c then (trade, set_own ?s ?v ?b4) else (trade, ?b4')).2 =>
      assert (Hr : traded b2 b4')
  end.
  { destruct refilled.
    - eapply traded_trans; [apply traded_set_heap | apply traded_set_own].
    - eapply traded_trans; [apply traded_set_heap |].
      eapply traded_trans; [apply traded_set_own |].
      eapply traded_trans; [apply traded_set_orders | apply traded_release]. }
  destruct (PriceLevel.empty level1); cbn [snd]; [| exact Hr].
  eapply traded_trans; [exact Hr | apply traded_set_own].
Qed.

Lemma commit_one_owner (order passive q : nat) (qty : Z) (b : t) :
  q <> passive ->
  Order.ownerID (deref (heap (commit_one order passive qty b).2) q)
  = Order.ownerID (deref (heap b) q).
Proof.
  intros Hq. unfold commit_one.
  pose proof (heap_execute_trade order passive qty b) as Hh.
  destruct (execute_trade order passive qty b) as [trade b1]. cbn [snd] in Hh.
  cbn zeta. rewrite <- Hh.
  match goal with
  | |- context [if ?c then _ else (trade, ?b2)] =>
      assert (Hw : Order.ownerID (deref (heap b2) q)
                   = Order.ownerID (deref (heap b1) q))
        by (rewrite !heap_write, !owner_alter; auto);
      destruct c; [| exact Hw]
  end.
  rewrite <- Hw.
  match goal with
  | |- context [handle_iceberg_refill ?h ?p ?l] =>
      pose proof (owner_refill h p q l) as Hr;
      destruct (handle_iceberg_refill h p l) as [[refilled h1] level1]
  end.
  cbn [fst snd] in Hr. rewrite <- Hr.
  destruct refilled, (PriceLevel.empty level1); cbn [snd];
    rewrite ?heap_set_own, ?owner_release, ?heap_set_orders, ?heap_set_own,
      ?heap_set_heap by auto; reflexivity.
Qed.

Lemma commit_traded (order : nat) (candidates : list (nat * Z)) (b : t)
    (trades : list Trade.t) :
  NoDup (map fst candidates) ->
  Forall (other_owner (heap b) order) candidates ->
  traded b (commit order candidates b trades).1.
Proof.
  revert b trades.
  induction candidates as [| [passive qty] rest IH]; intros b trades Hnd Hall;
    cbn [commit]; [apply traded_refl |].
  cbn [map fst] in Hnd. apply NoDup_cons in Hnd as [Hnin Hnd].
  apply Forall_cons in Hall as [Hp Hall]. unfold other_owner in Hp. cbn [fst] in Hp.
  pose proof (commit_one_traded order passive qty b Hp) as Ht.
  pose proof (fun q => commit_one_owner order passive q qty b) as Ho.
  destruct (commit_one order passive qty b) as [trade b1]. cbn [snd] in Ht, Ho.
  eapply traded_trans; [exact Ht |]. apply IH; [exact Hnd |].
  assert (Hop : order <> passive) by (intros ->; by apply Hp).
  rewrite Forall_forall in Hall. apply Forall_forall. intros [c cq] Hc.
  specialize (Hall _ Hc). unfold other_owner in *. cbn [fst] in *.
  rewrite (Ho order Hop), (Ho c); [exact Hall |].
  intros ->. apply Hnin. apply list_elem_of_fmap. by exists (passive, cq).
Qed.

Lemma add_FOK_order_traded (order : nat) (b : t) (trades : list Trade.t) :
  NoDup (book_slots (opposite (Order.side (deref (heap b) order)) b)) ->
  traded b (add_FOK_order order b trades).1.2.
Proof.
  intros Hnd. unfold add_FOK_order.
  destruct (probe_candidates (heap b) order (Order.side (deref (heap b) order))
              (opposite (Order.side (deref (heap b) order)) b)
              (Order.quantity (deref (heap b) order)) [])
    as (extra & He & Hs & Hf).
  destruct (probe _ _ _ _ _ _) as [needed candidates]. cbn [snd app] in He.
  subst candidates.
  destruct (needed >? 0); cbn [fst snd]; [apply traded_refl |].
  pose proof (commit_traded order extra b trades
                (sublist_NoDup _ _ Hnd Hs) Hf) as Hc.
  by destruct (commit order extra b trades).
Qed.
End FokCommit.

(** ** Self-trade prevention *)

Section SelfTrade.
Import OrderBook.
Context `{Env}.

Lemma fe_refl (b : t) : fills_extended b b.
Proof. exists []. by rewrite app_nil_r. Qed.

Lemma fe_trans (b1 b2 b3 : t) :
  fills_extended b1 b2 -> fills_extended b2 b3 -> fills_extended b1 b3.
Proof.
  intros (n1 & Hf1 & Hd1) (n2 & Hf2 & Hd2). exists (n1 ++ n2). split.
  - by rewrite Hf2, Hf1, app_assoc.
  - by apply Forall_app.
Qed.

Lemma fe_traded (b b' : t) : traded b b' -> fills_extended b b'.
Proof. by intros (Hf & _). Qed.

Lemma fe_quiet (b b' : t) : fills_ b' = fills_ b -> fills_extended b b'.
Proof. intros Hf. exists []. by rewrite app_nil_r. Qed.

Lemma process_stop_fe (fuel : nat) (stop_order : nat) (b b' : t)
    (trades trades' : list Trade.t) :
  process_stop fuel stop_order b trades = Some (b', trades') ->
  fills_extended b b'.
Proof.
  unfold process_stop. case_bool_decide.
  - intros [= <- <-]. apply fe_refl.
  - destruct (add_market_order _ _ _ _) as [[b3 stop_trades] |] eqn:Hm; [| done].
    intros [= <- <-]. apply add_market_order_traded, fe_traded in Hm.
    eapply fe_trans; [| eapply fe_trans; [exact Hm |]]; by apply fe_quiet.
Qed.

Lemma process_stops_fe (fuel : nat) (stops : list nat) (b b' : t)
    (trades trades' : list Trade.t) :
  process_stops fuel stops b trades = Some (b', trades') -> fills_extended b b'.
Proof.
  revert b trades. induction stops as [| stop_order rest IH]; intros b trades.
  - intros [= <- <-]. apply fe_refl.
  - cbn [process_stops].
    destruct (process_stop fuel stop_order b trades) as [[b1 trades1] |] eqn:Hp;
      [| done].
    intros Hr. apply process_stop_fe in Hp. apply IH in Hr. by eapply fe_trans.
Qed.

Lemma process_triggered_stops_fe (fuel : nat) (b b' : t)
    (trades trades' : list Trade.t) :
  process_triggered_stops fuel b trades = Some (b', trades') ->
  fills_extended b b'.
Proof.
  unfold process_triggered_stops.
  destruct (last trades) as [back |]; [| intros [= <- <-]; apply fe_refl].
  destruct (_ >=? _); [intros [= <- <-]; apply fe_refl |].
  destruct (StopOrderManager.check_triggered_stops _ _ _) as [triggered sm].
  intros Hp. apply process_stops_fe in Hp.
  eapply fe_trans; [| exact Hp]. by apply fe_quiet.
Qed.

(** Every [execute_trade] of an [add_order] call is between two different
    owners; for a FOK order the two sides of the book must not hold a slot
    twice. *)
Lemma add_order_fills (fuel : nat) (id : Z) (side : Side) (price qty disp
    display_size : Z) (type : OrderType) (ownerID stop_price session_id : Z)
    (mm : bool) (b b' : t) (trades : list Trade.t) :
  add_order fuel id side price qty disp display_size type ownerID stop_price
            session_id mm b = Some (b', trades) ->
  (type = FOK -> NoDup (book_slots (bids_ b)) /\ NoDup (book_slots (asks_ b))) ->
  fills_extended b b'.
Proof.
  unfold add_order. intros Ha Hnd.
  destruct (ObjectPool.acquire _) as [[ptr |] pool1];
    [| injection Ha as <- <-; by apply fe_quiet].
  destruct (RiskManager.check_order _ _ _) as [[res rm] ticks].
  match type of Ha with
  | context [add_FOK_order ptr ?b2 []] => set (staged_book := b2) in *
  end.
  assert (Hst : fills_ staged_book = fills_ b
                /\ bids_ staged_book = bids_ b /\ asks_ staged_book = asks_ b)
    by done.
  destruct Hst as (Hf0 & Hb0 & Ha0).
  assert (Hfe0 : fills_extended b staged_book) by (by apply fe_quiet).
  clearbody staged_book.
  destruct res; try (injection Ha as <- <-; eapply fe_trans;
                     [exact Hfe0 | by apply fe_quiet]).
  eapply fe_trans; [exact Hfe0 |]. clear Hfe0 Hf0.
  destruct type.
  - (* GTC *)
    destruct (book_loop _ _ _ _ _ _) as [[b3 trades3] |] eqn:Hl; [| done].
    apply book_loop_traded, fe_traded in Hl.
    destruct (process_triggered_stops _ _ _) as [[b5 trades5] |] eqn:Hp; [| done].
    injection Ha as <- <-. apply process_triggered_stops_fe in Hp.
    eapply fe_trans; [exact Hl |].
    eapply fe_trans; [| eapply fe_trans; [exact Hp | by apply fe_quiet]].
    apply fe_quiet. destruct (_ && _); [by destruct side | done].
  - (* IOC *)
    destruct (book_loop _ _ _ _ _ _) as [[b3 trades3] |] eqn:Hl; [| done].
    apply book_loop_traded, fe_traded in Hl.
    destruct (process_triggered_stops _ _ _) as [[b5 trades5] |] eqn:Hp; [| done].
    injection Ha as <- <-. apply process_triggered_stops_fe in Hp.
    eapply fe_trans; [exact Hl |].
    eapply fe_trans; [| eapply fe_trans; [exact Hp | by apply fe_quiet]].
    apply fe_quiet. destruct (_ && _); [by destruct side | done].
  - (* FOK *)
    destruct (Hnd eq_refl) as [Hndb Hnda].
    assert (Hn : NoDup (book_slots
                          (opposite (Order.side (deref (heap staged_book) ptr))
                                    staged_book))).
    { destruct (Order.side _); cbn [opposite]; [by rewrite Ha0 | by rewrite Hb0]. }
    pose proof (add_FOK_order_traded ptr staged_book [] Hn) as Hfok.
    destruct (add_FOK_order ptr staged_book []) as [[filled b3] trades3].
    cbn [fst snd] in Hfok. apply fe_traded in Hfok.
    apply process_triggered_stops_fe in Ha.
    eapply fe_trans; [exact Hfok |]. eapply fe_trans; [| exact Ha].
    apply fe_quiet. by destruct filled.
  - (* MARKET *)
    destruct (add_market_order _ _ _ _) as [[b3 trades3] |] eqn:Hm; [| done].
    apply add_market_order_traded, fe_traded in Hm.
    apply process_triggered_stops_fe in Ha.
    eapply fe_trans; [exact Hm |]. eapply fe_trans; [| exact Ha].
    by apply fe_quiet.
  - (* STOP_LOSS *)
    injection Ha as <- <-. by apply fe_quiet.
  - (* ICEBERG *)
    destruct (book_loop _ _ _ _ _ _) as [[b3 trades3] |] eqn:Hl; [| done].
    apply book_loop_traded, fe_traded in Hl.
    destruct (process_triggered_stops _ _ _) as [[b5 trades5] |] eqn:Hp; [| done].
    injection Ha as <- <-. apply process_triggered_stops_fe in Hp.
    eapply fe_trans; [exact Hl |].
    eapply fe_trans; [| eapply fe_trans; [exact Hp | by apply fe_quiet]].
    apply fe_quiet. destruct (_ && _); [by destruct side | done].
Qed.
End SelfTrade.

Section SelfTradeSteps.
Import OrderBook.
Context `{Env}.

(** A front passive of the incoming owner: the round of the loop emits no
    trade, pops the passive and goes on with what [drop_same_owner] leaves. *)
Lemma level_loop_same_owner (fuel : nat) (mode : Sweep) (s : Side)
    (best_price : Z) (order passive : nat) (level : PriceLevel.t) (b : t)
    (trades : list Trade.t) :
  0 < Order.display (deref (heap b) order) ->
  OMap.find best_price (opposite s b) = Some level ->
  PriceLevel.front level = Some passive ->
  Order.ownerID (deref (heap b) order) = Order.ownerID (deref (heap b) passive) ->
  level_loop (S fuel) mode s best_price order b trades
  = level_loop fuel mode s best_price order
      (drop_same_owner mode passive
         (set_opposite s
            (OMap.update best_price (PriceLevel.pop_front level) (opposite s b))
            b))
      trades.
Proof.
  intros Hd Hf Hfr Ho. cbn [level_loop].
  rewrite Z.gtb_ltb, (proj2 (Z.ltb_lt _ _)) by lia.
  by rewrite Hf, Hfr, Ho, Z.eqb_refl.
Qed.

Lemma drop_same_owner_market (passive : nat) (b : t) :
  orders_ (drop_same_owner Market passive b)
  = delete (Order.id (deref (heap b) passive)) (orders_ b)
  /\ order_pool_ (drop_same_owner Market passive b)
     = ObjectPool.release (Some passive) (order_pool_ b).
Proof. done. Qed.

Lemma drop_same_owner_limit (price : Z) (passive : nat) (b : t) :
  orders_ b !! Order.id (deref (heap b) passive) = Some passive ->
  Order.type (deref (heap b) passive) <> STOP_LOSS ->
  orders_ (drop_same_owner (Limit price) passive b)
  = delete (Order.id (deref (heap b) passive)) (orders_ b)
  /\ order_pool_ (drop_same_owner (Limit price) passive b)
     = ObjectPool.release (Some passive) (order_pool_ b).
Proof.
  intros Hi Ht. cbn [drop_same_owner]. unfold cancel_order. rewrite Hi.
  cbn [snd].
  destruct (Order.type (deref (heap b) passive)); try done;
    destruct (OMap.find _ _); try done;
    destruct (PriceLevel.empty _), (Order.side _); done.
Qed.

Lemma check_orders_same_owner (h : list Order.t) (order passive : nat)
    (rest : list nat) (needed : Z) (candidates : list (nat * Z)) :
  Order.ownerID (deref h order) = Order.ownerID (deref h passive) ->
  check_orders h order (passive :: rest) needed candidates
  = check_orders h order rest needed candidates.
Proof. intros Ho. cbn [check_orders]. by rewrite Ho, Z.eqb_refl. Qed.
End SelfTradeSteps.


(** ** The arena stays consistent *)

Section PoolInvariant.
Context {T : Type} `{PoolItem T}.

Lemma wrapu64_range (z : Z) : 0 <= wrapu64 z < 2 ^ 64.
Proof. unfold wrapu64. apply Z.mod_pos_bound. lia. Qed.

Lemma pool_consistent_ok (p : ObjectPool.t T) :
  pool_consistent p -> pool_ok p = true.
Proof.
  intros (Hav & Hva & Hc). unfold pool_ok.
  rewrite !andb_true_iff, Z.leb_le, Z.ltb_lt. repeat split; try lia.
  apply forallb_forall. intros ptr Hin.
  rewrite andb_true_iff, bool_decide_eq_true, Nat.ltb_lt. auto.
Qed.

Lemma add_slot_consistent (p : ObjectPool.t T) :
  pool_consistent p -> pool_consistent (ObjectPool.add_slot p).
Proof.
  intros (Hav & Hva & Hc). unfold pool_consistent, ObjectPool.add_slot. cbn.
  repeat split; try lia.
  - intros ptr [<- | Hin].
    + by apply elem_of_union_l, elem_of_singleton.
    + apply elem_of_union_r. by apply Hav.
  - intros ptr Hin. rewrite length_app. cbn.
    apply elem_of_union in Hin as [Hin | Hin];
      [apply elem_of_singleton in Hin; lia |].
    specialize (Hva ptr Hin). lia.
Qed.

Lemma add_slots_consistent (n : nat) (p : ObjectPool.t T) :
  pool_consistent p -> pool_consistent (ObjectPool.add_slots n p).
Proof.
  revert p. induction n as [| n IH]; intros p Hp; [done |].
  cbn. by apply IH, add_slot_consistent.
Qed.

Lemma ctor_consistent (initial_size : nat) :
  pool_consistent (ObjectPool.ctor (T := T) initial_size).
Proof.
  apply add_slots_consistent. unfold pool_consistent. cbn.
  repeat split; try done; intros ptr Hin; set_solver.
Qed.

Lemma acquire_consistent (p : ObjectPool.t T) :
  pool_consistent p -> pool_consistent (ObjectPool.acquire p).2.
Proof.
  intros (Hav & Hva & Hc). unfold pool_consistent, ObjectPool.acquire.
  destruct (ObjectPool.available_ p) as [| ptr rest] eqn:Ha; cbn.
  - repeat split; try apply wrapu64_range; [done |].
    intros ptr Hin. rewrite length_app. cbn.
    apply elem_of_union in Hin as [Hin | Hin];
      [apply elem_of_singleton in Hin; lia |].
    specialize (Hva ptr Hin). lia.
  - repeat split; try apply wrapu64_range; [| done].
    intros q Hq. apply Hav. by right.
Qed.

Lemma release_consistent (obj : option nat) (p : ObjectPool.t T) :
  pool_consistent p -> pool_consistent (ObjectPool.release obj p).
Proof.
  intros (Hav & Hva & Hc). unfold ObjectPool.release.
  destruct obj as [ptr |]; [| done].
  case_bool_decide as Hin; [| done].
  unfold pool_consistent. cbn.
  repeat split; try apply wrapu64_range.
  - intros q [<- | Hq]; [done | by apply Hav].
  - intros q Hq. rewrite length_alter. by apply Hva.
Qed.
End PoolInvariant.

(** ** The cascade counter across a whole call *)

Section CascadeCall.
Import OrderBook.
Context `{Env}.

Lemma cascaded_quiet (b b' : t) :
  stop_cascade_depth_ b' = stop_cascade_depth_ b ->
  totalStopTriggered (stats_ b') = totalStopTriggered (stats_ b) ->
  cascaded 0 b b'.
Proof. intros Hd Hs. by split. Qed.

Lemma c0_trans (b1 b2 b3 : t) :
  cascaded 0 b1 b2 -> cascaded 0 b2 b3 -> cascaded 0 b1 b3.
Proof. apply (cascaded_trans 0 0). Qed.

Lemma c0_execute_trade (aggressive passive : nat) (qty : Z) (b : t) :
  cascaded 0 b (execute_trade aggressive passive qty b).2.
Proof. by apply cascaded_quiet. Qed.

Lemma c0_write (p : nat) (f : Order.t -> Order.t) (b : t) :
  cascaded 0 b (write p f b).
Proof. by apply cascaded_quiet. Qed.

Lemma c0_set_heap (h : list Order.t) (b : t) : cascaded 0 b (set_heap h b).
Proof. by apply cascaded_quiet. Qed.

Lemma c0_set_own (s : Side) (v : list (Z * PriceLevel.t)) (b : t) :
  cascaded 0 b (set_own s v b).
Proof. apply cascaded_quiet; by destruct s. Qed.

Lemma c0_set_orders (v : gmap Z nat) (b : t) : cascaded 0 b (set_orders v b).
Proof. by apply cascaded_quiet. Qed.

Lemma c0_release (p : nat) (b : t) : cascaded 0 b (release p b).
Proof. by apply cascaded_quiet. Qed.

Lemma commit_one_cascaded (order passive : nat) (qty : Z) (b : t) :
  cascaded 0 b (commit_one order passive qty b).2.
Proof.
  unfold commit_one.
  pose proof (c0_execute_trade order passive qty b) as Ht.
  destruct (execute_trade order passive qty b) as [trade b1]. cbn [snd] in Ht.
  cbn zeta. eapply c0_trans; [exact Ht |].
  match goal with
  | |- context [if ?c then _ else (trade, ?b2)] =>
      assert (Hw : cascaded 0 b1 b2)
        by (repeat (eapply c0_trans; [| apply c0_write]);
            apply cascaded_refl);
      destruct c; [| exact Hw]
  end.
  eapply c0_trans; [exact Hw |].
  destruct (handle_iceberg_refill _ _ _) as [[refilled h1] level1].
  match goal with
  | |- cascaded 0 ?b2 (if ?c then (trade, set_own ?s ?v ?b4)
                       else (trade, ?b4')).2 =>
      assert (Hr : cascaded 0 b2 b4')
  end.
  { destruct refilled.
    - eapply c0_trans; [apply c0_set_heap | apply c0_set_own].
    - eapply c0_trans; [apply c0_set_heap |].
      eapply c0_trans; [apply c0_set_own |].
      eapply c0_trans; [apply c0_set_orders | apply c0_release]. }
  destruct (PriceLevel.empty level1); cbn [snd]; [| exact Hr].
  eapply c0_trans; [exact Hr | apply c0_set_own].
Qed.

Lemma commit_cascaded (order : nat) (candidates : list (nat * Z)) (b : t)
    (trades : list Trade.t) :
  cascaded 0 b (commit order candidates b trades).1.
Proof.
  revert b trades.
  induction candidates as [| [passive qty] rest IH]; intros b trades;
    cbn [commit]; [apply cascaded_refl |].
  pose proof (commit_one_cascaded order passive qty b) as Hc.
  destruct (commit_one order passive qty b) as [trade b1]. cbn [snd] in Hc.
  apply (cascaded_trans 0 0 _ _ _ Hc), IH.
Qed.

Lemma add_FOK_order_cascaded (order : nat) (b : t) (trades : list Trade.t) :
  cascaded 0 b (add_FOK_order order b trades).1.2.
Proof.
  unfold add_FOK_order. destruct (probe _ _ _ _ _ _) as [needed candidates].
  destruct (needed >? 0); cbn [fst snd]; [apply cascaded_refl |].
  pose proof (commit_cascaded order candidates b trades) as Hc.
  by destruct (commit order candidates b trades).
Qed.

Lemma process_triggered_stops_cascaded (fuel : nat) (b b' : t)
    (trades trades' : list Trade.t) :
  process_triggered_stops fuel b trades = Some (b', trades') ->
  exists k, cascaded k b b'.
Proof.
  unfold process_triggered_stops.
  destruct (last trades) as [back |];
    [| intros [= <- <-]; exists O; apply cascaded_refl].
  destruct (_ >=? _); [intros [= <- <-]; exists O; apply cascaded_refl |].
  destruct (StopOrderManager.check_triggered_stops _ _ _) as [triggered sm].
  intros Hp. apply process_stops_cascaded in Hp as (k & _ & Hc).
  exists k. exact Hc.
Qed.

(** Whatever the order, [add_order] returns with the cascade counter at the
    value it found: the counter is 0 between calls, as the constructor
    leaves it. *)
Lemma add_order_keeps_cascade_depth (fuel : nat) (id : Z) (side : Side)
    (price qty disp display_size : Z) (type : OrderType) (ownerID stop_price
    session_id : Z) (mm : bool) (b b' : t) (trades : list Trade.t) :
  add_order fuel id side price qty disp display_size type ownerID stop_price
            session_id mm b = Some (b', trades) ->
  exists k, cascaded k b b'.
Proof.
  unfold add_order. intros Ha.
  destruct (ObjectPool.acquire _) as [[ptr |] pool1];
    [| injection Ha as <- <-; exists O; by apply cascaded_quiet].
  destruct (RiskManager.check_order _ _ _) as [[res rm] ticks].
  match type of Ha with
  | context [add_FOK_order ptr ?b2 []] => set (staged_book := b2) in *
  end.
  assert (Hc0 : cascaded 0 b staged_book) by (by apply cascaded_quiet).
  clearbody staged_book.
  destruct res;
    try (injection Ha as <- <-; exists O;
         apply (cascaded_trans 0 0 _ _ _ Hc0); by apply cascaded_quiet).
  assert (Hlimit :
    forall b3 trades3 b4,
      book_loop fuel (Limit price) side ptr staged_book [] = Some (b3, trades3) ->
      cascaded 0 b3 b4 ->
      match process_triggered_stops fuel b4 trades3 with
      | Some (b5, trades1) =>
          Some (set_stats (tally trades1 (stats_ b5)) b5, trades1)
      | None => None
      end = Some (b', trades) ->
      exists k, cascaded k b b').
  { intros b3 trades3 b4 Hl H4 Hp.
    apply book_loop_traded, traded_cascaded in Hl.
    destruct (process_triggered_stops fuel b4 trades3) as [[b5 trades5] |] eqn:Hp5;
      [| done].
    injection Hp as <- <-.
    apply process_triggered_stops_cascaded in Hp5 as (k & Hk).
    exists k.
    apply (cascaded_trans 0 k _ _ _ Hc0), (cascaded_trans 0 k _ _ _ Hl),
      (cascaded_trans 0 k _ _ _ H4).
    replace k with (k + 0)%nat by lia.
    apply (cascaded_trans k 0 _ _ _ Hk). by apply cascaded_quiet. }
  destruct type.
  - destruct (book_loop _ _ _ _ _ _) as [[b3 trades3] |] eqn:Hl; [| done].
    eapply Hlimit; [reflexivity | | exact Ha].
    destruct (_ && _); [| by apply cascaded_quiet].
    apply cascaded_quiet; by destruct side.
  - destruct (book_loop _ _ _ _ _ _) as [[b3 trades3] |] eqn:Hl; [| done].
    eapply Hlimit; [reflexivity | | exact Ha].
    destruct (_ && _); [| by apply cascaded_quiet].
    apply cascaded_quiet; by destruct side.
  - pose proof (add_FOK_order_cascaded ptr staged_book []) as Hfok.
    destruct (add_FOK_order ptr staged_book []) as [[filled b3] trades3].
    cbn [fst snd] in Hfok.
    apply process_triggered_stops_cascaded in Ha as (k & Hk). exists k.
    apply (cascaded_trans 0 k _ _ _ Hc0), (cascaded_trans 0 k _ _ _ Hfok).
    refine (cascaded_trans 0 k _ _ _ _ Hk).
    destruct filled; by apply cascaded_quiet.
  - destruct (add_market_order _ _ _ _) as [[b3 trades3] |] eqn:Hm; [| done].
    apply add_market_order_traded, traded_cascaded in Hm.
    apply process_triggered_stops_cascaded in Ha as (k & Hk). exists k.
    apply (cascaded_trans 0 k _ _ _ Hc0), (cascaded_trans 0 k _ _ _ Hm).
    refine (cascaded_trans 0 k _ _ _ _ Hk). by apply cascaded_quiet.
  - injection Ha as <- <-. exists O.
    apply (cascaded_trans 0 0 _ _ _ Hc0). by apply cascaded_quiet.
  - destruct (book_loop _ _ _ _ _ _) as [[b3 trades3] |] eqn:Hl; [| done].
    eapply Hlimit; [reflexivity | | exact Ha].
    destruct (_ && _); [| by apply cascaded_quiet].
    apply cascaded_quiet; by destruct side.
Qed.
End CascadeCall.

(** ** The tick table: rules, rounding and neighbouring ticks *)

Section TickRules.
Import TickSizeTable.

Lemma insert_rule_perm (r : TickRule) (rs : list TickRule) :
  insert_rule r rs ≡ₚ r :: rs.
Proof.
  induction rs as [| r' rs IH]; cbn [insert_rule]; [done |].
  destruct (_ <? _); [done |].
  rewrite IH. apply Permutation_swap.
Qed.

Lemma insert_rule_sorted (r : TickRule) (rs : list TickRule) :
  rule_ok r -> Forall rule_ok rs -> StronglySorted range_before rs ->
  Forall (range_apart (min_price r) (max_price r)) rs ->
  StronglySorted range_before (insert_rule r rs).
Proof.
  intros Hr Hok Hs Ha. induction Hs as [| r' rs Hs IH Hall]; cbn [insert_rule].
  - repeat constructor.
  - apply Forall_cons in Hok as [Hr' Hok]. apply Forall_cons in Ha as [Ha' Ha].
    unfold rule_ok, range_apart, range_before in *.
    destruct (Z.ltb_spec (min_price r) (min_price r')) as [Hlt | Hge].
    + constructor; [by constructor |].
      constructor; [unfold range_before; lia |].
      eapply Forall_impl; [exact Hall |]. cbn. intros x Hx.
      unfold range_before in *. lia.
    + constructor; [by apply IH |].
      rewrite insert_rule_perm. constructor; [unfold range_before; lia | done].
Qed.

Lemma insert_rule_ok (r : TickRule) (rs : list TickRule) :
  rule_ok r -> Forall rule_ok rs -> Forall rule_ok (insert_rule r rs).
Proof. intros Hr Hok. rewrite insert_rule_perm. by constructor. Qed.

Lemma range_before_apart (a : TickRule) (rs : list TickRule) :
  Forall (range_before a) rs ->
  Forall (range_apart (min_price a) (max_price a)) rs.
Proof.
  intros Hf. eapply Forall_impl; [exact Hf |]. intros x Hx. left. exact Hx.
Qed.

(** The [sort] of [add_rule] on the old rules followed by the new one. *)
Lemma sort_rules_snoc (r : TickRule) (rs : list TickRule) :
  rule_ok r -> rules_ok rs ->
  Forall (range_apart (min_price r) (max_price r)) rs ->
  rules_ok (sort_rules (rs ++ [r])) /\ sort_rules (rs ++ [r]) ≡ₚ r :: rs.
Proof.
  intros Hr [Hok Hs] Ha. unfold sort_rules. rewrite foldr_app. cbn [foldr insert_rule].
  induction Hs as [| a rs Hs IH Hall]; cbn [foldr].
  - split; [| done]. split; [by constructor | repeat constructor].
  - apply Forall_cons in Hok as [Hoka Hok]. apply Forall_cons in Ha as [Haa Ha].
    destruct (IH Hok Ha) as [[Hok' Hs'] Hp].
    split; [split |].
    + by apply insert_rule_ok.
    + apply insert_rule_sorted; try done.
      rewrite Hp. constructor.
      * unfold range_apart, rule_ok in *. lia.
      * by apply range_before_apart.
    + rewrite insert_rule_perm, Hp. apply Permutation_swap.
Qed.

(** X1.  [add_rule] keeps the table invariant.  On a table that satisfies
    it, a call that returns has added exactly the new rule, and the result is
    again sorted with ranges that share no price; the call throws exactly
    when [min_price > max_price], [tick_size <= 0], [min_price < 0], or the
    new range shares a price with the range of a rule of the table. *)
Theorem add_rule_keeps_table (min_p max_p tick : Z) (rules : t) :
  rules_ok rules ->
  match add_rule min_p max_p tick rules with
  | Some rules' =>
      rules_ok rules'
      /\ rules' ≡ₚ mkRule min_p max_p tick :: rules
      /\ 0 <= min_p <= max_p /\ 0 < tick
      /\ Forall (range_apart min_p max_p) rules
  | None =>
      max_p < min_p \/ tick <= 0 \/ min_p < 0
      \/ Exists (fun r => ~ range_apart min_p max_p r) rules
  end.
Proof.
  intros Hok. unfold add_rule.
  destruct (Z.gtb_spec min_p max_p) as [? | Hle]; cbn [orb]; [lia |].
  destruct (Z.leb_spec tick 0) as [? | Ht]; cbn [orb]; [lia |].
  destruct (Z.ltb_spec min_p 0) as [? | Hm]; [lia |].
  destruct (existsb (overlaps min_p max_p) rules) eqn:He.
  - right. right. right. apply existsb_exists in He as (r & Hin & Ho).
    apply List.Exists_exists. exists r. split; [exact Hin |].
    unfold overlaps in Ho. apply negb_true_iff, orb_false_iff in Ho as [H1 H2].
    apply Z.ltb_ge in H1. rewrite Z.gtb_ltb in H2. apply Z.ltb_ge in H2.
    unfold range_apart. lia.
  - assert (Ha : Forall (range_apart min_p max_p) rules).
    { apply List.Forall_forall. intros r Hin.
      assert (Ho : overlaps min_p max_p r = false).
      { destruct (overlaps min_p max_p r) eqn:Ho; [| done].
        assert (existsb (overlaps min_p max_p) rules = true); [| congruence].
        apply existsb_exists. exists r. split; [exact Hin | done]. }
      unfold overlaps in Ho. apply negb_false_iff, orb_true_iff in Ho.
      unfold range_apart. rewrite Z.gtb_ltb in Ho.
      destruct Ho as [Ho | Ho]; apply Z.ltb_lt in Ho; lia. }
    destruct (sort_rules_snoc (mkRule min_p max_p tick) rules) as [Hok' Hp];
      [unfold rule_ok; cbn; lia | done | done |].
    split; [exact Hok' |]. split; [exact Hp |].
    split; [lia |]. split; [lia | exact Ha].
Qed.
End TickRules.

Lemma add_rule_keeps_table_witness :
  rules_ok [TickSizeTable.mkRule 1 99 1]
  /\ match TickSizeTable.add_rule 100 999 1 [TickSizeTable.mkRule 1 99 1] with
     | Some rules' =>
         rules_ok rules'
         /\ rules' ≡ₚ [TickSizeTable.mkRule 100 999 1; TickSizeTable.mkRule 1 99 1]
     | None => False
     end.
Proof.
  assert (Hok : rules_ok [TickSizeTable.mkRule 1 99 1]).
  { split; repeat constructor; cbn; lia. }
  split; [exact Hok |].
  pose proof (add_rule_keeps_table 100 999 1 _ Hok) as Hadd.
  destruct (TickSizeTable.add_rule 100 999 1 [TickSizeTable.mkRule 1 99 1]).
  - destruct Hadd as (H1 & H2 & _). split; [exact H1 | exact H2].
  - destruct Hadd as [Hadd | [Hadd | [Hadd | Hadd]]]; try lia.
    apply Exists_cons in Hadd as [Hadd | Hadd].
    + apply Hadd. right. cbn. lia.
    + by apply Exists_nil in Hadd.
Defined.

Section TickNeighbours.
Import TickSizeTable.

Lemma get_tick_size_default (p : Z) :
  0 < p <= INT64_MAX -> get_tick_size default_table p = default_tick p.
Proof.
  intros Hp. unfold get_tick_size.
  destruct (Z.leb_spec p 0); [lia |].
  by destruct (find_default_table p Hp) as (lo & hi & ->).
Qed.

(** X2.  On the default table [round_to_tick] rounds a positive price to the
    nearest multiple of the tick of its band, a price half-way between two
    multiples going up: the result is the one multiple of [get_tick_size p]
    between [p - (tick - 1) / 2] and [p + tick / 2]. *)
Theorem round_to_tick_nearest (p : Z) :
  0 < p <= INT64_MAX - 50 ->
  let r := round_to_tick default_table p in
  let tick := get_tick_size default_table p in
  0 < tick /\ r mod tick = 0
  /\ p - (tick - 1) / 2 <= r <= p + tick / 2.
Proof.
  intros Hp. cbn zeta.
  rewrite get_tick_size_default by (unfold INT64_MAX in *; lia).
  rewrite round_to_tick_default by done.
  unfold default_tick.
  repeat case_match; (split; [lia |]);
    split; Z.div_mod_to_equations; lia.
Qed.

(** X3.  The valid prices of the default table are 0 and the positive
    multiples of the tick of their band; no negative price is valid. *)
Theorem is_valid_price_multiple (p : Z) :
  p <= INT64_MAX - 50 ->
  is_valid_price default_table p = true
  <-> p = 0 \/ (0 < p /\ p mod get_tick_size default_table p = 0).
Proof.
  intros Hp. unfold is_valid_price. rewrite Z.eqb_eq.
  destruct (Z.le_gt_cases p 0) as [Hn | Hpos].
  - rewrite round_to_tick_nonpos by done. split; [by left | intros [-> | [? _]]; lia].
  - rewrite get_tick_size_default by (unfold INT64_MAX in *; lia). split.
    + intros Hr. right. split; [lia |].
      rewrite round_to_tick_default in Hr by lia.
      revert Hr. unfold default_tick.
      repeat case_match; intros Hr; Z.div_mod_to_equations; lia.
    + intros [-> | [_ Hm]]; [lia |].
      symmetry. apply round_to_tick_multiple; [lia | exact Hm].
Qed.

(** X4.  On the default table [get_next_tick_up] of a positive price is a
    valid price strictly above it. *)
Theorem get_next_tick_up_above (p : Z) :
  0 < p <= INT64_MAX - 300 ->
  p < get_next_tick_up default_table p
  /\ is_valid_price default_table (get_next_tick_up default_table p) = true.
Proof.
  intros Hp. unfold get_next_tick_up. unfold INT64_MAX in Hp.
  rewrite get_tick_size_default by (unfold INT64_MAX; lia).
  destruct (round_to_tick_nearest p) as (Ht & Hm & Hr);
    [unfold INT64_MAX; lia |].
  rewrite get_tick_size_default in Ht, Hm, Hr by (unfold INT64_MAX; lia).
  assert (Hd : default_tick p <= 100).
  { unfold default_tick. repeat case_match; lia. }
  assert (Hrt : round_to_tick default_table p
                = (p + default_tick p / 2) / default_tick p * default_tick p).
  { apply round_to_tick_default. unfold INT64_MAX. lia. }
  set (t := default_tick p) in *. set (r := round_to_tick default_table p) in *.
  assert (Hh : 0 <= (t - 1) / 2 /\ 0 <= t / 2 <= 50).
  { repeat split; [apply Z.div_pos; lia | apply Z.div_pos; lia
                  | apply Z.div_le_upper_bound; lia]. }
  assert (Hr0 : 0 < r).
  { clearbody r. subst t. revert Hrt Hm Hr. unfold default_tick.
    repeat case_match; intros; Z.div_mod_to_equations; lia. }
  destruct (Z.eqb_spec t 0); [lia |].
  destruct (Z.eqb_spec r 0); [lia |].
  unfold add64. rewrite wrap64_id by (unfold INT64_MIN, INT64_MAX; lia).
  split.
  - rewrite round_to_tick_default by (unfold INT64_MAX; lia).
    clearbody r. subst t. revert Hrt Hm Hr. unfold default_tick.
    repeat case_match; intros; Z.div_mod_to_equations; lia.
  - unfold is_valid_price. rewrite round_to_tick_fixed; [apply Z.eqb_refl |].
    unfold ROUND_SAFE_MAX. lia.
Qed.

(** X5.  On the default table [get_next_tick_down] of a positive price is a
    valid price strictly below it, 0 when there is none above 0. *)
Theorem get_next_tick_down_below (p : Z) :
  0 < p <= INT64_MAX - 300 ->
  0 <= get_next_tick_down default_table p < p
  /\ is_valid_price default_table (get_next_tick_down default_table p) = true.
Proof.
  intros Hp. unfold get_next_tick_down. unfold INT64_MAX in Hp.
  rewrite get_tick_size_default by (unfold INT64_MAX; lia).
  destruct (round_to_tick_nearest p) as (Ht & Hm & Hr);
    [unfold INT64_MAX; lia |].
  rewrite get_tick_size_default in Ht, Hm, Hr by (unfold INT64_MAX; lia).
  assert (Hd : default_tick p <= 100).
  { unfold default_tick. repeat case_match; lia. }
  assert (Hrt : round_to_tick default_table p
                = (p + default_tick p / 2) / default_tick p * default_tick p).
  { apply round_to_tick_default. unfold INT64_MAX. lia. }
  set (t := default_tick p) in *. set (r := round_to_tick default_table p) in *.
  assert (Hh : 0 <= (t - 1) / 2 /\ 0 <= t / 2 <= 50).
  { repeat split; [apply Z.div_pos; lia | apply Z.div_pos; lia
                  | apply Z.div_le_upper_bound; lia]. }
  assert (Hr0 : 0 < r).
  { clearbody r. subst t. revert Hrt Hm Hr. unfold default_tick.
    repeat case_match; intros; Z.div_mod_to_equations; lia. }
  assert (Hh2 : t / 2 <= t) by (apply Z.div_le_upper_bound; lia).
  destruct (Z.eqb_spec t 0); [lia |].
  destruct (Z.eqb_spec r 0); [lia |].
  unfold sub64. rewrite wrap64_id by (unfold INT64_MIN, INT64_MAX; lia).
  rewrite Z.gtb_ltb. destruct (Z.ltb_spec 0 (r - t)) as [Hn | Hn].
  - split.
    + rewrite round_to_tick_default by (unfold INT64_MAX; lia).
      clearbody r. subst t. revert Hrt Hm Hr Hn. unfold default_tick.
      repeat case_match; intros; Z.div_mod_to_equations; lia.
    + unfold is_valid_price. rewrite round_to_tick_fixed; [apply Z.eqb_refl |].
      unfold ROUND_SAFE_MAX. lia.
  - split; [lia | reflexivity].
Qed.
End TickNeighbours.

Lemma round_to_tick_nearest_witness :
  0 < 499998 <= INT64_MAX - 50
  /\ TickSizeTable.round_to_tick TickSizeTable.default_table 499998 = 500000
  /\ 499998 - (5 - 1) / 2
     <= TickSizeTable.round_to_tick TickSizeTable.default_table 499998
     <= 499998 + 5 / 2.
Proof.
  assert (Hp : 0 < 499998 <= INT64_MAX - 50) by (unfold INT64_MAX; lia).
  split; [exact Hp |]. split; [vm_compute; reflexivity |].
  exact (proj2 (proj2 (round_to_tick_nearest 499998 Hp))).
Defined.

Lemma is_valid_price_multiple_witness :
  100002 <= INT64_MAX - 50
  /\ (TickSizeTable.is_valid_price TickSizeTable.default_table 100002 = true
      -> 100002 mod 5 = 0).
Proof.
  assert (Hp : 100002 <= INT64_MAX - 50) by (unfold INT64_MAX; lia).
  split; [exact Hp |]. intros Hv.
  destruct (proj1 (is_valid_price_multiple 100002 Hp) Hv) as [H0 | [_ Hm]];
    [lia | exact Hm].
Defined.

Lemma get_next_tick_up_above_witness :
  0 < 499998 <= INT64_MAX - 300
  /\ 499998 < TickSizeTable.get_next_tick_up TickSizeTable.default_table 499998
  /\ TickSizeTable.get_next_tick_up TickSizeTable.default_table 499998 = 500010.
Proof.
  assert (Hp : 0 < 499998 <= INT64_MAX - 300) by (unfold INT64_MAX; lia).
  split; [exact Hp |].
  split; [exact (proj1 (get_next_tick_up_above 499998 Hp)) |].
  vm_compute; reflexivity.
Defined.

Lemma get_next_tick_down_below_witness :
  0 < 100002 <= INT64_MAX - 300
  /\ 0 <= TickSizeTable.get_next_tick_down TickSizeTable.default_table 100002
     < 100002
  /\ TickSizeTable.get_next_tick_down TickSizeTable.default_table 100002 = 99995.
Proof.
  assert (Hp : 0 < 100002 <= INT64_MAX - 300) by (unfold INT64_MAX; lia).
  split; [exact Hp |].
  split; [exact (proj1 (get_next_tick_down_below 100002 Hp)) |].
  vm_compute; reflexivity.
Defined.

(** ** The arena: construction, growth, and handles released once *)

Section PoolSound.
Context {T : Type} `{PoolItem T}.
Import ObjectPool.

Lemma add_slots_shape (n : nat) (p : t T) :
  length (pool_ (add_slots n p)) = (length (pool_ p) + n)%nat
  /\ length (available_ (add_slots n p)) = (length (available_ p) + n)%nat
  /\ allocated_count_ (add_slots n p) = allocated_count_ p
  /\ pool_size_ (add_slots n p) = pool_size_ p.
Proof.
  revert p. induction n as [| n IH]; intros p; cbn [add_slots].
  - repeat split; lia.
  - destruct (IH (add_slot p)) as (H1 & H2 & H3 & H4).
    rewrite H1, H2, H3, H4. unfold add_slot. cbn. rewrite length_app. cbn.
    repeat split; lia.
Qed.

Lemma add_slot_nodup (p : t T) :
  pool_consistent p -> NoDup (available_ p) -> NoDup (available_ (add_slot p)).
Proof.
  intros (Hav & Hva & _) Hnd. unfold add_slot. cbn.
  apply NoDup_cons. split; [| done].
  intros Hin. apply list_elem_of_In, Hav, Hva in Hin. lia.
Qed.

Lemma add_slots_nodup (n : nat) (p : t T) :
  pool_consistent p -> NoDup (available_ p) ->
  NoDup (available_ (add_slots n p)).
Proof.
  revert p. induction n as [| n IH]; intros p Hc Hnd; [done |].
  cbn [add_slots]. apply IH; [by apply add_slot_consistent | by apply add_slot_nodup].
Qed.

Lemma add_slots_sound (n : nat) (p : t T) :
  pool_sound p -> pool_sound (add_slots n p).
Proof.
  intros (Hc & Hnd & Hsum). split; [by apply add_slots_consistent |].
  split; [by apply add_slots_nodup |].
  unfold available_count, allocated_count, total_capacity in *.
  destruct (add_slots_shape n p) as (H1 & H2 & H3 & _). rewrite H1, H2, H3. lia.
Qed.

(** X6.  A pool constructed with [initial_size] objects has all of them
    free and none allocated, and satisfies the arena invariant. *)
Theorem ctor_all_free (initial_size : nat) :
  let p := ctor (T := T) initial_size in
  pool_sound p
  /\ available_count p = Z.of_nat initial_size
  /\ allocated_count p = 0
  /\ total_capacity p = Z.of_nat initial_size.
Proof.
  cbn zeta. unfold ctor.
  set (p0 := mk [] [] (Z.of_nat initial_size) 0 ∅ : t T).
  assert (H0 : pool_sound p0).
  { split; [| split; [constructor | reflexivity]].
    unfold pool_consistent. cbn. repeat split; done. }
  split; [by apply add_slots_sound |].
  unfold available_count, allocated_count, total_capacity.
  destruct (add_slots_shape initial_size p0) as (H1 & H2 & H3 & _).
  rewrite H1, H2, H3. cbn. repeat split; lia.
Qed.

(** X7.  [expand_pool] adds [additional_size] free objects and keeps the
    arena invariant, provided the new [pool_size_] still fits a [size_t]. *)
Theorem expand_pool_adds_free (additional_size : nat) (p : t T) :
  pool_sound p ->
  0 <= pool_size_ p -> pool_size_ p + Z.of_nat additional_size < 2 ^ 64 ->
  let q := expand_pool additional_size p in
  pool_sound q
  /\ available_count q = available_count p + Z.of_nat additional_size
  /\ total_capacity q = total_capacity p + Z.of_nat additional_size
  /\ allocated_count q = allocated_count p
  /\ pool_size_ q = pool_size_ p + Z.of_nat additional_size.
Proof.
  intros Hs H0 Hlt. cbn zeta. unfold expand_pool.
  rewrite wrapu64_id by lia.
  replace (Z.to_nat (pool_size_ p + Z.of_nat additional_size - pool_size_ p))
    with additional_size by lia.
  pose proof (add_slots_sound additional_size p Hs) as (Hc & Hnd & Hsum).
  destruct (add_slots_shape additional_size p) as (H1 & H2 & H3 & _).
  unfold pool_sound, pool_consistent, available_count, allocated_count,
    total_capacity in *. cbn.
  rewrite H1, H2, H3 in *. repeat split; try tauto; try lia.
Qed.

Lemma free_below_capacity (ptr : nat) (p : t T) :
  pool_sound p -> outstanding ptr p ->
  (length (available_ p) < length (pool_ p))%nat.
Proof.
  intros ((Hav & Hva & _) & Hnd & _) [Hv Hn].
  assert (Hsub : ptr :: available_ p ⊆+ seq 0 (length (pool_ p))).
  { apply NoDup_submseteq.
    - apply NoDup_cons. split; [by rewrite list_elem_of_In | done].
    - intros x Hx. apply elem_of_seq. split; [lia |]. cbn.
      apply elem_of_cons in Hx as [-> | Hx]; [by apply Hva |].
      by apply Hva, Hav, list_elem_of_In. }
  apply submseteq_length in Hsub. rewrite length_seq in Hsub. cbn in Hsub. lia.
Qed.

(** X8.  On an arena that satisfies the invariant, [acquire] never fails and
    never hands out a handle that is in use: the handle it returns was not
    outstanding, is outstanding afterwards, addresses a slot, and the
    handles that were outstanding stay so; the invariant is kept and
    [allocated_count] grows by one. *)
Theorem acquire_hands_out_free_slot (p : t T) :
  pool_sound p -> total_capacity p < 2 ^ 64 - 1 ->
  exists ptr,
    (acquire p).1 = Some ptr
    /\ ~ outstanding ptr p
    /\ outstanding ptr (acquire p).2
    /\ (ptr < length (pool_ (acquire p).2))%nat
    /\ (forall q, outstanding q p -> outstanding q (acquire p).2 /\ q <> ptr)
    /\ pool_sound (acquire p).2
    /\ allocated_count (acquire p).2 = allocated_count p + 1.
Proof.
  intros Hs Hcap. pose proof Hs as ((Hav & Hva & Hc) & Hnd & Hsum).
  unfold available_count, allocated_count, total_capacity in *.
  pose proof (acquire_consistent p (proj1 Hs)) as Hc'.
  unfold acquire in *. unfold outstanding.
  destruct (available_ p) as [| ptr rest] eqn:Ha; cbn in *;
    rewrite (wrapu64_id (allocated_count_ p + 1)) in * by lia.
  - exists (length (pool_ p)).
    split; [done |]. split.
    { intros [Hv _]. apply Hva in Hv. lia. }
    split; [split; [by apply elem_of_union_l, elem_of_singleton | tauto] |].
    split; [rewrite length_app; cbn; lia |].
    split.
    { intros q [Hq _]. split; [split; [by apply elem_of_union_r | tauto] |].
      apply Hva in Hq. lia. }
    split; [| done].
    split; [exact Hc' |]. split; [constructor |].
    unfold available_count, total_capacity. cbn. rewrite length_app. cbn. lia.
  - exists ptr.
    apply NoDup_cons in Hnd as [Hnin Hnd]. rewrite list_elem_of_In in Hnin.
    split; [done |]. split; [tauto |].
    split; [split; [apply Hav; by left | done] |].
    split; [apply Hva, Hav; by left |].
    split.
    { intros q [Hq Hn]. split; [split; [done | tauto] |]. intros ->. tauto. }
    split; [| done].
    split; [exact Hc' |]. split; [done |].
    unfold available_count, total_capacity. cbn. lia.
Qed.

(** X9.  Giving back an outstanding handle keeps the arena invariant,
    resets that slot and no other, takes one off [allocated_count], and
    makes the handle the next one [acquire] returns. *)
Theorem release_outstanding_sound (ptr : nat) (p : t T) :
  pool_sound p -> outstanding ptr p ->
  let q := release (Some ptr) p in
  pool_sound q
  /\ pool_ q = alter reset_item ptr (pool_ p)
  /\ allocated_count q = allocated_count p - 1
  /\ available_ q = ptr :: available_ p
  /\ (acquire q).1 = Some ptr
  /\ available_ (acquire q).2 = available_ p
  /\ allocated_count (acquire q).2 = allocated_count p.
Proof.
  intros Hs Ho. cbn zeta.
  pose proof (free_below_capacity ptr p Hs Ho) as Hfree.
  pose proof (release_consistent (Some ptr) p (proj1 Hs)) as Hc'.
  destruct Hs as ((Hav & Hva & Hc) & Hnd & Hsum). destruct Ho as [Hv Hn].
  unfold available_count, allocated_count, total_capacity in *.
  unfold release in *. rewrite bool_decide_eq_true_2 in * by done.
  unfold acquire. cbn.
  assert (Hpos : 0 < allocated_count_ p) by lia.
  rewrite (wrapu64_id (allocated_count_ p - 1)) by lia.
  replace (allocated_count_ p - 1 + 1) with (allocated_count_ p) by lia.
  rewrite wrapu64_id by lia.
  rewrite (wrapu64_id (allocated_count_ p - 1)) in Hc' by lia.
  split; [| by repeat split].
  split; [exact Hc' |]. split.
  - apply NoDup_cons. split; [by rewrite list_elem_of_In | done].
  - unfold available_count, allocated_count, total_capacity. cbn.
    rewrite length_alter. lia.
Qed.

(** X10.  [release] of the handle [acquire] has just returned, on an arena
    with a free slot: the free stack, the counter and the set of handles are
    back as they were, and the slot is reset. *)
Theorem release_after_acquire (p : t T) :
  pool_sound p -> available_ p <> [] ->
  let '(obj, p1) := acquire p in
  exists ptr,
    obj = Some ptr
    /\ release obj p1
       = mk (alter reset_item ptr (pool_ p)) (available_ p) (pool_size_ p)
            (allocated_count_ p) (valid_objects_ p).
Proof.
  intros ((Hav & Hva & Hc) & Hnd & Hsum) Hne. unfold acquire.
  destruct (available_ p) as [| ptr rest] eqn:Ha; [done |].
  exists ptr. split; [done |]. unfold release. cbn.
  rewrite bool_decide_eq_true_2 by (apply Hav; by left).
  by rewrite wrapu64_succ_pred.
Qed.
End PoolSound.

Lemma expand_pool_adds_free_witness :
  let p := ObjectPool.ctor (T := Order.t) 2 in
  pool_sound p
  /\ 0 <= ObjectPool.pool_size_ p
  /\ ObjectPool.pool_size_ p + Z.of_nat 3 < 2 ^ 64
  /\ ObjectPool.available_count (ObjectPool.expand_pool 3 p) = 5.
Proof.
  cbn zeta.
  assert (Hs : pool_sound (ObjectPool.ctor (T := Order.t) 2))
    by exact (proj1 (ctor_all_free 2)).
  assert (H0 : 0 <= ObjectPool.pool_size_ (ObjectPool.ctor (T := Order.t) 2))
    by (vm_compute; discriminate).
  assert (H1 : ObjectPool.pool_size_ (ObjectPool.ctor (T := Order.t) 2)
               + Z.of_nat 3 < 2 ^ 64) by (vm_compute; reflexivity).
  split; [exact Hs |]. split; [exact H0 |]. split; [exact H1 |].
  destruct (expand_pool_adds_free 3 _ Hs H0 H1) as (_ & Ha & _).
  rewrite Ha. vm_compute. reflexivity.
Defined.

Lemma acquire_hands_out_free_slot_witness :
  let p := ObjectPool.ctor (T := Order.t) 2 in
  pool_sound p
  /\ ObjectPool.total_capacity p < 2 ^ 64 - 1
  /\ exists ptr,
       (ObjectPool.acquire p).1 = Some ptr
       /\ outstanding ptr (ObjectPool.acquire p).2.
Proof.
  cbn zeta.
  assert (Hs : pool_sound (ObjectPool.ctor (T := Order.t) 2))
    by exact (proj1 (ctor_all_free 2)).
  assert (Hc : ObjectPool.total_capacity (ObjectPool.ctor (T := Order.t) 2)
               < 2 ^ 64 - 1) by (vm_compute; reflexivity).
  split; [exact Hs |]. split; [exact Hc |].
  destruct (acquire_hands_out_free_slot _ Hs Hc) as (ptr & Hp & _ & Ho & _).
  exists ptr. split; [exact Hp | exact Ho].
Defined.

Lemma release_outstanding_sound_witness :
  let p := (ObjectPool.acquire (ObjectPool.ctor (T := Order.t) 2)).2 in
  pool_sound p
  /\ outstanding 1%nat p
  /\ pool_sound (ObjectPool.release (Some 1%nat) p)
  /\ (ObjectPool.acquire (ObjectPool.release (Some 1%nat) p)).1 = Some 1%nat.
Proof.
  cbn zeta.
  assert (Hs0 : pool_sound (ObjectPool.ctor (T := Order.t) 2))
    by exact (proj1 (ctor_all_free 2)).
  assert (Hc : ObjectPool.total_capacity (ObjectPool.ctor (T := Order.t) 2)
               < 2 ^ 64 - 1) by (vm_compute; reflexivity).
  destruct (acquire_hands_out_free_slot _ Hs0 Hc)
    as (ptr & Hp & _ & Ho & _ & _ & Hs & _).
  assert (Hptr : ptr = 1%nat).
  { assert (H1 : (ObjectPool.acquire (ObjectPool.ctor (T := Order.t) 2)).1
                 = Some 1%nat) by (vm_compute; reflexivity).
    congruence. }
  rewrite Hptr in Ho.
  destruct (release_outstanding_sound 1 _ Hs Ho) as (Hs' & _ & _ & _ & Ha & _).
  split; [exact Hs |]. split; [exact Ho |]. split; [exact Hs' | exact Ha].
Defined.

Lemma release_after_acquire_witness :
  let p := ObjectPool.ctor (T := Order.t) 2 in
  pool_sound p
  /\ ObjectPool.available_ p <> []
  /\ ObjectPool.available_
       (ObjectPool.release (ObjectPool.acquire p).1 (ObjectPool.acquire p).2)
     = ObjectPool.available_ p.
Proof.
  cbn zeta.
  assert (Hs : pool_sound (ObjectPool.ctor (T := Order.t) 2))
    by exact (proj1 (ctor_all_free 2)).
  assert (Hne : ObjectPool.available_ (ObjectPool.ctor (T := Order.t) 2) <> [])
    by (vm_compute; discriminate).
  split; [exact Hs |]. split; [exact Hne |].
  pose proof (release_after_acquire _ Hs Hne) as Hr.
  destruct (ObjectPool.acquire (ObjectPool.ctor (T := Order.t) 2)) as [obj p1].
  cbn [fst snd]. destruct Hr as (ptr & _ & ->). reflexivity.
Defined.

(** ** Ordered maps: keys and sortedness *)

Section OMapOrder.
Context {V : Type}.

Lemma keys_update (k : Z) (v : V) (m : list (Z * V)) :
  map fst (OMap.update k v m) = map fst m.
Proof.
  induction m as [| [k' v'] m IH]; [done |]. cbn [OMap.update].
  destruct (k =? k'); cbn; [done | by rewrite IH].
Qed.

Lemma sorted_by_update (before : Z -> Z -> bool) (k : Z) (v : V)
    (m : list (Z * V)) :
  sorted_by before m -> sorted_by before (OMap.update k v m).
Proof. unfold sorted_by. by rewrite keys_update. Qed.

Lemma keys_erase (k : Z) (m : list (Z * V)) :
  map fst (OMap.erase k m) `sublist_of` map fst m.
Proof.
  induction m as [| [k' v'] m IH]; [done |]. cbn [OMap.erase].
  destruct (k =? k'); cbn; [by apply sublist_cons | by apply sublist_skip].
Qed.

Lemma StronglySorted_sublist {A : Type} (R : A -> A -> Prop) (l1 l2 : list A) :
  l1 `sublist_of` l2 -> StronglySorted R l2 -> StronglySorted R l1.
Proof.
  induction 1 as [| x l1 l2 Hsub IH | x l1 l2 Hsub IH]; [done | |].
  - intros Hs. apply StronglySorted_inv in Hs as [Hs Hall].
    constructor; [by apply IH |].
    rewrite Forall_forall in *. intros y Hy. apply Hall.
    by eapply elem_of_sublist.
  - intros Hs. apply StronglySorted_inv in Hs as [Hs _]. by apply IH.
Qed.

Lemma sorted_by_thinned {W : Type} (before : Z -> Z -> bool) (m : list (Z * V))
    (m' : list (Z * W)) :
  map fst m' `sublist_of` map fst m -> sorted_by before m -> sorted_by before m'.
Proof. unfold sorted_by. apply StronglySorted_sublist. Qed.

Lemma sorted_by_erase (before : Z -> Z -> bool) (k : Z) (m : list (Z * V)) :
  sorted_by before m -> sorted_by before (OMap.erase k m).
Proof. apply sorted_by_thinned, keys_erase. Qed.

Lemma keys_index (before : Z -> Z -> bool) (k : Z) (d : V) (m : list (Z * V))
    (x : Z) :
  In x (map fst (OMap.index before k d m)) <-> x = k \/ In x (map fst m).
Proof.
  induction m as [| [k' v'] m IH]; cbn [OMap.index].
  - cbn. intuition.
  - destruct (before k k'); [cbn; intuition |].
    destruct (Z.eqb_spec k k') as [-> | Hne]; cbn; [intuition |].
    cbn in IH. rewrite IH. intuition.
Qed.

Lemma sorted_by_index (before : Z -> Z -> bool) (k : Z) (d : V)
    (m : list (Z * V)) :
  (forall a b c, before a b = true -> before b c = true -> before a c = true) ->
  (forall a b, before a b = false -> a <> b -> before b a = true) ->
  sorted_by before m -> sorted_by before (OMap.index before k d m).
Proof.
  intros Htrans Htotal. unfold sorted_by.
  induction m as [| [k' v'] m IH]; cbn [OMap.index]; intros Hs.
  - cbn. repeat constructor.
  - cbn in Hs. apply StronglySorted_inv in Hs as [Hs Hall].
    destruct (before k k') eqn:Hb.
    + cbn. constructor; [by constructor |].
      constructor; [done |].
      eapply Forall_impl; [exact Hall |]. cbn. intros x Hx. by eapply Htrans.
    + destruct (Z.eqb_spec k k') as [-> | Hne]; [by constructor |].
      cbn. constructor; [by apply IH |].
      apply List.Forall_forall. intros x Hx. apply keys_index in Hx as [-> | Hx].
      * by apply Htotal.
      * rewrite List.Forall_forall in Hall. by apply Hall.
Qed.

Lemma find_index_eq (before : Z -> Z -> bool) (k : Z) (d : V)
    (m : list (Z * V)) :
  (forall a, before a a = false) ->
  exists v, OMap.find k (OMap.index before k d m) = Some v.
Proof.
  intros Hirr. induction m as [| [k' v'] m IH]; cbn [OMap.index].
  - exists d. cbn. by rewrite Z.eqb_refl.
  - destruct (before k k') eqn:Hb.
    + exists d. cbn. by rewrite Z.eqb_refl.
    + destruct (Z.eqb_spec k k') as [-> | Hne].
      * exists v'. cbn. by rewrite Z.eqb_refl.
      * destruct IH as [v Hv]. exists v. cbn.
        destruct (Z.eqb_spec k k'); [done | exact Hv].
Qed.
End OMapOrder.

Lemma ltb_trans (a b c : Z) :
  (a <? b) = true -> (b <? c) = true -> (a <? c) = true.
Proof. rewrite !Z.ltb_lt. lia. Qed.

Lemma ltb_total (a b : Z) : (a <? b) = false -> a <> b -> (b <? a) = true.
Proof. rewrite Z.ltb_lt, Z.ltb_ge. lia. Qed.

Lemma ltb_irrefl (a : Z) : (a <? a) = false.
Proof. apply Z.ltb_irrefl. Qed.

Lemma ltb_asym (a c : Z) : (a <? c) = true -> (c <? a) = false.
Proof. rewrite Z.ltb_lt, Z.ltb_ge. lia. Qed.

(** ** The stop manager: round trip and repeated checks *)

Section StopRoundTrip.
Import StopOrderManager.

Lemma find_bucket_orders (k : Z) (bucket : list nat)
    (stops : list (Z * list nat)) (order : nat) :
  OMap.find k stops = Some bucket -> In order bucket ->
  In order (bucket_orders stops).
Proof.
  unfold bucket_orders.
  induction stops as [| [k' b'] stops IH]; [done |]. cbn [OMap.find map concat snd].
  intros Hf Hin. apply in_or_app.
  destruct (k =? k'); [injection Hf as ->; by left | right; by apply IH].
Qed.

Lemma find_nonempty (k : Z) (bucket : list nat) (stops : list (Z * list nat)) :
  Forall (fun b => b.2 <> []) stops -> OMap.find k stops = Some bucket ->
  bucket <> [].
Proof.
  induction 1 as [| [k' b'] stops Hne Hall IH]; [done |]. cbn [OMap.find].
  destruct (k =? k'); [by intros [= <-] | exact IH].
Qed.

(** [stops[k].push_back(order)] undone by the bucket handling of
    [remove_stop_order]. *)
Lemma drop_push_stop (k : Z) (order : nat) (stops : list (Z * list nat)) :
  stops_wf stops -> ~ In order (bucket_orders stops) ->
  drop_stop k order (push_stop k order stops) = stops.
Proof.
  intros [Hs Hne] Hnin. unfold drop_stop, push_stop.
  set (stops1 := OMap.index Z.ltb k [] stops).
  assert (Hs1 : sorted_by Z.ltb stops1).
  { apply sorted_by_index; [apply ltb_trans | apply ltb_total | done]. }
  destruct (OMap.find k stops) as [bucket |] eqn:Hf.
  - assert (H1 : stops1 = stops).
    { eapply index_present; [apply ltb_irrefl | apply ltb_asym | done | done]. }
    rewrite H1, Hf. cbn [default from_option id].
    set (pushed := OMap.update k (bucket ++ [order]) stops).
    assert (Hfp : OMap.find k pushed = Some (bucket ++ [order])).
    { eapply find_update_eq. exact Hf. }
    assert (H2 : OMap.index Z.ltb k [] pushed = pushed).
    { eapply index_present; [apply ltb_irrefl | apply ltb_asym | | exact Hfp].
      by apply sorted_by_update. }
    rewrite H2, Hfp. cbn [default from_option id].
    rewrite remove_first_last.
    2:{ intros Hin. apply Hnin. by eapply find_bucket_orders. }
    assert (Hb : bucket <> []) by (by eapply find_nonempty).
    destruct bucket as [| x bucket']; [done |].
    unfold pushed. rewrite update_update. by apply update_id.
  - destruct (erase_index_absent Z.ltb k [] [order] stops Hf) as [Hf1 _].
    fold stops1 in Hf1. rewrite Hf1. cbn [default from_option id app].
    set (pushed := OMap.update k [order] stops1).
    assert (Hfp : OMap.find k pushed = Some [order]).
    { eapply find_update_eq. exact Hf1. }
    assert (H2 : OMap.index Z.ltb k [] pushed = pushed).
    { eapply index_present; [apply ltb_irrefl | apply ltb_asym | | exact Hfp].
      by apply sorted_by_update. }
    rewrite H2, Hfp. cbn [default from_option id remove_first].
    rewrite Nat.eqb_refl. unfold pushed. rewrite update_update.
    exact (proj2 (erase_index_absent Z.ltb k [] [] stops Hf)).
Qed.

(** X11.  A stop order whose id is not yet known to the manager, added and
    then removed by id: [remove_stop_order] returns [true] and the manager
    is exactly as before the [add_stop_order]. *)
Theorem remove_after_add_stop (heap : list Order.t) (order : nat) (sm : t) :
  let o := deref heap order in
  Order.type o = STOP_LOSS ->
  stop_lookup_ sm !! Order.id o = None ->
  stops_wf (buy_stops_ sm) -> stops_wf (sell_stops_ sm) ->
  ~ In order (bucket_orders (buy_stops_ sm)) ->
  ~ In order (bucket_orders (sell_stops_ sm)) ->
  remove_stop_order heap (Order.id o) (add_stop_order heap order sm)
  = (true, sm).
Proof.
  cbn zeta. intros Ht Hl Hb Hs Hnb Hns.
  unfold add_stop_order. rewrite Ht. unfold remove_stop_order.
  destruct sm as [buys sells lookup].
  cbn [buy_stops_ sell_stops_ stop_lookup_] in *.
  destruct (Order.side (deref heap order)) eqn:Hside;
    cbn [buy_stops_ sell_stops_ stop_lookup_];
    rewrite lookup_insert_eq, Hside, delete_insert_id by done;
    by rewrite drop_push_stop.
Qed.

Lemma upper_bound_none {V : Type} (k : Z) (m : list (Z * V)) :
  Forall (fun b => k < b.1) m -> OMap.upper_bound k m = O.
Proof.
  destruct 1 as [| [k' v] m Hk _]; [done |]. cbn in *.
  by rewrite (proj2 (Z.ltb_lt _ _)).
Qed.

Lemma lower_bound_all {V : Type} (k : Z) (m : list (Z * V)) :
  Forall (fun b => b.1 < k) m -> OMap.lower_bound k m = length m.
Proof.
  induction 1 as [| [k' v] m Hk _ IH]; [done |]. cbn in *.
  rewrite (proj2 (Z.leb_gt _ _)) by done. by rewrite IH.
Qed.

Lemma Forall_filter_test {A : Type} (f : A -> bool) (l : list A) :
  Forall (fun x => f x = true) (List.filter f l).
Proof.
  apply List.Forall_forall. intros x Hx. by apply filter_In in Hx as [_ ?].
Qed.

(** X12.  After [check_triggered_stops] at a price no stop is left that this
    price triggers: every remaining buy stop is above it, every remaining
    sell stop below it, and a second check at the same price returns no
    order and changes nothing. *)
Theorem check_triggered_stops_once (heap : list Order.t)
    (last_trade_price : Z) (sm : t) :
  sorted_by Z.ltb (buy_stops_ sm) -> sorted_by Z.ltb (sell_stops_ sm) ->
  let sm1 := (check_triggered_stops heap last_trade_price sm).2 in
  Forall (fun b => last_trade_price < b.1) (buy_stops_ sm1)
  /\ Forall (fun b => b.1 < last_trade_price) (sell_stops_ sm1)
  /\ check_triggered_stops heap last_trade_price sm1 = ([], sm1).
Proof.
  intros Hb Hs. cbn zeta.
  destruct (upper_bound_split last_trade_price (buy_stops_ sm) Hb) as [_ Hbd].
  destruct (lower_bound_split last_trade_price (sell_stops_ sm) Hs) as [Hst _].
  assert (Hbuy : Forall (fun b : Z * list nat => last_trade_price < b.1)
                   (drop (OMap.upper_bound last_trade_price (buy_stops_ sm))
                         (buy_stops_ sm))).
  { rewrite Hbd. eapply Forall_impl; [apply Forall_filter_test |].
    cbn. intros x Hx. by apply Z.ltb_lt. }
  assert (Hsell : Forall (fun b : Z * list nat => b.1 < last_trade_price)
                    (take (OMap.lower_bound last_trade_price (sell_stops_ sm))
                          (sell_stops_ sm))).
  { rewrite Hst. eapply Forall_impl; [apply Forall_filter_test |].
    cbn. intros x Hx. by apply Z.ltb_lt. }
  unfold check_triggered_stops at 1 2. cbn [snd buy_stops_ sell_stops_].
  split; [exact Hbuy |]. split; [exact Hsell |].
  set (sm1 := (check_triggered_stops heap last_trade_price sm).2).
  assert (Hb1 : buy_stops_ sm1
                = drop (OMap.upper_bound last_trade_price (buy_stops_ sm))
                       (buy_stops_ sm)) by reflexivity.
  assert (Hs1 : sell_stops_ sm1
                = take (OMap.lower_bound last_trade_price (sell_stops_ sm))
                       (sell_stops_ sm)) by reflexivity.
  rewrite <- Hb1 in Hbuy. rewrite <- Hs1 in Hsell. clearbody sm1.
  unfold check_triggered_stops.
  rewrite (upper_bound_none _ _ Hbuy), (lower_bound_all _ _ Hsell).
  rewrite take_0, drop_0, drop_all, firstn_all.
  cbn. by destruct sm1.
Qed.
End StopRoundTrip.

Lemma remove_after_add_stop_witness :
  let heap := [Order.ctor 11 SELL 0 100 5 5 0 STOP_LOSS 1 0 false 7] in
  let sm := StopOrderManager.mk [] [(101, [4%nat])] ∅ in
  Order.type (deref heap 0) = STOP_LOSS
  /\ StopOrderManager.stop_lookup_ sm !! Order.id (deref heap 0) = None
  /\ stops_wf (StopOrderManager.buy_stops_ sm)
  /\ stops_wf (StopOrderManager.sell_stops_ sm)
  /\ StopOrderManager.sell_stops_ (StopOrderManager.add_stop_order heap 0 sm)
     = [(100, [0%nat]); (101, [4%nat])]
  /\ StopOrderManager.remove_stop_order heap 11
       (StopOrderManager.add_stop_order heap 0 sm) = (true, sm).
Proof.
  cbn zeta.
  set (heap := [Order.ctor 11 SELL 0 100 5 5 0 STOP_LOSS 1 0 false 7]).
  set (sm := StopOrderManager.mk [] [(101, [4%nat])] ∅).
  assert (H1 : Order.type (deref heap 0) = STOP_LOSS) by reflexivity.
  assert (H2 : StopOrderManager.stop_lookup_ sm !! Order.id (deref heap 0) = None)
    by reflexivity.
  assert (H3 : stops_wf (StopOrderManager.buy_stops_ sm)).
  { split; [constructor | constructor]. }
  assert (H4 : stops_wf (StopOrderManager.sell_stops_ sm)).
  { split; [repeat constructor | repeat constructor; done]. }
  assert (H5 : ~ In 0%nat (bucket_orders (StopOrderManager.buy_stops_ sm)))
    by (cbn; tauto).
  assert (H6 : ~ In 0%nat (bucket_orders (StopOrderManager.sell_stops_ sm)))
    by (cbn; lia).
  split; [exact H1 |]. split; [exact H2 |]. split; [exact H3 |].
  split; [exact H4 |]. split; [reflexivity |].
  exact (remove_after_add_stop heap 0 sm H1 H2 H3 H4 H5 H6).
Defined.

Lemma check_triggered_stops_once_witness :
  let sm := StopOrderManager.mk [(90, [1%nat]); (120, [5%nat])]
              [(80, [4%nat]); (100, [3%nat]); (101, [2%nat])] ∅ in
  sorted_by Z.ltb (StopOrderManager.buy_stops_ sm)
  /\ sorted_by Z.ltb (StopOrderManager.sell_stops_ sm)
  /\ (StopOrderManager.check_triggered_stops [] 100 sm).1
     = [1%nat; 3%nat; 2%nat]
  /\ (StopOrderManager.check_triggered_stops [] 100
        (StopOrderManager.check_triggered_stops [] 100 sm).2).1 = [].
Proof.
  cbn zeta.
  set (sm := StopOrderManager.mk [(90, [1%nat]); (120, [5%nat])]
               [(80, [4%nat]); (100, [3%nat]); (101, [2%nat])] ∅).
  assert (Hb : sorted_by Z.ltb (StopOrderManager.buy_stops_ sm)).
  { unfold sorted_by. cbn. repeat constructor. }
  assert (Hs : sorted_by Z.ltb (StopOrderManager.sell_stops_ sm)).
  { unfold sorted_by. cbn. repeat constructor. }
  split; [exact Hb |]. split; [exact Hs |]. split; [reflexivity |].
  destruct (check_triggered_stops_once [] 100 sm Hb Hs) as (_ & _ & ->).
  reflexivity.
Defined.

(** ** A price level as one queue *)

Section LevelQueue.
Lemma remove_first_app (x : nat) (l1 l2 : list nat) :
  remove_first x (l1 ++ l2)
  = if existsb (Nat.eqb x) l1 then remove_first x l1 ++ l2
    else l1 ++ remove_first x l2.
Proof.
  induction l1 as [| y l1 IH]; [done |]. cbn.
  destruct (Nat.eqb x y); cbn; [done |]. rewrite IH.
  by destruct (existsb (Nat.eqb x) l1).
Qed.

(** X13.  A price level serves its orders as one queue, the market makers'
    orders first: [front] is the head of that queue, [pop_front] drops the
    head, [empty] tests it, [erase] removes the first occurrence of an
    order from it.  [add_order] puts a regular order at the end of the
    queue and a market maker's order behind the other market makers, ahead
    of every regular order. *)
Theorem level_is_one_queue (h : list Order.t) (order : nat)
    (l : PriceLevel.t) :
  PriceLevel.front l = head (queue l)
  /\ queue (PriceLevel.pop_front l) = tail (queue l)
  /\ (PriceLevel.empty l = true <-> queue l = [])
  /\ queue (PriceLevel.erase order l) = remove_first order (queue l)
  /\ queue (PriceLevel.add_order h order l)
     = if Order.is_market_maker (deref h order)
       then PriceLevel.mm_orders l ++ order :: PriceLevel.regular_orders l
       else queue l ++ [order].
Proof.
  destruct l as [mm reg]. unfold queue, PriceLevel.front, PriceLevel.pop_front,
    PriceLevel.empty, PriceLevel.erase, PriceLevel.add_order.
  cbn [PriceLevel.mm_orders PriceLevel.regular_orders].
  split; [by destruct mm |]. split; [by destruct mm |].
  split; [destruct mm, reg; cbn; split; done |].
  split.
  - rewrite remove_first_app. by destruct (existsb (Nat.eqb order) mm).
  - destruct (Order.is_market_maker (deref h order)); cbn;
      by rewrite <- ?app_assoc.
Qed.
End LevelQueue.

(** ** The risk manager *)

Section Breaker.
Import CircuitBreaker.

Lemma halted_answers_false (cb : t) (price : Z) :
  is_trading_halted cb = true -> should_halt_trading price cb = (false, cb).
Proof.
  unfold should_halt_trading, is_trading_halted. intros ->.
  by destruct (_ || _).
Qed.

(** X14.  The circuit breaker answers [true] once: it halts exactly when it
    is not yet triggered and the price is at or beyond a limit, and from
    then on it answers [false] at every price and stays as it is, until
    [resume_trading].  A breaker whose limits were never set trips at
    whatever price it sees first. *)
Theorem breaker_trips_once (cb : t) (price later : Z) :
  ((should_halt_trading price cb).1 = true
   <-> is_trading_halted cb = false
       /\ (upper_limit_ cb <= price \/ price <= lower_limit_ cb))
  /\ ((should_halt_trading price cb).1 = true ->
      is_trading_halted (should_halt_trading price cb).2 = true
      /\ should_halt_trading later (should_halt_trading price cb).2
         = (false, (should_halt_trading price cb).2))
  /\ (is_trading_halted cb = true -> should_halt_trading price cb = (false, cb))
  /\ (should_halt_trading price ctor).1 = true
  /\ is_trading_halted (resume_trading cb) = false.
Proof.
  unfold should_halt_trading, is_trading_halted, resume_trading, ctor.
  destruct cb as [upper lower triggered]. cbn [upper_limit_ lower_limit_ is_triggered_].
  rewrite Z.geb_leb.
  split; [| split; [| split; [| split]]].
  - destruct (Z.leb_spec upper price), (Z.leb_spec price lower), triggered;
      cbn; split; try done; try (intros [? [? | ?]]; (done || lia));
      intros _; (split; [done | lia]).
  - destruct (Z.leb_spec upper price), (Z.leb_spec price lower), triggered;
      cbn; try done; intros _; (split; [done |]);
      by destruct (_ || _).
  - intros Ht. by destruct (_ || _), triggered.
  - rewrite Z.geb_leb. cbn.
    destruct (Z.leb_spec 0 price), (Z.leb_spec price 0); cbn; try done; lia.
  - done.
Qed.
End Breaker.

Lemma breaker_trips_once_witness :
  let cb := CircuitBreaker.mk 120 80 false in
  (CircuitBreaker.should_halt_trading 130 cb).1 = true
  /\ CircuitBreaker.should_halt_trading 140
       (CircuitBreaker.should_halt_trading 130 cb).2
     = (false, (CircuitBreaker.should_halt_trading 130 cb).2).
Proof.
  cbn zeta.
  assert (H1 : (CircuitBreaker.should_halt_trading 130
                  (CircuitBreaker.mk 120 80 false)).1 = true) by reflexivity.
  split; [exact H1 |].
  exact (proj2 (proj1 (proj2 (breaker_trips_once (CircuitBreaker.mk 120 80 false)
                                  130 140)) H1)).
Defined.

Section Risk.
Import RiskManager.
Context `{Env}.

Lemma is_rate_limited_breaker (trader_id : Z) (ticks : nat) (rm : t) :
  circuit_breaker_ (is_rate_limited trader_id ticks rm).1.2
  = circuit_breaker_ rm
  /\ trader_limits_ (is_rate_limited trader_id ticks rm).1.2
     = trader_limits_ rm
  /\ positions_ (is_rate_limited trader_id ticks rm).1.2 = positions_ rm
  /\ last_trade_price_ (is_rate_limited trader_id ticks rm).1.2
     = last_trade_price_ rm.
Proof.
  unfold is_rate_limited. destruct (trader_limits_ rm !! trader_id); [| done].
  by destruct (_ >=? _).
Qed.

(** X15.  Once the breaker is triggered, [check_order] rejects no order on
    its account: whatever the order and its price, the answer is not
    [REJECTED_CIRCUIT_BREAKER], and the breaker stays triggered.  Nothing in
    [check_order] consults [is_trading_halted]. *)
Theorem tripped_breaker_rejects_nothing (order : Order.t) (ticks : nat)
    (rm : t) :
  CircuitBreaker.is_trading_halted (circuit_breaker_ rm) = true ->
  (check_order order ticks rm).1.1 <> REJECTED_CIRCUIT_BREAKER
  /\ circuit_breaker_ (check_order order ticks rm).1.2 = circuit_breaker_ rm.
Proof.
  intros Hh. unfold check_order.
  destruct (Order.type order); try done;
    (cbn [trader_limits_ touch_position];
     destruct (trader_limits_ rm !! Order.ownerID order) as [limit |];
       [| done];
     repeat (match goal with
             | |- context [if ?c then (_, _, _) else _] => destruct c
             end; [done |]);
     pose proof (is_rate_limited_breaker (Order.ownerID order) ticks
                   (touch_position (Order.ownerID order) rm)) as (Hcb & _);
     destruct (is_rate_limited _ _ _) as [[limited rm2] ticks2];
     cbn [fst snd] in Hcb; destruct limited; [done |];
     rewrite Hcb; cbn [circuit_breaker_ touch_position];
     rewrite (halted_answers_false _ _ Hh); done).
Qed.
End Risk.

Lemma tripped_breaker_rejects_nothing_witness :
  let rm := OrderBook.risk_manager_ one_bid in
  let order := Order.ctor 5 BUY 100 0 10 10 0 GTC 2 0 false 0 in
  CircuitBreaker.is_trading_halted (RiskManager.circuit_breaker_ rm) = true
  /\ (RiskManager.check_order order 0 rm).1.1 = RiskManager.APPROVED
  /\ (RiskManager.check_order order 0 rm).1.1
     <> RiskManager.REJECTED_CIRCUIT_BREAKER.
Proof.
  cbn zeta.
  assert (Hh : CircuitBreaker.is_trading_halted
                 (RiskManager.circuit_breaker_ (OrderBook.risk_manager_ one_bid))
               = true) by reflexivity.
  split; [exact Hh |]. split; [vm_compute; reflexivity |].
  exact (proj1 (tripped_breaker_rejects_nothing
                  (Order.ctor 5 BUY 100 0 10 10 0 GTC 2 0 false 0) 0 _ Hh)).
Defined.

Section RiskLimits.
Import RiskManager.
Context `{Env}.

(** X16.  [set_trader_limits] throws exactly when a limit is not positive or
    the deviation is outside its range.  Otherwise it stores the limits for
    that trader, keeps the position and the rate window the trader already
    has (a new trader gets a zero position and an empty window), and leaves
    every other trader, the last trade price and the breaker alone. *)
Theorem set_trader_limits_stores (trader_id : Z) (limits : RiskLimits)
    (rm : t) :
  match set_trader_limits trader_id limits rm with
  | Some rm' =>
      trader_limits_ rm' !! trader_id = Some limits
      /\ positions_ rm' !! trader_id = Some (position_of trader_id rm)
      /\ rate_limits_ rm' !! trader_id
         = Some (default (mkRate [] 0) (rate_limits_ rm !! trader_id))
      /\ (forall other, other <> trader_id ->
            trader_limits_ rm' !! other = trader_limits_ rm !! other
            /\ positions_ rm' !! other = positions_ rm !! other
            /\ rate_limits_ rm' !! other = rate_limits_ rm !! other)
      /\ last_trade_price_ rm' = last_trade_price_ rm
      /\ circuit_breaker_ rm' = circuit_breaker_ rm
      /\ 0 < max_position limits /\ 0 < max_order_qty limits
      /\ 0 < max_order_value limits /\ 0 < daily_loss_limit limits
      /\ 0 < max_orders_per_sec limits
      /\ deviation_invalid (max_price_deviation limits) = false
  | None =>
      max_position limits <= 0 \/ max_order_qty limits <= 0
      \/ max_order_value limits <= 0 \/ daily_loss_limit limits <= 0
      \/ max_orders_per_sec limits <= 0
      \/ deviation_invalid (max_price_deviation limits) = true
  end.
Proof.
  unfold set_trader_limits.
  destruct (Z.leb_spec (max_position limits) 0); cbn [orb]; [tauto |].
  destruct (Z.leb_spec (max_order_qty limits) 0); cbn [orb]; [tauto |].
  destruct (Z.leb_spec (max_order_value limits) 0); cbn [orb]; [tauto |].
  destruct (Z.leb_spec (daily_loss_limit limits) 0); cbn [orb]; [tauto |].
  destruct (deviation_invalid (max_price_deviation limits)); cbn [orb]; [tauto |].
  destruct (Z.leb_spec (max_orders_per_sec limits) 0); [tauto |].
  cbn [trader_limits_ positions_ rate_limits_ last_trade_price_ circuit_breaker_].
  unfold position_of.
  split; [by rewrite lookup_insert_eq |].
  split.
  { destruct (positions_ rm !! trader_id) eqn:Hp; [done |].
    by rewrite lookup_insert_eq. }
  split.
  { destruct (rate_limits_ rm !! trader_id) eqn:Hr; [done |].
    by rewrite lookup_insert_eq. }
  split; [| by repeat split].
  intros other Hne. split; [by rewrite lookup_insert_ne |].
  split.
  - destruct (positions_ rm !! trader_id); [done | by rewrite lookup_insert_ne].
  - destruct (rate_limits_ rm !! trader_id); [done | by rewrite lookup_insert_ne].
Qed.

Lemma evict_suffix (now_ : Z) (ts : list Z) :
  exists dropped,
    ts = dropped ++ evict now_ ts
    /\ Forall (fun t => 1000000000 < sub64 now_ t) dropped.
Proof.
  induction ts as [| front rest (dropped & Hd & Hf)]; [by exists [] |].
  cbn [evict]. rewrite Z.gtb_ltb.
  destruct (Z.ltb_spec 1000000000 (sub64 now_ front)).
  - exists (front :: dropped). split; [cbn; by rewrite <- Hd | by constructor].
  - by exists [].
Qed.

(** X17.  The rate limiter of a trader with limits.  It reads the clock
    once, drops from the front of the window the timestamps more than one
    second old, and then either refuses, when the window already holds
    [max_orders_per_sec] timestamps, leaving it as it is, or admits and
    appends the reading: an admitted call never leaves more than
    [max_orders_per_sec] timestamps in the window. *)
Theorem rate_limit_window (trader_id : Z) (ticks : nat) (rm : t)
    (limit : RiskLimits) :
  trader_limits_ rm !! trader_id = Some limit ->
  let window m :=
    timestamps (default (mkRate [] 0) (rate_limits_ m !! trader_id)) in
  let r := is_rate_limited trader_id ticks rm in
  let kept := evict (now ticks) (window rm) in
  r.2 = S ticks
  /\ (exists dropped,
        window rm = dropped ++ kept
        /\ Forall (fun t => 1000000000 < sub64 (now ticks) t) dropped)
  /\ (if r.1.1
      then window r.1.2 = kept
           /\ max_orders_per_sec limit <= Z.of_nat (length kept)
      else window r.1.2 = kept ++ [now ticks]
           /\ Z.of_nat (length (window r.1.2)) <= max_orders_per_sec limit).
Proof.
  intros Hl. cbn zeta. unfold is_rate_limited. rewrite Hl.
  split; [by destruct (_ >=? _) |].
  split; [apply evict_suffix |].
  rewrite Z.geb_leb.
  destruct (Z.leb_spec (max_orders_per_sec limit)
              (Z.of_nat (length (evict (now ticks)
                 (timestamps (default (mkRate [] 0)
                                (rate_limits_ rm !! trader_id)))))));
    cbn [fst snd rate_limits_]; rewrite lookup_insert_eq;
    cbn [default from_option id timestamps].
  - done.
  - split; [done |]. rewrite length_app. cbn. lia.
Qed.

Lemma position_of_update_position (trader_id : Z) (trade : Trade.t)
    (side : Side) (rm : t) :
  position_of trader_id (update_position trader_id trade side rm)
  = (let pos1 :=
       match side with
       | BUY => buy_fill (position_of trader_id rm) trade
       | SELL => sell_fill (position_of trader_id rm) trade
       end in
     mkPosition (quantity pos1) (unrealized_pnl pos1) (realized_pnl pos1)
                (avg_price pos1)
                (add64 (daily_volume pos1) (Trade.quantity trade))).
Proof.
  unfold update_position. unfold position_of at 1. cbn [positions_].
  by rewrite lookup_insert_eq.
Qed.

Lemma buy_fill_flat (pos : Position) (trade : Trade.t) :
  quantity pos = 0 -> 0 <= Trade.quantity trade <= INT64_MAX ->
  buy_fill pos trade
  = mkPosition (Trade.quantity trade) (unrealized_pnl pos) (realized_pnl pos)
               (Trade.price trade) (daily_volume pos).
Proof.
  intros Hq Ht. unfold buy_fill. rewrite Hq. cbn [Z.eqb].
  unfold add64. rewrite wrap64_id by (unfold INT64_MIN, INT64_MAX in *; lia).
  done.
Qed.

Lemma sell_fill_all (pos : Position) (trade : Trade.t) :
  0 < quantity pos -> Trade.quantity trade = quantity pos ->
  sell_fill pos trade
  = mkPosition (sub64 (quantity pos) (quantity pos)) (unrealized_pnl pos)
               (add64 (realized_pnl pos)
                      (mul64 (sub64 (Trade.price trade) (avg_price pos))
                             (quantity pos)))
               (avg_price pos) (daily_volume pos).
Proof.
  intros Hq Ht. unfold sell_fill. rewrite Ht.
  rewrite (proj2 (Z.eqb_neq _ 0)) by lia.
  rewrite (proj2 (Z.ltb_ge _ 0)) by lia.
  by rewrite Z.gtb_ltb, Z.ltb_irrefl, Z.min_id.
Qed.

(** X18.  A flat trader who buys [qty] at [buy_price] and then sells the
    same quantity at [sell_price] is flat again; the realized profit has
    grown by [(sell_price - buy_price) * qty], the daily volume by twice
    the quantity, and the last trade price is the selling price. *)
Theorem buy_then_sell_realizes (trader_id qty buy_price sell_price : Z)
    (first second : Trade.t) (rm : t) :
  let pos := position_of trader_id rm in
  quantity pos = 0 ->
  Trade.quantity first = qty -> Trade.price first = buy_price ->
  Trade.quantity second = qty -> Trade.price second = sell_price ->
  0 < qty <= INT64_MAX ->
  INT64_MIN <= sell_price - buy_price <= INT64_MAX ->
  INT64_MIN <= (sell_price - buy_price) * qty <= INT64_MAX ->
  INT64_MIN <= realized_pnl pos + (sell_price - buy_price) * qty <= INT64_MAX ->
  INT64_MIN <= daily_volume pos + qty <= INT64_MAX ->
  INT64_MIN <= daily_volume pos + qty + qty <= INT64_MAX ->
  let rm' := update_position trader_id second SELL
               (update_position trader_id first BUY rm) in
  position_of trader_id rm'
  = mkPosition 0 (unrealized_pnl pos)
               (realized_pnl pos + (sell_price - buy_price) * qty)
               buy_price (daily_volume pos + 2 * qty)
  /\ last_trade_price_ rm' = sell_price.
Proof.
  cbn zeta. intros Hq Hq1 Hp1 Hq2 Hp2 Hqty Hd Hm Hr Hv1 Hv2.
  split; [| exact Hp2].
  rewrite !position_of_update_position. cbn zeta.
  rewrite (buy_fill_flat _ first Hq) by (rewrite Hq1; lia).
  cbn [quantity unrealized_pnl realized_pnl avg_price daily_volume].
  rewrite sell_fill_all by (cbn [quantity]; lia).
  cbn [quantity unrealized_pnl realized_pnl avg_price daily_volume].
  rewrite Hq1, Hp1, Hq2, Hp2. unfold add64, sub64, mul64.
  rewrite (wrap64_id (sell_price - buy_price)) by done.
  rewrite (wrap64_id ((sell_price - buy_price) * qty)) by done.
  rewrite (wrap64_id (realized_pnl _ + _)) by done.
  rewrite (wrap64_id (qty - qty)) by (unfold INT64_MIN, INT64_MAX; lia).
  rewrite (wrap64_id (daily_volume _ + qty)) by done.
  rewrite (wrap64_id (daily_volume _ + qty + qty)) by done.
  f_equal; lia.
Qed.

(** X19.  Buying into a long position moves [avg_price] to the
    quantity-weighted mean of the old average and the trade price, rounded
    toward zero: the new average lies between the two prices. *)
Theorem buy_fill_average_between (pos : Position) (trade : Trade.t) :
  0 < quantity pos -> 0 < Trade.quantity trade ->
  0 <= avg_price pos -> 0 <= Trade.price trade ->
  quantity pos * avg_price pos + Trade.price trade * Trade.quantity trade
  <= INT64_MAX ->
  quantity pos + Trade.quantity trade <= INT64_MAX ->
  let pos' := buy_fill pos trade in
  avg_price pos'
  = (quantity pos * avg_price pos + Trade.price trade * Trade.quantity trade)
    / (quantity pos + Trade.quantity trade)
  /\ Z.min (avg_price pos) (Trade.price trade) <= avg_price pos'
     <= Z.max (avg_price pos) (Trade.price trade)
  /\ quantity pos' = quantity pos + Trade.quantity trade
  /\ realized_pnl pos' = realized_pnl pos.
Proof.
  intros Hq Htq Ha Htp Hsum Hqs. cbn zeta. unfold buy_fill.
  rewrite (proj2 (Z.eqb_neq (quantity pos) 0)) by lia.
  rewrite Z.gtb_ltb, (proj2 (Z.ltb_lt 0 (quantity pos))) by lia.
  cbn [avg_price quantity realized_pnl].
  unfold div64, add64, mul64. unfold INT64_MAX in *.
  set (q := quantity pos) in *. set (a := avg_price pos) in *.
  set (tq := Trade.quantity trade) in *. set (tp := Trade.price trade) in *.
  assert (H1 : 0 <= q * a) by nia. assert (H2 : 0 <= tp * tq) by nia.
  rewrite (wrap64_id (q * a)) by (unfold INT64_MIN, INT64_MAX; lia).
  rewrite (wrap64_id (tp * tq)) by (unfold INT64_MIN, INT64_MAX; lia).
  rewrite (wrap64_id (q * a + tp * tq)) by (unfold INT64_MIN, INT64_MAX; lia).
  rewrite (wrap64_id (q + tq)) by (unfold INT64_MIN, INT64_MAX; lia).
  rewrite Z.quot_div_nonneg by lia.
  assert (Hlo : Z.min a tp <= (q * a + tp * tq) / (q + tq)).
  { apply Z.div_le_lower_bound; [lia |]. nia. }
  assert (Hhi : (q * a + tp * tq) / (q + tq) <= Z.max a tp).
  { apply Z.div_le_upper_bound; [lia |]. nia. }
  rewrite wrap64_id by (unfold INT64_MIN, INT64_MAX; nia).
  repeat split; lia.
Qed.

(** X20.  After [mark_to_market] at a positive price, what [get_position]
    reports for a trader is the entry the manager stores: its unrealized
    profit is [(price - avg_price) * quantity] for an open position, and an
    unknown trader reads as the zero position. *)
Theorem get_position_after_mark (trader_id price : Z) (rm : t) :
  0 < price ->
  let rm' := mark_to_market price rm in
  last_trade_price_ rm' = price
  /\ match positions_ rm !! trader_id with
     | None => get_position trader_id rm' = mkPosition 0 0 0 0 0
     | Some pos =>
         positions_ rm' !! trader_id = Some (get_position trader_id rm')
         /\ get_position trader_id rm'
            = if quantity pos =? 0 then pos
              else mkPosition (quantity pos)
                              (mul64 (sub64 price (avg_price pos))
                                     (quantity pos))
                              (realized_pnl pos) (avg_price pos)
                              (daily_volume pos)
     end.
Proof.
  intros Hp. cbn zeta. unfold mark_to_market.
  rewrite (proj2 (Z.leb_gt price 0)) by lia.
  split; [done |]. unfold get_position.
  cbn [positions_ last_trade_price_]. rewrite lookup_fmap.
  destruct (positions_ rm !! trader_id) as [pos |]; cbn [fmap option_fmap option_map];
    [| done].
  rewrite Z.gtb_ltb, (proj2 (Z.ltb_lt 0 price)) by lia. cbn [andb].
  destruct (Z.eqb_spec (quantity pos) 0) as [Hq | Hq].
  - by rewrite (proj2 (Z.eqb_eq _ _) Hq).
  - cbn [quantity avg_price realized_pnl daily_volume].
    rewrite (proj2 (Z.eqb_neq _ _)) by done. done.
Qed.

(** X21.  [reset_daily_stats] keeps every trader's quantity and average
    price and zeroes the profits and the daily volume, empties every rate
    window, forgets the last trade price and re-arms the breaker; the limits
    stay.  The next order of a trader with limits is then not rate
    limited. *)
Theorem reset_daily_stats_clears (trader_id : Z) (ticks : nat) (rm : t)
    (limit : RiskLimits) :
  trader_limits_ rm !! trader_id = Some limit ->
  0 < max_orders_per_sec limit ->
  let rm' := reset_daily_stats rm in
  trader_limits_ rm' = trader_limits_ rm
  /\ last_trade_price_ rm' = 0
  /\ CircuitBreaker.is_trading_halted (circuit_breaker_ rm') = false
  /\ (forall t pos, positions_ rm !! t = Some pos ->
        positions_ rm' !! t
        = Some (mkPosition (quantity pos) 0 0 (avg_price pos) 0))
  /\ (forall t, positions_ rm !! t = None -> positions_ rm' !! t = None)
  /\ (forall t w, rate_limits_ rm' !! t = Some w -> w = mkRate [] 0)
  /\ (is_rate_limited trader_id ticks rm').1.1 = false.
Proof.
  intros Hl Hmax. cbn zeta. unfold reset_daily_stats.
  cbn [trader_limits_ last_trade_price_ circuit_breaker_ positions_ rate_limits_].
  split; [done |]. split; [done |]. split; [done |].
  split; [intros t pos Hp; by rewrite lookup_fmap, Hp |].
  split; [intros t Hp; by rewrite lookup_fmap, Hp |].
  split.
  - intros t w. rewrite lookup_fmap.
    destruct (rate_limits_ rm !! t); cbn; [by intros [= <-] | done].
  - unfold is_rate_limited. cbn [trader_limits_ rate_limits_]. rewrite Hl.
    rewrite lookup_fmap.
    assert (Hw : timestamps (default (mkRate [] 0)
                   ((fun _ : RateLimit => mkRate [] 0)
                      <$> rate_limits_ rm !! trader_id)) = []).
    { by destruct (rate_limits_ rm !! trader_id). }
    rewrite Hw. cbn [evict length]. rewrite Z.geb_leb.
    by rewrite (proj2 (Z.leb_gt _ _)) by (cbn; lia).
Qed.
End RiskLimits.

Lemma rate_limit_window_witness :
  let rm := OrderBook.risk_manager_ one_bid in
  RiskManager.trader_limits_ rm !! 1 = Some demo_limits
  /\ (RiskManager.is_rate_limited 1 7 rm).2 = 8%nat
  /\ (RiskManager.is_rate_limited 1 7 rm).1.1 = false.
Proof.
  cbn zeta.
  assert (Hl : RiskManager.trader_limits_ (OrderBook.risk_manager_ one_bid) !! 1
               = Some demo_limits) by (vm_compute; reflexivity).
  split; [exact Hl |].
  split; [exact (proj1 (rate_limit_window 1 7 _ demo_limits Hl)) |].
  vm_compute. reflexivity.
Defined.

Lemma buy_then_sell_realizes_witness :
  let rm := RiskManager.ctor in
  let first := Trade.mk 1 2 100 10 0 in
  let second := Trade.mk 3 1 104 10 1 in
  RiskManager.quantity (RiskManager.position_of 7 rm) = 0
  /\ RiskManager.position_of 7
       (RiskManager.update_position 7 second SELL
          (RiskManager.update_position 7 first BUY rm))
     = RiskManager.mkPosition 0 0 40 100 20.
Proof.
  cbn zeta.
  assert (Hq : RiskManager.quantity
                 (RiskManager.position_of 7 RiskManager.ctor) = 0)
    by reflexivity.
  split; [exact Hq |].
  refine (proj1 (buy_then_sell_realizes 7 10 100 104 (Trade.mk 1 2 100 10 0)
                   (Trade.mk 3 1 104 10 1) RiskManager.ctor Hq eq_refl eq_refl
                   eq_refl eq_refl _ _ _ _ _ _));
    vm_compute; split; (reflexivity || discriminate).
Defined.

Lemma buy_fill_average_between_witness :
  let pos := RiskManager.mkPosition 10 0 0 100 0 in
  let trade := Trade.mk 1 2 111 10 0 in
  0 < RiskManager.quantity pos
  /\ RiskManager.avg_price (RiskManager.buy_fill pos trade) = 105
  /\ Z.min 100 111 <= RiskManager.avg_price (RiskManager.buy_fill pos trade)
     <= Z.max 100 111.
Proof.
  cbn zeta.
  assert (H1 : 0 < RiskManager.quantity (RiskManager.mkPosition 10 0 0 100 0))
    by (cbn; lia).
  split; [exact H1 |]. split; [vm_compute; reflexivity |].
  refine (proj1 (proj2 (buy_fill_average_between
                          (RiskManager.mkPosition 10 0 0 100 0)
                          (Trade.mk 1 2 111 10 0) H1 _ _ _ _ _)));
    vm_compute; (reflexivity || discriminate).
Defined.

Lemma get_position_after_mark_witness :
  let rm := RiskManager.update_position 7 (Trade.mk 1 2 100 10 0) BUY
              RiskManager.ctor in
  0 < 104
  /\ RiskManager.last_trade_price_ (RiskManager.mark_to_market 104 rm) = 104
  /\ RiskManager.unrealized_pnl
       (RiskManager.get_position 7 (RiskManager.mark_to_market 104 rm)) = 40.
Proof.
  cbn zeta.
  assert (Hp : 0 < 104) by lia.
  split; [exact Hp |].
  split; [| vm_compute; reflexivity].
  exact (proj1 (get_position_after_mark 7 104 _ Hp)).
Defined.

Lemma reset_daily_stats_clears_witness :
  let rm := OrderBook.risk_manager_ one_bid in
  RiskManager.trader_limits_ rm !! 1 = Some demo_limits
  /\ 0 < RiskManager.max_orders_per_sec demo_limits
  /\ CircuitBreaker.is_trading_halted (RiskManager.circuit_breaker_ rm) = true
  /\ CircuitBreaker.is_trading_halted
       (RiskManager.circuit_breaker_ (RiskManager.reset_daily_stats rm)) = false
  /\ (RiskManager.is_rate_limited 1 9 (RiskManager.reset_daily_stats rm)).1.1
     = false.
Proof.
  cbn zeta.
  assert (Hl : RiskManager.trader_limits_ (OrderBook.risk_manager_ one_bid) !! 1
               = Some demo_limits) by (vm_compute; reflexivity).
  assert (Hm : 0 < RiskManager.max_orders_per_sec demo_limits) by (cbn; lia).
  destruct (reset_daily_stats_clears 1 9 _ demo_limits Hl Hm)
    as (_ & _ & Hb & _ & _ & _ & Hr).
  split; [exact Hl |]. split; [exact Hm |]. split; [reflexivity |].
  split; [exact Hb | exact Hr].
Defined.

(** ** What every step of a call keeps

    [add_order] and [cancel_order] are built from a few kinds of steps on
    the book.  A relation between books that is reflexive and transitive
    and holds across every step of a kind holds across the loops that use
    only steps of these kinds. *)

Section Frame.
Import OrderBook.
Context `{Env}.

Lemma set_own_as_opposite (s : Side) (v : list (Z * PriceLevel.t)) (b : t) :
  set_own s v b = set_opposite (other s) v b /\ own s b = opposite (other s) b.
Proof. by destruct s. Qed.

Lemma set_opposite_same (s : Side) (b : t) : set_opposite s (opposite s b) b = b.
Proof. by destruct s, b. Qed.

Lemma write_write (p : nat) (f g : Order.t -> Order.t) (b : t) :
  write p g (write p f b) = set_heap (alter g p (alter f p (heap b))) b.
Proof. destruct b as [? ? ? [] ? ? ? ? ? ? ? ?]. reflexivity. Qed.

Variable R : t -> t -> Prop.
Hypothesis R_refl : forall b, R b b.
Hypothesis R_trans : forall b1 b2 b3, R b1 b2 -> R b2 b3 -> R b1 b3.
Hypothesis R_level_update : forall s k v b,
  R b (set_opposite s (OMap.update k v (opposite s b)) b).
Hypothesis R_level_erase : forall s k b,
  R b (set_opposite s (OMap.erase k (opposite s b)) b).
Hypothesis R_write : forall p f b, R b (write p f b).
Hypothesis R_erase_id : forall k b, R b (set_orders (delete k (orders_ b)) b).
Hypothesis R_release : forall p b, R b (release p b).
Hypothesis R_execute_trade : forall a p q b, R b (execute_trade a p q b).2.
Hypothesis R_set_stops : forall sm b, R b (set_stops sm b).
Hypothesis R_cancelled : forall b,
  R b (set_stats (bump_cancelled (stats_ b)) b).
Hypothesis R_stop_enter : forall k b,
  R b (set_stats (bump_stop_triggered (stats_ b))
         (set_cascade ({[ k ]} ∪ processing_stops_ b)
                      (stop_cascade_depth_ b + 1) b)).
Hypothesis R_set_cascade : forall v d b, R b (set_cascade v d b).

Lemma frame_refill (p : nat) (level : PriceLevel.t) (b : t) :
  R b (set_heap (handle_iceberg_refill (heap b) p level).1.2 b).
Proof.
  unfold handle_iceberg_refill. destruct (_ && _); cbn [fst snd].
  - rewrite <- write_write. eapply R_trans; apply R_write.
  - rewrite set_heap_heap. apply R_refl.
Qed.

Lemma frame_cancel_order (id : Z) (b : t) : R b (cancel_order id b).2.
Proof.
  unfold cancel_order. destruct (orders_ b !! id) as [order |]; [| apply R_refl].
  cbn [snd].
  match goal with
  | |- R b (set_stats _ (release order (set_orders _ ?b1))) =>
      assert (H1 : R b b1)
  end.
  { destruct (Order.type _); try apply R_set_stops;
      (destruct (OMap.find _ _) as [level |]; [| apply R_refl];
       destruct (PriceLevel.empty _);
       match goal with
       | |- R _ (set_own ?s ?v ?b0) =>
           rewrite (proj1 (set_own_as_opposite s v b0)),
                   (proj2 (set_own_as_opposite s v b0))
       end;
       [apply R_level_erase | apply R_level_update]). }
  eapply R_trans; [exact H1 |].
  eapply R_trans; [apply R_erase_id |].
  eapply R_trans; [apply R_release | apply R_cancelled].
Qed.

Lemma frame_retire_front (s : Side) (best_price : Z) (level : PriceLevel.t)
    (passive : nat) (b : t) :
  R b (retire_front s best_price level passive b).
Proof.
  unfold retire_front.
  pose proof (frame_refill passive (PriceLevel.pop_front level) b) as Hr.
  destruct (handle_iceberg_refill _ _ _) as [[refilled h1] level1].
  cbn [fst snd] in Hr.
  assert (H1 : R b (set_opposite s
                      (OMap.update best_price level1 (opposite s b))
                      (set_heap h1 b))).
  { eapply R_trans; [exact Hr |].
    replace (opposite s b) with (opposite s (set_heap h1 b)) by (by destruct s).
    apply R_level_update. }
  destruct refilled; [exact H1 |].
  eapply R_trans; [exact H1 |].
  eapply R_trans; [apply R_erase_id | apply R_release].
Qed.

Lemma frame_drop_same_owner (mode : Sweep) (passive : nat) (b : t) :
  R b (drop_same_owner mode passive b).
Proof.
  destruct mode; cbn [drop_same_owner].
  - apply frame_cancel_order.
  - eapply R_trans; [apply R_erase_id | apply R_release].
Qed.

Lemma frame_level_loop (fuel : nat) (mode : Sweep) (s : Side)
    (best_price : Z) (order : nat) (b b' : t) (trades trades' : list Trade.t) :
  level_loop fuel mode s best_price order b trades = Some (b', trades') ->
  R b b'.
Proof.
  revert b trades. induction fuel as [| fuel IH]; intros b trades; [done |].
  cbn [level_loop].
  destruct (_ >? 0); [| intros [= <- <-]; apply R_refl].
  destruct (OMap.find best_price (opposite s b)) as [level |];
    [| intros [= <- <-]; apply R_refl].
  destruct (PriceLevel.front level) as [passive |];
    [| intros [= <- <-]; apply R_refl].
  destruct (_ =? _).
  - intros Hl. apply IH in Hl.
    eapply R_trans; [| exact Hl].
    eapply R_trans; [apply R_level_update | apply frame_drop_same_owner].
  - pose proof (R_execute_trade order passive
                  (Z.min (Order.display (deref (heap b) order))
                         (Order.display (deref (heap b) passive))) b) as Ht.
    destruct (execute_trade order passive _ b) as [trade b1]. cbn [snd] in Ht.
    intros Hl. apply IH in Hl.
    eapply R_trans; [exact Ht |]. eapply R_trans; [| exact Hl].
    match goal with
    | |- R b1 (if ?c then retire_front _ _ _ _ ?b2 else ?b2) =>
        assert (Hw : R b1 b2)
          by (destruct mode;
              (eapply R_trans; [| apply R_write]);
              (eapply R_trans; [| apply R_write]); apply R_write);
        destruct c; [| exact Hw];
        eapply R_trans; [exact Hw | apply frame_retire_front]
    end.
Qed.

Lemma frame_book_loop (fuel : nat) (mode : Sweep) (s : Side) (order : nat)
    (b b' : t) (trades trades' : list Trade.t) :
  book_loop fuel mode s order b trades = Some (b', trades') -> R b b'.
Proof.
  revert b trades. induction fuel as [| fuel IH]; intros b trades; [done |].
  cbn [book_loop].
  destruct (_ >? 0); [| intros [= <- <-]; apply R_refl].
  destruct (opposite s b) as [| [best_price level0] rest] eqn:Hopp;
    [intros [= <- <-]; apply R_refl |].
  destruct (beyond_limit mode s best_price);
    [intros [= <- <-]; apply R_refl |].
  destruct (level_loop fuel mode s best_price order b trades)
    as [[b1 trades1] |] eqn:Hl; [| done].
  intros Hb. apply IH in Hb. apply frame_level_loop in Hl.
  eapply R_trans; [exact Hl |]. eapply R_trans; [| exact Hb].
  unfold cleanup_empty_level.
  destruct (OMap.find best_price (opposite s b1)) as [level |];
    [| rewrite set_opposite_same; apply R_refl].
  destruct (PriceLevel.empty level);
    [apply R_level_erase | rewrite set_opposite_same; apply R_refl].
Qed.

Lemma frame_process_stop (fuel : nat) (stop_order : nat) (b b' : t)
    (trades trades' : list Trade.t) :
  process_stop fuel stop_order b trades = Some (b', trades') -> R b b'.
Proof.
  unfold process_stop. case_bool_decide; [intros [= <- <-]; apply R_refl |].
  destruct (add_market_order _ _ _ _) as [[b3 stop_trades] |] eqn:Hm; [| done].
  intros [= <- <-]. apply frame_book_loop in Hm.
  eapply R_trans; [apply R_stop_enter |].
  eapply R_trans; [apply R_write |].
  eapply R_trans; [apply R_write |].
  eapply R_trans; [apply R_write |].
  eapply R_trans; [exact Hm |].
  eapply R_trans; [apply R_erase_id |].
  eapply R_trans; [apply R_release | apply R_set_cascade].
Qed.

Lemma frame_process_stops (fuel : nat) (stops : list nat) (b b' : t)
    (trades trades' : list Trade.t) :
  process_stops fuel stops b trades = Some (b', trades') -> R b b'.
Proof.
  revert b trades. induction stops as [| stop_order rest IH]; intros b trades.
  - intros [= <- <-]. apply R_refl.
  - cbn [process_stops].
    destruct (process_stop fuel stop_order b trades) as [[b1 trades1] |] eqn:Hp;
      [| done].
    intros Hr. apply frame_process_stop in Hp. apply IH in Hr.
    by eapply R_trans.
Qed.

Lemma frame_process_triggered_stops (fuel : nat) (b b' : t)
    (trades trades' : list Trade.t) :
  process_triggered_stops fuel b trades = Some (b', trades') -> R b b'.
Proof.
  unfold process_triggered_stops.
  destruct (last trades) as [back |]; [| intros [= <- <-]; apply R_refl].
  destruct (_ >=? _); [intros [= <- <-]; apply R_refl |].
  destruct (StopOrderManager.check_triggered_stops _ _ _) as [triggered sm].
  intros Hp. apply frame_process_stops in Hp.
  eapply R_trans; [apply R_set_stops | exact Hp].
Qed.

Hypothesis R_level_index : forall s k d v b,
  R b (set_own s (OMap.update k v (OMap.index (own_before s) k d (own s b))) b).

Lemma frame_commit_one (order passive : nat) (qty : Z) (b : t) :
  R b (commit_one order passive qty b).2.
Proof.
  unfold commit_one.
  pose proof (R_execute_trade order passive qty b) as Ht.
  destruct (execute_trade order passive qty b) as [trade b1]. cbn [snd] in Ht.
  cbn zeta. eapply R_trans; [exact Ht |].
  match goal with
  | |- context [if ?c then _ else (trade, ?b2)] =>
      assert (Hw : R b1 b2)
        by (do 3 (eapply R_trans; [| apply R_write]); apply R_write);
      destruct c; [| exact Hw]
  end.
  eapply R_trans; [exact Hw |].
  match goal with
  | |- context [handle_iceberg_refill (heap ?b2) passive ?lvl] =>
      pose proof (frame_refill passive lvl b2) as Hr
  end.
  destruct (handle_iceberg_refill _ _ _) as [[refilled h1] level1].
  cbn [fst snd] in Hr.
  match goal with
  | |- R ?b2 (if ?c then (trade, set_own ?s ?v ?b4)
              else (trade, ?b4')).2 =>
      assert (H4 : R b2 b4')
  end.
  { eapply R_trans; [exact Hr |].
    match goal with
    | |- R (set_heap h1 ?b2) (if _ then ?b3 else _) =>
        assert (H3 : R (set_heap h1 b2) b3)
    end.
    { match goal with
      | |- R _ (set_own ?s (OMap.update ?k ?v (OMap.index _ ?k ?d (own ?s ?b2)))
                        ?b2') =>
          replace (own s b2) with (own s b2') by (by destruct s)
      end.
      apply R_level_index. }
    destruct refilled; [exact H3 |].
    eapply R_trans; [exact H3 |].
    eapply R_trans; [apply R_erase_id | apply R_release]. }
  destruct (PriceLevel.empty level1); cbn [snd]; [| exact H4].
  eapply R_trans; [exact H4 |].
  match goal with
  | |- R _ (set_own ?s ?v ?b0) =>
      rewrite (proj1 (set_own_as_opposite s v b0)),
              (proj2 (set_own_as_opposite s v b0))
  end.
  apply R_level_erase.
Qed.

Lemma frame_commit (order : nat) (candidates : list (nat * Z)) (b : t)
    (trades : list Trade.t) :
  R b (commit order candidates b trades).1.
Proof.
  revert b trades.
  induction candidates as [| [passive qty] rest IH]; intros b trades;
    cbn [commit]; [apply R_refl |].
  pose proof (frame_commit_one order passive qty b) as Hc.
  destruct (commit_one order passive qty b) as [trade b1]. cbn [snd] in Hc.
  eapply R_trans; [exact Hc | apply IH].
Qed.

Lemma frame_add_FOK_order (order : nat) (b : t) (trades : list Trade.t) :
  R b (add_FOK_order order b trades).1.2.
Proof.
  unfold add_FOK_order. destruct (probe _ _ _ _ _ _) as [needed candidates].
  destruct (needed >? 0); cbn [fst snd]; [apply R_refl |].
  pose proof (frame_commit order candidates b trades) as Hc.
  by destruct (commit order candidates b trades).
Qed.

Hypothesis R_acquire : forall b,
  R b (set_pool (ObjectPool.acquire (order_pool_ b)).2 b).
Hypothesis R_tick : forall b, R b (set_risk (risk_manager_ b) (S (ticks_ b)) b).
Hypothesis R_check : forall o b,
  R b (set_risk (RiskManager.check_order o (ticks_ b) (risk_manager_ b)).1.2
                (RiskManager.check_order o (ticks_ b) (risk_manager_ b)).2 b).
Hypothesis R_rejected : forall b,
  R b (set_stats (bump_risk_rejected (stats_ b)) b).
Hypothesis R_tally : forall trades b,
  R b (set_stats (tally trades (stats_ b)) b).

(** The part of [add_order] between the count of the order and the
    dispatch on the order type. *)
Lemma frame_staging (id : Z) (side : Side) (price qty disp display_size : Z)
    (type : OrderType) (ownerID stop_price session_id : Z) (mm : bool)
    (b0 : t) (ptr : nat) (pool1 : ObjectPool.t Order.t) :
  let o :=
    normalize (tick_table_ b0) type price stop_price
      (Order.ctor id side price stop_price qty disp display_size type
                  ownerID session_id mm (now (ticks_ b0))) in
  let b1 :=
    write ptr (fun _ => o)
          (set_risk (risk_manager_ b0) (S (ticks_ b0)) (set_pool pool1 b0)) in
  ObjectPool.acquire (order_pool_ b0) = (Some ptr, pool1) ->
  R b0 (set_risk
          (RiskManager.check_order (deref (heap b1) ptr) (ticks_ b1)
                                   (risk_manager_ b1)).1.2
          (RiskManager.check_order (deref (heap b1) ptr) (ticks_ b1)
                                   (risk_manager_ b1)).2 b1).
Proof.
  cbn zeta. intros Hacq.
  eapply R_trans; [| apply R_check].
  eapply R_trans; [| apply R_write].
  pose proof (R_acquire b0) as Ha.
  rewrite Hacq in Ha. cbn [snd] in Ha.
  eapply R_trans; [exact Ha |].
  exact (R_tick (set_pool pool1 b0)).
Qed.

(** The id and the type of the order a call of [add_order] is for: only
    that id is entered in the index, and only for a type that rests or
    waits. *)
Variable own_id : Z.
Variable own_type : OrderType.
Hypothesis R_index_add :
  own_type = GTC \/ own_type = ICEBERG \/ own_type = STOP_LOSS ->
  forall p b, R b (set_orders (<[own_id := p]> (orders_ b)) b).

Lemma frame_add_order (fuel : nat) (id : Z) (side : Side) (price qty disp
    display_size : Z) (type : OrderType) (ownerID stop_price session_id : Z)
    (mm : bool) (b b' : t) (trades : list Trade.t) :
  id = own_id -> type = own_type ->
  add_order fuel id side price qty disp display_size type ownerID stop_price
            session_id mm b = Some (b', trades) ->
  R (set_stats (bump_orders (stats_ b)) b) b'.
Proof.
  intros Hid Hty. unfold add_order. intros Ha.
  destruct (ObjectPool.acquire _) as [[ptr |] pool1] eqn:Hacq.
  2:{ injection Ha as <- <-.
      pose proof (R_acquire (set_stats (bump_orders (stats_ b)) b)) as Hq.
      rewrite Hacq in Hq. exact Hq. }
  pose proof (frame_staging id side price qty disp display_size type ownerID
                stop_price session_id mm _ ptr pool1 Hacq) as Hst.
  cbn zeta in Hst.
  destruct (RiskManager.check_order _ _ _) as [[res rm] ticks].
  cbn [fst snd] in Hst.
  match type of Ha with
  | context [add_FOK_order ptr ?b2 []] => set (staged_book := b2) in *
  end.
  clearbody staged_book.
  assert (Hrej : R (set_stats (bump_orders (stats_ b)) b)
                   (set_stats (bump_risk_rejected
                                 (stats_ (release ptr staged_book)))
                              (release ptr staged_book))).
  { eapply R_trans; [exact Hst |].
    eapply R_trans; [apply R_release | apply R_rejected]. }
  destruct res; try (injection Ha as <- <-; exact Hrej).
  clear Hrej. eapply R_trans; [exact Hst |]. clear Hst.
  assert (Hlimit :
    forall b3 trades3 (rests : bool),
      (rests = true -> type = GTC \/ type = ICEBERG) ->
      book_loop fuel (Limit price) side ptr staged_book [] = Some (b3, trades3) ->
      match
        process_triggered_stops fuel
          (if (Order.display (deref (heap b3) ptr) >? 0) && rests
           then
             set_orders (<[id := ptr]> (orders_ b3))
               (set_own side
                  (OMap.update price
                     (PriceLevel.add_order (heap b3) ptr
                        (default PriceLevel.ctor
                           (OMap.find price
                              (OMap.index (own_before side) price
                                 PriceLevel.ctor (own side b3)))))
                     (OMap.index (own_before side) price PriceLevel.ctor
                                 (own side b3))) b3)
           else release ptr b3) trades3
      with
      | Some (b5, trades1) =>
          Some (set_stats (tally trades1 (stats_ b5)) b5, trades1)
      | None => None
      end = Some (b', trades) ->
      R staged_book b').
  { intros b3 trades3 rests Hrests Hl Hp. apply frame_book_loop in Hl.
    destruct (process_triggered_stops fuel _ trades3) as [[b5 trades5] |] eqn:Hp5;
      [| done].
    injection Hp as <- <-. apply frame_process_triggered_stops in Hp5.
    eapply R_trans; [exact Hl |].
    eapply R_trans; [| eapply R_trans; [exact Hp5 | apply R_tally]].
    destruct (_ >? 0); cbn [andb]; [| apply R_release].
    destruct rests; [| apply R_release].
    match goal with
    | |- R b3 (set_orders (<[id := ptr]> (orders_ b3)) ?b4) =>
        apply (R_trans _ b4); [apply R_level_index |];
        replace (orders_ b3) with (orders_ b4) by (by destruct side)
    end.
    rewrite Hid. apply R_index_add. rewrite <- Hty.
    destruct (Hrests eq_refl); tauto. }
  destruct type.
  - destruct (book_loop _ _ _ _ _ _) as [[b3 trades3] |] eqn:Hl; [| done].
    eapply (Hlimit _ _ true); [by left | reflexivity | exact Ha].
  - destruct (book_loop _ _ _ _ _ _) as [[b3 trades3] |] eqn:Hl; [| done].
    eapply (Hlimit _ _ false); [done | reflexivity | exact Ha].
  - pose proof (frame_add_FOK_order ptr staged_book []) as Hfok.
    destruct (add_FOK_order ptr staged_book []) as [[filled b3] trades3].
    cbn [fst snd] in Hfok. apply frame_process_triggered_stops in Ha.
    eapply R_trans; [exact Hfok |]. eapply R_trans; [| exact Ha].
    destruct filled; [| apply R_release].
    eapply R_trans; [apply R_tally | apply R_release].
  - destruct (add_market_order _ _ _ _) as [[b3 trades3] |] eqn:Hm; [| done].
    apply frame_book_loop in Hm. apply frame_process_triggered_stops in Ha.
    eapply R_trans; [exact Hm |]. eapply R_trans; [| exact Ha].
    eapply R_trans; [apply R_tally | apply R_release].
  - injection Ha as <- <-.
    match goal with
    | |- R staged_book (set_orders _ ?b4) =>
        apply (R_trans _ b4); [apply R_set_stops |];
        change (orders_ staged_book) with (orders_ b4)
    end.
    rewrite Hid. apply R_index_add. rewrite <- Hty. tauto.
  - destruct (book_loop _ _ _ _ _ _) as [[b3 trades3] |] eqn:Hl; [| done].
    eapply (Hlimit _ _ true); [by right | reflexivity | exact Ha].
Qed.
End Frame.

(** ** The arena, the counters and the index across a call *)

Section ArenaKept.
Import OrderBook.
Context `{Env}.

Lemma arena_kept_same_pool (b b' : t) :
  order_pool_ b' = order_pool_ b -> arena_kept b b'.
Proof. unfold arena_kept, heap. intros -> Hc. split; [done | by split]. Qed.

Lemma arena_kept_trans (b1 b2 b3 : t) :
  arena_kept b1 b2 -> arena_kept b2 b3 -> arena_kept b1 b3.
Proof.
  unfold arena_kept. intros H12 H23 H1.
  destruct (H12 H1) as (H2 & Hl2 & Hv2). destruct (H23 H2) as (H3 & Hl3 & Hv3).
  split; [done |]. split; [lia |].
  intros ptr Hin. by apply Hv3, Hv2.
Qed.

Lemma arena_kept_write (p : nat) (f : Order.t -> Order.t) (b : t) :
  arena_kept b (write p f b).
Proof.
  unfold arena_kept, write, set_heap, heap, pool_consistent. cbn.
  rewrite length_alter. intros (Hav & Hva & Hc).
  split; [| by split]. split; [exact Hav |]. split; [exact Hva | exact Hc].
Qed.

Lemma arena_kept_release (p : nat) (b : t) : arena_kept b (release p b).
Proof.
  unfold arena_kept. intros Hc.
  assert (Hp : order_pool_ (release p b)
               = ObjectPool.release (Some p) (order_pool_ b)) by reflexivity.
  unfold heap. rewrite Hp. split; [by apply release_consistent |].
  unfold ObjectPool.release.
  case_bool_decide; cbn [ObjectPool.pool_ ObjectPool.valid_objects_];
    [| by split].
  rewrite length_alter. by split.
Qed.

Lemma arena_kept_acquire (b : t) :
  arena_kept b (set_pool (ObjectPool.acquire (order_pool_ b)).2 b).
Proof.
  unfold arena_kept. intros Hc.
  assert (Hp : order_pool_ (set_pool (ObjectPool.acquire (order_pool_ b)).2 b)
               = (ObjectPool.acquire (order_pool_ b)).2) by reflexivity.
  unfold heap. rewrite Hp. split; [by apply acquire_consistent |].
  unfold ObjectPool.acquire.
  destruct (ObjectPool.available_ _);
    cbn [snd ObjectPool.pool_ ObjectPool.valid_objects_]; [| by split].
  rewrite length_app. split; [lia |].
  intros ptr Hin. by apply elem_of_union_r.
Qed.

(** X22.  Handles stay addressable across [add_order], whatever the order
    and however it ends, and across [cancel_order].  If before the call
    every handle on the free stack is a handle the pool has created, every
    created handle addresses a slot of [pool_] and [allocated_count_] is a
    [size_t] value, the same holds after it; [pool_] has not shrunk and no
    created handle has been dropped, so that a pointer that addressed a slot
    before the call still addresses one after it.  The invariant implies
    the arena hypothesis [pool_ok] of the theorems on [add_order].  It does
    not say that a handle is free only once: it also holds on an arena a
    handle has been released to twice. *)
Theorem arena_handles_stay_valid :
  (forall (fuel : nat) (id : Z) (side : Side) (price qty disp display_size : Z)
          (type : OrderType) (ownerID stop_price session_id : Z) (mm : bool)
          (b b' : t) (trades : list Trade.t),
      add_order fuel id side price qty disp display_size type ownerID
                stop_price session_id mm b = Some (b', trades) ->
      arena_kept b b')
  /\ (forall (id : Z) (b : t), arena_kept b (cancel_order id b).2).
Proof.
  assert (Hlu : forall s k v b,
            arena_kept b (set_opposite s (OMap.update k v (opposite s b)) b))
    by (intros; apply arena_kept_same_pool; by destruct s).
  assert (Hle : forall s k b,
            arena_kept b (set_opposite s (OMap.erase k (opposite s b)) b))
    by (intros; apply arena_kept_same_pool; by destruct s).
  split.
  - intros fuel id side price qty disp display_size type ownerID stop_price
      session_id mm b b' trades Ha.
    apply (arena_kept_trans _ (set_stats (bump_orders (stats_ b)) b));
      [by apply arena_kept_same_pool |].
    eapply (frame_add_order arena_kept); try exact Ha; try reflexivity;
      try exact arena_kept_trans; try exact arena_kept_write;
      try exact arena_kept_release; try exact arena_kept_acquire;
      try exact Hlu; try exact Hle;
      try (intros; apply arena_kept_same_pool; reflexivity).
    intros s k d v b0. apply arena_kept_same_pool. by destruct s.
  - intros id b.
    apply (frame_cancel_order arena_kept);
      try exact arena_kept_trans; try exact arena_kept_release;
      try exact Hlu; try exact Hle;
      try (intros; apply arena_kept_same_pool; reflexivity).
Qed.
End ArenaKept.

Lemma arena_handles_stay_valid_witness :
  exists b' trades,
    OrderBook.add_order 100 2 BUY 100 10 10 0 GTC 2 0 0 false (fresh_desk 4)
    = Some (b', trades)
    /\ pool_consistent (OrderBook.order_pool_ (fresh_desk 4))
    /\ pool_consistent (OrderBook.order_pool_ b').
Proof.
  destruct (OrderBook.add_order 100 2 BUY 100 10 10 0 GTC 2 0 0 false
              (fresh_desk 4)) as [[b' trades] |] eqn:Ha.
  - exists b', trades. split; [reflexivity |].
    assert (Hc : pool_consistent (OrderBook.order_pool_ (fresh_desk 4)))
      by exact (ctor_consistent 4).
    split; [exact Hc |].
    exact (proj1 (proj1 arena_handles_stay_valid
                    _ _ _ _ _ _ _ _ _ _ _ _ _ _ _ Ha Hc)).
  - exfalso. vm_compute in Ha. discriminate Ha.
Defined.

Section SettingsKept.
Import OrderBook.
Context `{Env}.

Lemma check_order_limits (order : Order.t) (ticks : nat) (rm : RiskManager.t) :
  RiskManager.trader_limits_ (RiskManager.check_order order ticks rm).1.2
  = RiskManager.trader_limits_ rm.
Proof.
  unfold RiskManager.check_order.
  destruct (Order.type order); try done;
    (cbn [RiskManager.trader_limits_ RiskManager.touch_position];
     destruct (RiskManager.trader_limits_ rm !! Order.ownerID order)
       as [limit |]; [| done];
     repeat (match goal with
             | |- context [if ?c then (_, _, _) else _] => destruct c
             end; [done |]);
     pose proof (is_rate_limited_breaker (Order.ownerID order) ticks
                   (RiskManager.touch_position (Order.ownerID order) rm))
       as (_ & Hl & _);
     destruct (RiskManager.is_rate_limited _ _ _) as [[limited rm2] ticks2];
     cbn [fst snd] in Hl; destruct limited; [done |];
     destruct (CircuitBreaker.should_halt_trading _ _) as [halt cb];
     by destruct halt).
Qed.

Lemma settings_kept_quiet (b b' : t) :
  stats_ b' = stats_ b -> tick_table_ b' = tick_table_ b ->
  RiskManager.trader_limits_ (risk_manager_ b')
  = RiskManager.trader_limits_ (risk_manager_ b) ->
  settings_kept b b'.
Proof. unfold settings_kept. by intros -> -> ->. Qed.

Lemma settings_kept_trans (b1 b2 b3 : t) :
  settings_kept b1 b2 -> settings_kept b2 b3 -> settings_kept b1 b3.
Proof.
  unfold settings_kept. intros (H1 & H2 & H3 & H4) (H5 & H6 & H7 & H8).
  repeat split; congruence.
Qed.

(** X23.  A call of [add_order] that returns has counted exactly one order
    in [totalOrders], however the order ended.  It has not touched the tick
    table or any trader's limits, and [totalIOC_rejected] is as before:
    nothing in [add_order] counts an IOC order that found no match. *)
Theorem add_order_counts_one_order (fuel : nat) (id : Z) (side : Side)
    (price qty disp display_size : Z) (type : OrderType) (ownerID stop_price
    session_id : Z) (mm : bool) (b b' : t) (trades : list Trade.t) :
  add_order fuel id side price qty disp display_size type ownerID stop_price
            session_id mm b = Some (b', trades) ->
  totalOrders (stats_ b') = wrapu64 (totalOrders (stats_ b) + 1)
  /\ totalIOC_rejected (stats_ b') = totalIOC_rejected (stats_ b)
  /\ tick_table_ b' = tick_table_ b
  /\ RiskManager.trader_limits_ (risk_manager_ b')
     = RiskManager.trader_limits_ (risk_manager_ b).
Proof.
  intros Ha.
  assert (Hk : settings_kept (set_stats (bump_orders (stats_ b)) b) b').
  { eapply (frame_add_order settings_kept); try exact Ha; try reflexivity;
      try exact settings_kept_trans;
      try (intros; apply settings_kept_quiet; reflexivity);
      try (intros; unfold settings_kept; by repeat split).
    - intros s k v b0. apply settings_kept_quiet; by destruct s.
    - intros s k b0. apply settings_kept_quiet; by destruct s.
    - intros s k d v b0. apply settings_kept_quiet; by destruct s.
    - intros o b0. apply settings_kept_quiet; try reflexivity.
      apply check_order_limits. }
  exact Hk.
Qed.

Lemma index_shrunk_quiet (b b' : t) : orders_ b' = orders_ b -> index_shrunk b b'.
Proof. unfold index_shrunk. by intros ->. Qed.

Lemma index_shrunk_trans (b1 b2 b3 : t) :
  index_shrunk b1 b2 -> index_shrunk b2 b3 -> index_shrunk b1 b3.
Proof. unfold index_shrunk. intros H1 H2. by etrans. Qed.

Lemma index_shrunk_but_quiet (id : Z) (b b' : t) :
  orders_ b' = orders_ b -> index_shrunk_but id b b'.
Proof. unfold index_shrunk_but. by intros ->. Qed.

Lemma index_shrunk_but_trans (id : Z) (b1 b2 b3 : t) :
  index_shrunk_but id b1 b2 -> index_shrunk_but id b2 b3 ->
  index_shrunk_but id b1 b3.
Proof. unfold index_shrunk_but. intros H1 H2. by etrans. Qed.

(** X24.  What a call of [add_order] does to the index of resting orders.
    It enters no id but that of the incoming order, and changes the entry
    of no other id: every other entry of the index was there before.  For
    an IOC, FOK or MARKET order not even its own id is entered: the index
    after the call is a part of the index before it. *)
Theorem add_order_enters_own_id_only (fuel : nat) (id : Z) (side : Side)
    (price qty disp display_size : Z) (type : OrderType) (ownerID stop_price
    session_id : Z) (mm : bool) (b b' : t) (trades : list Trade.t) :
  add_order fuel id side price qty disp display_size type ownerID stop_price
            session_id mm b = Some (b', trades) ->
  (forall k slot, k <> id -> orders_ b' !! k = Some slot ->
                  orders_ b !! k = Some slot)
  /\ (type = IOC \/ type = FOK \/ type = MARKET -> orders_ b' ⊆ orders_ b).
Proof.
  intros Ha. split.
  - assert (Hk : index_shrunk_but id (set_stats (bump_orders (stats_ b)) b) b').
    { eapply (frame_add_order (index_shrunk_but id))
        with (own_id := id) (own_type := type);
        try exact Ha; try reflexivity;
        try exact (index_shrunk_but_trans id);
        try (intros; apply index_shrunk_but_quiet; reflexivity).
      - intros s k v b0. apply index_shrunk_but_quiet. by destruct s.
      - intros s k b0. apply index_shrunk_but_quiet. by destruct s.
      - intros k b0. unfold index_shrunk_but. cbn.
        rewrite delete_delete. apply delete_subseteq.
      - intros s k d v b0. apply index_shrunk_but_quiet. by destruct s.
      - intros _ p b0. unfold index_shrunk_but. cbn.
        by rewrite delete_insert_eq. }
    unfold index_shrunk_but in Hk. cbn in Hk.
    intros k slot Hne Hl.
    assert (Hd : delete id (orders_ b') !! k = Some slot)
      by (by rewrite lookup_delete_ne).
    eapply lookup_weaken in Hd; [| exact Hk].
    by rewrite lookup_delete_ne in Hd.
  - intros Hty.
    assert (Hk : index_shrunk (set_stats (bump_orders (stats_ b)) b) b').
    { eapply (frame_add_order index_shrunk)
        with (own_id := id) (own_type := type);
        try exact Ha; try reflexivity;
        try exact index_shrunk_trans;
        try (intros; apply index_shrunk_quiet; reflexivity).
      - intros s k v b0. apply index_shrunk_quiet. by destruct s.
      - intros s k b0. apply index_shrunk_quiet. by destruct s.
      - intros k b0. unfold index_shrunk. cbn. apply delete_subseteq.
      - intros s k d v b0. apply index_shrunk_quiet. by destruct s.
      - intros Hrest. exfalso.
        destruct Hty as [-> | [-> | ->]]; destruct Hrest as [? | [? | ?]];
          discriminate. }
    exact Hk.
Qed.
End SettingsKept.

Lemma add_order_counts_one_order_witness :
  exists b' trades,
    OrderBook.add_order 100 2 BUY 100 10 10 0 GTC 2 0 0 false own_ask
    = Some (b', trades)
    /\ OrderBook.totalOrders (OrderBook.stats_ own_ask) = 2
    /\ OrderBook.totalOrders (OrderBook.stats_ b') = 3.
Proof.
  destruct (OrderBook.add_order 100 2 BUY 100 10 10 0 GTC 2 0 0 false own_ask)
    as [[b' trades] |] eqn:Ha.
  - exists b', trades. split; [reflexivity |]. split; [reflexivity |].
    rewrite (proj1 (add_order_counts_one_order _ _ _ _ _ _ _ _ _ _ _ _ _ _ _ Ha)).
    reflexivity.
  - exfalso. vm_compute in Ha. discriminate Ha.
Defined.

Lemma add_order_enters_own_id_only_witness :
  exists b' trades,
    OrderBook.add_order 100 2 BUY 100 4 4 0 IOC 2 0 0 false own_ask
    = Some (b', trades)
    /\ OrderBook.orders_ b' ⊆ OrderBook.orders_ own_ask
    /\ OrderBook.orders_ b' !! 2 = None.
Proof.
  destruct (OrderBook.add_order 100 2 BUY 100 4 4 0 IOC 2 0 0 false own_ask)
    as [[b' trades] |] eqn:Ha.
  - exists b', trades. split; [reflexivity |].
    pose proof (proj2 (add_order_enters_own_id_only
                         _ _ _ _ _ _ _ _ _ _ _ _ _ _ _ Ha)
                      (or_introl eq_refl)) as Hsub.
    split; [exact Hsub |].
    destruct (OrderBook.orders_ b' !! 2) as [slot |] eqn:Hl; [| reflexivity].
    eapply lookup_weaken in Hl; [| exact Hsub].
    vm_compute in Hl. discriminate Hl.
  - exfalso. vm_compute in Ha. discriminate Ha.
Defined.

(** ** The book stays uncrossed *)

Section Uncrossed.
Import OrderBook.
Context `{Env}.

Lemma levels_thinned_quiet (b b' : t) :
  bids_ b' = bids_ b -> asks_ b' = asks_ b -> levels_thinned b b'.
Proof. unfold levels_thinned. by intros -> ->. Qed.

Lemma levels_thinned_trans (b1 b2 b3 : t) :
  levels_thinned b1 b2 -> levels_thinned b2 b3 -> levels_thinned b1 b3.
Proof.
  unfold levels_thinned. intros [H1 H2] [H3 H4]. split; by etrans.
Qed.

Lemma levels_thinned_update (s : Side) (k : Z) (v : PriceLevel.t) (b : t) :
  levels_thinned b (set_opposite s (OMap.update k v (opposite s b)) b).
Proof.
  unfold levels_thinned. destruct s; cbn; by rewrite keys_update.
Qed.

Lemma levels_thinned_erase (s : Side) (k : Z) (b : t) :
  levels_thinned b (set_opposite s (OMap.erase k (opposite s b)) b).
Proof.
  unfold levels_thinned. destruct s; cbn; split; try done; apply keys_erase.
Qed.

Lemma book_uncrossed_thinned (b b' : t) :
  book_uncrossed b -> levels_thinned b b' -> book_uncrossed b'.
Proof.
  intros (Hb & Ha & Hx) [Htb Hta]. split; [| split].
  - by eapply sorted_by_thinned.
  - by eapply sorted_by_thinned.
  - intros kb ka Hkb Hka. apply Hx.
    + apply list_elem_of_In. eapply elem_of_sublist; [| exact Htb].
      by apply list_elem_of_In.
    + apply list_elem_of_In. eapply elem_of_sublist; [| exact Hta].
      by apply list_elem_of_In.
Qed.

(** The loops of [add_order], of [add_market_order] and the processing of
    triggered stops only take levels away. *)
Lemma book_loop_thinned (fuel : nat) (mode : Sweep) (s : Side) (order : nat)
    (b b' : t) (trades trades' : list Trade.t) :
  book_loop fuel mode s order b trades = Some (b', trades') ->
  levels_thinned b b'.
Proof.
  apply (frame_book_loop levels_thinned);
    try exact levels_thinned_trans; try exact levels_thinned_update;
    try exact levels_thinned_erase;
    intros; by apply levels_thinned_quiet.
Qed.

Lemma process_triggered_stops_thinned (fuel : nat) (b b' : t)
    (trades trades' : list Trade.t) :
  process_triggered_stops fuel b trades = Some (b', trades') ->
  levels_thinned b b'.
Proof.
  apply (frame_process_triggered_stops levels_thinned);
    try exact levels_thinned_trans; try exact levels_thinned_update;
    try exact levels_thinned_erase;
    intros; by apply levels_thinned_quiet.
Qed.

(** When the cross-match loop ends with quantity left to show, no level of
    the opposite side is within the limit. *)
Lemma book_loop_exit (fuel : nat) (mode : Sweep) (s : Side) (order : nat)
    (b b' : t) (trades trades' : list Trade.t) :
  book_loop fuel mode s order b trades = Some (b', trades') ->
  0 < Order.display (deref (heap b') order) ->
  match opposite s b' with
  | [] => True
  | (best_price, _) :: _ => beyond_limit mode s best_price = true
  end.
Proof.
  revert b trades. induction fuel as [| fuel IH]; intros b trades; [done |].
  cbn [book_loop]. rewrite Z.gtb_ltb.
  destruct (Z.ltb_spec 0 (Order.display (deref (heap b) order)));
    [| intros [= <- <-]; lia].
  destruct (opposite s b) as [| [best_price level0] rest] eqn:Hopp;
    [intros [= <- <-] _; by rewrite Hopp |].
  destruct (beyond_limit mode s best_price) eqn:Hbl;
    [intros [= <- <-] _; by rewrite Hopp |].
  destruct (level_loop fuel mode s best_price order b trades)
    as [[b1 trades1] |]; [| done].
  apply IH.
Qed.

Lemma gtb_trans (a b c : Z) :
  (a >? b) = true -> (b >? c) = true -> (a >? c) = true.
Proof. rewrite !Z.gtb_ltb, !Z.ltb_lt. lia. Qed.

Lemma gtb_total (a b : Z) : (a >? b) = false -> a <> b -> (b >? a) = true.
Proof. rewrite !Z.gtb_ltb, Z.ltb_lt, Z.ltb_ge. lia. Qed.

Lemma own_before_trans (s : Side) (a b c : Z) :
  own_before s a b = true -> own_before s b c = true -> own_before s a c = true.
Proof. destruct s; [apply gtb_trans | apply ltb_trans]. Qed.

Lemma own_before_total (s : Side) (a b : Z) :
  own_before s a b = false -> a <> b -> own_before s b a = true.
Proof. destruct s; [apply gtb_total | apply ltb_total]. Qed.

Lemma sorted_head_least (k : Z) (level : PriceLevel.t)
    (m : list (Z * PriceLevel.t)) (x : Z) :
  sorted_by Z.ltb ((k, level) :: m) -> In x (map fst ((k, level) :: m)) ->
  k <= x.
Proof.
  unfold sorted_by. cbn. intros Hs [<- | Hin]; [lia |].
  apply StronglySorted_inv in Hs as [_ Hall].
  rewrite List.Forall_forall in Hall. apply Hall, Z.ltb_lt in Hin. lia.
Qed.

Lemma sorted_head_greatest (k : Z) (level : PriceLevel.t)
    (m : list (Z * PriceLevel.t)) (x : Z) :
  sorted_by Z.gtb ((k, level) :: m) -> In x (map fst ((k, level) :: m)) ->
  x <= k.
Proof.
  unfold sorted_by. cbn. intros Hs [<- | Hin]; [lia |].
  apply StronglySorted_inv in Hs as [_ Hall].
  rewrite List.Forall_forall in Hall. apply Hall in Hin.
  rewrite Z.gtb_ltb in Hin. apply Z.ltb_lt in Hin. lia.
Qed.

(** Resting the incoming order at [price] on its own side, given that no
    opposite level is within the limit. *)
Lemma book_uncrossed_rest (s : Side) (price : Z) (v : PriceLevel.t)
    (m : gmap Z nat) (b : t) :
  book_uncrossed b -> uncrossed s price b = true ->
  book_uncrossed
    (set_orders m
       (set_own s
          (OMap.update price v
             (OMap.index (own_before s) price PriceLevel.ctor (own s b))) b)).
Proof.
  intros (Hb & Ha & Hx) Hu. unfold uncrossed in Hu.
  unfold book_uncrossed. destruct s; cbn in *.
  - split; [| split; [done |]].
    + apply sorted_by_update, sorted_by_index;
        [apply gtb_trans | apply gtb_total | done].
    + intros kb ka Hkb Hka. rewrite keys_update in Hkb.
      apply keys_index in Hkb as [-> | Hkb]; [| by apply Hx].
      destruct (asks_ b) as [| [best level] rest] eqn:Hasks; [done |].
      apply Z.ltb_lt in Hu.
      pose proof (sorted_head_least best level rest ka Ha Hka). lia.
  - split; [done | split].
    + apply sorted_by_update, sorted_by_index;
        [apply ltb_trans | apply ltb_total | done].
    + intros kb ka Hkb Hka. rewrite keys_update in Hka.
      apply keys_index in Hka as [-> | Hka]; [| by apply Hx].
      destruct (bids_ b) as [| [best level] rest] eqn:Hbids; [done |].
      rewrite Z.gtb_ltb in Hu. apply Z.ltb_lt in Hu.
      pose proof (sorted_head_greatest best level rest kb Hb Hkb). lia.
Qed.

(** X25.  An order that is not fill-or-kill leaves the book uncrossed.  If
    the two sides are sorted and every bid is below every ask before
    [add_order], they are after it, whatever the order matched, cancelled or
    triggered on the way; [best_bid] is then the highest bid, [best_ask] the
    lowest ask, and [best_bid < best_ask] when both sides have a level. *)
Theorem book_stays_uncrossed (fuel : nat) (id : Z) (side : Side)
    (price qty disp display_size : Z) (type : OrderType) (ownerID stop_price
    session_id : Z) (mm : bool) (b b' : t) (trades : list Trade.t) :
  type <> FOK ->
  add_order fuel id side price qty disp display_size type ownerID stop_price
            session_id mm b = Some (b', trades) ->
  book_uncrossed b ->
  book_uncrossed b'
  /\ (forall k, In k (map fst (bids_ b')) -> k <= best_bid b')
  /\ (forall k, In k (map fst (asks_ b')) -> best_ask b' <= k)
  /\ (bids_ b' <> [] -> asks_ b' <> [] -> best_bid b' < best_ask b').
Proof.
  intros Hty Ha Hu.
  assert (Hb' : book_uncrossed b').
  { revert Ha. unfold add_order.
    destruct (ObjectPool.acquire _) as [[ptr |] pool1] eqn:Hacq;
      [| intros [= <- <-]; exact Hu].
    pose proof (frame_staging levels_thinned levels_thinned_trans
                  ltac:(intros; by apply levels_thinned_quiet)
                  ltac:(intros; by apply levels_thinned_quiet)
                  ltac:(intros; by apply levels_thinned_quiet)
                  ltac:(intros; by apply levels_thinned_quiet)
                  id side price qty disp display_size type ownerID
                  stop_price session_id mm _ ptr pool1 Hacq) as Hst.
    cbn zeta in Hst.
    destruct (RiskManager.check_order _ _ _) as [[res rm] ticks].
    cbn [fst snd] in Hst. intros Ha.
    match type of Ha with
    | context [add_FOK_order ptr ?b2 []] => set (staged_book := b2) in *
    end.
    assert (Hu2 : book_uncrossed staged_book).
    { eapply book_uncrossed_thinned; [| exact Hst].
      eapply book_uncrossed_thinned; [exact Hu |].
      by apply levels_thinned_quiet. }
    clear Hst. clearbody staged_book.
    destruct res; try (injection Ha as <- <-; exact Hu2).
    assert (Hlimit :
      forall b3 trades3 (rests : bool),
        book_loop fuel (Limit price) side ptr staged_book []
        = Some (b3, trades3) ->
        match
          process_triggered_stops fuel
            (if (Order.display (deref (heap b3) ptr) >? 0) && rests
             then
               set_orders (<[id := ptr]> (orders_ b3))
                 (set_own side
                    (OMap.update price
                       (PriceLevel.add_order (heap b3) ptr
                          (default PriceLevel.ctor
                             (OMap.find price
                                (OMap.index (own_before side) price
                                   PriceLevel.ctor (own side b3)))))
                       (OMap.index (own_before side) price PriceLevel.ctor
                                   (own side b3))) b3)
             else release ptr b3) trades3
        with
        | Some (b5, trades1) =>
            Some (set_stats (tally trades1 (stats_ b5)) b5, trades1)
        | None => None
        end = Some (b', trades) ->
        book_uncrossed b').
    { intros b3 trades3 rests Hl Hp.
      pose proof (book_loop_exit _ _ _ _ _ _ _ _ Hl) as Hexit.
      apply book_loop_thinned in Hl.
      pose proof (book_uncrossed_thinned _ _ Hu2 Hl) as Hu3.
      destruct (process_triggered_stops fuel _ trades3)
        as [[b5 trades5] |] eqn:Hp5; [| done].
      injection Hp as <- <-. apply process_triggered_stops_thinned in Hp5.
      eapply book_uncrossed_thinned;
        [| eapply levels_thinned_trans;
           [exact Hp5 | by apply levels_thinned_quiet]].
      rewrite Z.gtb_ltb.
      destruct (Z.ltb_spec 0 (Order.display (deref (heap b3) ptr)));
        cbn [andb]; [| exact Hu3].
      destruct rests; [| exact Hu3].
      apply book_uncrossed_rest; [exact Hu3 |].
      unfold uncrossed. specialize (Hexit ltac:(lia)).
      by destruct (opposite side b3) as [| [best level] rest]. }
    destruct type; try done.
    - destruct (book_loop _ _ _ _ _ _) as [[b3 trades3] |] eqn:Hl; [| done].
      eapply (Hlimit _ _ true); [reflexivity | exact Ha].
    - destruct (book_loop _ _ _ _ _ _) as [[b3 trades3] |] eqn:Hl; [| done].
      eapply (Hlimit _ _ false); [reflexivity | exact Ha].
    - destruct (add_market_order _ _ _ _) as [[b3 trades3] |] eqn:Hm; [| done].
      apply book_loop_thinned in Hm.
      apply process_triggered_stops_thinned in Ha.
      eapply book_uncrossed_thinned; [| exact Ha].
      eapply book_uncrossed_thinned; [exact Hu2 |].
      eapply levels_thinned_trans; [exact Hm | by apply levels_thinned_quiet].
    - injection Ha as <- <-. exact Hu2.
    - destruct (book_loop _ _ _ _ _ _) as [[b3 trades3] |] eqn:Hl; [| done].
      eapply (Hlimit _ _ true); [reflexivity | exact Ha]. }
  split; [exact Hb' |]. destruct Hb' as (Hsb & Hsa & Hx).
  unfold best_bid, best_ask.
  split; [| split].
  - intros k Hk. destruct (bids_ b') as [| [best level] rest]; [done |].
    by eapply sorted_head_greatest.
  - intros k Hk. destruct (asks_ b') as [| [best level] rest]; [done |].
    by eapply sorted_head_least.
  - intros Hnb Hna.
    destruct (bids_ b') as [| [kb lb] rb]; [done |].
    destruct (asks_ b') as [| [ka la] ra]; [done |].
    apply Hx; by left.
Qed.
End Uncrossed.

Lemma book_stays_uncrossed_witness :
  OrderBook.add_order 100 2 BUY 99 10 10 0 GTC 2 0 0 false own_ask
  = Some bid_99_rested
  /\ book_uncrossed own_ask
  /\ OrderBook.best_bid bid_99_rested.1 = 99
  /\ OrderBook.best_ask bid_99_rested.1 = 100
  /\ OrderBook.best_bid bid_99_rested.1 < OrderBook.best_ask bid_99_rested.1.
Proof.
  assert (Ha : OrderBook.add_order 100 2 BUY 99 10 10 0 GTC 2 0 0 false own_ask
               = Some bid_99_rested) by (vm_compute; reflexivity).
  assert (Hu : book_uncrossed own_ask).
  { split; [constructor | split; [repeat constructor |]].
    intros kb ka Hkb. destruct Hkb. }
  assert (Hty : GTC <> FOK) by discriminate.
  split; [exact Ha |]. split; [exact Hu |].
  split; [reflexivity |]. split; [reflexivity |].
  refine (proj2 (proj2 (proj2 (book_stays_uncrossed 100 2 BUY 99 10 10 0 GTC 2
                                 0 0 false own_ask bid_99_rested.1
                                 bid_99_rested.2 Hty Ha Hu))) _ _);
    discriminate.
Defined.

(** ** Cancelling, rejecting, and accepting a stop *)

Section CancelReject.
Import OrderBook.
Context `{Env}.

Lemma orders_cancel_order (id : Z) (b : t) :
  orders_ (cancel_order id b).2 = delete id (orders_ b).
Proof.
  unfold cancel_order. destruct (orders_ b !! id) as [order |] eqn:Hl.
  - cbn [snd]. cbn [orders_ set_stats release set_pool set_orders].
    f_equal. destruct (Order.type _); try done;
      (destruct (OMap.find _ _); [| done];
       destruct (PriceLevel.empty _); by destruct (Order.side _)).
  - cbn [snd]. symmetry. by apply delete_id.
Qed.

(** X26.  [cancel_order] succeeds exactly for an id of the index, and only
    then changes anything; afterwards the id is gone from the index, so
    that cancelling the same id again returns [false] and leaves the book as
    the first call left it. *)
Theorem cancel_order_twice (id : Z) (b : t) :
  ((cancel_order id b).1 = true <-> is_Some (orders_ b !! id))
  /\ ((cancel_order id b).1 = false -> (cancel_order id b).2 = b)
  /\ orders_ (cancel_order id b).2 = delete id (orders_ b)
  /\ cancel_order id (cancel_order id b).2 = (false, (cancel_order id b).2).
Proof.
  split; [| split; [| split]].
  - unfold cancel_order. destruct (orders_ b !! id); cbn [fst].
    + split; [by eexists | done].
    + split; [done | by intros [? ?]].
  - unfold cancel_order. by destruct (orders_ b !! id).
  - apply orders_cancel_order.
  - pose proof (orders_cancel_order id b) as Ho.
    unfold cancel_order at 1. rewrite Ho, lookup_delete_eq. done.
Qed.

Lemma check_order_unknown (order : Order.t) (ticks : nat)
    (rm : RiskManager.t) :
  RiskManager.trader_limits_ rm !! Order.ownerID order = None ->
  Order.type order <> STOP_LOSS ->
  RiskManager.check_order order ticks rm
  = (RiskManager.REJECTED_POSITION_LIMIT,
     RiskManager.touch_position (Order.ownerID order) rm, ticks).
Proof.
  intros Hl Ht. unfold RiskManager.check_order.
  destruct (Order.type order); try done;
    cbn [RiskManager.trader_limits_ RiskManager.touch_position];
    by rewrite Hl.
Qed.

(** X27.  An order the risk manager does not approve leaves no trace in the
    book: [add_order] returns no trade, both sides, the index, the stop
    manager and the record of fills are as before, the slot it had taken is
    back in the arena, and the order is counted once in [totalOrders] and
    once in [totalRiskRejected].  This is what happens to every order,
    other than a stop order, of a trader for whom no limits were set. *)
Theorem rejected_order_leaves_no_trace (fuel : nat) (id : Z) (side : Side)
    (price qty disp display_size : Z) (type : OrderType) (ownerID stop_price
    session_id : Z) (mm : bool) (b : t) :
  pool_ok (order_pool_ b) = true ->
  (RiskManager.trader_limits_ (risk_manager_ b) !! ownerID = None ->
   type <> STOP_LOSS ->
   staged id side price qty disp display_size type ownerID stop_price
          session_id mm b = None)
  /\ (staged id side price qty disp display_size type ownerID stop_price
             session_id mm b = None ->
      exists b',
        add_order fuel id side price qty disp display_size type ownerID
                  stop_price session_id mm b = Some (b', [])
        /\ bids_ b' = bids_ b /\ asks_ b' = asks_ b /\ orders_ b' = orders_ b
        /\ stop_manager_ b' = stop_manager_ b
        /\ fills_ b' = fills_ b
        /\ ObjectPool.allocated_count_ (order_pool_ b')
           = ObjectPool.allocated_count_ (order_pool_ b)
        /\ (ObjectPool.available_ (order_pool_ b) <> [] ->
            ObjectPool.available_ (order_pool_ b')
            = ObjectPool.available_ (order_pool_ b))
        /\ totalOrders (stats_ b') = wrapu64 (totalOrders (stats_ b) + 1)
        /\ totalRiskRejected (stats_ b')
           = wrapu64 (totalRiskRejected (stats_ b) + 1)
        /\ totalTrades (stats_ b') = totalTrades (stats_ b)).
Proof.
  unfold staged, add_order, pool_ok. intros Hok.
  apply andb_prop in Hok as [Hok Hlt]. apply andb_prop in Hok as [Hav Hge].
  apply Z.leb_le in Hge. apply Z.ltb_lt in Hlt.
  destruct b as [bids asks orders [pool avail psize alloc valid] rm sm rules
                 proc depth stats ticks fills].
  cbn in Hav, Hge, Hlt.
  unfold ObjectPool.acquire in *.
  cbn [order_pool_ set_stats ObjectPool.available_ ObjectPool.pool_
       ObjectPool.pool_size_ ObjectPool.allocated_count_
       ObjectPool.valid_objects_ risk_manager_] in *.
  assert (Hslot : forall (pool' : list Order.t) (ptr : nat) (o : Order.t),
            (ptr < length pool')%nat ->
            deref (alter (fun _ => o) ptr pool') ptr = o).
  { intros pool' ptr o Hl. by rewrite deref_alter_eq. }
  split.
  - intros Hnone Hty.
    destruct avail as [| ptr rest].
    + cbn -[normalize RiskManager.check_order deref].
      rewrite Hslot by (rewrite length_app; cbn; lia).
      match goal with
      | |- context [normalize ?r ?ty ?p ?sp ?o] =>
          destruct (normalize_fields r ty p sp o)
            as (_ & _ & _ & _ & _ & _ & Hnt & Hno & _)
      end.
      rewrite check_order_unknown; [done | by rewrite Hno | by rewrite Hnt].
    + cbn in Hav. apply andb_prop in Hav as [Hptr _].
      apply andb_prop in Hptr as [_ Hlen]. apply Nat.ltb_lt in Hlen.
      cbn -[normalize RiskManager.check_order deref]. rewrite Hslot by done.
      match goal with
      | |- context [normalize ?r ?ty ?p ?sp ?o] =>
          destruct (normalize_fields r ty p sp o)
            as (_ & _ & _ & _ & _ & _ & Hnt & Hno & _)
      end.
      rewrite check_order_unknown; [done | by rewrite Hno | by rewrite Hnt].
  - intros Hs. destruct avail as [| ptr rest].
    + match type of Hs with
      | context [RiskManager.check_order ?o ?k ?r] =>
          destruct (RiskManager.check_order o k r) as [[res rm'] ticks'] eqn:Hc
      end.
      destruct res; try discriminate;
        (eexists; split; [reflexivity |];
         unfold release, ObjectPool.release; cbn;
         rewrite bool_decide_eq_true_2
           by (by apply elem_of_union_l, elem_of_singleton);
         cbn; rewrite wrapu64_succ_pred by lia; repeat split; try done).
    + cbn in Hav. apply andb_prop in Hav as [Hptr Hav].
      apply andb_prop in Hptr as [Hin Hlen].
      apply bool_decide_eq_true_1 in Hin.
      match type of Hs with
      | context [RiskManager.check_order ?o ?k ?r] =>
          destruct (RiskManager.check_order o k r) as [[res rm'] ticks'] eqn:Hc
      end.
      destruct res; try discriminate;
        (eexists; split; [reflexivity |];
         unfold release, ObjectPool.release; cbn;
         rewrite bool_decide_eq_true_2 by done;
         cbn; rewrite wrapu64_succ_pred by lia; repeat split; try done).
Qed.
End CancelReject.

Lemma rejected_order_leaves_no_trace_witness :
  pool_ok (OrderBook.order_pool_ own_ask) = true
  /\ RiskManager.trader_limits_ (OrderBook.risk_manager_ own_ask) !! 50 = None
  /\ staged 9 BUY 100 10 10 0 GTC 50 0 0 false own_ask = None
  /\ exists b',
       OrderBook.add_order 100 9 BUY 100 10 10 0 GTC 50 0 0 false own_ask
       = Some (b', [])
       /\ OrderBook.asks_ b' = OrderBook.asks_ own_ask
       /\ OrderBook.orders_ b' = OrderBook.orders_ own_ask.
Proof.
  assert (Hok : pool_ok (OrderBook.order_pool_ own_ask) = true)
    by (vm_compute; reflexivity).
  assert (Hl : RiskManager.trader_limits_ (OrderBook.risk_manager_ own_ask) !! 50
               = None) by (vm_compute; reflexivity).
  assert (Hty : GTC <> STOP_LOSS) by discriminate.
  destruct (rejected_order_leaves_no_trace 100 9 BUY 100 10 10 0 GTC 50 0 0
              false own_ask Hok) as [Hunknown Hrej].
  pose proof (Hunknown Hl Hty) as Hs.
  destruct (Hrej Hs) as (b' & Ha & _ & Hasks & Horders & _).
  split; [exact Hok |]. split; [exact Hl |]. split; [exact Hs |].
  exists b'. split; [exact Ha |]. split; [exact Hasks | exact Horders].
Defined.

Section StopAccepted.
Import OrderBook.
Context `{Env}.

Lemma check_order_stop (order : Order.t) (ticks : nat) (rm : RiskManager.t) :
  Order.type order = STOP_LOSS ->
  RiskManager.check_order order ticks rm = (RiskManager.APPROVED, rm, ticks).
Proof. intros Ht. unfold RiskManager.check_order. by rewrite Ht. Qed.

(** X28.  A stop order is taken without any risk check.  Whoever sends it
    and whatever its size, [add_order] returns no trade, leaves the risk
    manager and both sides of the book as they are, enters the id in the
    index and hands the order to the stop manager, which files it under its
    id. *)
Theorem stop_order_bypasses_risk (fuel : nat) (id : Z) (side : Side)
    (price qty disp display_size ownerID stop_price session_id : Z)
    (mm : bool) (b : t) :
  pool_ok (order_pool_ b) = true ->
  let p := next_slot (order_pool_ b) in
  exists b',
    add_order fuel id side price qty disp display_size STOP_LOSS ownerID
              stop_price session_id mm b = Some (b', [])
    /\ risk_manager_ b' = risk_manager_ b
    /\ bids_ b' = bids_ b /\ asks_ b' = asks_ b
    /\ orders_ b' = <[id := p]> (orders_ b)
    /\ stop_manager_ b'
       = StopOrderManager.add_stop_order (heap b') p (stop_manager_ b)
    /\ StopOrderManager.stop_lookup_ (stop_manager_ b') !! id = Some p
    /\ Order.type (deref (heap b') p) = STOP_LOSS
    /\ Order.id (deref (heap b') p) = id
    /\ Order.ownerID (deref (heap b') p) = ownerID
    /\ totalRiskRejected (stats_ b') = totalRiskRejected (stats_ b).
Proof.
  unfold add_order, pool_ok, next_slot. intros Hok.
  apply andb_prop in Hok as [Hok Hlt]. apply andb_prop in Hok as [Hav Hge].
  destruct b as [bids asks orders [pool avail psize alloc valid] rm sm rules
                 proc depth stats ticks fills].
  cbn in Hav.
  unfold ObjectPool.acquire.
  cbn [order_pool_ set_stats ObjectPool.available_ ObjectPool.pool_
       ObjectPool.pool_size_ ObjectPool.allocated_count_
       ObjectPool.valid_objects_ risk_manager_ ticks_ tick_table_].
  assert (Hslot : forall (pool' : list Order.t) (ptr : nat) (o : Order.t),
            (ptr < length pool')%nat ->
            deref (alter (fun _ => o) ptr pool') ptr = o).
  { intros pool' ptr o Hl. by rewrite deref_alter_eq. }
  set (o := normalize rules STOP_LOSS price stop_price
              (Order.ctor id side price stop_price qty disp display_size
                          STOP_LOSS ownerID session_id mm (now ticks))).
  destruct (normalize_fields rules STOP_LOSS price stop_price
              (Order.ctor id side price stop_price qty disp display_size
                          STOP_LOSS ownerID session_id mm (now ticks)))
    as (Hid & _ & _ & _ & _ & _ & Hnt & Hno & _).
  fold o in Hid, Hnt, Hno. cbn [Order.id Order.type Order.ownerID Order.ctor]
    in Hid, Hnt, Hno.
  assert (Hgoal : forall (ptr : nat) (pool' : list Order.t) avail' alloc' valid',
    (ptr < length pool')%nat ->
    exists b',
      (let '(res, rm', ticks') :=
         RiskManager.check_order
           (deref (alter (fun _ => o) ptr pool') ptr) (S ticks) rm in
       match res with
       | RiskManager.APPROVED =>
           Some (set_orders (<[id := ptr]> orders)
                   (set_stops
                      (StopOrderManager.add_stop_order
                         (alter (fun _ => o) ptr pool') ptr sm)
                      (mk bids asks orders
                          (ObjectPool.mk (alter (fun _ => o) ptr pool')
                                         avail' psize alloc' valid')
                          rm' sm rules proc depth (bump_orders stats) ticks'
                          fills)),
                 @nil Trade.t)
       | _ => None
       end) = Some (b', [])
      /\ risk_manager_ b' = rm /\ bids_ b' = bids /\ asks_ b' = asks
      /\ orders_ b' = <[id := ptr]> orders
      /\ stop_manager_ b'
         = StopOrderManager.add_stop_order (heap b') ptr sm
      /\ StopOrderManager.stop_lookup_ (stop_manager_ b') !! id = Some ptr
      /\ Order.type (deref (heap b') ptr) = STOP_LOSS
      /\ Order.id (deref (heap b') ptr) = id
      /\ Order.ownerID (deref (heap b') ptr) = ownerID
      /\ totalRiskRejected (stats_ b') = totalRiskRejected stats).
  { intros ptr pool' avail' alloc' valid' Hl.
    rewrite (Hslot pool' ptr o Hl), check_order_stop by exact Hnt.
    eexists. split; [reflexivity |].
    cbn [risk_manager_ bids_ asks_ orders_ stop_manager_ set_orders set_stops
         heap order_pool_ ObjectPool.pool_ stats_].
    rewrite (Hslot pool' ptr o Hl).
    repeat split; try done.
    unfold StopOrderManager.add_stop_order.
    rewrite (Hslot pool' ptr o Hl), Hnt, Hid.
    destruct (Order.side o); cbn; by rewrite lookup_insert_eq. }
  destruct avail as [| ptr rest].
  - destruct (Hgoal (length pool) (pool ++ [make_unique]) []
                (wrapu64 (alloc + 1)) ({[length pool]} ∪ valid))
      as (b' & Ha & Hrest); [rewrite length_app; cbn; lia |].
    exists b'. split; [| exact Hrest].
    cbn -[normalize RiskManager.check_order deref
          StopOrderManager.add_stop_order].
    fold o. revert Ha.
    destruct (RiskManager.check_order _ _ _) as [[res rm'] ticks'].
    by destruct res.
  - cbn in Hav. apply andb_prop in Hav as [Hptr _].
    apply andb_prop in Hptr as [_ Hlen]. apply Nat.ltb_lt in Hlen.
    destruct (Hgoal ptr pool rest (wrapu64 (alloc + 1)) valid Hlen)
      as (b' & Ha & Hrest).
    exists b'. split; [| exact Hrest].
    cbn -[normalize RiskManager.check_order deref
          StopOrderManager.add_stop_order].
    fold o. revert Ha.
    destruct (RiskManager.check_order _ _ _) as [[res rm'] ticks'].
    by destruct res.
Qed.
End StopAccepted.

Lemma stop_order_bypasses_risk_witness :
  pool_ok (OrderBook.order_pool_ own_ask) = true
  /\ RiskManager.trader_limits_ (OrderBook.risk_manager_ own_ask) !! 50 = None
  /\ exists b',
       OrderBook.add_order 100 9 SELL 0 1000000 1000000 0 STOP_LOSS 50 95 0
         false own_ask = Some (b', [])
       /\ OrderBook.orders_ b' !! 9 = Some 2%nat
       /\ StopOrderManager.stop_lookup_ (OrderBook.stop_manager_ b') !! 9
          = Some 2%nat.
Proof.
  assert (Hok : pool_ok (OrderBook.order_pool_ own_ask) = true)
    by (vm_compute; reflexivity).
  split; [exact Hok |]. split; [vm_compute; reflexivity |].
  destruct (stop_order_bypasses_risk 100 9 SELL 0 1000000 1000000 0 50 95 0
              false own_ask Hok) as (b' & Ha & _ & _ & _ & Ho & _ & Hl & _).
  exists b'. split; [exact Ha |].
  split; [rewrite Ho; apply lookup_insert_eq | exact Hl].
Defined.

(** ** Termination of the matching loops *)

Section Weights.
Lemma queue_weight_app (h : list Order.t) (l1 l2 : list nat) :
  queue_weight h (l1 ++ l2) = (queue_weight h l1 + queue_weight h l2)%nat.
Proof.
  unfold queue_weight.
  induction l1 as [| q l1 IH]; cbn [foldr app]; [done |].
  rewrite IH. lia.
Qed.

Lemma queue_weight_mono (h h' : list Order.t) (l : list nat) :
  (forall q, In q l -> (slot_weight h' q <= slot_weight h q)%nat) ->
  (queue_weight h' l <= queue_weight h l)%nat.
Proof.
  induction l as [| q l IH]; cbn [queue_weight foldr]; [done |]. intros Hle.
  fold (queue_weight h l) (queue_weight h' l).
  pose proof (Hle q (or_introl eq_refl)).
  assert (queue_weight h' l <= queue_weight h l)%nat
    by (apply IH; intros; apply Hle; by right).
  lia.
Qed.

Lemma queue_weight_strict (h h' : list Order.t) (l : list nat) (p : nat) :
  In p l ->
  (forall q, In q l -> (slot_weight h' q <= slot_weight h q)%nat) ->
  (slot_weight h' p < slot_weight h p)%nat ->
  (queue_weight h' l < queue_weight h l)%nat.
Proof.
  induction l as [| q l IH]; cbn [queue_weight foldr In]; [done |].
  intros Hin Hle Hlt.
  fold (queue_weight h l) (queue_weight h' l).
  pose proof (Hle q (or_introl eq_refl)).
  assert (queue_weight h' l <= queue_weight h l)%nat
    by (apply queue_weight_mono; intros; apply Hle; by right).
  destruct Hin as [-> | Hin]; [lia |].
  assert (queue_weight h' l < queue_weight h l)%nat
    by (apply IH; [done | intros; apply Hle; by right | done]).
  lia.
Qed.

Lemma book_slots_cons (k : Z) (level : PriceLevel.t)
    (book : list (Z * PriceLevel.t)) :
  book_slots ((k, level) :: book) = queue level ++ book_slots book.
Proof. reflexivity. Qed.

Lemma book_weight_mono (h h' : list Order.t) (book : list (Z * PriceLevel.t)) :
  (forall q, In q (book_slots book) ->
             (slot_weight h' q <= slot_weight h q)%nat) ->
  (book_weight h' book <= book_weight h book)%nat.
Proof.
  induction book as [| [k level] book IH]; cbn [book_weight foldr snd]; [done |].
  rewrite book_slots_cons. intros Hle.
  assert (queue_weight h' (queue level) <= queue_weight h (queue level))%nat
    by (apply queue_weight_mono; intros; apply Hle, in_or_app; by left).
  assert (book_weight h' book <= book_weight h book)%nat
    by (apply IH; intros; apply Hle, in_or_app; by right).
  unfold book_weight in *. lia.
Qed.

Lemma book_weight_strict (h h' : list Order.t)
    (book : list (Z * PriceLevel.t)) (p : nat) :
  In p (book_slots book) ->
  (forall q, In q (book_slots book) ->
             (slot_weight h' q <= slot_weight h q)%nat) ->
  (slot_weight h' p < slot_weight h p)%nat ->
  (book_weight h' book < book_weight h book)%nat.
Proof.
  induction book as [| [k level] book IH]; cbn [book_weight foldr snd]; [done |].
  rewrite book_slots_cons. intros Hin Hle Hlt.
  assert (queue_weight h' (queue level) <= queue_weight h (queue level))%nat
    by (apply queue_weight_mono; intros; apply Hle, in_or_app; by left).
  assert (book_weight h' book <= book_weight h book)%nat
    by (apply book_weight_mono; intros; apply Hle, in_or_app; by right).
  apply in_app_or in Hin as [Hin | Hin].
  - assert (queue_weight h' (queue level) < queue_weight h (queue level))%nat.
    { apply (queue_weight_strict _ _ _ p); [done | | done].
      intros; apply Hle, in_or_app; by left. }
    unfold book_weight in *. lia.
  - assert (book_weight h' book < book_weight h book)%nat.
    { apply IH; [done | | done]. intros; apply Hle, in_or_app; by right. }
    unfold book_weight in *. lia.
Qed.

Lemma book_weight_update (h : list Order.t) (k : Z) (level level' : PriceLevel.t)
    (book : list (Z * PriceLevel.t)) :
  OMap.find k book = Some level ->
  (book_weight h (OMap.update k level' book) + queue_weight h (queue level)
   = book_weight h book + queue_weight h (queue level'))%nat.
Proof.
  induction book as [| [k' l'] book IH]; [done |].
  cbn [OMap.find OMap.update]. destruct (k =? k').
  - intros [= ->]. cbn [book_weight foldr snd]. lia.
  - intros Hf. apply IH in Hf. cbn [book_weight foldr snd].
    unfold book_weight in *. lia.
Qed.

Lemma book_weight_erase_empty (h : list Order.t) (k : Z) (level : PriceLevel.t)
    (book : list (Z * PriceLevel.t)) :
  OMap.find k book = Some level -> queue level = [] ->
  S (book_weight h (OMap.erase k book)) = book_weight h book.
Proof.
  induction book as [| [k' l'] book IH]; [done |].
  cbn [OMap.find OMap.erase]. destruct (k =? k').
  - intros [= ->] Hq. cbn [book_weight foldr snd]. by rewrite Hq.
  - intros Hf Hq. cbn [book_weight foldr snd].
    pose proof (IH Hf Hq) as Hi. unfold book_weight in *. lia.
Qed.

Lemma book_slots_update (k : Z) (level level' : PriceLevel.t)
    (book : list (Z * PriceLevel.t)) (q : nat) :
  OMap.find k book = Some level ->
  (forall x, In x (queue level') -> In x (queue level)) ->
  In q (book_slots (OMap.update k level' book)) -> In q (book_slots book).
Proof.
  induction book as [| [k' l'] book IH]; [done |].
  cbn [OMap.find OMap.update]. destruct (k =? k').
  - intros [= ->] Hsub. rewrite !book_slots_cons. intros Hin.
    apply in_app_or in Hin as [Hin | Hin]; apply in_or_app; auto.
  - intros Hf Hsub. rewrite !book_slots_cons. intros Hin.
    apply in_app_or in Hin as [Hin | Hin]; apply in_or_app; auto.
Qed.

Lemma book_slots_erase (k : Z) (book : list (Z * PriceLevel.t)) (q : nat) :
  In q (book_slots (OMap.erase k book)) -> In q (book_slots book).
Proof.
  induction book as [| [k' l'] book IH]; [done |].
  cbn [OMap.erase]. destruct (k =? k'); rewrite ?book_slots_cons; intros Hin.
  - apply in_or_app. by right.
  - apply in_app_or in Hin as [Hin | Hin]; apply in_or_app; auto.
Qed.

Lemma book_slots_find (k : Z) (level : PriceLevel.t)
    (book : list (Z * PriceLevel.t)) (q : nat) :
  OMap.find k book = Some level -> In q (queue level) ->
  In q (book_slots book).
Proof.
  induction book as [| [k' l'] book IH]; [done |].
  cbn [OMap.find]. rewrite book_slots_cons. destruct (k =? k').
  - intros [= ->] Hin. apply in_or_app. by left.
  - intros Hf Hin. apply in_or_app. right. by apply IH.
Qed.

Lemma queue_front (level : PriceLevel.t) (p : nat) :
  PriceLevel.front level = Some p ->
  queue level = p :: queue (PriceLevel.pop_front level).
Proof.
  destruct level as [[| m mm] [| r reg]]; cbn; intros Hf; try done;
    by injection Hf as ->.
Qed.

Lemma queue_front_none (level : PriceLevel.t) :
  PriceLevel.front level = None -> queue level = [].
Proof. by destruct level as [[| m mm] [| r reg]]. Qed.

Lemma queue_add_order (h h' : list Order.t) (p : nat) (level : PriceLevel.t) :
  (forall q, In q (queue (PriceLevel.add_order h p level)) <->
             q = p \/ In q (queue level))
  /\ queue_weight h' (queue (PriceLevel.add_order h p level))
     = (slot_weight h' p + queue_weight h' (queue level))%nat.
Proof.
  unfold PriceLevel.add_order, queue.
  destruct (Order.is_market_maker _); cbn [PriceLevel.mm_orders
    PriceLevel.regular_orders]; split.
  - intros q. rewrite !in_app_iff. cbn. intuition.
  - rewrite !queue_weight_app. cbn. lia.
  - intros q. rewrite !in_app_iff. cbn. intuition.
  - rewrite !queue_weight_app. cbn. lia.
Qed.
End Weights.

Section Sweep.
Import OrderBook.
Context `{Env}.

Lemma opposite_set_opposite (s : Side) (v : list (Z * PriceLevel.t)) (b : t) :
  opposite s (set_opposite s v b) = v.
Proof. by destruct s. Qed.

Lemma heap_set_opposite (s : Side) (v : list (Z * PriceLevel.t)) (b : t) :
  heap (set_opposite s v b) = heap b.
Proof. by destruct s. Qed.

Lemma opposite_set_heap (s : Side) (h : list Order.t) (b : t) :
  opposite s (set_heap h b) = opposite s b.
Proof. by destruct s. Qed.

Lemma opposite_release (s : Side) (p : nat) (b : t) :
  opposite s (release p b) = opposite s b.
Proof. by destruct s. Qed.

Lemma opposite_set_orders (s : Side) (v : gmap Z nat) (b : t) :
  opposite s (set_orders v b) = opposite s b.
Proof. by destruct s. Qed.

Lemma opposite_execute_trade (s : Side) (a p : nat) (qty : Z) (b : t) :
  opposite s (execute_trade a p qty b).2 = opposite s b.
Proof. by destruct s. Qed.

Lemma heap_release (p : nat) (b : t) :
  heap (release p b) = heap b
  \/ heap (release p b) = alter ObjectPool.reset_order p (heap b).
Proof.
  unfold release, heap, ObjectPool.release. cbn [order_pool_ set_pool].
  destruct (bool_decide _); [by right | by left].
Qed.

Lemma tamer_refl (order : nat) (h : list Order.t) : tamer order h h.
Proof.
  split; [done |]. split; [lia |]. intros q _ Hc. split; [done | lia].
Qed.

Lemma tamer_trans (order : nat) (h1 h2 h3 : list Order.t) :
  tamer order h1 h2 -> tamer order h2 h3 -> tamer order h1 h3.
Proof.
  intros (Hl1 & Hd1 & Hq1) (Hl2 & Hd2 & Hq2).
  split; [congruence |]. split; [lia |].
  intros q Hne Hc. destruct (Hq1 q Hne Hc) as [Hc2 Hw2].
  destruct (Hq2 q Hne Hc2) as [Hc3 Hw3]. split; [done | lia].
Qed.

Lemma tamer_reset (order p : nat) (h : list Order.t) :
  (order < length h)%nat -> 0 <= Order.display (deref h order) ->
  tamer order h (alter ObjectPool.reset_order p h).
Proof.
  intros Ho Hd. split; [by rewrite length_alter |]. split.
  { destruct (decide (p = order)) as [-> | Hne];
      [by rewrite deref_alter_eq | by rewrite deref_alter_ne]. }
  intros q _ Hc. destruct (decide (p = q)) as [-> | Hpq].
  - destruct Hc as (Hr & _). unfold slot_calm, slot_weight.
    rewrite length_alter, deref_alter_eq by done.
    cbn. unfold INT64_MAX, INT64_MIN. repeat split; try lia.
  - unfold slot_calm, slot_weight. rewrite length_alter, deref_alter_ne by done.
    split; [done | lia].
Qed.

Lemma tamer_release (order p : nat) (b : t) :
  (order < length (heap b))%nat -> 0 <= Order.display (deref (heap b) order) ->
  tamer order (heap b) (heap (release p b)).
Proof.
  intros Ho Hd. destruct (heap_release p b) as [-> | ->];
    [apply tamer_refl | by apply tamer_reset].
Qed.

Lemma tamer_trade (order passive : nat) (h : list Order.t) :
  let match_qty :=
    Z.min (Order.display (deref h order)) (Order.display (deref h passive)) in
  let dec_display o := Order.set_display (sub64 (Order.display o) match_qty) o in
  let dec_remaining o :=
    Order.set_remaining (sub64 (Order.remaining o) match_qty) o in
  let h2 :=
    alter dec_display order
      (alter dec_remaining passive (alter dec_display passive h)) in
  passive <> order -> (order < length h)%nat ->
  0 < Order.display (deref h order) <= INT64_MAX ->
  slot_calm h passive ->
  tamer order h h2
  /\ 0 <= Order.display (deref h2 order) <= INT64_MAX
  /\ (Order.display (deref h2 passive) <> 0 ->
      Order.display (deref h2 order) <= 0)
  /\ alter dec_remaining passive
       (alter dec_display passive (alter dec_display order h)) = h2.
Proof.
  intros m dd dr h2 Hne Ho Hd (Hp & Hpd & Hpr & Hpm & Hpi).
  assert (Hcomm : alter dr passive (alter dd passive (alter dd order h)) = h2).
  { unfold h2. rewrite (list_alter_alter_ne dd dd h passive order) by done.
    by rewrite (list_alter_alter_ne dr dd _ passive order) by done. }
  assert (Hm : 0 <= m /\ m <= Order.display (deref h order)
               /\ m <= Order.display (deref h passive)) by (unfold m; lia).
  assert (Ho2 : deref h2 order = dd (deref h order)).
  { unfold h2. rewrite deref_alter_eq by (by rewrite !length_alter).
    by rewrite !deref_alter_ne. }
  assert (Hp2 : deref h2 passive = dr (dd (deref h passive))).
  { unfold h2. rewrite deref_alter_ne by done.
    rewrite deref_alter_eq by (by rewrite !length_alter).
    by rewrite deref_alter_eq. }
  assert (Hq2 : forall q, q <> order -> q <> passive -> deref h2 q = deref h q).
  { intros q Hqo Hqp. unfold h2. by rewrite !deref_alter_ne. }
  assert (Hlen : length h2 = length h) by (unfold h2; by rewrite !length_alter).
  assert (Hod : Order.display (deref h2 order)
                = Order.display (deref h order) - m).
  { rewrite Ho2. unfold dd. cbn. unfold sub64. apply wrap64_id.
    unfold INT64_MIN, INT64_MAX in *. lia. }
  assert (Hpd2 : Order.display (deref h2 passive)
                 = Order.display (deref h passive) - m).
  { rewrite Hp2. unfold dr, dd. cbn. unfold sub64. apply wrap64_id.
    unfold INT64_MIN, INT64_MAX in *. lia. }
  assert (Hpr2 : Order.remaining (deref h2 passive)
                 = Order.remaining (deref h passive) - m).
  { rewrite Hp2. unfold dr, dd. cbn. unfold sub64. apply wrap64_id.
    unfold INT64_MIN, INT64_MAX in *. lia. }
  assert (Hpt : Order.type (deref h2 passive) = Order.type (deref h passive)
                /\ Order.display_size (deref h2 passive)
                   = Order.display_size (deref h passive))
    by (by rewrite Hp2).
  split; [| split; [lia | split; [lia | done]]].
  split; [done |]. split; [lia |].
  intros q Hqo Hc. destruct (decide (q = passive)) as [-> | Hqp].
  - unfold slot_calm, slot_weight. rewrite Hlen, Hpd2, Hpr2.
    destruct Hpt as [-> ->].
    repeat split; try lia. intros Ht Hr. apply Hpi; [done | lia].
  - unfold slot_calm, slot_weight. rewrite Hlen, Hq2 by done.
    split; [done | lia].
Qed.

Lemma tamer_refill (order passive : nat) (h : list Order.t)
    (level : PriceLevel.t) :
  passive <> order -> slot_calm h passive ->
  let '(refilled, h1, level1) := handle_iceberg_refill h passive level in
  if refilled : bool
  then tamer order h h1
       /\ (slot_weight h1 passive < slot_weight h passive)%nat
       /\ level1 = PriceLevel.add_order h1 passive level
  else h1 = h /\ level1 = level.
Proof.
  intros Hne (Hp & Hpd & Hpr & Hpm & Hpi). unfold handle_iceberg_refill.
  destruct (bool_decide _ && _) eqn:Hc; [| done].
  apply andb_prop in Hc as [Ht Hr]. apply bool_decide_eq_true in Ht.
  apply Z.gtb_lt in Hr. specialize (Hpi Ht Hr).
  set (d := Z.min (Order.remaining (deref h passive))
                  (Order.display_size (deref h passive))).
  set (h1 := alter (Order.set_display d) passive h).
  set (h2 := alter _ passive h1).
  assert (Hp1 : deref h1 passive = Order.set_display d (deref h passive))
    by (unfold h1; by rewrite deref_alter_eq).
  assert (Hp2 : deref h2 passive
                = Order.set_remaining
                    (sub64 (Order.remaining (deref h1 passive))
                           (Order.display (deref h1 passive)))
                    (deref h1 passive)).
  { unfold h2. rewrite deref_alter_eq; [done |]. unfold h1.
    by rewrite length_alter. }
  assert (Hlen : length h2 = length h)
    by (unfold h2, h1; by rewrite !length_alter).
  assert (Hd : 0 < d /\ d <= Order.remaining (deref h passive))
    by (unfold d; lia).
  assert (Hr2 : Order.remaining (deref h2 passive)
                = Order.remaining (deref h passive) - d).
  { rewrite Hp2, Hp1. cbn. unfold sub64. apply wrap64_id.
    unfold INT64_MIN, INT64_MAX in *. lia. }
  assert (Hd2 : Order.display (deref h2 passive) = d)
    by (by rewrite Hp2, Hp1).
  assert (Hs2 : Order.display_size (deref h2 passive)
                = Order.display_size (deref h passive))
    by (by rewrite Hp2, Hp1).
  split; [| split; [| done]].
  - split; [done |]. split.
    { unfold h2, h1. rewrite !deref_alter_ne by done. lia. }
    intros q Hqo Hc. destruct (decide (q = passive)) as [-> | Hqp].
    + unfold slot_calm, slot_weight. rewrite Hlen, Hr2, Hd2, Hs2.
      unfold INT64_MIN, INT64_MAX in *. repeat split; try lia.
    + unfold slot_calm, slot_weight, h2, h1.
      rewrite !length_alter, !deref_alter_ne by done. split; [done | lia].
  - unfold slot_weight. rewrite Hr2. lia.
Qed.

Lemma ready_step (order : nat) (s : Side) (b b' : t) :
  sweep_ready order s b ->
  tamer order (heap b) (heap b') ->
  (forall q, In q (book_slots (opposite s b')) ->
             In q (book_slots (opposite s b))) ->
  sweep_ready order s b'.
Proof.
  intros (Ho & Hd & Hn & Hc) (Hl & Hd' & Hq) Hsub.
  split; [lia |]. split; [lia |]. split; [intros Hin; by apply Hn, Hsub |].
  intros q Hin. apply Hsub in Hin. apply Hq; [| by apply Hc].
  intros ->. by apply Hn.
Qed.

Lemma weight_step (order : nat) (s : Side) (b : t) (h' : list Order.t)
    (book : list (Z * PriceLevel.t)) :
  sweep_ready order s b ->
  tamer order (heap b) h' ->
  (forall q, In q (book_slots book) -> In q (book_slots (opposite s b))) ->
  (book_weight h' book <= book_weight (heap b) book)%nat.
Proof.
  intros (Ho & Hd & Hn & Hc) (Hl & Hd' & Hq) Hsub.
  apply book_weight_mono. intros q Hin. apply Hsub in Hin.
  apply Hq; [| by apply Hc]. intros ->. by apply Hn.
Qed.

Lemma weight_step_strict (order : nat) (s : Side) (b : t) (h' : list Order.t)
    (book : list (Z * PriceLevel.t)) (p : nat) :
  sweep_ready order s b ->
  tamer order (heap b) h' ->
  (forall q, In q (book_slots book) -> In q (book_slots (opposite s b))) ->
  In p (book_slots book) ->
  (slot_weight h' p < slot_weight (heap b) p)%nat ->
  (book_weight h' book < book_weight (heap b) book)%nat.
Proof.
  intros (Ho & Hd & Hn & Hc) (Hl & Hd' & Hq) Hsub Hin Hlt.
  apply (book_weight_strict _ _ _ p); [done | | done].
  intros q Hq'. apply Hsub in Hq'.
  apply Hq; [| by apply Hc]. intros ->. by apply Hn.
Qed.

(** Popping the front of the level at [k]: the front leaves the book's
    weight. *)
Lemma weight_pop (h : list Order.t) (k : Z) (level : PriceLevel.t)
    (book : list (Z * PriceLevel.t)) (p : nat) :
  OMap.find k book = Some level -> PriceLevel.front level = Some p ->
  (book_weight h (OMap.update k (PriceLevel.pop_front level) book)
   + slot_weight h p = book_weight h book)%nat.
Proof.
  intros Hf Hp. pose proof (book_weight_update h k level
    (PriceLevel.pop_front level) book Hf) as Hu.
  rewrite (queue_front level p Hp) in Hu. cbn [queue_weight foldr] in Hu.
  fold (queue_weight h (queue (PriceLevel.pop_front level))) in Hu. lia.
Qed.

Lemma slots_pop (k : Z) (level : PriceLevel.t)
    (book : list (Z * PriceLevel.t)) (p q : nat) :
  OMap.find k book = Some level -> PriceLevel.front level = Some p ->
  In q (book_slots (OMap.update k (PriceLevel.pop_front level) book)) ->
  In q (book_slots book).
Proof.
  intros Hf Hp. apply (book_slots_update k level); [done |].
  intros x Hx. rewrite (queue_front level p Hp). by right.
Qed.

Lemma remove_first_In (o x : nat) (l : list nat) :
  In x (remove_first o l) -> In x l.
Proof.
  induction l as [| y l IH]; cbn [remove_first]; [done |].
  destruct (Nat.eqb o y); [by right |].
  intros [-> | Hin]; [by left | right; by apply IH].
Qed.

Lemma remove_first_weight (h : list Order.t) (o : nat) (l : list nat) :
  (queue_weight h (remove_first o l) <= queue_weight h l)%nat.
Proof.
  induction l as [| y l IH]; cbn [remove_first]; [done |].
  destruct (Nat.eqb o y); cbn [queue_weight foldr] in *;
    fold (queue_weight h l) in *;
    try fold (queue_weight h (remove_first o l)) in *; lia.
Qed.

Lemma queue_erase (h : list Order.t) (o : nat) (level : PriceLevel.t) :
  (forall x, In x (queue (PriceLevel.erase o level)) -> In x (queue level))
  /\ (queue_weight h (queue (PriceLevel.erase o level))
      <= queue_weight h (queue level))%nat.
Proof.
  unfold PriceLevel.erase, queue.
  destruct (existsb _ _); cbn [PriceLevel.mm_orders PriceLevel.regular_orders];
    (split; [intros x; rewrite !in_app_iff;
             intros [Hx | Hx]; eauto using remove_first_In |
             rewrite !queue_weight_app;
             pose proof (remove_first_weight h o (PriceLevel.mm_orders level));
             pose proof (remove_first_weight h o
                           (PriceLevel.regular_orders level)); lia]).
Qed.

Lemma book_weight_erase (h : list Order.t) (k : Z)
    (book : list (Z * PriceLevel.t)) :
  (book_weight h (OMap.erase k book) <= book_weight h book)%nat.
Proof.
  induction book as [| [k' l'] book IH]; [done |].
  cbn [OMap.erase]. destruct (k =? k'); cbn [book_weight foldr snd];
    unfold book_weight in *; lia.
Qed.

Lemma opposite_set_own (s s' : Side) (v : list (Z * PriceLevel.t)) (b : t) :
  opposite s (set_own s' v b) = opposite s b
  \/ (own s' b = opposite s b /\ opposite s (set_own s' v b) = v).
Proof. destruct s, s'; auto. Qed.

(** [cancel_order] thins the book and resets at most one slot. *)
Lemma cancel_calm (order : nat) (s : Side) (id : Z) (b : t) :
  sweep_ready order s b -> 0 <= Order.display (deref (heap b) order) ->
  sweep_ready order s (cancel_order id b).2
  /\ (book_weight (heap (cancel_order id b).2)
                  (opposite s (cancel_order id b).2)
      <= book_weight (heap b) (opposite s b))%nat.
Proof.
  intros Hr Hd. unfold cancel_order.
  destruct (orders_ b !! id) as [order' |]; [| by split].
  cbn [snd].
  match goal with
  | |- context [release order' (set_orders _ ?b0)] => set (b1 := b0)
  end.
  assert (H1 : heap b1 = heap b
               /\ (forall q, In q (book_slots (opposite s b1)) ->
                             In q (book_slots (opposite s b)))
               /\ (book_weight (heap b) (opposite s b1)
                   <= book_weight (heap b) (opposite s b))%nat).
  { unfold b1.
    destruct (Order.type (deref (heap b) order'));
      try (split; [by destruct s | split; [by destruct s | by destruct s]]);
      (destruct (OMap.find _ _) as [level |] eqn:Hf; [| by repeat split];
       destruct (PriceLevel.empty _);
       match goal with
       | |- context [set_own ?s' ?v b] =>
           rewrite (heap_set_own s' v b);
           destruct (opposite_set_own s s' v b) as [-> | [Hown ->]];
           [by repeat split | rewrite Hown in Hf |- *]
       end;
       [split; [done |]; split;
        [intros q; apply book_slots_erase | apply book_weight_erase]
       | destruct (queue_erase (heap b) order' level) as [Hin Hw];
         split; [done |]; split;
         [intros q; by apply (book_slots_update _ level)
         | pose proof (book_weight_update (heap b) _ level
                         (PriceLevel.erase order' level) _ Hf); lia]]). }
  destruct H1 as (Hh1 & Hs1 & Hw1).
  set (b2 := set_orders _ b1). set (b3 := release order' b2).
  assert (Hh3 : tamer order (heap b) (heap b3)).
  { pose proof (tamer_release order order' b2) as Ht.
    unfold b2 at 1 2 3 in Ht. rewrite heap_set_orders, Hh1 in Ht.
    apply Ht; [by destruct Hr | done]. }
  assert (Ho3 : opposite s (set_stats (bump_cancelled (stats_ b3)) b3)
                = opposite s b1).
  { unfold b3, b2. by destruct s. }
  assert (Hheap : heap (set_stats (bump_cancelled (stats_ b3)) b3) = heap b3)
    by reflexivity.
  rewrite Ho3, Hheap. split.
  - apply (ready_step order s b); [done | by rewrite Hheap | by rewrite Ho3].
  - pose proof (weight_step order s b (heap b3) (opposite s b1) Hr Hh3 Hs1).
    lia.
Qed.
End Sweep.

Section SweepRounds.
Import OrderBook.
Context `{Env}.

Lemma front_resting (order : nat) (s : Side) (b : t) (k : Z)
    (level : PriceLevel.t) (passive : nat) :
  sweep_ready order s b ->
  OMap.find k (opposite s b) = Some level ->
  PriceLevel.front level = Some passive ->
  In passive (book_slots (opposite s b))
  /\ passive <> order /\ slot_calm (heap b) passive.
Proof.
  intros (Ho & Hd & Hn & Hc) Hf Hp.
  assert (Hin : In passive (book_slots (opposite s b))).
  { apply (book_slots_find k level); [done |].
    rewrite (queue_front level passive Hp). by left. }
  split; [done |]. split; [intros ->; by apply Hn | by apply Hc].
Qed.

(** A round that meets an order of the incoming owner at the front. *)
Lemma round_same_owner (mode : Sweep) (order : nat) (s : Side) (b : t)
    (best_price : Z) (level : PriceLevel.t) (passive : nat) :
  sweep_ready order s b ->
  0 < Order.display (deref (heap b) order) ->
  OMap.find best_price (opposite s b) = Some level ->
  PriceLevel.front level = Some passive ->
  let b' :=
    drop_same_owner mode passive
      (set_opposite s
         (OMap.update best_price (PriceLevel.pop_front level) (opposite s b))
         b) in
  sweep_ready order s b'
  /\ (book_weight (heap b') (opposite s b')
      < book_weight (heap b) (opposite s b))%nat.
Proof.
  intros Hr Hpos Hf Hp.
  destruct (front_resting order s b best_price level passive Hr Hf Hp)
    as (Hin & Hne & Hc).
  set (book1 := OMap.update best_price (PriceLevel.pop_front level)
                            (opposite s b)).
  set (b1 := set_opposite s book1 b).
  assert (Hh1 : heap b1 = heap b) by apply heap_set_opposite.
  assert (Ho1 : opposite s b1 = book1) by apply opposite_set_opposite.
  assert (Hsub : forall q, In q (book_slots book1) ->
                           In q (book_slots (opposite s b)))
    by (intros q; by apply (slots_pop best_price level _ passive)).
  assert (Hr1 : sweep_ready order s b1).
  { apply (ready_step order s b); [done | | by rewrite Ho1].
    rewrite Hh1. apply tamer_refl. }
  assert (Hw1 : (book_weight (heap b1) (opposite s b1)
                 < book_weight (heap b) (opposite s b))%nat).
  { rewrite Hh1, Ho1.
    pose proof (weight_pop (heap b) best_price level (opposite s b) passive
                  Hf Hp) as Hpop.
    fold book1 in Hpop. unfold slot_weight in Hpop. lia. }
  assert (Hd1 : 0 <= Order.display (deref (heap b1) order))
    by (rewrite Hh1; lia).
  intros b'. unfold b'. destruct mode as [price |]; cbn [drop_same_owner].
  - destruct (cancel_calm order s (Order.id (deref (heap b1) passive)) b1
                Hr1 Hd1) as [Hr' Hw'].
    split; [done | lia].
  - set (b2 := set_orders _ b1).
    assert (Ht : tamer order (heap b1) (heap (release passive b2))).
    { pose proof (tamer_release order passive b2) as Ht.
      unfold b2 at 1 2 3 in Ht. rewrite heap_set_orders in Ht.
      apply Ht; [by destruct Hr1 | done]. }
    assert (Ho2 : opposite s (release passive b2) = opposite s b1)
      by (unfold b2; by rewrite opposite_release, opposite_set_orders).
    split; [apply (ready_step order s b1); [done | done | by rewrite Ho2] |].
    rewrite Ho2.
    pose proof (weight_step order s b1 (heap (release passive b2))
                  (opposite s b1) Hr1 Ht (fun q Hq => Hq)).
    lia.
Qed.

(** A round that trades with the front order. *)
Lemma round_trade (mode : Sweep) (order : nat) (s : Side) (b b1 : t)
    (best_price : Z) (level : PriceLevel.t) (passive : nat) :
  sweep_ready order s b ->
  0 < Order.display (deref (heap b) order) ->
  OMap.find best_price (opposite s b) = Some level ->
  PriceLevel.front level = Some passive ->
  heap b1 = heap b -> opposite s b1 = opposite s b ->
  let match_qty :=
    Z.min (Order.display (deref (heap b) order))
          (Order.display (deref (heap b) passive)) in
  let dec_display o := Order.set_display (sub64 (Order.display o) match_qty) o in
  let dec_remaining o :=
    Order.set_remaining (sub64 (Order.remaining o) match_qty) o in
  let b2 :=
    match mode with
    | Limit _ =>
        write passive dec_remaining
          (write passive dec_display (write order dec_display b1))
    | Market =>
        write order dec_display
          (write passive dec_remaining (write passive dec_display b1))
    end in
  let b3 :=
    if Order.display (deref (heap b2) passive) =? 0
    then retire_front s best_price level passive b2
    else b2 in
  sweep_ready order s b3
  /\ is_Some (OMap.find best_price (opposite s b3))
  /\ ((book_weight (heap b3) (opposite s b3)
       < book_weight (heap b) (opposite s b))%nat
      \/ ((book_weight (heap b3) (opposite s b3)
           <= book_weight (heap b) (opposite s b))%nat
          /\ Order.display (deref (heap b3) order) <= 0)).
Proof.
  intros Hr Hpos Hf Hp Hh1 Ho1 m dd dr b2 b3.
  destruct (front_resting order s b best_price level passive Hr Hf Hp)
    as (Hin & Hne & Hc).
  pose proof Hr as (Ho & Hd & Hn & Hcalm).
  destruct (tamer_trade order passive (heap b) Hne Ho (conj Hpos Hd) Hc)
    as (Ht2 & Hd2 & Hrest & Hcomm).
  assert (Hh2 : heap b2
                = alter dd order
                    (alter dr passive (alter dd passive (heap b)))).
  { unfold b2. destruct mode; rewrite !heap_write, Hh1; [exact Hcomm | done]. }
  assert (Ho2 : opposite s b2 = opposite s b).
  { unfold b2, write. destruct mode; by rewrite !opposite_set_heap. }
  fold m dd dr in Ht2, Hd2, Hrest. rewrite <- Hh2 in Ht2, Hd2, Hrest.
  assert (Hr2 : sweep_ready order s b2)
    by (apply (ready_step order s b); [done | done | by rewrite Ho2]).
  assert (Hw2 : (book_weight (heap b2) (opposite s b2)
                 <= book_weight (heap b) (opposite s b))%nat).
  { rewrite Ho2. by apply (weight_step order s b). }
  assert (Hf2 : OMap.find best_price (opposite s b2) = Some level)
    by (by rewrite Ho2).
  unfold b3. destruct (Z.eqb_spec (Order.display (deref (heap b2) passive)) 0)
    as [Hz | Hnz].
  2: { split; [done |]. split; [by rewrite Hf2 |]. right. split; [done |].
       by apply Hrest. }
  clear Hrest.
  destruct (front_resting order s b2 best_price level passive Hr2 Hf2 Hp)
    as (Hin2 & _ & Hc2).
  unfold retire_front.
  pose proof (tamer_refill order passive (heap b2)
                (PriceLevel.pop_front level) Hne Hc2) as Hfill.
  destruct (handle_iceberg_refill (heap b2) passive
              (PriceLevel.pop_front level)) as [[refilled h1] level1].
  destruct refilled.
  - destruct Hfill as (Ht3 & Hlt & ->).
    set (level1 := PriceLevel.add_order h1 passive (PriceLevel.pop_front level)).
    cbn iota.
    set (b4 := set_opposite s (OMap.update best_price level1 (opposite s b2))
                            (set_heap h1 b2)).
    assert (Hh4 : heap b4 = h1)
      by (unfold b4; by rewrite heap_set_opposite, heap_set_heap).
    assert (Ho4 : opposite s b4
                  = OMap.update best_price level1 (opposite s b2))
      by (unfold b4; by rewrite opposite_set_opposite).
    rewrite Hh4, Ho4.
    destruct (queue_add_order h1 h1 passive (PriceLevel.pop_front level))
      as [Hq Hw]. fold level1 in Hq, Hw.
    assert (Hsub : forall q,
               In q (book_slots (OMap.update best_price level1 (opposite s b2))) ->
               In q (book_slots (opposite s b2))).
    { intros q. apply (book_slots_update best_price level); [done |].
      intros x Hx. apply Hq in Hx. rewrite (queue_front level passive Hp).
      destruct Hx as [-> | Hx]; [by left | by right]. }
    split.
    { apply (ready_step order s b2); [done | by rewrite Hh4 | by rewrite Ho4]. }
    split; [erewrite find_update_eq; eauto |]. left.
    pose proof (book_weight_update h1 best_price level level1
                  (opposite s b2) Hf2) as Hu.
    rewrite Hw, (queue_front level passive Hp) in Hu.
    cbn [queue_weight foldr] in Hu.
    fold (queue_weight h1 (queue (PriceLevel.pop_front level))) in Hu.
    pose proof (weight_step_strict order s b2 h1 (opposite s b2) passive
                  Hr2 Ht3 (fun q Hq' => Hq') Hin2 Hlt).
    lia.
  - destruct Hfill as [-> ->]. cbn iota.
    set (book1 := OMap.update best_price (PriceLevel.pop_front level)
                              (opposite s b2)).
    set (b4 := set_opposite s book1 (set_heap (heap b2) b2)).
    set (b5 := set_orders _ b4).
    assert (Ho5 : opposite s (release passive b5) = book1).
    { unfold b5, b4.
      by rewrite opposite_release, opposite_set_orders, opposite_set_opposite. }
    assert (Ht5 : tamer order (heap b2) (heap (release passive b5))).
    { pose proof (tamer_release order passive b5) as Ht.
      unfold b5 at 1 2 3, b4 in Ht.
      rewrite heap_set_orders, heap_set_opposite, heap_set_heap in Ht.
      apply Ht; [by destruct Hr2 | lia]. }
    assert (Hsub : forall q, In q (book_slots book1) ->
                             In q (book_slots (opposite s b2)))
      by (intros q; by apply (slots_pop best_price level _ passive)).
    split; [apply (ready_step order s b2); [done | done | by rewrite Ho5] |].
    split; [rewrite Ho5; unfold book1; erewrite find_update_eq; eauto |].
    left. rewrite Ho5.
    pose proof (weight_step order s b2 (heap (release passive b5)) book1
                  Hr2 Ht5 Hsub).
    pose proof (weight_pop (heap b2) best_price level (opposite s b2) passive
                  Hf2 Hp) as Hpop.
    fold book1 in Hpop. unfold slot_weight in Hpop. lia.
Qed.
End SweepRounds.

Section SweepEnds.
Import OrderBook.
Context `{Env}.

Lemma book_weight_pos (h : list Order.t) (book : list (Z * PriceLevel.t))
    (k : Z) (level : PriceLevel.t) :
  OMap.find k book = Some level -> (1 <= book_weight h book)%nat.
Proof.
  destruct book as [| [k' l'] book]; [done |]. intros _.
  cbn [book_weight foldr]. lia.
Qed.

(** The inner loop returns when it has a round of fuel for each unit of the
    book's weight.  It leaves the order filled, or the level at
    [best_price] empty, or no level there; the last only after the book has
    lost weight. *)
Lemma level_loop_returns (mode : Sweep) (s : Side) (best_price : Z)
    (order : nat) :
  forall (fuel : nat) (b : t) (trades : list Trade.t),
    sweep_ready order s b ->
    (book_weight (heap b) (opposite s b) < fuel)%nat
    \/ ((1 <= fuel)%nat /\ Order.display (deref (heap b) order) <= 0) ->
    exists b1 trades1,
      level_loop fuel mode s best_price order b trades = Some (b1, trades1)
      /\ sweep_ready order s b1
      /\ (book_weight (heap b1) (opposite s b1)
          <= book_weight (heap b) (opposite s b))%nat
      /\ (Order.display (deref (heap b1) order) <= 0
          \/ (exists level,
                OMap.find best_price (opposite s b1) = Some level
                /\ queue level = [])
          \/ (OMap.find best_price (opposite s b1) = None
              /\ (is_Some (OMap.find best_price (opposite s b)) ->
                  (book_weight (heap b1) (opposite s b1)
                   < book_weight (heap b) (opposite s b))%nat))).
Proof.
  induction fuel as [| fuel IH]; intros b trades Hr Hfuel.
  { exfalso. lia. }
  cbn [level_loop].
  destruct (Z.gtb_spec (Order.display (deref (heap b) order)) 0) as [Hpos | Hle].
  2: { exists b, trades. split; [done |]. split; [done |]. split; [lia |].
       left. lia. }
  destruct Hfuel as [Hfuel | [_ Hd]]; [| lia].
  destruct (OMap.find best_price (opposite s b)) as [level |] eqn:Hf.
  2: { exists b, trades. split; [done |]. split; [done |]. split; [lia |].
       right. right. split; [done |]. by intros [? ?]. }
  destruct (PriceLevel.front level) as [passive |] eqn:Hp.
  2: { exists b, trades. split; [done |]. split; [done |]. split; [lia |].
       right. left. exists level. split; [done | by apply queue_front_none]. }
  pose proof (book_weight_pos (heap b) _ _ _ Hf) as Hw1.
  destruct (Order.ownerID (deref (heap b) order)
            =? Order.ownerID (deref (heap b) passive)).
  - destruct (round_same_owner mode order s b best_price level passive
                Hr Hpos Hf Hp) as (Hr' & Hw').
    destruct (IH _ trades Hr' ltac:(left; lia))
      as (b1 & trades1 & Hrun & Hr1 & Hw1' & Hend).
    exists b1, trades1. split; [exact Hrun |]. split; [done |].
    split; [lia |].
    destruct Hend as [Hd | [Hl | [Hn _]]]; [by left | by right; left |].
    right. right. split; [done |]. intros _. lia.
  - destruct (execute_trade order passive _ b) as [trade b1] eqn:He.
    assert (Hh1 : heap b1 = heap b)
      by (change b1 with (trade, b1).2; rewrite <- He;
          apply heap_execute_trade).
    assert (Ho1 : opposite s b1 = opposite s b)
      by (change b1 with (trade, b1).2; rewrite <- He;
          apply opposite_execute_trade).
    destruct (round_trade mode order s b b1 best_price level passive Hr Hpos
                Hf Hp Hh1 Ho1) as (Hr' & Hf' & Hw').
    destruct (IH _ (trades ++ [trade]) Hr'
                ltac:(destruct Hw' as [? | [? ?]]; [left; lia | right; lia]))
      as (b2 & trades2 & Hrun & Hr2 & Hw2 & Hend).
    exists b2, trades2. split; [exact Hrun |]. split; [done |].
    split; [destruct Hw' as [? | [? ?]]; lia |].
    destruct Hend as [Hd | [Hl | [Hn Hlt]]]; [by left | by right; left |].
    right. right. split; [done |]. intros _. specialize (Hlt Hf').
    destruct Hw' as [? | [? ?]]; lia.
Qed.

End SweepEnds.

Section SweepStuck.
Import OrderBook.
Context `{Env}.

Lemma queue_single (level : PriceLevel.t) (p : nat) :
  queue level = [p] ->
  PriceLevel.front level = Some p
  /\ forall h, queue (PriceLevel.add_order h p (PriceLevel.pop_front level))
               = [p].
Proof.
  destruct level as [[| m [| m' mm]] [| r [| r' reg]]]; cbn; try done;
    intros [= ->]; (split; [done |]); intros h;
    unfold PriceLevel.add_order, PriceLevel.pop_front, queue; cbn;
    by destruct (Order.is_market_maker _).
Qed.

(** One round on a stuck book trades what the iceberg shows, refills it
    with nothing and puts it back: the book is stuck again. *)
Lemma level_loop_stuck (mode : Sweep) (s : Side) (best_price : Z)
    (order passive : nat) :
  forall (fuel : nat) (b : t) (trades : list Trade.t),
    sweep_stuck order passive s best_price b ->
    level_loop fuel mode s best_price order b trades = None.
Proof.
  induction fuel as [| fuel IH]; intros b trades Hs; [done |].
  destruct Hs as (Hne & Ho & Hp & Hown & Hty & Hds & Hd0 & Hdlt & Hdo & Hrem
                  & Hrmax & level & rest & Hopp & Hq).
  cbn [level_loop].
  destruct (Z.gtb_spec (Order.display (deref (heap b) order)) 0) as [_ | ?];
    [| lia].
  rewrite Hopp. cbn [OMap.find]. rewrite Z.eqb_refl.
  destruct (queue_single level passive Hq) as [Hfront Hback]. rewrite Hfront.
  destruct (Z.eqb_spec (Order.ownerID (deref (heap b) order))
                       (Order.ownerID (deref (heap b) passive))); [done |].
  destruct (execute_trade order passive _ b) as [trade b1] eqn:He.
  assert (Hh1 : heap b1 = heap b)
    by (change b1 with (trade, b1).2; rewrite <- He; apply heap_execute_trade).
  assert (Ho1 : opposite s b1 = opposite s b)
    by (change b1 with (trade, b1).2; rewrite <- He;
        apply opposite_execute_trade).
  set (m := Z.min (Order.display (deref (heap b) order))
                  (Order.display (deref (heap b) passive))).
  set (dd := fun o => Order.set_display (sub64 (Order.display o) m) o).
  set (dr := fun o => Order.set_remaining (sub64 (Order.remaining o) m) o).
  set (b2 := match mode with Limit _ => _ | Market => _ end).
  assert (Hm : m = Order.display (deref (heap b) passive)) by (unfold m; lia).
  assert (Hh2 : heap b2
                = alter dd order
                    (alter dr passive (alter dd passive (heap b)))).
  { unfold b2. destruct mode; rewrite !heap_write, Hh1; [| done].
    rewrite (list_alter_alter_ne dd dd (heap b) passive order) by done.
    by rewrite (list_alter_alter_ne dr dd _ passive order) by done. }
  assert (Ho2 : opposite s b2 = opposite s b).
  { unfold b2, write. destruct mode; by rewrite !opposite_set_heap. }
  assert (Hord : deref (heap b2) order = dd (deref (heap b) order)).
  { rewrite Hh2, deref_alter_eq by (by rewrite !length_alter).
    by rewrite !deref_alter_ne. }
  assert (Hpas : deref (heap b2) passive = dr (dd (deref (heap b) passive))).
  { rewrite Hh2, deref_alter_ne by done.
    rewrite deref_alter_eq by (by rewrite !length_alter).
    by rewrite deref_alter_eq. }
  assert (Hlen : length (heap b2) = length (heap b))
    by (rewrite Hh2; by rewrite !length_alter).
  assert (Hod : Order.display (deref (heap b2) order)
                = Order.display (deref (heap b) order) - m).
  { rewrite Hord. unfold dd. cbn. unfold sub64. apply wrap64_id.
    unfold INT64_MIN, INT64_MAX in *. lia. }
  assert (Hpd : Order.display (deref (heap b2) passive) = 0).
  { rewrite Hpas. unfold dr, dd. cbn. unfold sub64. rewrite wrap64_id;
      unfold INT64_MIN, INT64_MAX in *; lia. }
  assert (Hpr : Order.remaining (deref (heap b2) passive)
                = Order.remaining (deref (heap b) passive) - m).
  { rewrite Hpas. unfold dr, dd. cbn. unfold sub64. apply wrap64_id.
    unfold INT64_MIN, INT64_MAX in *. lia. }
  rewrite Hpd. cbn [Z.eqb].
  apply IH. unfold retire_front, handle_iceberg_refill.
  rewrite bool_decide_eq_true_2 by (by rewrite Hpas).
  rewrite (proj2 (Z.gtb_lt _ _)) by lia. cbn [andb].
  set (h3 := alter (Order.set_display _) passive (heap b2)).
  set (h4 := alter _ passive h3).
  set (level1 := PriceLevel.add_order h4 passive (PriceLevel.pop_front level)).
  set (b3 := set_opposite s _ (set_heap h4 b2)).
  assert (Hh3 : heap b3 = h4)
    by (unfold b3; by rewrite heap_set_opposite, heap_set_heap).
  assert (Ho3 : opposite s b3 = (best_price, level1) :: rest).
  { unfold b3. rewrite opposite_set_opposite, Ho2, Hopp.
    cbn [OMap.update]. by rewrite Z.eqb_refl. }
  assert (Hp3 : deref h3 passive
                = Order.set_display 0 (deref (heap b2) passive)).
  { unfold h3. rewrite deref_alter_eq by lia. f_equal. rewrite Hpas.
    cbn. rewrite Hds. unfold sub64. rewrite wrap64_id;
      unfold INT64_MIN, INT64_MAX in *; lia. }
  assert (Hp4 : deref h4 passive
                = Order.set_remaining
                    (Order.remaining (deref (heap b) passive) - m)
                    (deref h3 passive)).
  { unfold h4. rewrite deref_alter_eq by (unfold h3; rewrite length_alter; lia).
    f_equal. rewrite Hp3. cbn. rewrite Hpr. unfold sub64.
    rewrite wrap64_id; unfold INT64_MIN, INT64_MAX in *; lia. }
  assert (Ho4 : deref h4 order = deref (heap b2) order)
    by (unfold h4, h3; by rewrite !deref_alter_ne).
  assert (Hlen4 : length h4 = length (heap b))
    by (unfold h4, h3; by rewrite !length_alter).
  assert (Ho4o : Order.ownerID (deref h4 order)
                 = Order.ownerID (deref (heap b) order))
    by (by rewrite Ho4, Hord).
  assert (Ho4d : Order.display (deref h4 order)
                 = Order.display (deref (heap b) order) - m)
    by (by rewrite Ho4).
  assert (Hp4f : Order.ownerID (deref h4 passive)
                 = Order.ownerID (deref (heap b) passive)
                 /\ Order.type (deref h4 passive) = ICEBERG
                 /\ Order.display_size (deref h4 passive) = 0
                 /\ Order.display (deref h4 passive) = 0
                 /\ Order.remaining (deref h4 passive)
                    = Order.remaining (deref (heap b) passive) - m)
    by (rewrite Hp4, Hp3, Hpas; by repeat split).
  destruct Hp4f as (Hf1 & Hf2 & Hf3 & Hf4 & Hf5).
  unfold sweep_stuck. rewrite Hh3, Ho3, Hlen4, Ho4o, Ho4d, Hf1, Hf2, Hf3, Hf4, Hf5.
  split; [done |]. split; [done |]. split; [done |]. split; [done |].
  split; [done |]. split; [done |]. split; [lia |]. split; [lia |].
  split; [lia |]. split; [lia |]. split; [lia |].
  exists level1, rest. split; [done | apply Hback].
Qed.
End SweepStuck.

(** X29. The matching loops of [add_order] and [add_market_order] end: when
    the incoming order's slot is not one of the resting orders of the
    opposite side and all of those are calm (in particular an iceberg with
    quantity left has a positive [display_size]), the outer loop returns
    once its fuel exceeds the book's weight by two.  It returns with the
    order filled, with the opposite side used up, or with the best
    opposite price beyond the order's limit. *)
Theorem sweep_terminates `{Env} (mode : OrderBook.Sweep) (s : Side)
    (order fuel : nat) (b : OrderBook.t) (trades : list Trade.t) :
  sweep_ready order s b ->
  (book_weight (OrderBook.heap b) (OrderBook.opposite s b) + 2 <= fuel)%nat ->
  exists b' trades',
    OrderBook.book_loop fuel mode s order b trades = Some (b', trades')
    /\ (Order.display (deref (OrderBook.heap b') order) <= 0
        \/ match OrderBook.opposite s b' with
           | [] => True
           | (best_price, _) :: _ =>
               OrderBook.beyond_limit mode s best_price = true
           end).
Proof.
  intros Hready Hweight.
  assert (Hgen :
    (book_weight (OrderBook.heap b) (OrderBook.opposite s b) + 2 <= fuel)%nat
    \/ ((1 <= fuel)%nat
        /\ Order.display (deref (OrderBook.heap b) order) <= 0))
    by (by left).
  clear Hweight. revert b trades Hready Hgen.
  induction fuel as [| fuel IH]; intros b trades Hr Hfuel.
  { exfalso. lia. }
  cbn [OrderBook.book_loop].
  destruct (Z.gtb_spec (Order.display (deref (OrderBook.heap b) order)) 0)
    as [Hpos | Hle].
  2: { exists b, trades. split; [done | left; lia]. }
  destruct Hfuel as [Hfuel | [_ Hd]]; [| lia].
  destruct (OrderBook.opposite s b) as [| [best_price level0] rest] eqn:Hopp.
  { exists b, trades. split; [done | right; by rewrite Hopp]. }
  destruct (OrderBook.beyond_limit mode s best_price) eqn:Hb.
  { exists b, trades. split; [done | right; by rewrite Hopp]. }
  assert (Hf : is_Some (OMap.find best_price (OrderBook.opposite s b))).
  { rewrite Hopp. cbn [OMap.find]. rewrite Z.eqb_refl. eauto. }
  assert (Hw0 : (1 <= book_weight (OrderBook.heap b)
                                  (OrderBook.opposite s b))%nat)
    by (destruct Hf as [l Hl]; by apply (book_weight_pos _ _ _ _ Hl)).
  rewrite <- Hopp in Hfuel.
  destruct (level_loop_returns mode s best_price order fuel b trades Hr
              ltac:(left; lia))
    as (b1 & trades1 & Hrun & Hr1 & Hw1 & Hend).
  rewrite Hrun.
  set (b2 := OrderBook.set_opposite s
               (OrderBook.cleanup_empty_level (OrderBook.opposite s b1)
                                              best_price) b1).
  assert (Hh2 : OrderBook.heap b2 = OrderBook.heap b1)
    by (unfold b2; apply heap_set_opposite).
  assert (Ho2 : OrderBook.opposite s b2
                = OrderBook.cleanup_empty_level (OrderBook.opposite s b1)
                                                best_price)
    by (unfold b2; apply opposite_set_opposite).
  assert (Hsub : forall q, In q (book_slots (OrderBook.opposite s b2)) ->
                           In q (book_slots (OrderBook.opposite s b1))).
  { intros q. rewrite Ho2. unfold OrderBook.cleanup_empty_level.
    destruct (OMap.find best_price (OrderBook.opposite s b1)); [| done].
    destruct (PriceLevel.empty _); [apply book_slots_erase | done]. }
  assert (Hr2 : sweep_ready order s b2).
  { apply (ready_step order s b1); [done | | done]. rewrite Hh2.
    apply tamer_refl. }
  apply (IH b2 trades1 Hr2). rewrite Hh2.
  destruct Hend as [Hd | [(level & Hl & Hq) | [Hn Hlt]]]; [right; lia | |].
  - left. rewrite Ho2. unfold OrderBook.cleanup_empty_level. rewrite Hl.
    assert (He : PriceLevel.empty level = true).
    { unfold queue in Hq. apply app_eq_nil in Hq as [Hm Hg].
      unfold PriceLevel.empty. by rewrite Hm, Hg. }
    rewrite He.
    pose proof (book_weight_erase_empty (OrderBook.heap b1) best_price level
                  (OrderBook.opposite s b1) Hl Hq).
    lia.
  - left. rewrite Ho2. unfold OrderBook.cleanup_empty_level. rewrite Hn.
    specialize (Hlt Hf). lia.
Qed.

Lemma sweep_terminates_witness :
  sweep_ready 1 SELL market_sell_staged.2
  /\ book_weight (OrderBook.heap market_sell_staged.2)
                 (OrderBook.opposite SELL market_sell_staged.2) = 108%nat
  /\ exists b' trades',
       OrderBook.add_market_order 110 market_sell_staged.1
                                  market_sell_staged.2 []
       = Some (b', trades')
       /\ (Order.display (deref (OrderBook.heap b') 1) <= 0
           \/ match OrderBook.opposite SELL b' with
              | [] => True
              | (best_price, _) :: _ =>
                  OrderBook.beyond_limit OrderBook.Market SELL best_price
                  = true
              end).
Proof.
  assert (Hr : sweep_ready 1 SELL market_sell_staged.2).
  { split; [cbn; lia |]. split; [cbn; unfold INT64_MAX; lia |].
    split; [cbn; lia |].
    intros q [<- | [<- | []]]; unfold slot_calm; cbn;
      unfold INT64_MAX, INT64_MIN; repeat split; try lia; discriminate. }
  assert (Hw : book_weight (OrderBook.heap market_sell_staged.2)
                 (OrderBook.opposite SELL market_sell_staged.2) = 108%nat)
    by (vm_compute; reflexivity).
  split; [exact Hr |]. split; [exact Hw |].
  apply (sweep_terminates OrderBook.Market SELL 1 110 market_sell_staged.2 []
           Hr).
  rewrite Hw. lia.
Defined.

(** X30. An iceberg whose [display_size] is 0 stops the engine: when it
    rests alone at the best price, shows less than an incoming order of
    another owner asks for and has more than it shows, every round of the
    inner loop trades what it shows (nothing, from the second round on),
    refills it with 0 and puts it back.  The loops of [add_order] and
    [add_market_order] never end: no fuel makes the model return. *)
Theorem hollow_iceberg_never_ends `{Env} (mode : OrderBook.Sweep) (s : Side)
    (best_price : Z) (order passive : nat) (b : OrderBook.t) :
  sweep_stuck order passive s best_price b ->
  OrderBook.beyond_limit mode s best_price = false ->
  forall (fuel : nat) (trades : list Trade.t),
    OrderBook.book_loop fuel mode s order b trades = None.
Proof.
  intros Hs Hb fuel trades. destruct fuel as [| fuel]; [done |].
  cbn [OrderBook.book_loop].
  pose proof Hs as (_ & _ & _ & _ & _ & _ & Hd0 & Hdlt & _ & _ & _ & level
                    & rest & Hopp & _).
  destruct (Z.gtb_spec (Order.display (deref (OrderBook.heap b) order)) 0)
    as [_ | ?]; [| lia].
  rewrite Hopp, Hb.
  by rewrite (level_loop_stuck mode s best_price order passive fuel b trades Hs).
Qed.

Lemma hollow_iceberg_never_ends_witness :
  sweep_stuck 2 3 BUY 100 hollow_iceberg_staged.2
  /\ forall fuel,
       OrderBook.add_market_order fuel hollow_iceberg_staged.1
                                  hollow_iceberg_staged.2 []
       = None.
Proof.
  assert (Hs : sweep_stuck 2 3 BUY 100 hollow_iceberg_staged.2).
  { unfold sweep_stuck. cbn. unfold INT64_MAX.
    repeat split; try lia; try discriminate.
    eexists _, _. split; reflexivity. }
  split; [exact Hs |]. intros fuel.
  exact (hollow_iceberg_never_ends OrderBook.Market BUY 100 2 3
           hollow_iceberg_staged.2 Hs eq_refl fuel []).
Defined.

(** ** The iceberg refill, in the loops and in the fill-or-kill commit *)

Section IcebergTail.
Import OrderBook.
Context `{Env}.

(** Where [PriceLevel::add_order] puts a slice: behind the market makers'
    orders and ahead of every regular order if the flag is set, at the end
    of the whole level if it is not. *)
Lemma add_order_tail (h : list Order.t) (passive : nat) (rest : PriceLevel.t) :
  if Order.is_market_maker (deref h passive)
  then PriceLevel.mm_orders (PriceLevel.add_order h passive rest)
       = PriceLevel.mm_orders rest ++ [passive]
       /\ PriceLevel.regular_orders (PriceLevel.add_order h passive rest)
          = PriceLevel.regular_orders rest
       /\ queue (PriceLevel.add_order h passive rest)
          = PriceLevel.mm_orders rest
            ++ passive :: PriceLevel.regular_orders rest
  else PriceLevel.mm_orders (PriceLevel.add_order h passive rest)
       = PriceLevel.mm_orders rest
       /\ PriceLevel.regular_orders (PriceLevel.add_order h passive rest)
          = PriceLevel.regular_orders rest ++ [passive]
       /\ queue (PriceLevel.add_order h passive rest)
          = queue rest ++ [passive].
Proof.
  unfold PriceLevel.add_order, queue.
  destruct (Order.is_market_maker _);
    cbn [PriceLevel.mm_orders PriceLevel.regular_orders];
    by rewrite <- ?app_assoc.
Qed.

Lemma add_order_not_empty (h : list Order.t) (passive : nat)
    (rest : PriceLevel.t) :
  PriceLevel.empty (PriceLevel.add_order h passive rest) = false.
Proof.
  unfold PriceLevel.add_order, PriceLevel.empty.
  destruct (Order.is_market_maker _), rest as [[| ? ?] [| ? ?]]; done.
Qed.

(** The slot of a passive after the four assignments of the commit that
    fill it by [qty], for a passive that is not the incoming order. *)
Lemma commit_writes_passive (order passive : nat) (qty : Z) (h : list Order.t) :
  passive <> order -> (passive < length h)%nat ->
  deref
    (alter (fun o => Order.set_remaining (sub64 (Order.remaining o) qty) o) order
       (alter (fun o => Order.set_display (sub64 (Order.display o) qty) o) order
          (alter (fun o => Order.set_remaining
                             (sub64 (Order.remaining o) qty) o) passive
             (alter (fun o => Order.set_display
                                (sub64 (Order.display o) qty) o) passive h))))
    passive
  = Order.set_remaining (sub64 (Order.remaining (deref h passive)) qty)
      (Order.set_display (sub64 (Order.display (deref h passive)) qty)
         (deref h passive)).
Proof.
  intros Hne Hin. rewrite !deref_alter_ne by done.
  rewrite deref_alter_eq by (by rewrite length_alter).
  by rewrite deref_alter_eq.
Qed.

Lemma execute_trade_frame (aggressive passive : nat) (qty : Z) (b : t) :
  let b1 := (execute_trade aggressive passive qty b).2 in
  heap b1 = heap b /\ order_pool_ b1 = order_pool_ b
  /\ orders_ b1 = orders_ b /\ bids_ b1 = bids_ b /\ asks_ b1 = asks_ b.
Proof. done. Qed.

Lemma sub64_diag (x : Z) : sub64 x x = 0.
Proof. unfold sub64. by rewrite Z.sub_diag. Qed.

(** C6, as amended.  An ICEBERG whose [display] has been filled down to 0
    and which has [remaining > 0] gets [display = min(remaining,
    display_size)], has [remaining] reduced by that amount and is appended,
    the same slot, to the sublist of its level that its flag
    [is_market_maker] selects; it stays in the index and in the arena.  A
    regular slice is then the last order of the whole level.  A market
    maker's slice is the last of the market makers' orders and ahead of
    every regular order of the level.  With [remaining == 0] the order is
    erased from the index and released instead.  (1) is the block the loops
    of [add_order] and [add_market_order] run on the front passive, (2) the
    round of the fill-or-kill commit that fills a passive resting at the
    level of its price. *)
Theorem iceberg_refill_at_tail :
  (forall (s : Side) (best_price : Z) (level : PriceLevel.t) (passive : nat)
          (b : t),
      let o := deref (heap b) passive in
      let d := Z.min (Order.remaining o) (Order.display_size o) in
      let rest := PriceLevel.pop_front level in
      let b' := retire_front s best_price level passive b in
      OMap.find best_price (opposite s b) = Some level ->
      PriceLevel.front level = Some passive ->
      Order.type o = ICEBERG ->
      (0 < Order.remaining o ->
         deref (heap b') passive
         = Order.set_remaining (sub64 (Order.remaining o) d)
             (Order.set_display d o)
         /\ (exists level',
               OMap.find best_price (opposite s b') = Some level'
               /\ (if Order.is_market_maker o
                   then PriceLevel.mm_orders level'
                        = PriceLevel.mm_orders rest ++ [passive]
                        /\ PriceLevel.regular_orders level'
                           = PriceLevel.regular_orders rest
                        /\ queue level'
                           = PriceLevel.mm_orders rest
                             ++ passive :: PriceLevel.regular_orders rest
                   else PriceLevel.mm_orders level' = PriceLevel.mm_orders rest
                        /\ PriceLevel.regular_orders level'
                           = PriceLevel.regular_orders rest ++ [passive]
                        /\ queue level' = queue rest ++ [passive]))
         /\ orders_ b' = orders_ b
         /\ ObjectPool.available_ (order_pool_ b')
            = ObjectPool.available_ (order_pool_ b)
         /\ ObjectPool.allocated_count_ (order_pool_ b')
            = ObjectPool.allocated_count_ (order_pool_ b))
      /\ (Order.remaining o = 0 ->
            orders_ b' = delete (Order.id o) (orders_ b)
            /\ order_pool_ b'
               = ObjectPool.release (Some passive) (order_pool_ b)
            /\ OMap.find best_price (opposite s b') = Some rest))
  /\ (forall (order passive : nat) (qty : Z) (level : PriceLevel.t) (b : t),
        let o := deref (heap b) passive in
        let left := sub64 (Order.remaining o) qty in
        let d := Z.min left (Order.display_size o) in
        let rest := PriceLevel.erase passive level in
        let dec_display o1 :=
          Order.set_display (sub64 (Order.display o1) qty) o1 in
        let dec_remaining o1 :=
          Order.set_remaining (sub64 (Order.remaining o1) qty) o1 in
        let filled :=
          write order dec_remaining
            (write order dec_display
               (write passive dec_remaining (write passive dec_display b))) in
        let b' := (commit_one order passive qty b).2 in
        passive <> order ->
        sorted_by (own_before (Order.side o)) (own (Order.side o) b) ->
        OMap.find (Order.price o) (own (Order.side o) b) = Some level ->
        Order.type o = ICEBERG ->
        Order.display o = qty ->
        (0 < left ->
           deref (heap b') passive
           = Order.set_remaining (sub64 left d) (Order.set_display d o)
           /\ (exists level',
                 OMap.find (Order.price o) (own (Order.side o) b')
                 = Some level'
                 /\ (if Order.is_market_maker o
                     then PriceLevel.mm_orders level'
                          = PriceLevel.mm_orders rest ++ [passive]
                          /\ PriceLevel.regular_orders level'
                             = PriceLevel.regular_orders rest
                          /\ queue level'
                             = PriceLevel.mm_orders rest
                               ++ passive :: PriceLevel.regular_orders rest
                     else PriceLevel.mm_orders level'
                          = PriceLevel.mm_orders rest
                          /\ PriceLevel.regular_orders level'
                             = PriceLevel.regular_orders rest ++ [passive]
                          /\ queue level' = queue rest ++ [passive]))
           /\ orders_ b' = orders_ b
           /\ ObjectPool.available_ (order_pool_ b')
              = ObjectPool.available_ (order_pool_ b)
           /\ ObjectPool.allocated_count_ (order_pool_ b')
              = ObjectPool.allocated_count_ (order_pool_ b))
        /\ (left = 0 ->
              orders_ b' = delete (Order.id o) (orders_ b)
              /\ order_pool_ b'
                 = ObjectPool.release (Some passive) (order_pool_ filled))).
Proof.
  split.
  - intros s best_price level passive b. cbn zeta.
    intros Hfind Hfront Htype. unfold retire_front. split.
    + intros Hrem.
      rewrite (handle_iceberg_refill_refills _ _ _ Htype Hrem).
      assert (Hin : (passive < length (heap b))%nat).
      { apply deref_in_range. intros Hd. by rewrite Hd in Htype. }
      split; [| split; [| split; [| split]]].
      * destruct s; cbn; apply deref_lookup, list_lookup_insert_eq; exact Hin.
      * eexists. split.
        -- destruct s; cbn in *; eapply find_update_eq; exact Hfind.
        -- destruct (Order.is_market_maker (deref (heap b) passive));
             cbn; repeat split; unfold queue; cbn; by rewrite <- ?app_assoc.
      * by destruct s.
      * by destruct s.
      * by destruct s.
    + intros Hrem.
      rewrite handle_iceberg_refill_done by lia.
      rewrite set_heap_heap.
      split; [| split].
      * by destruct s.
      * by destruct s.
      * destruct s; cbn in *; eapply find_update_eq; exact Hfind.
  - intros order passive qty level b. cbn zeta.
    intros Hne Hsorted Hfind Htype Hdisp.
    assert (Hin : (passive < length (heap b))%nat).
    { apply deref_in_range. intros Hd. by rewrite Hd in Htype. }
    set (o := deref (heap b) passive) in *.
    set (left := sub64 (Order.remaining o) qty).
    unfold commit_one.
    destruct (execute_trade_frame order passive qty b)
      as (Hh1 & Hp1 & Ho1 & Hb1 & Ha1).
    destruct (execute_trade order passive qty b) as [trade b1].
    cbn [snd] in Hh1, Hp1, Ho1, Hb1, Ha1. cbn zeta.
    set (dd := fun o1 => Order.set_display (sub64 (Order.display o1) qty) o1).
    set (dr := fun o1 =>
                 Order.set_remaining (sub64 (Order.remaining o1) qty) o1).
    set (b2 := write order dr (write order dd
                 (write passive dr (write passive dd b1)))).
    assert (Hown1 : forall s, own s b1 = own s b) by (by intros []).
    assert (Hh2 : heap b2
                  = alter dr order (alter dd order
                      (alter dr passive (alter dd passive (heap b)))))
      by (unfold b2; by rewrite !heap_write, Hh1).
    assert (Hown2 : forall s, own s b2 = own s b)
      by (intros s; rewrite <- Hown1; by destruct s).
    assert (Hor2 : orders_ b2 = orders_ b) by (by rewrite <- Ho1).
    assert (Hpool2 : order_pool_ b2
                     = order_pool_ (write order dr (write order dd
                         (write passive dr (write passive dd b))))).
    { unfold b2, write, set_heap, heap. cbn [order_pool_ set_pool].
      by rewrite Hp1. }
    assert (Hp2 : deref (heap b2) passive
                  = Order.set_remaining left (Order.set_display 0 o)).
    { rewrite Hh2. unfold dr, dd.
      rewrite (commit_writes_passive order passive qty (heap b) Hne Hin).
      fold o. by rewrite Hdisp, sub64_diag. }
    rewrite Hp2. cbn [Order.display Order.set_remaining Order.set_display
                      Order.side Order.price Z.eqb].
    rewrite Hown2.
    rewrite (index_present (own_before (Order.side o)) (Order.price o)
               PriceLevel.ctor level _ (own_before_irrefl _)
               (own_before_asym _) Hsorted Hfind).
    rewrite Hfind. cbn [default from_option id].
    split.
    + intros Hleft.
      assert (Ht2 : Order.type (deref (heap b2) passive) = ICEBERG)
        by (by rewrite Hp2).
      assert (Hr2 : 0 < Order.remaining (deref (heap b2) passive))
        by (by rewrite Hp2).
      rewrite (handle_iceberg_refill_refills _ _ _ Ht2 Hr2).
      rewrite Hp2. cbn [Order.display Order.remaining Order.display_size
                        Order.is_market_maker Order.set_remaining
                        Order.set_display].
      set (level1 := if Order.is_market_maker o then _ else _).
      assert (He : PriceLevel.empty level1 = false).
      { unfold level1, PriceLevel.empty.
        destruct (Order.is_market_maker o);
          cbn [PriceLevel.mm_orders PriceLevel.regular_orders];
          destruct (PriceLevel.mm_orders _), (PriceLevel.regular_orders _);
          done. }
      rewrite He. cbn [snd].
      assert (Hin2 : (passive < length (heap b2))%nat)
        by (rewrite Hh2; by rewrite !length_alter).
      split; [| split; [| split; [| split]]].
      * rewrite heap_set_own, heap_set_heap.
        rewrite (deref_lookup _ _ _ (list_lookup_insert_eq _ _ _ Hin2)).
        by destruct o.
      * exists level1. split.
        -- destruct (Order.side o); cbn; eapply find_update_eq; exact Hfind.
        -- unfold level1. destruct (Order.is_market_maker o);
             cbn; repeat split; unfold queue; cbn; by rewrite <- ?app_assoc.
      * rewrite <- Hor2. by destruct (Order.side o).
      * rewrite <- Hp1.
        assert (Hav : ObjectPool.available_ (order_pool_ b2)
                      = ObjectPool.available_ (order_pool_ b1)) by reflexivity.
        rewrite <- Hav. by destruct (Order.side o).
      * rewrite <- Hp1.
        assert (Hal : ObjectPool.allocated_count_ (order_pool_ b2)
                      = ObjectPool.allocated_count_ (order_pool_ b1))
          by reflexivity.
        rewrite <- Hal. by destruct (Order.side o).
    + intros Hleft.
      assert (Hr2 : Order.remaining (deref (heap b2) passive) <= 0)
        by (rewrite Hp2; cbn; lia).
      rewrite (handle_iceberg_refill_done _ _ _ Hr2).
      rewrite set_heap_heap.
      set (b3 := set_own (Order.side o) _ b2).
      assert (Hh3 : heap b3 = heap b2) by apply heap_set_own.
      assert (Hor3 : orders_ b3 = orders_ b)
        by (rewrite <- Hor2; unfold b3; by destruct (Order.side o)).
      assert (Hpool3 : order_pool_ b3 = order_pool_ b2)
        by (unfold b3; by destruct (Order.side o)).
      rewrite Hh3, Hp2, Hor3.
      cbn [Order.id Order.set_remaining Order.set_display].
      set (b4 := release passive _).
      assert (Hor4 : orders_ b4 = delete (Order.id o) (orders_ b))
        by reflexivity.
      assert (Hpool4 : order_pool_ b4
                       = ObjectPool.release (Some passive) (order_pool_ b2)).
      { unfold b4, release. cbn [order_pool_ set_pool set_orders].
        by rewrite Hpool3. }
      rewrite <- Hpool2, <- Hpool4, <- Hor4.
      destruct (PriceLevel.empty _); cbn [snd]; [| done].
      generalize (Order.side (deref (heap b4) passive)).
      intros s4. split; by destruct s4.
Qed.
End IcebergTail.

Lemma iceberg_refill_at_tail_witness :
  (let b := mm_iceberg_filled in
   let level := PriceLevel.mk [3%nat] [2%nat] in
   let b' := OrderBook.retire_front SELL 100 level 3 b in
   OMap.find 100 (OrderBook.opposite SELL b) = Some level
   /\ PriceLevel.front level = Some 3%nat
   /\ Order.type (deref (OrderBook.heap b) 3) = ICEBERG
   /\ 0 < Order.remaining (deref (OrderBook.heap b) 3)
   /\ Order.display (deref (OrderBook.heap b') 3) = 10
   /\ Order.remaining (deref (OrderBook.heap b') 3) = 80
   /\ (exists level',
         OMap.find 100 (OrderBook.opposite SELL b') = Some level'
         /\ queue level' = [3%nat; 2%nat])
   /\ OrderBook.orders_ b' = OrderBook.orders_ b)
  /\ (let b := fok_sell_staged.2 in
      let level := PriceLevel.mk [] [3%nat; 2%nat] in
      let b' := (OrderBook.commit_one 1 3 10 b).2 in
      sorted_by (OrderBook.own_before BUY) (OrderBook.own BUY b)
      /\ OMap.find 100 (OrderBook.own BUY b) = Some level
      /\ Order.type (deref (OrderBook.heap b) 3) = ICEBERG
      /\ Order.display (deref (OrderBook.heap b) 3) = 10
      /\ Order.display (deref (OrderBook.heap b') 3) = 10
      /\ Order.remaining (deref (OrderBook.heap b') 3) = 80
      /\ (exists level',
            OMap.find 100 (OrderBook.own BUY b') = Some level'
            /\ queue level' = [2%nat; 3%nat])
      /\ OrderBook.orders_ b' = OrderBook.orders_ b).
Proof.
  split.
  - cbn zeta.
    assert (H1 : OMap.find 100 (OrderBook.opposite SELL mm_iceberg_filled)
                 = Some (PriceLevel.mk [3%nat] [2%nat])) by reflexivity.
    assert (H2 : PriceLevel.front (PriceLevel.mk [3%nat] [2%nat])
                 = Some 3%nat) by reflexivity.
    assert (H3 : Order.type (deref (OrderBook.heap mm_iceberg_filled) 3)
                 = ICEBERG) by reflexivity.
    assert (H4 : 0 < Order.remaining
                       (deref (OrderBook.heap mm_iceberg_filled) 3))
      by reflexivity.
    pose proof (proj1 (@iceberg_refill_at_tail exact_env) SELL 100
                  (PriceLevel.mk [3%nat] [2%nat]) 3%nat mm_iceberg_filled)
      as Hblock.
    cbn zeta in Hblock.
    destruct (Hblock H1 H2 H3) as [Hrefill _].
    destruct (Hrefill H4) as (Ho & (level' & Hfind & Hq) & Hidx & _).
    assert (H5 : Order.is_market_maker
                   (deref (OrderBook.heap mm_iceberg_filled) 3) = true)
      by reflexivity.
    rewrite H5 in Hq. destruct Hq as (_ & _ & Hq).
    split; [exact H1 |]. split; [exact H2 |]. split; [exact H3 |].
    split; [exact H4 |].
    split; [rewrite Ho; reflexivity |].
    split; [rewrite Ho; reflexivity |].
    split; [| exact Hidx].
    exists level'. split; [exact Hfind | exact Hq].
  - cbn zeta.
    assert (H0 : (3 <> 1)%nat) by discriminate.
    assert (H1 : sorted_by (OrderBook.own_before BUY)
                   (OrderBook.own BUY fok_sell_staged.2))
      by (repeat constructor).
    assert (H2 : OMap.find 100 (OrderBook.own BUY fok_sell_staged.2)
                 = Some (PriceLevel.mk [] [3%nat; 2%nat])) by reflexivity.
    assert (H3 : Order.type (deref (OrderBook.heap fok_sell_staged.2) 3)
                 = ICEBERG) by reflexivity.
    assert (H4 : Order.display (deref (OrderBook.heap fok_sell_staged.2) 3)
                 = 10) by reflexivity.
    pose proof (proj2 (@iceberg_refill_at_tail exact_env) 1%nat 3%nat 10
                  (PriceLevel.mk [] [3%nat; 2%nat]) fok_sell_staged.2)
      as Hround.
    cbn zeta in Hround.
    destruct (Hround H0 H1 H2 H3 H4) as [Hrefill _].
    destruct (Hrefill ltac:(reflexivity))
      as (Ho & (level' & Hfind & Hq) & Hidx & _).
    assert (H5 : Order.is_market_maker
                   (deref (OrderBook.heap fok_sell_staged.2) 3) = false)
      by reflexivity.
    rewrite H5 in Hq. destruct Hq as (_ & _ & Hq).
    split; [exact H1 |]. split; [exact H2 |]. split; [exact H3 |].
    split; [exact H4 |].
    split; [rewrite Ho; reflexivity |].
    split; [rewrite Ho; reflexivity |].
    split; [| exact Hidx].
    exists level'. split; [exact Hfind | exact Hq].
Defined.

(** C6, as stated, fails for an iceberg that carries the flag
    [is_market_maker]: on [mm_iceberg_resting] a sell of 10 fills what the
    iceberg shows; the refilled slice goes to the end of [mm_orders], which
    the level serves first, and is the front of the level again, ahead of
    order 2, which was at the level all the time.  The next sell of 10
    trades with the iceberg again. *)
Lemma mm_iceberg_stays_ahead :
  OrderBook.bids_ mm_iceberg_resting
  = [(100, PriceLevel.mk [3%nat] [2%nat])]
  /\ Order.id (deref (OrderBook.heap mm_iceberg_resting) 2) = 2
  /\ match OrderBook.add_order 100 3 SELL 100 10 10 0 IOC 3 0 0 false
             mm_iceberg_resting with
     | Some (b1, trades1) =>
         map Trade.buy_id trades1 = [1]
         /\ OrderBook.bids_ b1 = [(100, PriceLevel.mk [3%nat] [2%nat])]
         /\ PriceLevel.front (PriceLevel.mk [3%nat] [2%nat]) = Some 3%nat
         /\ Order.display (deref (OrderBook.heap b1) 3) = 10
         /\ Order.remaining (deref (OrderBook.heap b1) 3) = 80
         /\ match OrderBook.add_order 100 4 SELL 100 10 10 0 IOC 3 0 0 false
                  b1 with
            | Some (b2, trades2) => map Trade.buy_id trades2 = [1]
            | None => False
            end
     | None => False
     end.
Proof. by vm_compute. Qed.

(** ** A passive of the incoming owner in the fill-or-kill path *)

Section FokFrame.
Import OrderBook.
Context `{Env}.

Lemma id_alter (h : list Order.t) (p q : nat) (f : Order.t -> Order.t) :
  (forall o, Order.id (f o) = Order.id o) ->
  Order.id (deref (alter f p h) q) = Order.id (deref h q).
Proof.
  intros Hf. destruct (decide (p = q)) as [-> | Hne];
    [| by rewrite deref_alter_ne].
  unfold deref. rewrite list_lookup_alter_eq. destruct (h !! q); cbn; auto.
Qed.

(** One round of the commit writes to the slots of the incoming order and of
    its candidate, releases no other slot and erases no other id. *)
Lemma commit_one_frame (order passive : nat) (qty : Z) (b : t) :
  let b' := (commit_one order passive qty b).2 in
  (forall q, q <> order -> q <> passive ->
             deref (heap b') q = deref (heap b) q)
  /\ (forall q, In q (ObjectPool.available_ (order_pool_ b')) ->
                q = passive \/ In q (ObjectPool.available_ (order_pool_ b)))
  /\ (forall id, id <> Order.id (deref (heap b) passive) ->
                 orders_ b' !! id = orders_ b !! id).
Proof.
  cbn zeta. unfold commit_one.
  destruct (execute_trade_frame order passive qty b)
    as (Hh1 & Hp1 & Ho1 & _ & _).
  destruct (execute_trade order passive qty b) as [trade b1].
  cbn [snd] in Hh1, Hp1, Ho1. cbn zeta.
  set (dd := fun o1 => Order.set_display (sub64 (Order.display o1) qty) o1).
  set (dr := fun o1 =>
               Order.set_remaining (sub64 (Order.remaining o1) qty) o1).
  set (b2 := write order dr (write order dd
               (write passive dr (write passive dd b1)))).
  assert (Hh2 : forall q, q <> order -> q <> passive ->
                          deref (heap b2) q = deref (heap b) q).
  { intros q Hqo Hqp. unfold b2. rewrite !heap_write, Hh1.
    by rewrite !deref_alter_ne. }
  assert (Hid2 : Order.id (deref (heap b2) passive)
                 = Order.id (deref (heap b) passive)).
  { unfold b2. rewrite !heap_write, Hh1. by rewrite !id_alter. }
  assert (Hav2 : ObjectPool.available_ (order_pool_ b2)
                 = ObjectPool.available_ (order_pool_ b))
    by (by rewrite <- Hp1).
  assert (Hor2 : orders_ b2 = orders_ b) by (by rewrite <- Ho1).
  destruct (Order.display (deref (heap b2) passive) =? 0); cbn [snd].
  2: { split; [exact Hh2 |]. split; [rewrite Hav2; auto |].
       intros id _. by rewrite Hor2. }
  set (ps := Order.side (deref (heap b2) passive)).
  set (pp := Order.price (deref (heap b2) passive)).
  set (book1 := OMap.index (own_before ps) pp PriceLevel.ctor (own ps b2)).
  set (level := default PriceLevel.ctor (OMap.find pp book1)).
  assert (Hfill : forall q, q <> passive ->
            deref (handle_iceberg_refill (heap b2) passive
                     (PriceLevel.erase passive level)).1.2 q
            = deref (heap b2) q).
  { intros q Hq. unfold handle_iceberg_refill.
    destruct (_ && _); cbn [fst snd]; [| done].
    by rewrite !deref_alter_ne. }
  assert (Hfid : Order.id (deref (handle_iceberg_refill (heap b2) passive
                                    (PriceLevel.erase passive level)).1.2
                                 passive)
                 = Order.id (deref (heap b2) passive)).
  { unfold handle_iceberg_refill.
    destruct (_ && _); cbn [fst snd]; [| done]. by rewrite !id_alter. }
  destruct (handle_iceberg_refill (heap b2) passive
              (PriceLevel.erase passive level)) as [[refilled h1] level1].
  cbn [fst snd] in Hfill, Hfid.
  set (b3 := set_own ps (OMap.update pp level1 book1) (set_heap h1 b2)).
  assert (Hh3 : heap b3 = h1)
    by (unfold b3; by rewrite heap_set_own, heap_set_heap).
  assert (Hav3 : ObjectPool.available_ (order_pool_ b3)
                 = ObjectPool.available_ (order_pool_ b))
    by (rewrite <- Hav2; unfold b3; by destruct ps).
  assert (Hor3 : orders_ b3 = orders_ b)
    by (rewrite <- Hor2; unfold b3; by destruct ps).
  set (b4 := if refilled then b3 else release passive _).
  assert (H4 : (forall q, q <> order -> q <> passive ->
                          deref (heap b4) q = deref (heap b) q)
               /\ (forall q, In q (ObjectPool.available_ (order_pool_ b4)) ->
                     q = passive
                     \/ In q (ObjectPool.available_ (order_pool_ b)))
               /\ (forall id, id <> Order.id (deref (heap b) passive) ->
                              orders_ b4 !! id = orders_ b !! id)).
  { unfold b4. destruct refilled.
    - split; [intros q Hqo Hqp; by rewrite Hh3, Hfill, Hh2 |].
      split; [rewrite Hav3; auto |]. intros id _. by rewrite Hor3.
    - split; [| split].
      + intros q Hqo Hqp.
        match goal with
        | |- deref (heap (release passive ?b5)) q = _ =>
            destruct (heap_release passive b5) as [-> | ->]
        end; rewrite ?deref_alter_ne by done;
          by rewrite heap_set_orders, Hh3, Hfill, Hh2.
      + intros q. unfold release, ObjectPool.release.
        cbn [order_pool_ set_pool set_orders].
        destruct (bool_decide _); cbn [ObjectPool.available_]; rewrite ?Hav3.
        * intros [<- | Hq]; auto.
        * auto.
      + intros id Hid.
        assert (Hor5 : forall b5, orders_ (release passive b5) = orders_ b5)
          by done.
        rewrite Hor5. cbn [orders_ set_orders].
        rewrite Hh3, Hfid, Hid2, Hor3. by rewrite lookup_delete_ne. }
  destruct H4 as (Hq4 & Hav4 & Hor4).
  destruct (PriceLevel.empty level1); cbn [snd]; [| done].
  generalize (Order.side (deref (heap b4) passive)).
  generalize (Order.price (deref (heap b4) passive)). intros k4 s4.
  split; [intros q Hqo Hqp; rewrite heap_set_own; by apply Hq4 |].
  split; [| intros id Hid; rewrite <- (Hor4 id Hid); by destruct s4].
  intros q Hq. apply Hav4. by destruct s4.
Qed.

Lemma commit_frame (order : nat) (candidates : list (nat * Z)) :
  forall (b : t) (trades : list Trade.t),
    let b' := (commit order candidates b trades).1 in
    (forall q, q <> order -> ~ In q (map fst candidates) ->
               deref (heap b') q = deref (heap b) q)
    /\ (forall q, In q (ObjectPool.available_ (order_pool_ b')) ->
                  In q (map fst candidates)
                  \/ In q (ObjectPool.available_ (order_pool_ b)))
    /\ (NoDup (map fst candidates) -> ~ In order (map fst candidates) ->
        forall id,
          (forall c, In c (map fst candidates) ->
                     Order.id (deref (heap b) c) <> id) ->
          orders_ b' !! id = orders_ b !! id).
Proof.
  induction candidates as [| [passive qty] rest IH]; intros b trades;
    cbn zeta; cbn [commit].
  - split; [done |]. split; [auto | done].
  - destruct (commit_one_frame order passive qty b) as (Hq1 & Hav1 & Hor1).
    destruct (commit_one order passive qty b) as [trade b1].
    cbn [snd] in Hq1, Hav1, Hor1.
    destruct (IH b1 (trades ++ [trade])) as (Hq2 & Hav2 & Hor2).
    cbn zeta in Hq2, Hav2, Hor2. cbn [map fst].
    split; [| split].
    + intros q Hqo Hnin. rewrite Hq2; [| done | intros Hin; apply Hnin; by right].
      apply Hq1; [done |]. intros ->. apply Hnin. by left.
    + intros q Hq. destruct (Hav2 q Hq) as [Hin | Hin]; [left; by right |].
      destruct (Hav1 q Hin) as [-> | Hin']; [left; by left | by right].
    + intros Hnd Hno id Hids. apply NoDup_cons in Hnd as [Hnin Hnd].
      rewrite Hor2; [| done | intros Hin; apply Hno; by right |].
      * apply Hor1. intros Heq. by apply (Hids passive); [left |].
      * intros c Hc. rewrite Hq1.
        -- apply Hids. by right.
        -- intros ->. apply Hno. by right.
        -- intros ->. apply Hnin. by apply list_elem_of_In.
Qed.
End FokFrame.

Section SelfTradeClaim.
Import OrderBook.
Context `{Env}.

End SelfTradeClaim.

